(** * Ledger hardware-wallet orchestration (src/util/ledger/index.ts)

    A shallow embedding of the device-session and signing code of
    [src/util/ledger/index.ts]: [connectLedger], [connectHID], [connectUSB],
    [submitLedgerTransfer], [buildLedgerTokenTransfer],
    [signLedgerTransactions], [getNextLedgerWallets] and the helpers they
    call.

    The TypeScript is asynchronous but strictly sequential (every call is
    awaited), so it is written here in a state-and-exception monad.  The
    state holds the two module-level variables [transport] and
    [tonTransport] and the history of every interaction with the outside
    world (device transports, the TON application on the device, the
    backend reached through [callApi], the clock, the debug log).  The
    outside world is an [Env]: each collaborator answers as a function of
    the whole history so far, so a device may fail on one attempt and
    succeed on the next. *)

From Stdlib Require Import ZArith List String Bool Arith Lia.
Import ListNotations.

Local Open Scope string_scope.
Local Open Scope list_scope.

(** ** JavaScript values that cross function boundaries *)

(** What a [throw] carries.  [statusCode] is the only property of a thrown
    value the file ever inspects ([err?.statusCode]). *)
Inductive Thrown : Type :=
| JsError (message : string)                 (* Error('...'), new Error('...') *)
| TypeError (what : string)                  (* member access on undefined *)
| ApiUserRejectsError                        (* new ApiUserRejectsError() *)
| Foreign (statusCode : option Z) (message : string). (* thrown by a collaborator *)

Definition statusCodeOf (err : Thrown) : option Z :=
  match err with
  | Foreign sc _ => sc
  | _ => None
  end.

(** [StatusCodes.CONDITIONS_OF_USE_NOT_SATISFIED] of @ledgerhq/errors. *)
Definition CONDITIONS_OF_USE_NOT_SATISFIED : Z := 0x6985.

(** [SendMode] of @ton/core. *)
Module SendMode.
Definition CARRY_ALL_REMAINING_BALANCE : Z := 128.
Definition PAY_GAS_SEPARATELY : Z := 1.
Definition IGNORE_ERRORS : Z := 2.
End SendMode.

Definition CHAIN : Z := 0.
Definition VERSION : string := "v4R2".
Definition ATTEMPTS : nat := 10.
Definition PAUSE : Z := 125.
Definition IS_BOUNCEABLE : bool := false.

(** A string used as a condition: [undefined] and [''] are falsy. *)
Definition truthy (s : option string) : bool :=
  match s with
  | Some EmptyString => false
  | Some _ => true
  | None => false
  end.

(** The string a truthy [s] holds: [if (s) { ... s ... }]. *)
Definition whenTruthy (s : option string) : option string :=
  if truthy s then s else None.

(** [!seqno] for [seqno?: number]: [undefined] and [0] are falsy. *)
Definition falsyNumber (n : option Z) : bool :=
  match n with
  | Some z => Z.eqb z 0
  | None => true
  end.

(** A JavaScript [number] is an IEEE 754 double.  [toDouble z] is the
    double nearest to the integer [z], ties to the even significand: up to
    2^53 in magnitude it is [z] itself, from there on the doubles are
    2^e apart, [e = log2 |z| - 52], and [z] is rounded to a multiple of
    2^e. *)
Definition toDouble (z : Z) : Z :=
  let a := Z.abs z in
  let e := (Z.log2 a - 52)%Z in
  if (e <=? 0)%Z then z
  else
    let q := Z.shiftr a e in
    let r := Z.land a (Z.ones e) in
    let half := Z.shiftl 1 (e - 1) in
    let up := (half <? r)%Z || ((half =? r)%Z && Z.odd q) in
    (Z.sgn z * Z.shiftl (if up then q + 1 else q) e)%Z.

(** [a + i] for [a: number | undefined] and an array index [i]: the sum
    as a double.  [Some z] is a number whose value is the integer [z];
    [None] stands for [undefined] and for the [NaN] that [undefined + i]
    gives.  An index is below 2^32, so the sum of a double and an index
    never reaches the range where a double overflows. *)
Definition jsAdd (a : option Z) (i : Z) : option Z :=
  match a with
  | Some z => Some (toDouble (z + i))
  | None => None
  end.

(** [Number.MAX_SAFE_INTEGER + 1]: up to here every integer is a double. *)
Definition TWO_53 : Z := 9007199254740992.

(** ** The libraries the file calls into

    @ton/core is outside the repository; its operations are an interface.
    A function that can throw returns [Thrown + A]. *)

Record Friendly (A : Type) : Type := mkFriendly {
  isBounceable : bool;
  isTestOnly : bool;
  address : A
}.
Arguments mkFriendly {A}.
Arguments isBounceable {A}.
Arguments isTestOnly {A}.
Arguments address {A}.

Class TonCore : Type := {
  Address : Type;
  Cell : Type;
  Builder : Type;
  StateInit : Type;
  Address_isFriendly : string -> bool;
  Address_parseFriendly : string -> Thrown + Friendly Address;
  Address_parse : string -> Thrown + Address;
  (* address.toString({ urlSafe, bounceable, testOnly }) *)
  Address_toString : Address -> bool -> bool -> bool -> string;
  Cell_fromBase64 : string -> Thrown + Cell;
  (* cell.toBoc().toString('base64') *)
  Cell_toBase64 : Cell -> string;
  (* loadStateInit(cell.asSlice()) *)
  loadStateInit : Cell -> Thrown + StateInit;
  newBuilder : Builder;
  storeUint : Z -> Z -> Builder -> Builder;
  storeStringTail : string -> Builder -> Builder;
  endCell : Builder -> Cell
}.

(** Constants and helpers the file imports from the rest of the
    repository ([config], [api/blockchains/ton/constants], [./utils],
    [../account], [api/errors]); they are not part of this file, so the
    development is parametric in them. *)
Class Repo : Type := {
  DEFAULT_IS_BOUNCEABLE : bool;
  WALLET_IS_BOUNCEABLE : bool;
  WORKCHAIN : Z;
  TRANSFER_TIMEOUT_SEC : Z;
  TOKEN_TRANSFER_TONCOIN_AMOUNT : Z;
  TOKEN_TRANSFER_TONCOIN_FORWARD_AMOUNT : Z;
  TONCOIN_SLUG : string;
  isValidLedgerComment : string -> bool;
  (* parseAccountId(accountId).network *)
  parseAccountId : string -> Thrown + string;
  (* what getNextLedgerWallets returns from its catch block *)
  ServerErrorResult : Type;
  handleServerError : Thrown -> Thrown + ServerErrorResult
}.

(** ** The monad: state and exceptions

    A computation takes the state and gives an outcome and the new state.
    The state survives a [throw], as the effects of a JavaScript function
    survive the exception it raises. *)

Inductive Outcome (A : Type) : Type :=
| Ret (a : A)          (* the function returns [a] *)
| Throw (e : Thrown)   (* an exception propagates *)
| Diverge.             (* a loop was cut off: the fuel ran out *)
Arguments Ret {A}.
Arguments Throw {A}.
Arguments Diverge {A}.

Definition M (S A : Type) : Type := S -> Outcome A * S.

Definition ret {S A} (a : A) : M S A := fun st => (Ret a, st).

Definition throw {S A} (e : Thrown) : M S A := fun st => (Throw e, st).

Definition diverge {S A} : M S A := fun st => (Diverge, st).

Definition bind {S A B} (c : M S A) (k : A -> M S B) : M S B :=
  fun st =>
    match c st with
    | (Ret a, st') => k a st'
    | (Throw e, st') => (Throw e, st')
    | (Diverge, st') => (Diverge, st')
    end.

(** [try { c } catch (err) { handler err }] *)
Definition tryCatch {S A} (c : M S A) (handler : Thrown -> M S A) : M S A :=
  fun st =>
    match c st with
    | (Throw e, st') => handler e st'
    | r => r
    end.

(** A library function that may throw. *)
Definition lift {S A} (r : Thrown + A) : M S A :=
  match r with
  | inl e => throw e
  | inr a => ret a
  end.

(** [await Promise.all([a, b])]: both are started, in this order, before
    either is awaited, so the calls of [b] are made even when [a] fails;
    the result is the pair, or the exception of the one that failed.
    When both fail, [Promise.all] rejects with the failure that comes
    first in time, which the code does not decide: [secondFirst] says, of
    the state both have left, whether [b] failed before [a]. *)
Definition promiseAll2 {S A B} (secondFirst : S -> bool) (a : M S A) (b : M S B)
  : M S (A * B) :=
  fun st =>
    let '(ra, st1) := a st in
    let '(rb, st2) := b st1 in
    match ra, rb with
    | Diverge, _ => (Diverge, st2)
    | _, Diverge => (Diverge, st2)
    | Throw ea, Throw eb => (Throw (if secondFirst st2 then eb else ea), st2)
    | Throw e, _ => (Throw e, st2)
    | _, Throw e => (Throw e, st2)
    | Ret x, Ret y => (Ret (x, y), st2)
    end.

Declare Scope js_scope.
Delimit Scope js_scope with js.
Notation "x <- c1 ;; c2" := (bind c1 (fun x => c2))
  (at level 61, c1 at next level, right associativity) : js_scope.
Notation "' pat <- c1 ;; c2" := (bind c1 (fun x => match x with pat => c2 end))
  (at level 61, pat pattern, c1 at next level, right associativity) : js_scope.
Notation "c1 ;; c2" := (bind c1 (fun _ => c2))
  (at level 61, right associativity) : js_scope.
Local Open Scope js_scope.

(** What one turn of a loop body decides: go round again with the loop
    variables [l], or leave the function with [r] ([return r]). *)
Inductive LoopStep (L R : Type) : Type :=
| Continue (l : L)
| Break (r : R).
Arguments Continue {L R}.
Arguments Break {L R}.

(** [while (true) { body }] with a bound on the number of turns; a loop
    that is still running when the fuel is gone gives [Diverge]. *)
Fixpoint loop {S L R} (fuel : nat) (body : L -> M S (LoopStep L R)) (l : L) : M S R :=
  match fuel with
  | O => diverge
  | Datatypes.S fuel' =>
      step <- body l ;;
      match step with
      | Continue l' => loop fuel' body l'
      | Break r => ret r
      end
  end.

(** ** Data model *)

Definition Path : Type := list Z.

Record DeviceModel : Type := mkDeviceModel {
  model_id : string;
  productName : string
}.

(** An entry of [TransportWebHID.list()] / [TransportWebUSB.list()]. *)
Record Device : Type := mkDevice {
  device_name : string;
  opened : bool
}.

Inductive TransportKind : Type := HID | USB.

Record Transport : Type := mkTransport {
  kind : TransportKind;
  device : Device;
  deviceModel : option DeviceModel
}.

Section Model.

Context {ton : TonCore} {repo : Repo}.

(** [TonPayloadFormat] of @ton-community/ton-ledger, the variants built here. *)
Inductive TonPayloadFormat : Type :=
| LedgerComment (text : string)
| LedgerNftTransfer (queryId : Z) (newOwner responseDestination : Address)
    (customPayload : option Cell) (forwardAmount : Z) (forwardPayload : option Cell)
| LedgerJettonTransfer (queryId amount : Z) (destination responseDestination : Address)
    (customPayload : option Cell) (forwardAmount : Z) (forwardPayload : option Cell).

(** The second argument of [tonTransport.signTransaction]. *)
Record SigningRequest : Type := mkSigningRequest {
  to : Address;
  sendMode : Z;
  seqno : option Z;
  timeout : Z;
  bounce : bool;
  amount : Z;
  payload : option TonPayloadFormat;
  stateInit : option StateInit
}.

(** [ApiParsedPayload], by its [type] tag. *)
Inductive ApiParsedPayload : Type :=
| PayloadComment (comment : string)
| PayloadNftTransfer (queryId : Z) (newOwner responseDestination : string)
    (customPayload : option string) (forwardAmount : Z) (forwardPayload : option string)
| PayloadTokensTransfer (queryId amount : Z) (destination responseDestination : string)
    (customPayload : option string) (forwardAmount : Z) (forwardPayload : option string)
| PayloadUnknown (base64 : string)
| PayloadOther (type : string).

Record ApiDappTransfer : Type := mkApiDappTransfer {
  dapp_toAddress : string;
  dapp_amount : Z;
  dapp_payload : option ApiParsedPayload;
  dapp_stateInit : option string
}.

Record ApiLocalTransactionParams : Type := mkParams {
  p_amount : Z;
  p_fromAddress : option string;
  p_toAddress : string;
  p_comment : option string;
  p_fee : option Z;
  p_slug : string;
  p_type : option string
}.

(** [Partial<ApiLocalTransactionParams>]: every field may be missing. *)
Record PartialParams : Type := mkPartialParams {
  pp_amount : option Z;
  pp_fromAddress : option string;
  pp_toAddress : option string;
  pp_comment : option string;
  pp_fee : option Z;
  pp_slug : option string;
  pp_type : option string
}.

Definition orElse {A} (o : option A) (d : A) : A :=
  match o with Some a => a | None => d end.

Definition orElseOpt {A} (o d : option A) : option A :=
  match o with Some a => Some a | None => d end.

(** [{ ...base, ...localTransactionParams }] *)
Definition spreadParams (base : ApiLocalTransactionParams) (extra : option PartialParams)
  : ApiLocalTransactionParams :=
  match extra with
  | None => base
  | Some e =>
      mkParams (orElse (pp_amount e) (p_amount base))
               (orElseOpt (pp_fromAddress e) (p_fromAddress base))
               (orElse (pp_toAddress e) (p_toAddress base))
               (orElseOpt (pp_comment e) (p_comment base))
               (orElseOpt (pp_fee e) (p_fee base))
               (orElse (pp_slug e) (p_slug base))
               (orElseOpt (pp_type e) (p_type base))
  end.

Record ApiSignedTransfer : Type := mkApiSignedTransfer {
  signed_base64 : string;
  signed_seqno : option Z;
  signed_params : ApiLocalTransactionParams
}.

Record ApiSubmitTransferOptions : Type := mkSubmitOptions {
  opt_accountId : string;
  opt_toAddress : string;
  opt_amount : Z;
  opt_tokenAddress : option string;
  opt_comment : option string;
  opt_fee : option Z
}.

Record LedgerInfo : Type := mkLedgerInfo { ledger_index : Z }.
Record AccountInfo : Type := mkAccountInfo { ledger : option LedgerInfo }.
Record WalletInfo : Type := mkWalletInfo { wallet_seqno : option Z; wallet_balance : Z }.

Record LedgerWalletInfo : Type := mkLedgerWalletInfo {
  lw_index : Z;
  lw_address : string;
  lw_publicKey : string;
  lw_balance : option Z;
  lw_version : string;
  lw_driver : string;
  lw_deviceId : option string;
  lw_deviceName : option string
}.

(** ** The outside world *)

(** The backend methods reached through [callApi], with their arguments. *)
Inductive ApiCall : Type :=
| WaitLastTransfer (accountId : string)
| FetchAddress (accountId : string)
| FetchAccount (accountId : string)
| GetWalletSeqno (accountId : string)
| GetWalletInfo (network : string) (address : option string)
| GetWalletBalance (network : string) (address : string)
| ResolveTokenWalletAddress (network : string) (fromAddress : option string) (tokenAddress : string)
| ResolveTokenMinterAddress (network : string) (tokenWalletAddress : option string)
| SendSignedTransferMessage (accountId : string) (message : ApiSignedTransfer).

(** One interaction with the outside world.  A call that can fail records
    what it threw. *)
Inductive Event : Type :=
| EvIsSupported (k : TransportKind) (threw : option Thrown)
| EvList (k : TransportKind) (threw : option Thrown)
| EvCreate (k : TransportKind) (threw : option Thrown)
| EvOpen (k : TransportKind) (d : Device) (threw : option Thrown)
| EvOpenConnected (threw : option Thrown)
| EvRequest (threw : option Thrown)
| EvGetAddress (t : option Transport) (path : Path) (threw : option Thrown)
| EvSign (t : option Transport) (path : Path) (request : SigningRequest)
    (outcome : Thrown + Cell)
| EvApi (call : ApiCall) (threw : option Thrown)
| EvNow
| EvPause (ms : Z)
| EvLog (tag : string) (err : option Thrown).

Definition History : Type := list Event.

Definition threwOf {A} (r : Thrown + A) : option Thrown :=
  match r with inl e => Some e | inr _ => None end.

(** Every collaborator answers from the history of what happened so far. *)
Record Env : Type := mkEnv {
  transport_isSupported : History -> TransportKind -> Thrown + bool;
  transport_list : History -> TransportKind -> Thrown + list Device;
  transport_create : History -> TransportKind -> Thrown + unit;
  transport_open : History -> TransportKind -> Device -> Thrown + Transport;
  (* new TransportWebHID(device) *)
  transport_new : Device -> Transport;
  usb_openConnected : History -> Thrown + option Transport;
  usb_request : History -> Thrown + Transport;
  (* tonTransport.getAddress(path, { chain, bounceable }): address, publicKey as hex *)
  ton_getAddress : History -> Transport -> Path -> Z -> bool -> Thrown + (string * string);
  ton_signTransaction : History -> Transport -> Path -> SigningRequest -> Thrown + Cell;
  api_waitLastTransfer : History -> string -> Thrown + unit;
  api_fetchAddress : History -> string -> Thrown + option string;
  api_fetchAccount : History -> string -> Thrown + option AccountInfo;
  api_getWalletSeqno : History -> string -> Thrown + option Z;
  api_getWalletInfo : History -> string -> option string -> Thrown + option WalletInfo;
  api_getWalletBalance : History -> string -> string -> Thrown + option Z;
  api_resolveTokenWalletAddress :
    History -> string -> option string -> string -> Thrown + option string;
  api_resolveTokenMinterAddress : History -> string -> option string -> Thrown + option string;
  api_sendSignedTransferMessage :
    History -> string -> ApiSignedTransfer -> Thrown + option string;
  (* Date.now(), in milliseconds *)
  date_now : History -> Z;
  (* of two promises awaited together that both reject: the second rejects first *)
  promise_secondRejectsFirst : History -> bool
}.

Variable env : Env.

(** The module-level variables of the file, and the history. *)
Record State : Type := mkState {
  history : History;
  transport : option Transport;
  tonTransport : option Transport
}.

Definition record (ev : Event) : M State unit :=
  fun st => (Ret tt, mkState (history st ++ [ev]) (transport st) (tonTransport st)).

(** A call to a collaborator: it answers from the history, and the call
    is recorded. *)
Definition external {A} (oracle : History -> Thrown + A) (ev : (Thrown + A) -> Event)
  : M State A :=
  fun st =>
    let r := oracle (history st) in
    (record (ev r) ;; lift r) st.

(** [await Promise.all([a, b])] in this file's state. *)
Definition promiseAll {A B} (a : M State A) (b : M State B) : M State (A * B) :=
  promiseAll2 (fun st => promise_secondRejectsFirst env (history st)) a b.

(** ** Helpers imported from the repository, as effects *)

(** [logDebugError(tag, err)] of [../logs]: writes to the debug log. *)
Definition logDebugError (tag : string) (err : option Thrown) : M State unit :=
  record (EvLog tag err).

(** [pause(ms)] of [../schedulers]: lets [ms] milliseconds pass. *)
Definition pause (ms : Z) : M State unit :=
  record (EvPause ms).

(** [callApi(method, ...args)], one definition per method the file uses. *)
Definition callApi_waitLastTransfer (accountId : string) : M State unit :=
  external (fun h => api_waitLastTransfer env h accountId)
           (fun r => EvApi (WaitLastTransfer accountId) (threwOf r)).

Definition callApi_fetchAddress (accountId : string) : M State (option string) :=
  external (fun h => api_fetchAddress env h accountId)
           (fun r => EvApi (FetchAddress accountId) (threwOf r)).

Definition callApi_fetchAccount (accountId : string) : M State (option AccountInfo) :=
  external (fun h => api_fetchAccount env h accountId)
           (fun r => EvApi (FetchAccount accountId) (threwOf r)).

Definition callApi_getWalletSeqno (accountId : string) : M State (option Z) :=
  external (fun h => api_getWalletSeqno env h accountId)
           (fun r => EvApi (GetWalletSeqno accountId) (threwOf r)).

Definition callApi_getWalletInfo (network : string) (address : option string)
  : M State (option WalletInfo) :=
  external (fun h => api_getWalletInfo env h network address)
           (fun r => EvApi (GetWalletInfo network address) (threwOf r)).

Definition callApi_getWalletBalance (network address : string) : M State (option Z) :=
  external (fun h => api_getWalletBalance env h network address)
           (fun r => EvApi (GetWalletBalance network address) (threwOf r)).

Definition callApi_resolveTokenWalletAddress (network : string) (fromAddress : option string)
  (tokenAddress : string) : M State (option string) :=
  external (fun h => api_resolveTokenWalletAddress env h network fromAddress tokenAddress)
           (fun r => EvApi (ResolveTokenWalletAddress network fromAddress tokenAddress) (threwOf r)).

Definition callApi_resolveTokenMinterAddress (network : string)
  (tokenWalletAddress : option string) : M State (option string) :=
  external (fun h => api_resolveTokenMinterAddress env h network tokenWalletAddress)
           (fun r => EvApi (ResolveTokenMinterAddress network tokenWalletAddress) (threwOf r)).

Definition callApi_sendSignedTransferMessage (accountId : string) (message : ApiSignedTransfer)
  : M State (option string) :=
  external (fun h => api_sendSignedTransferMessage env h accountId message)
           (fun r => EvApi (SendSignedTransferMessage accountId message) (threwOf r)).

(** ** Small functions of the file *)

(** [getLedgerAccountPathByIndex(index, isTestnet?, workchain = WORKCHAIN)] *)
Definition getLedgerAccountPathByIndex (index : Z) (isTestnet : bool) (workchain : Z) : Path :=
  let network := if isTestnet then 1%Z else 0%Z in
  let chain := if Z.eqb workchain (-1) then 255%Z else 0%Z in
  [44%Z; 607%Z; network; chain; index; 0%Z].

(** [getLedgerAccountPath(accountId)]; [accountInfo!.ledger!.index] throws a
    TypeError when either is undefined. *)
Definition getLedgerAccountPath (accountId : string) : M State Path :=
  accountInfo <- callApi_fetchAccount accountId ;;
  match accountInfo with
  | Some info =>
      match ledger info with
      | Some l => ret (getLedgerAccountPathByIndex (ledger_index l) false WORKCHAIN)
      | None => throw (TypeError "ledger")
      end
  | None => throw (TypeError "accountInfo")
  end.

(** [getTransferExpirationTime()]: [Math.floor(Date.now() / 1000 + TRANSFER_TIMEOUT_SEC)] *)
Definition getTransferExpirationTime : M State Z :=
  fun st =>
    let now := date_now env (history st) in
    (record EvNow ;; ret (now / 1000 + TRANSFER_TIMEOUT_SEC)%Z) st.

(** [buildCommentPayload(comment)] *)
Definition buildCommentPayload (comment : string) : Cell :=
  endCell (storeStringTail comment (storeUint 0 32 newBuilder)).

(** [tonTransport!.signTransaction(path, options)].  Without a live
    [tonTransport] the member access throws a TypeError; the attempt is
    recorded either way. *)
Definition tonTransport_signTransaction (path : Path) (options : SigningRequest)
  : M State Cell :=
  fun st =>
    match tonTransport st with
    | Some t =>
        external (fun h => ton_signTransaction env h t path options)
                 (fun r => EvSign (Some t) path options r) st
    | None =>
        let e := TypeError "tonTransport" in
        (record (EvSign None path options (inl e)) ;; throw e) st
    end.

(** ** signLedgerTransactions *)

(** [blob ? Cell.fromBase64(blob) : null] *)
Definition cellFromOptionalBase64 (blob : option string) : M State (option Cell) :=
  match whenTruthy blob with
  | Some b => c <- lift (Cell_fromBase64 b) ;; ret (Some c)
  | None => ret None
  end.

(** The [switch (payload?.type)] of the map callback (lines 357-425):
    from the bounce flag computed so far and the parsed payload, the bounce
    flag and the payload the device gets. *)
Definition normalizePayload (isBounceable : bool) (payload : option ApiParsedPayload)
  : M State (bool * option TonPayloadFormat) :=
  match payload with
  | Some (PayloadComment comment) =>
      if isValidLedgerComment comment
      then ret (isBounceable, Some (LedgerComment comment))
      else throw (JsError "Unsupported format")
  | None => ret (isBounceable, None)
  | Some (PayloadNftTransfer queryId newOwner responseDestination customPayload
            forwardAmount forwardPayload) =>
      newOwner' <- lift (Address_parse newOwner) ;;
      responseDestination' <- lift (Address_parse responseDestination) ;;
      customPayload' <- cellFromOptionalBase64 customPayload ;;
      forwardPayload' <- cellFromOptionalBase64 forwardPayload ;;
      ret (true, Some (LedgerNftTransfer queryId newOwner' responseDestination'
                         customPayload' forwardAmount forwardPayload'))
  | Some (PayloadTokensTransfer queryId jettonAmount destination responseDestination
            customPayload forwardAmount forwardPayload) =>
      destination' <- lift (Address_parse destination) ;;
      responseDestination' <- lift (Address_parse responseDestination) ;;
      customPayload' <- cellFromOptionalBase64 customPayload ;;
      forwardPayload' <- cellFromOptionalBase64 forwardPayload ;;
      ret (true, Some (LedgerJettonTransfer queryId jettonAmount destination'
                         responseDestination' customPayload' forwardAmount forwardPayload'))
  | Some (PayloadUnknown _) => throw (JsError "Unsupported format")
  | Some (PayloadOther _) => throw (JsError "Unsupported format")
  end.

(** The callback of [messages.map((message, index) => ...)], lines 347-441. *)
Definition prepareOptions (seqno : option Z) (message : ApiDappTransfer) (index : nat)
  : M State SigningRequest :=
  let toAddress := dapp_toAddress message in
  isBounceable <-
    (if Address_isFriendly toAddress
     then (parsed <- lift (Address_parseFriendly toAddress) ;; ret (isBounceable parsed))
     else ret DEFAULT_IS_BOUNCEABLE) ;;
  '(isBounceable, ledgerPayload) <- normalizePayload isBounceable (dapp_payload message) ;;
  stateInit <-
    (match whenTruthy (dapp_stateInit message) with
     | Some stateInitBase64 =>
         c <- lift (Cell_fromBase64 stateInitBase64) ;;
         si <- lift (loadStateInit c) ;;
         ret (Some si)
     | None => ret None
     end) ;;
  to' <- lift (Address_parse toAddress) ;;
  timeout' <- getTransferExpirationTime ;;
  ret (mkSigningRequest to'
         (SendMode.PAY_GAS_SEPARATELY + SendMode.IGNORE_ERRORS)%Z
         (jsAdd seqno (Z.of_nat index))
         timeout'
         isBounceable
         (dapp_amount message)
         ledgerPayload
         stateInit).

(** [list.map((x, index) => f(x, index))] for a callback with effects: in
    order, and the first exception ends it. *)
Fixpoint mapWithIndex {A B} (f : A -> nat -> M State B) (l : list A) (index : nat)
  : M State (list B) :=
  match l with
  | [] => ret []
  | a :: l' =>
      b <- f a index ;;
      bs <- mapWithIndex f l' (S index) ;;
      ret (b :: bs)
  end.

(** What lines 336-441 leave in scope for the signing loop. *)
Record Prepared : Type := mkPrepared {
  prep_path : Path;
  prep_fromAddress : option string;
  prep_seqno : option Z;
  preparedOptions : list SigningRequest
}.

(** Lines 336-441: the backend calls, the sequence number, the requests. *)
Definition prepareLedgerTransactions (accountId : string) (messages : list ApiDappTransfer)
  (seqno : option Z) : M State Prepared :=
  callApi_waitLastTransfer accountId ;;
  '(path, fromAddress) <-
    promiseAll (getLedgerAccountPath accountId) (callApi_fetchAddress accountId) ;;
  seqno <- (if falsyNumber seqno then callApi_getWalletSeqno accountId else ret seqno) ;;
  prepared <- mapWithIndex (prepareOptions seqno) messages 0 ;;
  ret (mkPrepared path fromAddress seqno prepared).

(** The variables of the signing loop. *)
Record SignLoop : Type := mkSignLoop {
  index : nat;
  attempt : nat;
  signedMessages : list ApiSignedTransfer
}.

(** The signed transfer pushed at lines 455-466. *)
Definition signedTransferOf (fromAddress : option string) (message : ApiDappTransfer)
  (options : SigningRequest) (base64 : string) : ApiSignedTransfer :=
  mkApiSignedTransfer base64 (seqno options)
    (mkParams (dapp_amount message)
              fromAddress
              (dapp_toAddress message)
              (match dapp_payload message with
               | Some (PayloadComment comment) => Some comment
               | _ => None
               end)
              (Some 0%Z)
              TONCOIN_SLUG
              None).

(** [err?.statusCode === StatusCodes.CONDITIONS_OF_USE_NOT_SATISFIED] *)
Definition isUserRejection (err : Thrown) : bool :=
  match statusCodeOf err with
  | Some code => Z.eqb code CONDITIONS_OF_USE_NOT_SATISFIED
  | None => false
  end.

(** One test of the [while] condition at line 449 and, when it holds, one
    turn of the body (lines 450-474). *)
Definition signLoopBody (messages : list ApiDappTransfer) (p : Prepared) (attempts : nat)
  (l : SignLoop) : M State (LoopStep SignLoop (list ApiSignedTransfer)) :=
  if ((index l <? List.length (preparedOptions p)) && (attempt l <? attempts))%nat then
    match nth_error (preparedOptions p) (index l) with
    | Some options =>
        l' <- tryCatch
                (cell <- tonTransport_signTransaction (prep_path p) options ;;
                 let base64 := Cell_toBase64 cell in
                 match nth_error messages (index l) with
                 | Some message =>
                     ret (mkSignLoop
                            (S (index l))
                            (attempt l)
                            (signedMessages l
                               ++ [signedTransferOf (prep_fromAddress p) message options
                                     base64]))
                 | None =>
                     (* [message.amount] on undefined; not reached when
                        [preparedOptions] is [messages.map(...)] *)
                     throw (TypeError "message")
                 end)
                (fun err =>
                   if isUserRejection err
                   then throw ApiUserRejectsError
                   else (logDebugError "signLedgerTransactions" (Some err) ;; ret l)) ;;
        ret (Continue (mkSignLoop (index l') (S (attempt l')) (signedMessages l')))
    | None =>
        (* not reached: [index] is below the length of [preparedOptions] *)
        throw (TypeError "preparedOptions[index]")
    end
  else ret (Break (signedMessages l)).

(** Lines 443-477. *)
Definition signPrepared (fuel : nat) (messages : list ApiDappTransfer) (p : Prepared)
  : M State (list ApiSignedTransfer) :=
  let attempts := ATTEMPTS + List.length (preparedOptions p) in
  loop fuel (signLoopBody messages p attempts) (mkSignLoop 0 0 []).

Definition signLedgerTransactions (fuel : nat) (accountId : string)
  (messages : list ApiDappTransfer) (seqno : option Z) : M State (list ApiSignedTransfer) :=
  p <- prepareLedgerTransactions accountId messages seqno ;;
  signPrepared fuel messages p.

(** ** submitLedgerTransfer *)

(** [Address.parse(source)] for a [source] that may be undefined. *)
Definition parseOptionalAddress (source : option string) : M State Address :=
  match source with
  | Some a => lift (Address_parse a)
  | None => throw (TypeError "Address.parse(undefined)")
  end.

(** What [buildLedgerTokenTransfer] returns. *)
Record TokenTransfer : Type := mkTokenTransfer {
  tt_amount : Z;
  tt_toAddress : option string;
  tt_payload : TonPayloadFormat
}.

Definition buildLedgerTokenTransfer (network tokenAddress : string) (fromAddress : option string)
  (toAddress : string) (amount : Z) (comment : option string) : M State TokenTransfer :=
  tokenWalletAddress <- callApi_resolveTokenWalletAddress network fromAddress tokenAddress ;;
  realTokenAddress <- callApi_resolveTokenMinterAddress network tokenWalletAddress ;;
  if match realTokenAddress with
     | Some real => String.eqb tokenAddress real
     | None => false
     end
  then
    let forwardPayload := option_map buildCommentPayload (whenTruthy comment) in
    destination <- lift (Address_parse toAddress) ;;
    responseDestination <- parseOptionalAddress fromAddress ;;
    ret (mkTokenTransfer
           TOKEN_TRANSFER_TONCOIN_AMOUNT
           tokenWalletAddress
           (LedgerJettonTransfer 0 amount destination responseDestination None
              TOKEN_TRANSFER_TONCOIN_FORWARD_AMOUNT forwardPayload))
  else throw (JsError "Invalid contract").

(** What lines 234-256 leave in scope for the [try] block. *)
Record Transfer : Type := mkTransfer {
  tr_toAddress : option string;
  tr_amount : Z;
  tr_payload : option TonPayloadFormat;
  tr_isBounceable : bool
}.

(** Lines 239-250: [if (tokenAddress) ... else if (comment) ...]. *)
Definition normalizeTransfer (network : string) (fromAddress : option string)
  (options : ApiSubmitTransferOptions) (isBounceable : bool) : M State Transfer :=
  match whenTruthy (opt_tokenAddress options) with
  | Some tokenAddress =>
      built <- buildLedgerTokenTransfer network tokenAddress fromAddress
                 (opt_toAddress options) (opt_amount options) (opt_comment options) ;;
      ret (mkTransfer (tt_toAddress built) (tt_amount built) (Some (tt_payload built)) true)
  | None =>
      match whenTruthy (opt_comment options) with
      | Some comment =>
          if isValidLedgerComment comment
          then ret (mkTransfer (Some (opt_toAddress options)) (opt_amount options)
                      (Some (LedgerComment comment)) isBounceable)
          else throw (JsError "Unsupported format")
      | None =>
          ret (mkTransfer (Some (opt_toAddress options)) (opt_amount options)
                 None isBounceable)
      end
  end.

Definition getTonTransport : M State (option Transport) :=
  fun st => (Ret (tonTransport st), st).

Definition getTransport : M State (option Transport) :=
  fun st => (Ret (transport st), st).

(** Lines 259-267, the signing call of [submitLedgerTransfer].  JavaScript
    reads [tonTransport!.signTransaction] before it evaluates the
    arguments, so a missing [tonTransport] throws before the request is
    built. *)
Definition signTransfer (path : Path) (sendMode' : Z) (seqno' : option Z) (t : Transfer)
  : M State Cell :=
  live <- getTonTransport ;;
  match live with
  | None => throw (TypeError "tonTransport")
  | Some _ =>
      to' <- parseOptionalAddress (tr_toAddress t) ;;
      timeout' <- getTransferExpirationTime ;;
      tonTransport_signTransaction path
        (mkSigningRequest to' sendMode' seqno' timeout' (tr_isBounceable t)
           (tr_amount t) (tr_payload t) None)
  end.

(** What lines 217-256 leave in scope for the [try] block. *)
Record Submission : Type := mkSubmission {
  sub_path : Path;
  sub_fromAddress : option string;
  sub_seqno : option Z;
  sub_normalizedAddress : string;
  sub_sendMode : Z;
  sub_transfer : Transfer
}.

(** Lines 217-256: everything before the [try]. *)
Definition prepareLedgerTransfer (options : ApiSubmitTransferOptions) : M State Submission :=
  let accountId := opt_accountId options in
  network <- lift (parseAccountId accountId) ;;
  callApi_waitLastTransfer accountId ;;
  fromAddress <- callApi_fetchAddress accountId ;;
  '(path, walletInfo) <-
    promiseAll (getLedgerAccountPath accountId) (callApi_getWalletInfo network fromAddress) ;;
  match walletInfo with
  | None => throw (TypeError "walletInfo")
  | Some info =>
      parsedAddress <- lift (Address_parseFriendly (opt_toAddress options)) ;;
      let normalizedAddress :=
        Address_toString (address parsedAddress) true DEFAULT_IS_BOUNCEABLE false in
      t <- normalizeTransfer network fromAddress options (isBounceable parsedAddress) ;;
      let isFullTonBalance :=
        negb (truthy (opt_tokenAddress options)) && Z.eqb (wallet_balance info) (tr_amount t) in
      let sendMode' :=
        if isFullTonBalance
        then SendMode.CARRY_ALL_REMAINING_BALANCE
        else (SendMode.PAY_GAS_SEPARATELY + SendMode.IGNORE_ERRORS)%Z in
      ret (mkSubmission path fromAddress (wallet_seqno info) normalizedAddress sendMode' t)
  end.

(** The [message] of lines 269-281. *)
Definition signedMessageOf (options : ApiSubmitTransferOptions) (slug : string)
  (localTransactionParams : option PartialParams) (s : Submission) (signedCell : Cell)
  : ApiSignedTransfer :=
  mkApiSignedTransfer (Cell_toBase64 signedCell) (sub_seqno s)
    (spreadParams
       (mkParams (opt_amount options) (sub_fromAddress s) (sub_normalizedAddress s)
          (opt_comment options) (opt_fee options) slug None)
       localTransactionParams).

(** Lines 259-283: the body of the [try] block. *)
Definition signAndSend (options : ApiSubmitTransferOptions) (slug : string)
  (localTransactionParams : option PartialParams) (s : Submission) : M State (option string) :=
  signedCell <- signTransfer (sub_path s) (sub_sendMode s) (sub_seqno s) (sub_transfer s) ;;
  callApi_sendSignedTransferMessage (opt_accountId options)
    (signedMessageOf options slug localTransactionParams s signedCell).

Definition submitLedgerTransfer (options : ApiSubmitTransferOptions) (slug : string)
  (localTransactionParams : option PartialParams) : M State (option string) :=
  s <- prepareLedgerTransfer options ;;
  tryCatch
    (signAndSend options slug localTransactionParams s)
    (fun error => logDebugError "submitLedgerTransfer" (Some error) ;; ret None).

(** ** getNextLedgerWallets *)

(** [getLedgerWalletAddress(index)] *)
Definition getLedgerWalletAddress (index : Z) : M State (string * string) :=
  let path := getLedgerAccountPathByIndex index false WORKCHAIN in
  live <- getTonTransport ;;
  match live with
  | Some t =>
      external (fun h => ton_getAddress env h t path CHAIN WALLET_IS_BOUNCEABLE)
               (fun r => EvGetAddress (Some t) path (threwOf r))
  | None =>
      let e := TypeError "tonTransport" in
      record (EvGetAddress None path (Some e)) ;; throw e
  end.

Definition getLedgerWalletInfo (network : string) (accountIndex : Z)
  : M State LedgerWalletInfo :=
  '(address', publicKey) <- getLedgerWalletAddress accountIndex ;;
  balance <- callApi_getWalletBalance network address' ;;
  current <- getTransport ;;
  match current with
  | None => throw (TypeError "transport")
  | Some t =>
      ret (mkLedgerWalletInfo accountIndex address' publicKey balance VERSION "HID"
             (option_map model_id (deviceModel t))
             (option_map productName (deviceModel t)))
  end.

(** [balance !== 0n] *)
Definition nonZeroBalance (balance : option Z) : bool :=
  match balance with
  | Some b => negb (Z.eqb b 0)
  | None => true
  end.

(** [alreadyImportedAddresses.includes(address)] *)
Definition includes (l : list string) (a : string) : bool :=
  existsb (String.eqb a) l.

(** One turn of the [while (true)] at lines 503-522; the loop variables
    are [result] and [index]. *)
Definition discoveryBody (network : string) (alreadyImportedAddresses : list string)
  (l : list LedgerWalletInfo * Z)
  : M State (LoopStep (list LedgerWalletInfo * Z) (list LedgerWalletInfo)) :=
  let '(result, index) := l in
  walletInfo <- getLedgerWalletInfo network index ;;
  if includes alreadyImportedAddresses (lw_address walletInfo) then
    ret (Continue (result, (index + 1)%Z))
  else if nonZeroBalance (lw_balance walletInfo) then
    ret (Continue (result ++ [walletInfo], (index + 1)%Z))
  else
    ret (Break (match result with
                | [] => result ++ [walletInfo]
                | _ :: _ => result
                end)).

(** [lastExistingIndex = -1] and [alreadyImportedAddresses = []] are the
    defaults of the missing arguments. *)
Definition getNextLedgerWallets (fuel : nat) (network : string)
  (lastExistingIndex : option Z) (alreadyImportedAddresses : option (list string))
  : M State (list LedgerWalletInfo + ServerErrorResult) :=
  let lastExistingIndex := orElse lastExistingIndex (-1)%Z in
  let alreadyImportedAddresses := orElse alreadyImportedAddresses [] in
  tryCatch
    (result <- loop fuel (discoveryBody network alreadyImportedAddresses)
                 ([], (lastExistingIndex + 1)%Z) ;;
     ret (inl result))
    (fun err => r <- lift (handleServerError err) ;; ret (inr r)).

(** ** connectLedger *)

Definition isSupported (k : TransportKind) : M State bool :=
  external (fun h => transport_isSupported env h k) (fun r => EvIsSupported k (threwOf r)).

Definition listDevices (k : TransportKind) : M State (list Device) :=
  external (fun h => transport_list env h k) (fun r => EvList k (threwOf r)).

Definition createTransport (k : TransportKind) : M State unit :=
  external (fun h => transport_create env h k) (fun r => EvCreate k (threwOf r)).

Definition openDevice (k : TransportKind) (d : Device) : M State Transport :=
  external (fun h => transport_open env h k d) (fun r => EvOpen k d (threwOf r)).

Definition openConnected : M State (option Transport) :=
  external (usb_openConnected env) (fun r => EvOpenConnected (threwOf r)).

Definition requestDevice : M State Transport :=
  external (usb_request env) (fun r => EvRequest (threwOf r)).

(** One test of [i < ATTEMPTS] and one turn of the [for] loop of
    [connectHID]; falling out of the loop reaches the [throw]. *)
Definition connectHIDBody (i : nat) : M State (LoopStep nat Transport) :=
  if (i <? ATTEMPTS)%nat then
    devices <- listDevices HID ;;
    match devices with
    | [] =>
        createTransport HID ;;
        pause PAUSE ;;
        ret (Continue (S i))
    | device' :: _ =>
        if opened device'
        then ret (Break (transport_new env device'))
        else (t <- openDevice HID device' ;; ret (Break t))
    end
  else throw (JsError "Failed to connect").

Definition connectHID (fuel : nat) : M State Transport :=
  loop fuel connectHIDBody 0.

Definition connectUSBBody (i : nat) : M State (LoopStep nat Transport) :=
  if (i <? ATTEMPTS)%nat then
    devices <- listDevices USB ;;
    match devices with
    | [] =>
        createTransport USB ;;
        pause PAUSE ;;
        ret (Continue (S i))
    | device' :: _ =>
        if opened device'
        then (connected <- openConnected ;;
              match connected with
              | Some t => ret (Break t)
              | None => (t <- requestDevice ;; ret (Break t))
              end)
        else (t <- openDevice USB device' ;; ret (Break t))
    end
  else throw (JsError "Failed to connect").

Definition connectUSB (fuel : nat) : M State Transport :=
  loop fuel connectUSBBody 0.

(** [transport = t] *)
Definition setTransport (t : Transport) : M State unit :=
  fun st => (Ret tt, mkState (history st) (Some t) (tonTransport st)).

(** [tonTransport = new TonTransport(transport)] *)
Definition setTonTransport : M State unit :=
  fun st => (Ret tt, mkState (history st) (transport st) (transport st)).

Definition connectLedger (fuel : nat) : M State bool :=
  tryCatch
    (hidSupported <- isSupported HID ;;
     if hidSupported then
       (t <- connectHID fuel ;; setTransport t ;; setTonTransport ;; ret true)
     else
       (usbSupported <- isSupported USB ;;
        if usbSupported then
          (t <- connectUSB fuel ;; setTransport t ;; setTonTransport ;; ret true)
        else
          (logDebugError "connectLedger: HID and/or USB are not supported" None ;;
           ret false)))
    (fun err => logDebugError "connectLedger" (Some err) ;; ret false).

End Model.

(** * Reading a run

    The vocabulary of the properties below. *)

Section Reading.

Context {ton : TonCore} {repo : Repo}.

(** The signing attempts in a stretch of history, oldest first: the
    request handed to [signTransaction] and what came back. *)
Fixpoint signAttempts (h : History) : list (SigningRequest * (Thrown + Cell)) :=
  match h with
  | [] => []
  | EvSign _ _ request outcome :: h' => (request, outcome) :: signAttempts h'
  | _ :: h' => signAttempts h'
  end.

(** What a computation added to the history. *)
Definition newEvents (before after : State) : History :=
  skipn (List.length (history before)) (history after).

(** In the stretch [evs] of history that follows the state [st] the
    collaborator [oracle] was called -- the call is the event [ev] -- and
    what it answered, from the history up to that call, is [a]. *)
Definition answered {A} (st : State) (evs : list Event) (oracle : History -> Thrown + A)
  (ev : Event) (a : A) : Prop :=
  exists before later,
    evs = before ++ ev :: later /\ oracle (history st ++ before) = inr a.

Definition succeeded (a : SigningRequest * (Thrown + Cell)) : Prop :=
  match snd a with inr _ => True | inl _ => False end.

Definition failedWith (a : SigningRequest * (Thrown + Cell)) : option Thrown :=
  match snd a with inr _ => None | inl e => Some e end.

(** How many of the attempts failed. *)
Fixpoint failures (l : list (SigningRequest * (Thrown + Cell))) : nat :=
  match l with
  | [] => 0
  | (_, inl _) :: l' => S (failures l')
  | (_, inr _) :: l' => failures l'
  end.

Definition isSign (ev : Event) : bool :=
  match ev with EvSign _ _ _ _ => true | _ => false end.

(** A computation is quiet when it never touches the device's signer,
    leaves the session as it found it and has no loop that could be cut
    off: it only adds events other than [EvSign] to the history, and it
    returns or throws. *)
Definition Quiet {A} (c : M State A) : Prop :=
  forall st,
    exists evs,
      history (snd (c st)) = history st ++ evs
      /\ forallb (fun ev => negb (isSign ev)) evs = true
      /\ transport (snd (c st)) = transport st
      /\ tonTransport (snd (c st)) = tonTransport st
      /\ fst (c st) <> Diverge.

(** The signing loop as a relation.

    [SignRun messages p attempts l evs out]: started with the loop
    variables [l], the loop of [signLedgerTransactions] over the prepared
    requests [p] adds the events [evs] and ends with [out].
    One constructor per way through the loop body. *)
Inductive SignRun (messages : list ApiDappTransfer) (p : Prepared) (attempts : nat)
  : SignLoop -> list Event -> Outcome (list ApiSignedTransfer) -> Prop :=
| SignRun_exit l :
    ((index l <? List.length (preparedOptions p)) && (attempt l <? attempts))%nat = false ->
    SignRun messages p attempts l [] (Ret (signedMessages l))
| SignRun_signed l t options message cell evs out :
    index l < List.length (preparedOptions p) -> attempt l < attempts ->
    nth_error (preparedOptions p) (index l) = Some options ->
    nth_error messages (index l) = Some message ->
    SignRun messages p attempts (mkSignLoop (S (index l)) (S (attempt l))
               (signedMessages l
                  ++ [signedTransferOf (prep_fromAddress p) message options
                        (Cell_toBase64 cell)]))
            evs out ->
    SignRun messages p attempts l (EvSign t (prep_path p) options (inr cell) :: evs) out
| SignRun_rejected l t options err :
    index l < List.length (preparedOptions p) -> attempt l < attempts ->
    nth_error (preparedOptions p) (index l) = Some options ->
    isUserRejection err = true ->
    SignRun messages p attempts l [EvSign t (prep_path p) options (inl err)] (Throw ApiUserRejectsError)
| SignRun_retry l t options err evs out :
    index l < List.length (preparedOptions p) -> attempt l < attempts ->
    nth_error (preparedOptions p) (index l) = Some options ->
    isUserRejection err = false ->
    SignRun messages p attempts (mkSignLoop (index l) (S (attempt l)) (signedMessages l)) evs out ->
    SignRun messages p attempts l (EvSign t (prep_path p) options (inl err)
                 :: EvLog "signLedgerTransactions" (Some err) :: evs) out.

(** The loop invariant: [index] items are signed, and they are the first
    [index] requests, in order. *)
Definition SignInv (p : Prepared) (l : SignLoop) : Prop :=
  index l <= List.length (preparedOptions p)
  /\ List.length (signedMessages l) = index l
  /\ map signed_seqno (signedMessages l) = map seqno (firstn (index l) (preparedOptions p)).

(** The encoded messages of the attempts that succeeded, oldest first. *)
Fixpoint signedBy (l : list (SigningRequest * (Thrown + Cell))) : list string :=
  match l with
  | [] => []
  | (_, inr cell) :: l' => Cell_toBase64 cell :: signedBy l'
  | (_, inl _) :: l' => signedBy l'
  end.

(** How a request relates to the message it was prepared from. *)
Definition preparedFrom (seqno' : option Z) (message : ApiDappTransfer) (index' : nat)
  (request : SigningRequest) : Prop :=
  seqno request = jsAdd seqno' (Z.of_nat index')
  /\ amount request = dapp_amount message
  /\ match dapp_payload message with
     | None => payload request = None
     | Some (PayloadComment comment) =>
         isValidLedgerComment comment = true
         /\ payload request = Some (LedgerComment comment)
     | Some (PayloadNftTransfer _ _ _ _ _ _) =>
         bounce request = true
         /\ exists q o r c a f, payload request = Some (LedgerNftTransfer q o r c a f)
     | Some (PayloadTokensTransfer _ _ _ _ _ _ _) =>
         bounce request = true
         /\ exists q j d r c a f, payload request = Some (LedgerJettonTransfer q j d r c a f)
     | Some (PayloadUnknown _) => False
     | Some (PayloadOther _) => False
     end.

(** How the transfer handed to the [try] block relates to the options. *)
Definition normalizedFrom (env : Env) (options : ApiSubmitTransferOptions) (t : Transfer)
  : Prop :=
  match whenTruthy (opt_tokenAddress options) with
  | Some tokenAddress =>
      tr_isBounceable t = true
      /\ tr_amount t = TOKEN_TRANSFER_TONCOIN_AMOUNT
      /\ (exists destination responseDestination,
             tr_payload t
             = Some (LedgerJettonTransfer 0 (opt_amount options) destination
                       responseDestination None TOKEN_TRANSFER_TONCOIN_FORWARD_AMOUNT
                       (option_map buildCommentPayload (whenTruthy (opt_comment options)))))
      /\ exists h network wallet,
           api_resolveTokenMinterAddress env h network wallet = inr (Some tokenAddress)
  | None =>
      tr_toAddress t = Some (opt_toAddress options)
      /\ tr_amount t = opt_amount options
      /\ match whenTruthy (opt_comment options) with
         | Some text =>
             isValidLedgerComment text = true /\ tr_payload t = Some (LedgerComment text)
         | None => tr_payload t = None
         end
  end.

(** The payload is a fungible-token or a non-fungible transfer. *)
Definition isTokenOrNft (payload' : option ApiParsedPayload) : bool :=
  match payload' with
  | Some (PayloadNftTransfer _ _ _ _ _ _) => true
  | Some (PayloadTokensTransfer _ _ _ _ _ _ _) => true
  | _ => false
  end.

(** The account [getLedgerWalletInfo] reports for an address. *)
Definition walletInfoOf (t : Transport) (accountIndex : Z) (address' publicKey : string)
  (balance : option Z) : LedgerWalletInfo :=
  mkLedgerWalletInfo accountIndex address' publicKey balance VERSION "HID"
    (option_map model_id (deviceModel t))
    (option_map productName (deviceModel t)).

(** The state after the events [evs], the session variables unchanged. *)
Definition after (st : State) (evs : list Event) : State :=
  mkState (history st ++ evs) (transport st) (tonTransport st).

(** The event is a call to the transport of kind [k]. *)
Definition usesKind (k : TransportKind) (ev : Event) : bool :=
  let same k' := match k, k' with HID, HID => true | USB, USB => true | _, _ => false end in
  match ev with
  | EvIsSupported k' _ => same k'
  | EvList k' _ => same k'
  | EvCreate k' _ => same k'
  | EvOpen k' _ _ => same k'
  | EvOpenConnected _ => same USB
  | EvRequest _ => same USB
  | _ => false
  end.

(** How often the present devices were listed. *)
Fixpoint listCalls (h : History) : nat :=
  match h with
  | [] => 0
  | EvList _ _ :: h' => S (listCalls h')
  | _ :: h' => listCalls h'
  end.

(** One round of a connect loop that finds no device. *)
Definition emptyRound (k : TransportKind) : list Event :=
  [EvList k None; EvCreate k None; EvPause PAUSE].

(** What both connect loops guarantee: they end, they list the devices at
    most ATTEMPTS times, they talk to one kind of transport only, and they
    leave the session variables alone. *)
Definition ConnectRun (k other : TransportKind) (i : nat) (st : State)
  (r : Outcome Transport * State) : Prop :=
  fst r <> Diverge
  /\ transport (snd r) = transport st
  /\ tonTransport (snd r) = tonTransport st
  /\ exists evs,
       history (snd r) = history st ++ evs
       /\ listCalls evs <= ATTEMPTS - i
       /\ forallb (fun ev => negb (usesKind other ev)) evs = true.

End Reading.

(** ** A small world to run the model in

    Addresses, cells and builders are strings; an address in friendly form
    starts with "EQ" (bounceable) or "UQ" (not bounceable), a raw one with
    "0:".  The device, the balances and the transports are scripted. *)

Module Demo.

Definition friendly (s : string) : bool :=
  String.prefix "EQ" s || String.prefix "UQ" s.

#[local] Instance ton : TonCore := {|
  Address := string;
  Cell := string;
  Builder := string;
  StateInit := string;
  Address_isFriendly := friendly;
  Address_parseFriendly := fun s =>
    if friendly s
    then inr (mkFriendly (String.prefix "EQ" s) false s)
    else inl (Foreign None "Unknown address type");
  Address_parse := fun s =>
    if friendly s || String.prefix "0:" s
    then inr s
    else inl (Foreign None "Unknown address type");
  Address_toString := fun a _ _ _ => a;
  Cell_fromBase64 := fun s => inr s;
  Cell_toBase64 := fun c => c;
  loadStateInit := fun c => inr c;
  newBuilder := "";
  storeUint := fun _ _ b => b;
  storeStringTail := fun s b => String.append b s;
  endCell := fun b => b
|}.

#[local] Instance repo : Repo := {|
  DEFAULT_IS_BOUNCEABLE := false;
  WALLET_IS_BOUNCEABLE := false;
  WORKCHAIN := 0;
  TRANSFER_TIMEOUT_SEC := 60;
  TOKEN_TRANSFER_TONCOIN_AMOUNT := 100000000;
  TOKEN_TRANSFER_TONCOIN_FORWARD_AMOUNT := 1;
  TONCOIN_SLUG := "toncoin";
  isValidLedgerComment := fun s => (String.length s <=? 120)%nat;
  parseAccountId := fun _ => inr "mainnet";
  ServerErrorResult := string;
  handleServerError := fun _ => inr "ServerError"
|}.

(** The address the device derives for an account index. *)
Definition addressOf (accountIndex : Z) : string :=
  match accountIndex with
  | 0%Z => "UQ-account-0"
  | 1%Z => "UQ-account-1"
  | 2%Z => "UQ-account-2"
  | _ => "UQ-account-n"
  end.

(** A world in which the backend always answers; [device n] is what the
    device does on signing attempt number [n] (counted from 0),
    [balances] the balance of each address, [supported] the transport
    kinds of the browser, [present] the devices listed on the n-th
    listing, [minter] the minter the backend reports, and [sent] what the
    broadcast does. *)
Definition world
  (device : nat -> Thrown + string)
  (balances : string -> option Z)
  (supported : TransportKind -> bool)
  (present : nat -> list Device)
  (minter : option string)
  (sent : Thrown + option string) : Env :=
  {| transport_isSupported := fun _ k => inr (supported k);
     transport_list := fun h _ => inr (present (List.length h));
     transport_create := fun _ _ => inr tt;
     transport_open := fun _ k d => inr (mkTransport k d None);
     transport_new := fun d => mkTransport HID d None;
     usb_openConnected := fun _ => inr None;
     usb_request := fun _ => inl (Foreign None "No device selected");
     ton_getAddress := fun _ _ path _ _ => inr (addressOf (nth 4 path 0%Z), "public-key");
     ton_signTransaction := fun h _ _ _ => device (List.length (signAttempts h));
     api_waitLastTransfer := fun _ _ => inr tt;
     api_fetchAddress := fun _ _ => inr (Some "UQ-sender");
     api_fetchAccount := fun _ _ => inr (Some (mkAccountInfo (Some (mkLedgerInfo 0))));
     api_getWalletSeqno := fun _ _ => inr (Some 42%Z);
     api_getWalletInfo := fun _ _ _ => inr (Some (mkWalletInfo (Some 42%Z) 1000));
     api_getWalletBalance := fun _ _ a => inr (balances a);
     api_resolveTokenWalletAddress := fun _ _ _ _ => inr (Some "EQ-token-wallet");
     api_resolveTokenMinterAddress := fun _ _ _ => inr minter;
     api_sendSignedTransferMessage := fun _ _ _ => sent;
     date_now := fun _ => 1700000000000%Z;
     promise_secondRejectsFirst := fun _ => false |}.

Definition ledger : Transport :=
  mkTransport HID (mkDevice "Nano S" true) (Some (mkDeviceModel "nanoS" "Ledger Nano S")).

(** A connected session with nothing in the history. *)
Definition connected : State := mkState [] (Some ledger) (Some ledger).

(** No session yet. *)
Definition disconnected : State := mkState [] None None.

Definition plain (toAddress : string) (amount' : Z) : ApiDappTransfer :=
  mkApiDappTransfer toAddress amount' None None.

Definition batch : list ApiDappTransfer :=
  [plain "UQ-alice" 10; plain "EQ-bob" 20; plain "UQ-carol" 30].

Definition tokenBatch : list ApiDappTransfer :=
  [mkApiDappTransfer "UQ-jetton-wallet" 5
     (Some (PayloadTokensTransfer 0 7 "UQ-dave" "UQ-sender" None 1 None)) None;
   mkApiDappTransfer "UQ-nft-item" 5
     (Some (PayloadNftTransfer 0 "UQ-erin" "UQ-sender" None 1 None)) None].

(** A device that signs everything. *)
Definition signs : nat -> Thrown + string := fun n => inr "signed".

(** A device on which the user declines the second request. *)
Definition declinesSecond : nat -> Thrown + string :=
  fun n => if (n =? 1)%nat
           then inl (Foreign (Some CONDITIONS_OF_USE_NOT_SATISFIED) "Conditions not satisfied")
           else inr "signed".

(** A device that loses the connection once, on the second attempt. *)
Definition failsOnce : nat -> Thrown + string :=
  fun n => if (n =? 1)%nat then inl (Foreign None "Timeout") else inr "signed".

(** A device that never answers. *)
Definition neverSigns : nat -> Thrown + string := fun n => inl (Foreign None "Timeout").

Definition noBalances : string -> option Z := fun _ => Some 0%Z.

(** Balances 5, 0 and 3 on the first three accounts. *)
Definition balances503 : string -> option Z :=
  fun a => if String.eqb a "UQ-account-0" then Some 5%Z
           else if String.eqb a "UQ-account-1" then Some 0%Z
           else if String.eqb a "UQ-account-2" then Some 3%Z
           else Some 0%Z.

Definition hidOnly : TransportKind -> bool :=
  fun k => match k with HID => true | USB => false end.

Definition nothingSupported : TransportKind -> bool := fun _ => false.

Definition noDevice : nat -> list Device := fun _ => [].

(** The world of the discovery example: balances 5, 0 and 3. *)
Definition discovery : Env :=
  world signs balances503 hidOnly noDevice None (inr None).

(** A world in which the user declines the second request. *)
Definition declining : Env :=
  world declinesSecond noBalances hidOnly noDevice None (inr None).

(** A world in which the second signing attempt times out. *)
Definition flaky : Env :=
  world failsOnce noBalances hidOnly noDevice None (inr None).

(** A world in which the device never signs. *)
Definition silent : Env :=
  world neverSigns noBalances hidOnly noDevice None (inr None).

(** A browser with neither WebHID nor WebUSB. *)
Definition bare : Env :=
  world signs noBalances nothingSupported noDevice None (inr None).

(** The everyday world: the device signs, the broadcast succeeds. *)
Definition calm : Env :=
  world signs noBalances hidOnly noDevice (Some "EQ-jetton-minter") (inr (Some "tx-hash")).

(** The everyday world with a backend that knows two tokens: the minter
    of the sender's token wallet is "EQ-jetton-minter", the minter of any
    other token wallet is "EQ-other-minter". *)
Definition twoTokens : Env :=
  {| transport_isSupported := transport_isSupported calm;
     transport_list := transport_list calm;
     transport_create := transport_create calm;
     transport_open := transport_open calm;
     transport_new := transport_new calm;
     usb_openConnected := usb_openConnected calm;
     usb_request := usb_request calm;
     ton_getAddress := ton_getAddress calm;
     ton_signTransaction := ton_signTransaction calm;
     api_waitLastTransfer := api_waitLastTransfer calm;
     api_fetchAddress := api_fetchAddress calm;
     api_fetchAccount := api_fetchAccount calm;
     api_getWalletSeqno := api_getWalletSeqno calm;
     api_getWalletInfo := api_getWalletInfo calm;
     api_getWalletBalance := api_getWalletBalance calm;
     api_resolveTokenWalletAddress := api_resolveTokenWalletAddress calm;
     api_resolveTokenMinterAddress := fun _ _ wallet =>
       match wallet with
       | Some w =>
           if String.eqb w "EQ-token-wallet"
           then inr (Some "EQ-jetton-minter")
           else inr (Some "EQ-other-minter")
       | None => inr None
       end;
     api_sendSignedTransferMessage := api_sendSignedTransferMessage calm;
     date_now := date_now calm;
     promise_secondRejectsFirst := promise_secondRejectsFirst calm |}.

(** A comment of 121 characters, one more than this world's limit. *)
Definition longComment : string :=
  String.concat "" (repeat "x" 121).

Definition commentTransfer (comment : string) : ApiSubmitTransferOptions :=
  mkSubmitOptions "0-ton-mainnet" "UQ-alice" 10 None (Some comment) (Some 1%Z).

Definition tokenTransfer (tokenAddress : string) : ApiSubmitTransferOptions :=
  mkSubmitOptions "0-ton-mainnet" "UQ-alice" 10 (Some tokenAddress) (Some "hello") (Some 1%Z).

End Demo.

(** * More to read off a run

    The vocabulary of the properties of the second part: what a function
    may add to the history at all, what is broadcast, and how a request
    of the batch relates to its message beyond the payload. *)

Section Footprints.

Context {ton : TonCore} {repo : Repo}.

(** How many of the attempts succeeded. *)
Fixpoint successes (l : list (SigningRequest * (Thrown + Cell))) : nat :=
  match l with
  | [] => 0
  | (_, inr _) :: l' => S (successes l')
  | (_, inl _) :: l' => successes l'
  end.

(** The messages handed to [sendSignedTransferMessage] in a stretch of
    history, oldest first. *)
Fixpoint broadcasts (h : History) : list ApiSignedTransfer :=
  match h with
  | [] => []
  | EvApi (SendSignedTransferMessage _ message) _ :: h' => message :: broadcasts h'
  | _ :: h' => broadcasts h'
  end.

Definition isBroadcast (ev : Event) : bool :=
  match ev with
  | EvApi (SendSignedTransferMessage _ _) _ => true
  | _ => false
  end.

(** The event asks the backend for the minter of a token wallet. *)
Definition asksMinter (ev : Event) : bool :=
  match ev with
  | EvApi (ResolveTokenMinterAddress _ _) _ => true
  | _ => false
  end.

(** The event is a call to the browser's transport layer. *)
Definition isTransportCall (ev : Event) : bool :=
  usesKind HID ev || usesKind USB ev.

(** The event asks the device for an address or the backend for a
    balance: the two questions of wallet discovery. *)
Definition isLookup (ev : Event) : bool :=
  match ev with
  | EvGetAddress _ _ _ => true
  | EvApi (GetWalletBalance _ _) _ => true
  | _ => false
  end.

(** The event belongs to connecting: a transport call, a pause or a log
    entry. *)
Definition isConnecting (ev : Event) : bool :=
  match ev with
  | EvPause _ => true
  | EvLog _ _ => true
  | _ => isTransportCall ev
  end.

(** A computation has the footprint [ok] when every event it adds to the
    history satisfies [ok], on every path, also when it throws or is cut
    off. *)
Definition Footprint (ok : Event -> bool) {A} (c : M State A) : Prop :=
  forall st,
    exists evs,
      history (snd (c st)) = history st ++ evs
      /\ forallb ok evs = true.

(** A computation is steady when it leaves the two session variables as
    it found them, on every path. *)
Definition Steady {A} (c : M State A) : Prop :=
  forall st,
    transport (snd (c st)) = transport st
    /\ tonTransport (snd (c st)) = tonTransport st.

(** What the map callback of [signLedgerTransactions] fixes in a request
    besides the payload: the destination, the send mode, the bounce flag
    of a transfer that is neither a token nor an NFT transfer, and the
    state init. *)
Definition addressedFrom (message : ApiDappTransfer) (request : SigningRequest) : Prop :=
  Address_parse (dapp_toAddress message) = inr (to request)
  /\ sendMode request = (SendMode.PAY_GAS_SEPARATELY + SendMode.IGNORE_ERRORS)%Z
  /\ (isTokenOrNft (dapp_payload message) = false ->
      if Address_isFriendly (dapp_toAddress message)
      then exists parsed,
             Address_parseFriendly (dapp_toAddress message) = inr parsed
             /\ bounce request = isBounceable parsed
      else bounce request = DEFAULT_IS_BOUNCEABLE)
  /\ (whenTruthy (dapp_stateInit message) = None -> stateInit request = None).

(** The signed transfer at position [i] of a result is the one built from
    message [i] and request [i]. *)
Definition builtFrom (messages : list ApiDappTransfer) (p : Prepared) (i : nat)
  (s : ApiSignedTransfer) : Prop :=
  exists message request,
    nth_error messages i = Some message
    /\ nth_error (preparedOptions p) i = Some request
    /\ s = signedTransferOf (prep_fromAddress p) message request (signed_base64 s).



End Footprints.

(** * The rest of the file

    [checkTonApp], [reconnectLedger], [importLedgerWallet],
    [signLedgerProof], [verifyAddress], [submitLedgerStake],
    [submitLedgerUnstake] and [toBase64Address].

    These functions reach collaborators the functions above never call:
    the state of the TON application on the device, its address proofs,
    and the staking methods of the backend.  Their calls are kept in a log
    of their own, beside the history; each entry carries the length the
    history had when the call was made, so the order of all the calls of a
    run can be read off.  A collaborator of the first part now answers
    from the history and this log, and so does a new one.

    [waitLedgerTonApp] races [checkTonApp] against a timer, and which of
    the two wins is a matter of real time; it is not modelled, and
    [reconnectLedger], which ends in it, takes it as an argument. *)

(** What these functions import from the rest of the repository besides
    the members of [Repo]. *)
Class RepoStaking : Type := {
  (* config *)
  ONE_TON : Z;
  (* api/blockchains/ton/constants *)
  STAKE_COMMENT : string;
  UNSTAKE_COMMENT : string;
  (* what callApi('importLedgerWallet', ...) resolves to *)
  ImportedWallet : Type;
  (* the message of an ApiUserRejectsError, set in api/errors *)
  userRejectsMessage : string
}.

(** [ApiTonConnectProof], the fields [signLedgerProof] reads. *)
Record ApiTonConnectProof : Type := mkProof {
  proof_timestamp : Z;
  proof_domain : string;
  proof_payload : string
}.

(** The part of the backend's staking state that is read:
    [backendState.nominatorsPool.address]. *)
Record StakingState : Type := mkStakingState {
  nominatorsPool_address : string
}.

Section Application.

Context {ton : TonCore} {repo : Repo} {staking : RepoStaking}.

(** [err.message].  Every thrown value is an error with a message, as
    [Thrown] has it (of a value without one, [err?.message.includes]
    would itself throw).  The message of a TypeError is the engine's; it
    is stood for by the name of the value that was undefined. *)
Definition messageOf (err : Thrown) : string :=
  match err with
  | JsError message => message
  | TypeError what => what
  | ApiUserRejectsError => userRejectsMessage
  | Foreign _ message => message
  end.

(** [text.includes(part)] *)
Definition includesText (text part : string) : bool :=
  match String.index 0 part text with
  | Some _ => true
  | None => false
  end.

(** [toBase64Address(address, isBounceable = DEFAULT_IS_BOUNCEABLE, network?)];
    the address is an [Address] or a string that is parsed first. *)
Definition toBase64Address (source : Address + string) (isBounceable : option bool)
  (network : option string) : Thrown + string :=
  let parsed :=
    match source with
    | inr text => Address_parse text
    | inl a => inr a
    end in
  match parsed with
  | inl e => inl e
  | inr a =>
      inr (Address_toString a true (orElse isBounceable DEFAULT_IS_BOUNCEABLE)
             (match network with
              | Some n => String.eqb n "testnet"
              | None => false
              end))
  end.

(** One call to a collaborator of this part. *)
Inductive AppEvent : Type :=
| EvIsAppOpen (t : Transport) (answer : Thrown + bool)
| EvProbeAddress (t : Transport) (path : Path) (threw : option Thrown)
| EvGetAddressProof (t : Transport) (path : Path) (domain : string) (timestamp : Z)
    (payload : string) (threw : option Thrown)
| EvValidateAddress (t : Transport) (path : Path) (bounceable : bool) (threw : option Thrown)
| EvImportLedgerWallet (network : string) (walletInfo : LedgerWalletInfo)
    (threw : option Thrown)
| EvFetchBackendStakingState (address' : option string) (threw : option Thrown)
| EvUpdateAccountMemoryCache (accountId : string) (address' : option string) (stakedAt : Z)
    (threw : option Thrown)
| EvOnStakingChangeExpected (threw : option Thrown).

(** The calls of this part, each with the length of the history at the
    time. *)
Definition AppLog : Type := list (nat * AppEvent).

Record AppEnv : Type := mkAppEnv {
  ton_isAppOpen : History -> AppLog -> Transport -> Thrown + bool;
  (* tonTransport.getAddress(path), no options, the result unused *)
  ton_probeAddress : History -> AppLog -> Transport -> Path -> Thrown + unit;
  (* tonTransport.getAddressProof(path, { domain, timestamp, payload }):
     the signature, as base64 *)
  ton_getAddressProof :
    History -> AppLog -> Transport -> Path -> string -> Z -> string -> Thrown + string;
  (* tonTransport.validateAddress(path, { bounceable }), the result unused *)
  ton_validateAddress : History -> AppLog -> Transport -> Path -> bool -> Thrown + unit;
  api_importLedgerWallet :
    History -> AppLog -> string -> LedgerWalletInfo -> Thrown + ImportedWallet;
  api_fetchBackendStakingState :
    History -> AppLog -> option string -> Thrown + option StakingState;
  api_updateAccountMemoryCache :
    History -> AppLog -> string -> option string -> Z -> Thrown + unit;
  api_onStakingChangeExpected : History -> AppLog -> Thrown + unit
}.

(** The collaborators of the first part, given the calls of this part so
    far, and the collaborators of this part. *)
Variable world : AppLog -> Env.
Variable app : AppEnv.

Record Session : Type := mkSession {
  base : State;
  appLog : AppLog
}.

(** A function of the first part, run where it stands: it sees the calls
    of this part made so far and adds none. *)
Definition liftBase {A} (c : Env -> M State A) : M Session A :=
  fun s =>
    let '(out, st') := c (world (appLog s)) (base s) in
    (out, mkSession st' (appLog s)).

(** A call to a collaborator of this part: it answers from the history
    and the log, and the call is logged. *)
Definition appCall {A} (oracle : History -> AppLog -> Thrown + A)
  (ev : Thrown + A -> AppEvent) : M Session A :=
  fun s =>
    let r := oracle (history (base s)) (appLog s) in
    (match r with inl e => Throw e | inr a => Ret a end,
     mkSession (base s) (appLog s ++ [(List.length (history (base s)), ev r)])).

Definition liveTonTransport : M Session (option Transport) :=
  fun s => (Ret (tonTransport (base s)), s).

(** [Date.now()] *)
Definition dateNow (env : Env) : M State Z :=
  fun st =>
    let now := date_now env (history st) in
    (record EvNow ;; ret now) st.

(** ** checkTonApp *)

(** [tonTransport!.isAppOpen()] *)
Definition tonTransport_isAppOpen : M Session bool :=
  live <- liveTonTransport ;;
  match live with
  | Some t => appCall (fun h l => ton_isAppOpen app h l t) (fun r => EvIsAppOpen t r)
  | None => throw (TypeError "tonTransport")
  end.

(** [tonTransport?.getAddress(path)]: no call when there is no
    [tonTransport]. *)
Definition tonTransport_probeAddress (path : Path) : M Session unit :=
  live <- liveTonTransport ;;
  match live with
  | Some t =>
      appCall (fun h l => ton_probeAddress app h l t path)
              (fun r => EvProbeAddress t path (threwOf r))
  | None => ret tt
  end.

(** One test of [i < ATTEMPTS] and one turn of the [for] loop, lines
    94-112; falling out of the loop reaches [return false]. *)
Definition checkTonAppBody (i : nat) : M Session (LoopStep nat bool) :=
  if (i <? ATTEMPTS)%nat then
    unlocked <-
      tryCatch
        (isTonOpen <- tonTransport_isAppOpen ;;
         if isTonOpen
         then (tonTransport_probeAddress (getLedgerAccountPathByIndex 0 false WORKCHAIN) ;;
               ret true)
         else ret false)
        (fun err =>
           (if negb (includesText (messageOf err) "0x530c")
            then liftBase (fun _ => logDebugError "waitLedgerTonApp" (Some err))
            else ret tt) ;;
           ret false) ;;
    if unlocked
    then ret (Break true)
    else (liftBase (fun _ => pause PAUSE) ;; ret (Continue (S i)))
  else ret (Break false).

Definition checkTonApp (fuel : nat) : M Session bool :=
  loop fuel checkTonAppBody 0.

(** ** reconnectLedger *)

Definition reconnectLedger (waitLedgerTonApp : M Session bool) (fuel : nat) : M Session bool :=
  alive <-
    tryCatch
      (live <- liveTonTransport ;;
       match live with
       | Some t => appCall (fun h l => ton_isAppOpen app h l t) (fun r => EvIsAppOpen t r)
       | None => ret false
       end)
      (fun _ => ret false) ;;
  if alive then ret true
  else
    (connected <- liftBase (fun env => connectLedger env fuel) ;;
     if connected then waitLedgerTonApp else ret false).

(** ** importLedgerWallet *)

Definition importLedgerWallet (network : string) (accountIndex : Z) : M Session ImportedWallet :=
  walletInfo <- liftBase (fun env => getLedgerWalletInfo env network accountIndex) ;;
  appCall (fun h l => api_importLedgerWallet app h l network walletInfo)
          (fun r => EvImportLedgerWallet network walletInfo (threwOf r)).

(** ** signLedgerProof and verifyAddress *)

Definition signLedgerProof (accountId : string) (proof : ApiTonConnectProof) : M Session string :=
  path <- liftBase (fun env => getLedgerAccountPath env accountId) ;;
  live <- liveTonTransport ;;
  match live with
  | Some t =>
      appCall (fun h l =>
                 ton_getAddressProof app h l t path (proof_domain proof)
                   (proof_timestamp proof) (proof_payload proof))
              (fun r =>
                 EvGetAddressProof t path (proof_domain proof) (proof_timestamp proof)
                   (proof_payload proof) (threwOf r))
  | None => throw (TypeError "tonTransport")
  end.

Definition verifyAddress (accountId : string) : M Session unit :=
  path <- liftBase (fun env => getLedgerAccountPath env accountId) ;;
  live <- liveTonTransport ;;
  match live with
  | Some t =>
      appCall (fun h l => ton_validateAddress app h l t path IS_BOUNCEABLE)
              (fun r => EvValidateAddress t path IS_BOUNCEABLE (threwOf r))
  | None => throw (TypeError "tonTransport")
  end.

(** ** submitLedgerStake and submitLedgerUnstake *)

Definition callApi_fetchBackendStakingState (address' : option string)
  : M Session (option StakingState) :=
  appCall (fun h l => api_fetchBackendStakingState app h l address')
          (fun r => EvFetchBackendStakingState address' (threwOf r)).

Definition callApi_updateAccountMemoryCache (accountId : string) (address' : option string)
  (stakedAt : Z) : M Session unit :=
  appCall (fun h l => api_updateAccountMemoryCache app h l accountId address' stakedAt)
          (fun r => EvUpdateAccountMemoryCache accountId address' stakedAt (threwOf r)).

Definition callApi_onStakingChangeExpected : M Session unit :=
  appCall (api_onStakingChangeExpected app)
          (fun r => EvOnStakingChangeExpected (threwOf r)).

(** Lines 169-173 and 194-198, the same in both functions: the network,
    the account's address, and the address of the nominators pool in
    bounceable form. *)
Definition stakingPool (accountId : string) : M Session (option string * string) :=
  network <- lift (parseAccountId accountId) ;;
  address' <- liftBase (fun env => callApi_fetchAddress env accountId) ;;
  backendState <- callApi_fetchBackendStakingState address' ;;
  match backendState with
  | None => throw (TypeError "backendState")
  | Some state =>
      poolAddress <-
        lift (toBase64Address (inr (nominatorsPool_address state)) (Some true)
                (Some network)) ;;
      ret (address', poolAddress)
  end.

(** [{ type }] as a [Partial<ApiLocalTransactionParams>] *)
Definition onlyType (type : string) : PartialParams :=
  mkPartialParams None None None None None None (Some type).

Definition submitLedgerStake (accountId : string) (amount' : Z) (fee : option Z)
  : M Session (option string) :=
  '(address', poolAddress) <- stakingPool accountId ;;
  result <-
    liftBase (fun env =>
                submitLedgerTransfer env
                  (mkSubmitOptions accountId poolAddress amount' None (Some STAKE_COMMENT) fee)
                  TONCOIN_SLUG (Some (onlyType "stake"))) ;;
  (if truthy result
   then (stakedAt <- liftBase dateNow ;;
         callApi_updateAccountMemoryCache accountId address' stakedAt)
   else ret tt) ;;
  callApi_onStakingChangeExpected ;;
  ret result.

Definition submitLedgerUnstake (accountId : string) : M Session (option string) :=
  '(address', poolAddress) <- stakingPool accountId ;;
  result <-
    liftBase (fun env =>
                submitLedgerTransfer env
                  (mkSubmitOptions accountId poolAddress ONE_TON None (Some UNSTAKE_COMMENT)
                     None)
                  TONCOIN_SLUG (Some (onlyType "unstakeRequest"))) ;;
  callApi_onStakingChangeExpected ;;
  ret result.

End Application.

(** ** Reading a run of these functions *)

Section ApplicationReading.

Context {ton : TonCore} {repo : Repo} {staking : RepoStaking}.

(** The calls of this part a computation made, oldest first. *)
Definition newAppEvents (before after : Session) : list AppEvent :=
  map snd (skipn (List.length (appLog before)) (appLog after)).

(** What a computation added to the history of the first part. *)
Definition newBaseEvents (before after : Session) : History :=
  newEvents (base before) (base after).

(** How often the device was asked whether the TON application is open. *)
Fixpoint appOpenProbes (l : list AppEvent) : nat :=
  match l with
  | [] => 0
  | EvIsAppOpen _ _ :: l' => S (appOpenProbes l')
  | _ :: l' => appOpenProbes l'
  end.

(** How many pauses there are in a stretch of history. *)
Fixpoint pauses (h : History) : nat :=
  match h with
  | [] => 0
  | EvPause _ :: h' => S (pauses h')
  | _ :: h' => pauses h'
  end.

(** What was written to the debug log, oldest first. *)
Fixpoint logged (h : History) : list (string * option Thrown) :=
  match h with
  | [] => []
  | EvLog tag err :: h' => (tag, err) :: logged h'
  | _ :: h' => logged h'
  end.

(** The times recorded as [stakedAt]. *)
Fixpoint cacheUpdates (l : list AppEvent) : list Z :=
  match l with
  | [] => []
  | EvUpdateAccountMemoryCache _ _ stakedAt _ :: l' => stakedAt :: cacheUpdates l'
  | _ :: l' => cacheUpdates l'
  end.

(** How often the backend was told to expect a change of the staking
    state. *)
Fixpoint changeNotices (l : list AppEvent) : nat :=
  match l with
  | [] => 0
  | EvOnStakingChangeExpected _ :: l' => S (changeNotices l')
  | _ :: l' => changeNotices l'
  end.

(** The wallets handed to the backend's import. *)
Fixpoint imports (l : list AppEvent) : list (string * LedgerWalletInfo) :=
  match l with
  | [] => []
  | EvImportLedgerWallet network walletInfo _ :: l' => (network, walletInfo) :: imports l'
  | _ :: l' => imports l'
  end.

(** What [checkTonApp] writes to the debug log for the calls it made: the
    errors of the failed calls that do not carry the code 0x530c. *)
Fixpoint reported (l : list AppEvent) : list (string * option Thrown) :=
  let report err rest :=
    if includesText (messageOf err) "0x530c"
    then rest
    else ("waitLedgerTonApp", Some err) :: rest in
  match l with
  | [] => []
  | EvIsAppOpen _ (inl err) :: l' => report err (reported l')
  | EvProbeAddress _ _ (Some err) :: l' => report err (reported l')
  | _ :: l' => reported l'
  end.

(** What a failed call of the polling loop leaves in the history: a log
    entry unless the error carries the lock code, then the pause. *)
Definition afterFailure (e : Thrown) : list Event :=
  if includesText (messageOf e) "0x530c"
  then [EvPause PAUSE]
  else [EvLog "waitLedgerTonApp" (Some e); EvPause PAUSE].

(** The session after the events [evs] of the first part and the calls
    [calls] of this part, the session variables unchanged. *)
Definition later (s : Session) (evs : list Event) (calls : AppLog) : Session :=
  mkSession (after (base s) evs) (appLog s ++ calls).

(** What every run of the polling loop of [checkTonApp] from turn [i]
    on guarantees. *)
Definition CheckRun (app : AppEnv) (i : nat) (s : Session) (r : Outcome bool * Session)
  : Prop :=
  (fst r = Ret true \/ fst r = Ret false)
  /\ transport (base (snd r)) = transport (base s)
  /\ tonTransport (base (snd r)) = tonTransport (base s)
  /\ exists evs calls,
       history (base (snd r)) = history (base s) ++ evs
       /\ appLog (snd r) = appLog s ++ calls
       /\ appOpenProbes (map snd calls) <= ATTEMPTS - i
       /\ pauses evs <= ATTEMPTS - i
       /\ (fst r = Ret false -> pauses evs = ATTEMPTS - i)
       /\ (fst r = Ret true ->
           exists t before,
             map snd calls
             = before
                 ++ [EvIsAppOpen t (inr true);
                     EvProbeAddress t (getLedgerAccountPathByIndex 0 false WORKCHAIN) None])
       /\ (forall t answer,
             In (EvIsAppOpen t answer) (map snd calls) ->
             exists h l, ton_isAppOpen app h l t = answer)
       /\ (forall t, tonTransport (base s) = Some t ->
             logged evs = reported (map snd calls)).

End ApplicationReading.

(** ** More of the small world *)

Module MoreDemo.

Import Demo.

(** A Ledger that is plugged in and already open. *)
Definition nanoS : Device := mkDevice "Nano S" true.

(** A browser with WebHID in which the device is listed at once. *)
Definition plugged : Env :=
  world signs noBalances hidOnly (fun _ => [nanoS]) None (inr None).

(** A browser with WebUSB only, the device listed and open, but not paired
    with the page: [openConnected] finds nothing, and the chooser of
    [request] is dismissed. *)
Definition usbOnly : TransportKind -> bool :=
  fun k => match k with HID => false | USB => true end.

Definition unpaired : Env :=
  world signs noBalances usbOnly (fun _ => [nanoS]) None (inr None).

(** Three transfers, the last with a payload the wallet could not parse. *)
Definition opaqueBatch : list ApiDappTransfer :=
  [plain "UQ-alice" 10; plain "EQ-bob" 20;
   mkApiDappTransfer "UQ-carol" 30 (Some (PayloadUnknown "te6cckEBAQEAAgAAAEysuc0=")) None].

(** A transfer of the whole balance this world's backend reports. *)
Definition wholeBalance : ApiSubmitTransferOptions :=
  mkSubmitOptions "0-ton-mainnet" "UQ-alice" 1000 None None None.

#[local] Existing Instance Demo.ton.
#[local] Existing Instance Demo.repo.

#[local] Instance staking : RepoStaking := {|
  ONE_TON := 1000000000;
  STAKE_COMMENT := "d";
  UNSTAKE_COMMENT := "w";
  ImportedWallet := string;
  userRejectsMessage := "Canceled by the user"
|}.

(** The collaborators of the second part: [isOpen n] is what the device
    says of the TON application when n calls of this part were made
    before, [probe] what it does when asked for the address of account 0,
    [pool] the staking state of the backend. *)
Definition application
  (isOpen : nat -> Thrown + bool)
  (probe : Thrown + unit)
  (pool : option StakingState) : AppEnv :=
  {| ton_isAppOpen := fun _ l _ => isOpen (List.length l);
     ton_probeAddress := fun _ _ _ _ => probe;
     ton_getAddressProof := fun _ _ _ _ _ _ _ => inr "c2lnbmF0dXJl";
     ton_validateAddress := fun _ _ _ _ _ => inr tt;
     api_importLedgerWallet := fun _ _ _ walletInfo => inr (lw_address walletInfo);
     api_fetchBackendStakingState := fun _ _ _ => inr pool;
     api_updateAccountMemoryCache := fun _ _ _ _ _ => inr tt;
     api_onStakingChangeExpected := fun _ _ => inr tt |}.

Definition nominators : option StakingState :=
  Some (mkStakingState "EQ-nominators-pool").

(** What a locked Ledger answers. *)
Definition lockedDevice : Thrown :=
  Foreign (Some 21260%Z) "Ledger device: UNKNOWN_ERROR (0x530c)".

(** The TON application is opened by the user after two questions. *)
Definition opensLate : AppEnv :=
  application (fun n => inr (2 <=? n)%nat) (inr tt) nominators.

(** The TON application is never opened. *)
Definition neverOpen : AppEnv :=
  application (fun _ => inr false) (inr tt) nominators.

(** The TON application is open, the device locked. *)
Definition lockedApp : AppEnv :=
  application (fun _ => inr true) (inl lockedDevice) nominators.

(** The TON application is open, the device unlocked. *)
Definition ready : AppEnv :=
  application (fun _ => inr true) (inr tt) nominators.

(** The first part's world does not look at the calls of the second. *)
Definition calmly : AppLog -> Env := fun _ => calm.

(** A world in which the device never signs. *)
Definition silently : AppLog -> Env := fun _ => silent.

Definition online : Session := mkSession connected [].

Definition offline : Session := mkSession disconnected [].

End MoreDemo.

(** * Properties *)

Section MonadFacts.

Context {S : Type}.

Lemma bind_Ret_inv {A B} (c : M S A) (k : A -> M S B) st b st' :
  bind c k st = (Ret b, st') ->
  exists a st1, c st = (Ret a, st1) /\ k a st1 = (Ret b, st').
Proof.
  unfold bind. destruct (c st) as [[a | e |] st1]; intros H; try discriminate.
  exists a, st1. split; [reflexivity | exact H].
Qed.

Lemma bind_eq {A B} (c : M S A) (k : A -> M S B) st a st1 :
  c st = (Ret a, st1) -> bind c k st = k a st1.
Proof. unfold bind. intros ->. reflexivity. Qed.

Lemma promiseAll2_Ret_inv {A B} f (a : M S A) (b : M S B) st x y st' :
  promiseAll2 f a b st = (Ret (x, y), st') ->
  exists st1, a st = (Ret x, st1) /\ b st1 = (Ret y, st').
Proof.
  unfold promiseAll2.
  destruct (a st) as [ra st1] eqn:Ha. destruct (b st1) as [rb st2] eqn:Hb.
  destruct ra, rb; cbn; intros H; try discriminate.
  inversion H; subst. exists st1. split; [reflexivity | exact Hb].
Qed.

End MonadFacts.

(** ** Sequence numbers as doubles *)

Lemma toDouble_exact z : (- TWO_53 <= z <= TWO_53)%Z -> toDouble z = z.
Proof.
  intros Hz. unfold toDouble.
  destruct (Z.leb_spec (Z.log2 (Z.abs z) - 52) 0) as [_ | He]; [reflexivity |].
  assert (TWO_53 <= Z.abs z)%Z as Hbig.
  { destruct (Z.lt_ge_cases (Z.abs z) TWO_53) as [Hlt | Hge]; [| exact Hge].
    exfalso. assert (0 < Z.abs z)%Z as Hpos.
    { destruct (Z.eq_dec (Z.abs z) 0) as [H0 | H0]; [| lia].
      rewrite H0 in He. cbn in He. lia. }
    apply (Z.log2_lt_pow2 _ 53 Hpos) in Hlt. lia. }
  assert (z = TWO_53 \/ z = (- TWO_53)%Z) as [-> | ->] by lia; vm_compute; reflexivity.
Qed.

Lemma jsAdd_exact (s i : Z) :
  (- TWO_53 <= s + i <= TWO_53)%Z -> jsAdd (Some s) i = Some (s + i)%Z.
Proof. intros H. cbn [jsAdd]. rewrite (toDouble_exact _ H). reflexivity. Qed.

(** ** Quiet computations *)

Section QuietFacts.

Context {ton : TonCore} {repo : Repo} (env : Env).

Lemma Quiet_ret {A} (a : A) : Quiet (ret a).
Proof.
  intros st. exists []. cbn. rewrite app_nil_r. repeat split; try reflexivity. discriminate.
Qed.

Lemma Quiet_throw {A} (e : Thrown) : Quiet (@throw State A e).
Proof.
  intros st. exists []. cbn. rewrite app_nil_r. repeat split; try reflexivity. discriminate.
Qed.

Lemma Quiet_lift {A} (r : Thrown + A) : Quiet (lift r).
Proof.
  destruct r; [apply Quiet_throw | apply Quiet_ret].
Qed.

Lemma Quiet_bind {A B} (c : M State A) (k : A -> M State B) :
  Quiet c -> (forall a, Quiet (k a)) -> Quiet (bind c k).
Proof.
  intros Hc Hk st. destruct (Hc st) as (evs & Hh & Hq & Ht & Htt & Hd).
  unfold bind. destruct (c st) as [[a | e |] st1]; cbn in *.
  - destruct (Hk a st1) as (evs' & Hh' & Hq' & Ht' & Htt' & Hd').
    exists (evs ++ evs'). rewrite Hh', Hh, app_assoc, forallb_app, Hq, Hq'.
    repeat split; congruence.
  - exists evs. repeat split; auto. discriminate.
  - contradiction.
Qed.

Lemma Quiet_promiseAll2 {A B} f (a : M State A) (b : M State B) :
  Quiet a -> Quiet b -> Quiet (promiseAll2 f a b).
Proof.
  intros Ha Hb st. unfold promiseAll2.
  destruct (Ha st) as (evs & Hh & Hq & Ht & Htt & Hd).
  destruct (a st) as [ra st1]. cbn [fst snd] in *.
  destruct (Hb st1) as (evs' & Hh' & Hq' & Ht' & Htt' & Hd').
  destruct (b st1) as [rb st2]. cbn [fst snd] in *.
  assert (history st2 = history st ++ evs ++ evs') as Hall
      by (rewrite Hh', Hh, app_assoc; reflexivity).
  exists (evs ++ evs').
  destruct ra, rb; cbn [fst snd]; rewrite forallb_app, Hq, Hq';
    repeat split; congruence.
Qed.

Lemma Quiet_tryCatch {A} (c : M State A) (handler : Thrown -> M State A) :
  Quiet c -> (forall e, Quiet (handler e)) -> Quiet (tryCatch c handler).
Proof.
  intros Hc Hk st. destruct (Hc st) as (evs & Hh & Hq & Ht & Htt & Hd).
  unfold tryCatch. destruct (c st) as [[a | e |] st1]; cbn in *.
  - exists evs. repeat split; auto.
  - destruct (Hk e st1) as (evs' & Hh' & Hq' & Ht' & Htt' & Hd').
    exists (evs ++ evs'). rewrite Hh', Hh, app_assoc, forallb_app, Hq, Hq'.
    repeat split; congruence.
  - contradiction.
Qed.

Lemma Quiet_record (ev : Event) : isSign ev = false -> Quiet (record ev).
Proof.
  intros H st. exists [ev]. cbn. rewrite H. repeat split; try reflexivity. discriminate.
Qed.

Lemma Quiet_external {A} (oracle : History -> Thrown + A) (ev : Thrown + A -> Event) :
  (forall r, isSign (ev r) = false) -> Quiet (external oracle ev).
Proof.
  intros H st. unfold external.
  apply (Quiet_bind (record _) (fun _ => lift _)).
  - apply Quiet_record, H.
  - intros _. apply Quiet_lift.
Qed.

Lemma Quiet_getTonTransport : Quiet getTonTransport.
Proof.
  intros st. exists []. cbn. rewrite app_nil_r. repeat split; try reflexivity. discriminate.
Qed.

Lemma Quiet_getTransport : Quiet getTransport.
Proof.
  intros st. exists []. cbn. rewrite app_nil_r. repeat split; try reflexivity. discriminate.
Qed.

End QuietFacts.

Create HintDb quiet.
#[local] Hint Resolve Quiet_ret Quiet_throw Quiet_lift Quiet_record Quiet_external
  Quiet_getTonTransport Quiet_getTransport : quiet.

(** Takes a computation apart along its binds, branches and handlers. *)
Ltac quiet :=
  repeat first
    [ apply Quiet_ret
    | apply Quiet_throw
    | apply Quiet_lift
    | apply Quiet_getTonTransport
    | apply Quiet_getTransport
    | apply Quiet_record; reflexivity
    | apply Quiet_external; intros; reflexivity
    | solve [auto with quiet]
    | apply Quiet_bind; [| intros ?]
    | apply Quiet_promiseAll2
    | apply Quiet_tryCatch; [| intros ?]
    | match goal with
      | |- Quiet (match ?x with _ => _ end) => destruct x
      | |- Quiet (let '(_, _) := ?x in _) => destruct x
      end ].

Section QuietModel.

Context {ton : TonCore} {repo : Repo} (env : Env).

Lemma Quiet_logDebugError tag err : Quiet (logDebugError tag err).
Proof. unfold logDebugError. quiet. Qed.

Lemma Quiet_pause ms : Quiet (pause ms).
Proof. unfold pause. quiet. Qed.

Lemma Quiet_getLedgerAccountPath accountId : Quiet (getLedgerAccountPath env accountId).
Proof. unfold getLedgerAccountPath, callApi_fetchAccount. quiet. Qed.

Lemma Quiet_getTransferExpirationTime : Quiet (getTransferExpirationTime env).
Proof.
  intros st. unfold getTransferExpirationTime.
  apply (Quiet_bind (record EvNow) (fun _ => ret _)); quiet.
Qed.

Lemma Quiet_cellFromOptionalBase64 blob : Quiet (cellFromOptionalBase64 blob).
Proof. unfold cellFromOptionalBase64. quiet. Qed.

Lemma Quiet_parseOptionalAddress source : Quiet (parseOptionalAddress source).
Proof. unfold parseOptionalAddress. quiet. Qed.

#[local] Hint Resolve Quiet_logDebugError Quiet_pause Quiet_getLedgerAccountPath
  Quiet_getTransferExpirationTime Quiet_cellFromOptionalBase64
  Quiet_parseOptionalAddress : quiet.

Lemma Quiet_normalizePayload isBounceable payload :
  Quiet (normalizePayload isBounceable payload).
Proof. unfold normalizePayload. quiet. Qed.

#[local] Hint Resolve Quiet_normalizePayload : quiet.

Lemma Quiet_prepareOptions seqno message index :
  Quiet (prepareOptions env seqno message index).
Proof. unfold prepareOptions. quiet. Qed.

Lemma Quiet_mapWithIndex {A B} (f : A -> nat -> M State B) :
  (forall a i, Quiet (f a i)) -> forall l i, Quiet (mapWithIndex f l i).
Proof.
  intros Hf l. induction l as [| a l IH]; intros i; cbn [mapWithIndex]; quiet.
Qed.

#[local] Hint Resolve Quiet_prepareOptions Quiet_mapWithIndex : quiet.

Lemma Quiet_prepareLedgerTransactions accountId messages seqno :
  Quiet (prepareLedgerTransactions env accountId messages seqno).
Proof.
  unfold prepareLedgerTransactions, callApi_waitLastTransfer, callApi_fetchAddress,
    callApi_getWalletSeqno.
  quiet.
Qed.

Lemma Quiet_buildLedgerTokenTransfer network tokenAddress fromAddress toAddress amount comment :
  Quiet (buildLedgerTokenTransfer env network tokenAddress fromAddress toAddress amount comment).
Proof.
  unfold buildLedgerTokenTransfer, callApi_resolveTokenWalletAddress,
    callApi_resolveTokenMinterAddress.
  quiet.
Qed.

#[local] Hint Resolve Quiet_buildLedgerTokenTransfer : quiet.

Lemma Quiet_normalizeTransfer network fromAddress options isBounceable :
  Quiet (normalizeTransfer env network fromAddress options isBounceable).
Proof. unfold normalizeTransfer. quiet. Qed.

#[local] Hint Resolve Quiet_normalizeTransfer : quiet.

Lemma Quiet_prepareLedgerTransfer options : Quiet (prepareLedgerTransfer env options).
Proof.
  unfold prepareLedgerTransfer, callApi_waitLastTransfer, callApi_fetchAddress,
    callApi_getWalletInfo.
  quiet.
Qed.

End QuietModel.

(** ** History bookkeeping *)

Section HistoryFacts.

Context {ton : TonCore} {repo : Repo}.

Lemma newEvents_app (st st' : State) evs :
  history st' = history st ++ evs -> newEvents st st' = evs.
Proof.
  intros H. unfold newEvents. rewrite H, skipn_app, skipn_all, Nat.sub_diag.
  reflexivity.
Qed.

Lemma newEvents_chain (st st1 st' : State) evs evs' :
  history st1 = history st ++ evs ->
  history st' = history st1 ++ evs' ->
  newEvents st st' = evs ++ evs'.
Proof.
  intros H1 H2. apply newEvents_app. rewrite H2, H1, app_assoc. reflexivity.
Qed.

Lemma signAttempts_app h1 h2 :
  signAttempts (h1 ++ h2) = signAttempts h1 ++ signAttempts h2.
Proof.
  induction h1 as [| ev h1 IH]; [reflexivity |].
  destruct ev; cbn; rewrite ?IH; reflexivity.
Qed.

Lemma signAttempts_quiet evs :
  forallb (fun ev => negb (isSign ev)) evs = true -> signAttempts evs = [].
Proof.
  induction evs as [| ev evs IH]; cbn; [reflexivity |].
  intros H. apply andb_prop in H as [Hev Hevs].
  destruct ev; cbn in *; try discriminate; auto.
Qed.

(** A call to a collaborator, as an equation. *)
Lemma external_run {A} (oracle : History -> Thrown + A) (ev : Thrown + A -> Event)
  (st : State) :
  external oracle ev st
  = (match oracle (history st) with inl e => Throw e | inr a => Ret a end,
     after st [ev (oracle (history st))]).
Proof.
  unfold external, bind, record, after. cbn.
  destruct (oracle (history st)); reflexivity.
Qed.

Lemma external_Ret_inv {A} (oracle : History -> Thrown + A) (ev : Thrown + A -> Event)
  (st : State) a st' :
  external oracle ev st = (Ret a, st') ->
  oracle (history st) = inr a /\ history st' = history st ++ [ev (inr a)].
Proof.
  rewrite external_run. intros H.
  destruct (oracle (history st)) as [e | x]; inversion H; subst. auto.
Qed.

Lemma after_after (st : State) evs evs' :
  after (after st evs) evs' = after st (evs ++ evs').
Proof. unfold after. cbn. rewrite app_assoc. reflexivity. Qed.

Lemma bind_external {A B} (oracle : History -> Thrown + A) (ev : Thrown + A -> Event)
  (k : A -> M State B) (st : State) :
  bind (external oracle ev) k st
  = match oracle (history st) with
    | inl e => (Throw e, after st [ev (inl e)])
    | inr a => k a (after st [ev (inr a)])
    end.
Proof. unfold bind. rewrite external_run. destruct (oracle (history st)); reflexivity. Qed.

(** Where a list is cut at an element of a kind that occurs only once. *)
Lemma split_unique {A} (ok : A -> bool) pre x post before y later :
  pre ++ x :: post = before ++ y :: later ->
  forallb ok pre = true -> forallb ok post = true -> ok y = false ->
  before = pre /\ y = x /\ later = post.
Proof.
  revert before. induction pre as [| a pre IH]; intros [| b before] H Hpre Hpost Hy;
    cbn in *.
  - inversion H. auto.
  - inversion H; subst. rewrite forallb_app in Hpost. cbn in Hpost.
    rewrite Hy, andb_false_r in Hpost. discriminate.
  - inversion H; subst. apply andb_prop in Hpre as [Ha _]. congruence.
  - inversion H; subst. apply andb_prop in Hpre as [_ Hpre].
    destruct (IH before H2 Hpre Hpost Hy) as (-> & -> & ->). auto.
Qed.

Lemma answered_In {A} (st : State) evs (oracle : History -> Thrown + A) ev a :
  answered st evs oracle ev a -> In ev evs.
Proof.
  intros (before & later & -> & _). apply in_or_app. right. left. reflexivity.
Qed.

Lemma forallb_In {A} (ok : A -> bool) l x : forallb ok l = true -> In x l -> ok x = true.
Proof. intros H Hin. rewrite forallb_forall in H. auto. Qed.

Lemma answered_here {A} (st : State) before later (oracle : History -> Thrown + A) ev a :
  oracle (history st ++ before) = inr a ->
  answered st (before ++ ev :: later) oracle ev a.
Proof. intros H. exists before, later. auto. Qed.

Lemma answered_more {A} (st : State) evs more (oracle : History -> Thrown + A) ev a :
  answered st evs oracle ev a -> answered st (evs ++ more) oracle ev a.
Proof.
  intros (before & later & -> & H). exists before, (later ++ more).
  rewrite <- app_assoc. auto.
Qed.

(** What a quiet computation leaves behind, for a run written as an
    equation. *)
Lemma Quiet_run {A} (c : M State A) st out st' :
  Quiet c -> c st = (out, st') ->
  exists evs,
    history st' = history st ++ evs
    /\ signAttempts evs = []
    /\ transport st' = transport st
    /\ tonTransport st' = tonTransport st
    /\ out <> Diverge.
Proof.
  intros Hq Hrun. destruct (Hq st) as (evs & Hh & Hs & Ht & Htt & Hd).
  rewrite Hrun in *. cbn in *. exists evs.
  repeat split; auto using signAttempts_quiet.
Qed.

End HistoryFacts.

(** Brings the attempts of a history that starts with known events to the
    front. *)
Ltac attempts :=
  cbn [signAttempts failures List.length nth_error In index attempt signedMessages fst snd]
    in *.

Section SignRuns.

Context {ton : TonCore} {repo : Repo}.
Variables (messages : list ApiDappTransfer) (p : Prepared) (attempts : nat).

Local Abbreviation N := (List.length (preparedOptions p)).

Variable env : Env.
Hypothesis same_length : List.length messages = N.

(** Every run of the loop with enough fuel is a [SignRun]; the session is
    left as it was. *)
Lemma loop_SignRun fuel :
  forall l st out st',
    attempts - attempt l < fuel ->
    loop fuel (signLoopBody env messages p attempts) l st = (out, st') ->
    exists evs,
      history st' = history st ++ evs
      /\ transport st' = transport st
      /\ tonTransport st' = tonTransport st
      /\ SignRun messages p attempts l evs out.
Proof.
  induction fuel as [| fuel IH]; intros l st out st' Hfuel Hrun; [lia |].
  cbn [loop] in Hrun. unfold signLoopBody in Hrun.
  destruct ((index l <? N) && (attempt l <? attempts))%nat eqn:Hcond.
  2:{ cbn in Hrun. inversion Hrun; subst.
      exists []. rewrite app_nil_r. repeat split; try reflexivity.
      apply SignRun_exit. exact Hcond. }
  apply andb_prop in Hcond as [Hi Ha].
  apply Nat.ltb_lt in Hi. apply Nat.ltb_lt in Ha.
  destruct (nth_error (preparedOptions p) (index l)) as [options |] eqn:Hopt.
  2:{ apply nth_error_None in Hopt. lia. }
  destruct (nth_error messages (index l)) as [message |] eqn:Hmsg.
  2:{ apply nth_error_None in Hmsg. rewrite same_length in Hmsg. lia. }
  unfold bind, tryCatch, tonTransport_signTransaction in Hrun.
  destruct (tonTransport st) as [t |] eqn:Htt.
  - unfold external in Hrun. cbn in Hrun.
    destruct (ton_signTransaction env (history st) t (prep_path p) options)
      as [err | cell] eqn:Hsign; cbn in Hrun.
    + destruct (isUserRejection err) eqn:Hrej; cbn in Hrun.
      * inversion Hrun; subst. cbn.
        exists [EvSign (Some t) (prep_path p) options (inl err)].
        repeat split; try assumption; try reflexivity.
        apply SignRun_rejected; assumption.
      * apply IH in Hrun; [| cbn; lia].
        destruct Hrun as (evs & Hh & Ht & Htt' & Hrun). cbn in *.
        exists (EvSign (Some t) (prep_path p) options (inl err)
                  :: EvLog "signLedgerTransactions" (Some err) :: evs).
        rewrite Hh, <- !app_assoc. cbn.
        repeat split; try congruence.
        apply SignRun_retry; assumption.
    + apply IH in Hrun; [| cbn; lia].
      destruct Hrun as (evs & Hh & Ht & Htt' & Hrun). cbn in *.
      exists (EvSign (Some t) (prep_path p) options (inr cell) :: evs).
      rewrite Hh, <- !app_assoc. cbn.
      repeat split; try congruence.
      apply SignRun_signed with (message := message); assumption.
  - cbn in Hrun.
    apply IH in Hrun; [| cbn; lia].
    destruct Hrun as (evs & Hh & Ht & Htt' & Hrun). cbn in *.
    exists (EvSign None (prep_path p) options (inl (TypeError "tonTransport"))
              :: EvLog "signLedgerTransactions" (Some (TypeError "tonTransport")) :: evs).
    rewrite Hh, <- !app_assoc. cbn.
    repeat split; try congruence.
    apply SignRun_retry; try assumption; reflexivity.
Qed.

End SignRuns.

(** ** What the prepared requests look like *)

(** Takes apart a run that returned, along its binds and branches. *)
Ltac monad_inv :=
  repeat match goal with
    | H : bind _ _ _ = (Ret _, _) |- _ =>
        apply bind_Ret_inv in H; destruct H as (? & ? & ? & ?)
    | H : ret _ _ = (_, _) |- _ => inversion H; subst; clear H
    | H : throw _ _ = (Ret _, _) |- _ => discriminate H
    | H : lift ?r _ = (Ret _, _) |- _ =>
        destruct r eqn:?; cbn in H; [discriminate H | inversion H; subst; clear H]
    | H : (match ?x with _ => _ end) _ = (Ret _, _) |- _ => destruct x eqn:?
    | H : (let '(_, _) := ?x in _) _ = (Ret _, _) |- _ => destruct x eqn:?
    end.

Section Preparation.

Context {ton : TonCore} {repo : Repo} (env : Env).

Lemma mapWithIndex_Ret {A B} (f : A -> nat -> M State B) (Q : A -> nat -> B -> Prop) :
  (forall a i st b st', f a i st = (Ret b, st') -> Q a i b) ->
  forall l k st bs st',
    mapWithIndex f l k st = (Ret bs, st') ->
    List.length bs = List.length l
    /\ forall i a b, nth_error l i = Some a -> nth_error bs i = Some b -> Q a (k + i) b.
Proof.
  intros Hf l. induction l as [| a l IH]; intros k st bs st' Hrun; cbn [mapWithIndex] in Hrun.
  - monad_inv. split; [reflexivity |]. intros [| i] ? ?; discriminate.
  - monad_inv. apply IH in H0 as [Hlen Hnth]. split; [cbn; congruence |].
    intros [| i] a' b' Ha Hb; cbn in Ha, Hb.
    + inversion Ha; inversion Hb; subst. rewrite Nat.add_0_r. eapply Hf; eassumption.
    + replace (k + S i) with (S k + i) by lia. eapply Hnth; eassumption.
Qed.

Lemma prepareOptions_Ret seqno' message index' st request st' :
  prepareOptions env seqno' message index' st = (Ret request, st') ->
  preparedFrom seqno' message index' request.
Proof.
  unfold prepareOptions, preparedFrom. intros Hrun.
  apply bind_Ret_inv in Hrun as (b0 & st1 & _ & Hrun).
  apply bind_Ret_inv in Hrun as ([b1 lp] & st2 & Hnorm & Hrun).
  apply bind_Ret_inv in Hrun as (si & st3 & _ & Hrun).
  apply bind_Ret_inv in Hrun as (to' & st4 & _ & Hrun).
  apply bind_Ret_inv in Hrun as (timeout' & st5 & _ & Hrun).
  inversion Hrun; subst; clear Hrun. cbn.
  split; [reflexivity |]. split; [reflexivity |].
  unfold normalizePayload in Hnorm.
  destruct (dapp_payload message) as [[] |]; monad_inv; eauto 12.
Qed.

Lemma prepareLedgerTransactions_Ret accountId messages seqno' st p st' :
  prepareLedgerTransactions env accountId messages seqno' st = (Ret p, st') ->
  List.length (preparedOptions p) = List.length messages
  /\ (forall s, seqno' = Some s -> s <> 0%Z -> prep_seqno p = Some s)
  /\ forall i message request,
       nth_error messages i = Some message ->
       nth_error (preparedOptions p) i = Some request ->
       preparedFrom (prep_seqno p) message i request.
Proof.
  unfold prepareLedgerTransactions. intros Hrun.
  apply bind_Ret_inv in Hrun as (? & st1 & _ & Hrun).
  apply bind_Ret_inv in Hrun as ([path fromAddress] & st3 & _ & Hrun).
  apply bind_Ret_inv in Hrun as (seqno1 & st4 & Hseq & Hrun).
  apply bind_Ret_inv in Hrun as (prepared & st5 & Hmap & Hrun).
  inversion Hrun; subst; clear Hrun. cbn.
  apply (mapWithIndex_Ret _ (preparedFrom seqno1)) in Hmap as [Hlen Hnth].
  2:{ intros. eapply prepareOptions_Ret; eassumption. }
  split; [exact Hlen |]. split; [| exact Hnth].
  intros s -> Hs. cbn in Hseq.
  destruct (Z.eqb_spec s 0); [contradiction |].
  inversion Hseq. reflexivity.
Qed.

(** The path of an account is the path of the Ledger index the backend
    has for it. *)
Lemma getLedgerAccountPath_Ret accountId st path st' :
  getLedgerAccountPath env accountId st = (Ret path, st') ->
  exists info l,
    api_fetchAccount env (history st) accountId = inr (Some info)
    /\ ledger info = Some l
    /\ path = getLedgerAccountPathByIndex (ledger_index l) false WORKCHAIN
    /\ history st' = history st ++ [EvApi (FetchAccount accountId) None].
Proof.
  unfold getLedgerAccountPath. intros Hrun.
  apply bind_Ret_inv in Hrun as (accountInfo & s1 & Hcall & Hrun).
  apply external_Ret_inv in Hcall as [Hans Hh].
  destruct accountInfo as [info |]; [| discriminate].
  destruct (ledger info) as [l |] eqn:Hl; [| discriminate].
  inversion Hrun; subst. exists info, l. auto.
Qed.

(** What the preparation has asked of the backend, and what it was told,
    when it returns: the sender's address, the account's Ledger index,
    and, when the caller gave no number that counts, the sequence
    number. *)
Lemma prepareLedgerTransactions_asked accountId messages seqno' st p st1 :
  prepareLedgerTransactions env accountId messages seqno' st = (Ret p, st1) ->
  exists evs,
    history st1 = history st ++ evs
    /\ answered st evs (fun h => api_fetchAddress env h accountId)
         (EvApi (FetchAddress accountId) None) (prep_fromAddress p)
    /\ (exists info l,
          answered st evs (fun h => api_fetchAccount env h accountId)
            (EvApi (FetchAccount accountId) None) (Some info)
          /\ ledger info = Some l
          /\ prep_path p = getLedgerAccountPathByIndex (ledger_index l) false WORKCHAIN)
    /\ (if falsyNumber seqno'
        then answered st evs (fun h => api_getWalletSeqno env h accountId)
               (EvApi (GetWalletSeqno accountId) None) (prep_seqno p)
        else prep_seqno p = seqno').
Proof.
  unfold prepareLedgerTransactions. intros Hrun.
  apply bind_Ret_inv in Hrun as (? & s1 & H1 & Hrun).
  apply bind_Ret_inv in Hrun as ([path fromAddress] & s3 & H23 & Hrun).
  apply promiseAll2_Ret_inv in H23 as (s2 & H2 & H3).
  apply bind_Ret_inv in Hrun as (seqno1 & s4 & H4 & Hrun).
  apply bind_Ret_inv in Hrun as (prepared & s5 & H5 & Hrun).
  inversion Hrun; subst; clear Hrun. cbn [prep_fromAddress prep_path prep_seqno].
  apply external_Ret_inv in H1 as [_ Hh1].
  apply getLedgerAccountPath_Ret in H2 as (info & l & Hinfo & Hl & Hpath & Hh2).
  apply external_Ret_inv in H3 as [Hfrom Hh3].
  assert (Quiet (mapWithIndex (prepareOptions env seqno1) messages 0)) as Hq.
  { apply Quiet_mapWithIndex. intros. apply Quiet_prepareOptions. }
  destruct (Quiet_run _ _ _ _ Hq H5) as (e5 & Hh5 & _).
  cbn [threwOf] in *.
  set (wait := EvApi (WaitLastTransfer accountId) None) in *.
  set (account := EvApi (FetchAccount accountId) None) in *.
  set (addr := EvApi (FetchAddress accountId) None) in *.
  assert (forall tail,
             history st1 = history s3 ++ tail ->
             history st1 = history st ++ [wait] ++ account :: [addr] ++ tail) as Hall.
  { intros tail Ht. rewrite Ht, Hh3, Hh2, Hh1, <- !app_assoc. reflexivity. }
  assert (forall tail,
             answered st ([wait] ++ account :: [addr] ++ tail)
               (fun h => api_fetchAccount env h accountId) account (Some info)) as Haccount.
  { intros tail. apply answered_here. rewrite <- Hh1. exact Hinfo. }
  assert (forall tail,
             answered st (([wait] ++ [account]) ++ addr :: tail)
               (fun h => api_fetchAddress env h accountId) addr fromAddress) as Haddr.
  { intros tail. apply answered_here. rewrite app_assoc, <- Hh1, <- Hh2. exact Hfrom. }
  destruct (falsyNumber seqno') eqn:Hfalsy.
  - apply external_Ret_inv in H4 as [Hseq Hh4]. cbn [threwOf] in Hh4.
    exists ([wait] ++ account :: [addr] ++ (EvApi (GetWalletSeqno accountId) None :: e5)).
    split; [apply Hall; rewrite Hh5, Hh4, <- app_assoc; reflexivity |].
    split; [apply (Haddr (EvApi (GetWalletSeqno accountId) None :: e5)) |].
    split; [exists info, l; auto |].
    change ([wait] ++ account :: [addr] ++ EvApi (GetWalletSeqno accountId) None :: e5)
      with (([wait] ++ account :: [addr]) ++ EvApi (GetWalletSeqno accountId) None :: e5).
    apply answered_here.
    replace (history st ++ [wait] ++ account :: [addr]) with (history s3); [exact Hseq |].
    rewrite Hh3, Hh2, Hh1, <- !app_assoc. reflexivity.
  - inversion H4; subst.
    exists ([wait] ++ account :: [addr] ++ e5).
    split; [apply Hall; exact Hh5 |].
    split; [apply (Haddr e5) |].
    split; [exists info, l; auto | reflexivity].
Qed.

End Preparation.

(** ** What the runs of the signing loop have in common *)

Section SignRunFacts.

Context {ton : TonCore} {repo : Repo}.
Variables (messages : list ApiDappTransfer) (p : Prepared) (attempts : nat).

Local Abbreviation N := (List.length (preparedOptions p)).
Local Abbreviation Run := (SignRun messages p attempts).

Lemma SignInv_start : SignInv p (mkSignLoop 0 0 []).
Proof. unfold SignInv. cbn. repeat split. lia. Qed.

Lemma firstn_S_nth_error {A} (l : list A) i a :
  nth_error l i = Some a -> firstn (S i) l = firstn i l ++ [a].
Proof.
  revert i. induction l as [| x l IH]; intros [| i] H; cbn in *; try discriminate.
  - inversion H. reflexivity.
  - f_equal. apply IH. exact H.
Qed.

Lemma SignInv_signed l options message base64 :
  SignInv p l -> index l < N ->
  nth_error (preparedOptions p) (index l) = Some options ->
  SignInv p (mkSignLoop (S (index l)) (S (attempt l))
             (signedMessages l
                ++ [signedTransferOf (prep_fromAddress p) message options base64])).
Proof.
  intros (Hle & Hlen & Hseq) Hlt Hopt. unfold SignInv. cbn [index signedMessages].
  repeat split.
  - lia.
  - rewrite length_app. cbn. lia.
  - rewrite (firstn_S_nth_error _ _ _ Hopt), !map_app, Hseq. reflexivity.
Qed.

Lemma SignInv_retry l :
  SignInv p l -> SignInv p (mkSignLoop (index l) (S (attempt l)) (signedMessages l)).
Proof. intros H. exact H. Qed.

(** The budget bounds the attempts. *)
Lemma SignRun_attempts l evs out :
  Run l evs out ->
  attempt l <= attempts ->
  attempt l + List.length (signAttempts evs) <= attempts.
Proof.
  induction 1 as [l Hc | l t o m c evs out Hi Ha Ho Hm Hr IH
                 | l t o e Hi Ha Ho He | l t o e evs out Hi Ha Ho He Hr IH];
    intros Hle; attempts; lia.
Qed.

Lemma exit_condition l :
  ((index l <? N) && (attempt l <? attempts))%nat = false ->
  N <= index l \/ attempts <= attempt l.
Proof.
  intros Hc. apply andb_false_iff in Hc as [Hc | Hc]; apply Nat.ltb_ge in Hc; auto.
Qed.

(** A run that returns gives a prefix of the batch, and stops short only
    when the budget is spent. *)
Lemma SignRun_returns l evs signed :
  Run l evs (Ret signed) ->
  SignInv p l ->
  List.length signed <= N
  /\ map signed_seqno signed = map seqno (firstn (List.length signed) (preparedOptions p))
  /\ (List.length signed = N \/ attempts <= attempt l + List.length (signAttempts evs)).
Proof.
  remember (Ret signed) as out eqn:Hout. intros Hrun. revert Hout.
  induction Hrun as [l Hc | l t o m c evs out Hi Ha Ho Hm Hr IH
                    | l t o e Hi Ha Ho He | l t o e evs out Hi Ha Ho He Hr IH];
    intros Hout Hinv.
  - inversion Hout; subst. destruct Hinv as (Hle & Hlen & Hseq).
    rewrite Hlen. repeat split; [exact Hle | exact Hseq |].
    apply exit_condition in Hc. attempts. lia.
  - destruct (IH Hout (SignInv_signed _ _ _ _ Hinv Hi Ho)) as (H1 & H2 & H3).
    repeat split; [exact H1 | exact H2 |]. attempts. lia.
  - discriminate.
  - destruct (IH Hout (SignInv_retry _ Hinv)) as (H1 & H2 & H3).
    repeat split; [exact H1 | exact H2 |]. attempts. lia.
Qed.

(** With no rejection and a budget that covers the failures, the whole
    batch is signed. *)
Lemma SignRun_complete l evs out :
  Run l evs out ->
  SignInv p l ->
  (forall a e, In a (signAttempts evs) -> failedWith a = Some e -> isUserRejection e = false) ->
  (N - index l) + failures (signAttempts evs) + attempt l <= attempts ->
  exists signed,
    out = Ret signed
    /\ List.length signed = N
    /\ map signed_seqno signed = map seqno (preparedOptions p)
    /\ List.length (signAttempts evs) = (N - index l) + failures (signAttempts evs).
Proof.
  induction 1 as [l Hc | l t o m c evs out Hi Ha Ho Hm Hr IH
                 | l t o e Hi Ha Ho He | l t o e evs out Hi Ha Ho He Hr IH];
    intros Hinv Hok Hbudget.
  - destruct Hinv as (Hle & Hlen & Hseq). attempts.
    assert (index l = N) as Hfull by (apply exit_condition in Hc; lia).
    exists (signedMessages l). rewrite Hfull in *.
    rewrite firstn_all in Hseq. repeat split; auto. attempts. lia.
  - destruct IH as (signed & H1 & H2 & H3 & H4).
    + apply SignInv_signed; assumption.
    + intros a e Hin. apply Hok. attempts. right. exact Hin.
    + attempts. lia.
    + exists signed. repeat split; auto. attempts. lia.
  - exfalso. specialize (Hok (o, inl e) e). attempts.
    specialize (Hok (or_introl eq_refl) eq_refl). congruence.
  - destruct IH as (signed & H1 & H2 & H3 & H4).
    + apply SignInv_retry; assumption.
    + intros a e' Hin. apply Hok. attempts. right. exact Hin.
    + attempts. lia.
    + exists signed. repeat split; auto. attempts. lia.
Qed.

Lemma skipn_nth_error {A} (l : list A) i a :
  nth_error l i = Some a -> skipn i l = a :: skipn (S i) l.
Proof.
  revert i. induction l as [| x l IH]; intros [| i] H; cbn in *; try discriminate.
  - inversion H. reflexivity.
  - apply IH. exact H.
Qed.

(** When no attempt fails, the device is asked once for each request that
    is left, in order. *)
Lemma SignRun_all_signed l evs out :
  Run l evs out ->
  (forall a, In a (signAttempts evs) -> succeeded a) ->
  (N - index l) + attempt l <= attempts ->
  index l <= N ->
  map fst (signAttempts evs) = skipn (index l) (preparedOptions p).
Proof.
  induction 1 as [l Hc | l t o m c evs out Hi Ha Ho Hm Hr IH
                 | l t o e Hi Ha Ho He | l t o e evs out Hi Ha Ho He Hr IH];
    intros Hok Hbudget Hle; attempts.
  - apply exit_condition in Hc.
    assert (index l = N) as -> by lia. rewrite skipn_all. reflexivity.
  - rewrite (skipn_nth_error _ _ _ Ho). cbn [map fst]. f_equal.
    apply IH; cbn [index attempt]; try lia.
    intros a Hin. apply Hok. right. exact Hin.
  - exfalso. apply (Hok (o, inl e)). left. reflexivity.
  - exfalso. apply (Hok (o, inl e)). left. reflexivity.
Qed.

(** While there is a request left and budget, the device is asked. *)
Lemma SignRun_starts l evs out :
  Run l evs out ->
  index l < N -> attempt l < attempts ->
  exists a rest,
    signAttempts evs = a :: rest /\ nth_error (preparedOptions p) (index l) = Some (fst a).
Proof.
  intros Hrun Hi Ha.
  destruct Hrun as [l Hc | l t o m c evs out _ _ Ho Hm Hr
                   | l t o e _ _ Ho He | l t o e evs out _ _ Ho He Hr]; attempts.
  - apply exit_condition in Hc. lia.
  - eexists _, _. split; [reflexivity | exact Ho].
  - eexists _, _. split; [reflexivity | exact Ho].
  - eexists _, _. split; [reflexivity | exact Ho].
Qed.

(** Attempt number [i] of a run is for the request that comes right after
    the ones signed so far. *)
Lemma SignRun_in_order l evs out :
  SignRun messages p attempts l evs out ->
  forall i a,
    nth_error (signAttempts evs) i = Some a ->
    nth_error (preparedOptions p) (index l + successes (firstn i (signAttempts evs)))
    = Some (fst a).
Proof.
  induction 1 as [l Hc | l t o m c evs out Hi Ha Ho Hm Hr IH
                 | l t o e Hi Ha Ho He | l t o e evs out Hi Ha Ho He Hr IH];
    intros i a Hnth; attempts.
  - destruct i; discriminate.
  - destruct i as [| i]; cbn [firstn successes nth_error] in *.
    + inversion Hnth; subst. rewrite Nat.add_0_r. exact Ho.
    + specialize (IH i a Hnth). cbn [index] in IH.
      rewrite Nat.add_succ_r. exact IH.
  - destruct i as [| i]; cbn [firstn successes nth_error] in *.
    + inversion Hnth; subst. rewrite Nat.add_0_r. exact Ho.
    + destruct i; discriminate.
  - destruct i as [| i]; cbn [firstn successes nth_error] in *.
    + inversion Hnth; subst. rewrite Nat.add_0_r. exact Ho.
    + exact (IH i a Hnth).
Qed.

(** A rejection is the last thing that happens. *)
Lemma SignRun_rejection l evs out :
  Run l evs out ->
  forall i a e,
    nth_error (signAttempts evs) i = Some a ->
    failedWith a = Some e ->
    isUserRejection e = true ->
    out = Throw ApiUserRejectsError /\ List.length (signAttempts evs) = S i.
Proof.
  induction 1 as [l Hc | l t o m c evs out Hi Ha Ho Hm Hr IH
                 | l t o e Hi Ha Ho He | l t o e evs out Hi Ha Ho He Hr IH];
    intros i a e' Hnth Hfail Hrej; attempts.
  - destruct i; discriminate.
  - destruct i as [| i]; cbn in Hnth.
    + inversion Hnth; subst. discriminate.
    + destruct (IH i a e' Hnth Hfail Hrej) as [H1 H2]. split; [exact H1 | lia].
  - destruct i as [| i]; cbn in Hnth; [auto |]. destruct i; discriminate.
  - destruct i as [| i]; cbn in Hnth.
    + inversion Hnth; subst. cbn in Hfail. inversion Hfail; subst. congruence.
    + destruct (IH i a e' Hnth Hfail Hrej) as [H1 H2]. split; [exact H1 | lia].
Qed.

(** While there is work and budget, the next attempt is for the request at
    [index]. *)
Lemma SignRun_next l evs out options :
  Run l evs out ->
  index l < N -> attempt l < attempts ->
  nth_error (preparedOptions p) (index l) = Some options ->
  exists outcome, nth_error (signAttempts evs) 0 = Some (options, outcome).
Proof.
  intros Hrun Hi Ha Hopt.
  destruct Hrun as [l Hc | l t o m c evs out _ _ Ho Hm Hr
                   | l t o e _ _ Ho He | l t o e evs out _ _ Ho He Hr]; attempts.
  - apply exit_condition in Hc. lia.
  - exists (inr c). congruence.
  - exists (inl e). congruence.
  - exists (inl e). congruence.
Qed.

(** Only prepared requests are sent to the device. *)
Lemma SignRun_attempts_prepared l evs out :
  Run l evs out ->
  forall a, In a (signAttempts evs) ->
  exists i, nth_error (preparedOptions p) i = Some (fst a).
Proof.
  induction 1 as [l Hc | l t o m c evs out Hi Ha Ho Hm Hr IH
                 | l t o e Hi Ha Ho He | l t o e evs out Hi Ha Ho He Hr IH];
    intros a Hin; attempts.
  - contradiction.
  - destruct Hin as [<- | Hin]; [exists (index l); exact Ho | auto].
  - destruct Hin as [<- | []]. exists (index l). exact Ho.
  - destruct Hin as [<- | Hin]; [exists (index l); exact Ho | auto].
Qed.

(** After a failure that is not a rejection, the next attempt, if the
    budget allows one, is for the same request. *)
Lemma SignRun_retry_same l evs out :
  Run l evs out ->
  forall i request e,
    nth_error (signAttempts evs) i = Some (request, inl e) ->
    isUserRejection e = false ->
    attempt l + S i < attempts ->
    exists outcome, nth_error (signAttempts evs) (S i) = Some (request, outcome).
Proof.
  induction 1 as [l Hc | l t o m c evs out Hi Ha Ho Hm Hr IH
                 | l t o e Hi Ha Ho He | l t o e evs out Hi Ha Ho He Hr IH];
    intros i request e' Hnth Hrej Hbudget; attempts.
  - destruct i; discriminate.
  - destruct i as [| i]; cbn in Hnth; [discriminate |].
    apply (IH i request e' Hnth Hrej). cbn. lia.
  - destruct i as [| i]; cbn in Hnth.
    + inversion Hnth; subst. congruence.
    + destruct i; discriminate.
  - destruct i as [| i]; cbn in Hnth.
    + inversion Hnth; subst.
      apply (SignRun_next _ _ _ request Hr); cbn; [exact Hi | lia | exact Ho].
    + apply (IH i request e' Hnth Hrej). cbn. lia.
Qed.

End SignRunFacts.

(** ** signLedgerTransactions, end to end *)

Section Returned.

Context {ton : TonCore} {repo : Repo}.

Variables (messages : list ApiDappTransfer) (p : Prepared) (attempts : nat).


(** What is returned is what was signed, in the order it was signed. *)
Lemma SignRun_returns_signed l evs signed :
  SignRun messages p attempts l evs (Ret signed) ->
  map signed_base64 signed
    = map signed_base64 (signedMessages l) ++ signedBy (signAttempts evs).
Proof.
  remember (Ret signed) as out eqn:Hout. intros Hrun. revert Hout.
  induction Hrun as [l Hc | l t o m c evs out Hi Ha Ho Hm Hr IH
                    | l t o e Hi Ha Ho He | l t o e evs out Hi Ha Ho He Hr IH];
    intros Hout; cbn [signAttempts signedBy].
  - inversion Hout; subst. rewrite app_nil_r. reflexivity.
  - rewrite (IH Hout). cbn [signedMessages]. rewrite map_app, <- app_assoc. reflexivity.
  - discriminate.
  - rewrite (IH Hout). reflexivity.
Qed.

End Returned.

Section BatchSigner.

Context {ton : TonCore} {repo : Repo} (env : Env).

Lemma map_seq_ext {A B} (f : A -> B) (g : nat -> B) (l : list A) k :
  (forall i x, nth_error l i = Some x -> f x = g (k + i)) ->
  map f l = map g (seq k (List.length l)).
Proof.
  revert k. induction l as [| x l IH]; intros k H; cbn; [reflexivity |].
  f_equal.
  - rewrite (H 0 x eq_refl). f_equal. lia.
  - apply IH. intros i y Hy. rewrite (H (S i) y Hy). f_equal. lia.
Qed.

(** The two ways a run can go: the preparation throws and nothing is
    signed, or the loop runs over the prepared requests. *)
Lemma signLedgerTransactions_cases fuel accountId messages seqno' st out st' :
  signLedgerTransactions env fuel accountId messages seqno' st = (out, st') ->
  ATTEMPTS + List.length messages < fuel ->
  (exists e,
      prepareLedgerTransactions env accountId messages seqno' st = (Throw e, st')
      /\ out = Throw e
      /\ signAttempts (newEvents st st') = [])
  \/ (exists p st1 evs,
         prepareLedgerTransactions env accountId messages seqno' st = (Ret p, st1)
         /\ List.length (preparedOptions p) = List.length messages
         /\ signAttempts (newEvents st st') = signAttempts evs
         /\ SignRun messages p (ATTEMPTS + List.length messages) (mkSignLoop 0 0 []) evs out).
Proof.
  intros Hrun Hfuel. unfold signLedgerTransactions, bind in Hrun.
  destruct (prepareLedgerTransactions env accountId messages seqno' st)
    as [[p | e |] st1] eqn:Hprep.
  - right.
    destruct (Quiet_run _ _ _ _ (Quiet_prepareLedgerTransactions env _ _ _) Hprep)
      as (evs0 & Hh0 & Hs0 & _).
    destruct (prepareLedgerTransactions_Ret env _ _ _ _ _ _ Hprep) as (Hlen & _).
    unfold signPrepared in Hrun. rewrite Hlen in Hrun.
    apply loop_SignRun in Hrun; [| symmetry; exact Hlen | cbn [attempt]; lia].
    destruct Hrun as (evs & Hh & _ & _ & Hrun).
    exists p, st1, evs. repeat split; auto.
    rewrite Hh0, <- app_assoc in Hh.
    rewrite (newEvents_app _ _ _ Hh), signAttempts_app, Hs0. reflexivity.
  - left. inversion Hrun; subst. exists e.
    destruct (Quiet_run _ _ _ _ (Quiet_prepareLedgerTransactions env _ _ _) Hprep)
      as (evs0 & Hh0 & Hs0 & _).
    repeat split. rewrite (newEvents_app _ _ _ Hh0). exact Hs0.
  - exfalso.
    destruct (Quiet_run _ _ _ _ (Quiet_prepareLedgerTransactions env _ _ _) Hprep)
      as (evs0 & _ & _ & _ & _ & Hd).
    contradiction.
Qed.

(** The sequence numbers of the prepared requests. *)
Lemma prepared_seqnos accountId messages seqno' st p st1 :
  prepareLedgerTransactions env accountId messages seqno' st = (Ret p, st1) ->
  map seqno (preparedOptions p)
    = map (fun i => jsAdd (prep_seqno p) (Z.of_nat i)) (seq 0 (List.length messages)).
Proof.
  intros Hprep.
  destruct (prepareLedgerTransactions_Ret env _ _ _ _ _ _ Hprep) as (Hlen & _ & Hnth).
  rewrite <- Hlen. apply map_seq_ext. intros i request Hreq. cbn.
  destruct (nth_error messages i) as [message |] eqn:Hmsg.
  - destruct (Hnth i message request Hmsg Hreq) as (Hseq & _). exact Hseq.
  - apply nth_error_None in Hmsg.
    assert (i < List.length (preparedOptions p)) by (apply nth_error_Some; congruence).
    lia.
Qed.

(** In the range where every integer is a double the prepared sequence
    numbers are the sums themselves. *)
Lemma seqnos_exact (S0 : Z) n :
  (- TWO_53 <= S0)%Z -> (S0 + Z.of_nat n <= TWO_53)%Z ->
  map (fun i => jsAdd (Some S0) (Z.of_nat i)) (seq 0 n)
  = map (fun i => Some (S0 + Z.of_nat i)%Z) (seq 0 n).
Proof.
  intros Hlo Hhi. apply map_ext_in. intros i Hi. apply in_seq in Hi.
  apply jsAdd_exact. lia.
Qed.

(** A run whose preparation returned: what the loop added to the history. *)
Lemma signLedgerTransactions_loop fuel accountId messages seqno' st p st1 out st' :
  prepareLedgerTransactions env accountId messages seqno' st = (Ret p, st1) ->
  signLedgerTransactions env fuel accountId messages seqno' st = (out, st') ->
  ATTEMPTS + List.length messages < fuel ->
  exists evs0 evs,
    history st1 = history st ++ evs0
    /\ signAttempts evs0 = []
    /\ history st' = history st1 ++ evs
    /\ newEvents st st' = evs0 ++ evs
    /\ List.length (preparedOptions p) = List.length messages
    /\ SignRun messages p (ATTEMPTS + List.length messages) (mkSignLoop 0 0 []) evs out.
Proof.
  intros Hprep Hrun Hfuel.
  unfold signLedgerTransactions in Hrun. rewrite (bind_eq _ _ _ _ _ Hprep) in Hrun.
  destruct (Quiet_run _ _ _ _ (Quiet_prepareLedgerTransactions env _ _ _) Hprep)
    as (evs0 & Hh0 & Hs0 & _).
  destruct (prepareLedgerTransactions_Ret env _ _ _ _ _ _ Hprep) as (Hlen & _).
  unfold signPrepared in Hrun. rewrite Hlen in Hrun.
  apply loop_SignRun in Hrun; [| symmetry; exact Hlen | cbn [attempt]; lia].
  destruct Hrun as (evs & Hh & _ & _ & Hrun).
  exists evs0, evs. repeat split; auto.
  apply (newEvents_chain _ _ _ _ _ Hh0 Hh).
Qed.

(** Every attempt of a run counts against the budget. *)
Lemma signLedgerTransactions_attempts_bounded fuel accountId messages seqno' st out st' :
  signLedgerTransactions env fuel accountId messages seqno' st = (out, st') ->
  ATTEMPTS + List.length messages < fuel ->
  List.length (signAttempts (newEvents st st')) <= ATTEMPTS + List.length messages.
Proof.
  intros Hrun Hfuel.
  destruct (signLedgerTransactions_cases _ _ _ _ _ _ _ Hrun Hfuel)
    as [(e' & _ & _ & Hnone) | (p & st1 & evs & _ & _ & Hatt & Hsr)].
  - rewrite Hnone. cbn. lia.
  - rewrite Hatt.
    pose proof (SignRun_attempts _ _ _ _ _ _ Hsr ltac:(cbn [attempt]; lia)) as Hbound.
    exact Hbound.
Qed.

(** C1, as the code has it.  For every batch of N requests and every
    starting sequence number S the caller gives that is not 0 and lies
    where every integer is a double (-2^53 <= S and S + N <= 2^53): when
    the preparation returns, request i is prepared with sequence number
    S + i; and when every signing attempt of the run succeeds, the device
    is asked exactly once for each request, in the order of the batch, and
    the run returns exactly N signed transfers, the i-th holding what the
    device signed for request i, with the sequence numbers S, S+1, ...,
    S+N-1 in that order.  (A caller's 0 counts as absent, and from 2^53 on
    the sums are rounded: there the claim fails.) *)
Theorem signLedgerTransactions_contiguous_seqnos
  fuel accountId messages (S0 : Z) st p st1 out st' :
  prepareLedgerTransactions env accountId messages (Some S0) st = (Ret p, st1) ->
  signLedgerTransactions env fuel accountId messages (Some S0) st = (out, st') ->
  ATTEMPTS + List.length messages < fuel ->
  S0 <> 0%Z ->
  (- TWO_53 <= S0)%Z ->
  (S0 + Z.of_nat (List.length messages) <= TWO_53)%Z ->
  (forall a, In a (signAttempts (newEvents st st')) -> succeeded a) ->
  map seqno (preparedOptions p)
  = map (fun i => Some (S0 + Z.of_nat i)%Z) (seq 0 (List.length messages))
  /\ map fst (signAttempts (newEvents st st')) = preparedOptions p
  /\ exists signed,
       out = Ret signed
       /\ List.length signed = List.length messages
       /\ map signed_seqno signed
          = map (fun i => Some (S0 + Z.of_nat i)%Z) (seq 0 (List.length messages))
       /\ map signed_base64 signed = signedBy (signAttempts (newEvents st st')).
Proof.
  intros Hprep Hrun Hfuel Hnz Hlo Hhi Hok.
  destruct (prepareLedgerTransactions_Ret env _ _ _ _ _ _ Hprep) as (Hlen & Hsup & _).
  specialize (Hsup S0 eq_refl Hnz).
  pose proof (prepared_seqnos _ _ _ _ _ _ Hprep) as Hseq.
  rewrite Hsup, (seqnos_exact _ _ Hlo Hhi) in Hseq.
  destruct (signLedgerTransactions_loop _ _ _ _ _ _ _ _ _ Hprep Hrun Hfuel)
    as (evs0 & evs & _ & Hs0 & _ & Hnew & _ & Hsr).
  rewrite Hnew, signAttempts_app, Hs0 in *. cbn [app] in *.
  assert (failures (signAttempts evs) = 0) as Hnone.
  { clear - Hok. induction (signAttempts evs) as [| [r [e | c]] l IH]; cbn; auto.
    - exfalso. apply (Hok (r, inl e)). left. reflexivity.
    - apply IH. intros a Ha. apply Hok. right. exact Ha. }
  destruct (SignRun_complete _ _ _ _ _ _ Hsr (SignInv_start p)) as (signed & H1 & H2 & H3 & _).
  { intros a e Hin Hfail. specialize (Hok a Hin).
    unfold succeeded, failedWith in *. destruct (snd a); [contradiction | discriminate]. }
  { cbn [index attempt]. rewrite Hnone. lia. }
  split; [exact Hseq |]. split.
  - apply (SignRun_all_signed _ _ _ _ _ _ Hsr Hok); cbn [index attempt]; lia.
  - exists signed. subst out. repeat split; try congruence.
    apply (SignRun_returns_signed _ _ _ _ _ _ Hsr).
Qed.

(** C2. When a signing attempt fails with an error that carries the
    device's "user declined" status code, the run throws
    ApiUserRejectsError -- so it returns no list, not even a partial one --
    and that attempt is the last: nothing is signed or retried after it. *)
Theorem signLedgerTransactions_user_rejection
  fuel accountId messages seqno' st out st' i a e :
  signLedgerTransactions env fuel accountId messages seqno' st = (out, st') ->
  ATTEMPTS + List.length messages < fuel ->
  nth_error (signAttempts (newEvents st st')) i = Some a ->
  failedWith a = Some e ->
  statusCodeOf e = Some CONDITIONS_OF_USE_NOT_SATISFIED ->
  out = Throw ApiUserRejectsError
  /\ List.length (signAttempts (newEvents st st')) = S i.
Proof.
  intros Hrun Hfuel Hnth Hfail Hcode.
  destruct (signLedgerTransactions_cases _ _ _ _ _ _ _ Hrun Hfuel)
    as [(e' & _ & _ & Hnone) | (p & st1 & evs & _ & _ & Hatt & Hsr)].
  - rewrite Hnone in Hnth. destruct i; discriminate.
  - rewrite Hatt in *.
    apply (SignRun_rejection _ _ _ _ _ _ Hsr i a e Hnth Hfail).
    unfold isUserRejection. rewrite Hcode. apply Z.eqb_refl.
Qed.


(** One turn of the loop body on a failure that is not a rejection: the
    error is logged, [index] and the signed list stay, [attempt] goes up
    by one. *)
Lemma signLoopBody_transient messages p attempts l st options t err :
  index l < List.length (preparedOptions p) ->
  attempt l < attempts ->
  nth_error (preparedOptions p) (index l) = Some options ->
  tonTransport st = Some t ->
  ton_signTransaction env (history st) t (prep_path p) options = inl err ->
  isUserRejection err = false ->
  signLoopBody env messages p attempts l st
  = (Ret (Continue (mkSignLoop (index l) (S (attempt l)) (signedMessages l))),
     mkState (history st
                ++ [EvSign (Some t) (prep_path p) options (inl err);
                    EvLog "signLedgerTransactions" (Some err)])
             (transport st) (tonTransport st)).
Proof.
  intros Hi Ha Hopt Htt Hsign Hrej. unfold signLoopBody.
  apply Nat.ltb_lt in Hi. apply Nat.ltb_lt in Ha. rewrite Hi, Ha, Hopt. cbn [andb].
  unfold bind, tryCatch, tonTransport_signTransaction, external. rewrite Htt, Hsign. cbn.
  rewrite Hrej. cbn. rewrite <- app_assoc, Htt. reflexivity.
Qed.

(** C3. A signing attempt that fails with an error other than the user's
    rejection leaves [index] and the signed list as they were and adds one
    to [attempt]; the next attempt, when the budget allows one, is for the
    same request; every attempt counts against the budget of ATTEMPTS + N.
    In particular, when exactly one attempt of a run fails, and not by a
    rejection, the run still returns N signed transfers, after N + 1
    attempts, and their sequence numbers are those of the N requests, in
    order: S, ..., S+N-1 where every integer is a double (-2^53 <= S and
    S + N <= 2^53). *)
Theorem signLedgerTransactions_transient_retry
  fuel accountId messages seqno' st out st' :
  signLedgerTransactions env fuel accountId messages seqno' st = (out, st') ->
  ATTEMPTS + List.length messages < fuel ->
  (forall p attempts l s options t err,
      index l < List.length (preparedOptions p) ->
      attempt l < attempts ->
      nth_error (preparedOptions p) (index l) = Some options ->
      tonTransport s = Some t ->
      ton_signTransaction env (history s) t (prep_path p) options = inl err ->
      isUserRejection err = false ->
      signLoopBody env messages p attempts l s
      = (Ret (Continue (mkSignLoop (index l) (S (attempt l)) (signedMessages l))),
         mkState (history s
                    ++ [EvSign (Some t) (prep_path p) options (inl err);
                        EvLog "signLedgerTransactions" (Some err)])
                 (transport s) (tonTransport s)))
  /\ (forall i request e,
        nth_error (signAttempts (newEvents st st')) i = Some (request, inl e) ->
        isUserRejection e = false ->
        S i < ATTEMPTS + List.length messages ->
        exists outcome,
          nth_error (signAttempts (newEvents st st')) (S i) = Some (request, outcome))
  /\ List.length (signAttempts (newEvents st st')) <= ATTEMPTS + List.length messages
  /\ (forall p st1,
        prepareLedgerTransactions env accountId messages seqno' st = (Ret p, st1) ->
        failures (signAttempts (newEvents st st')) = 1 ->
        (forall a e,
            In a (signAttempts (newEvents st st')) ->
            failedWith a = Some e -> isUserRejection e = false) ->
        exists signed,
          out = Ret signed
          /\ List.length signed = List.length messages
          /\ map signed_seqno signed = map seqno (preparedOptions p)
          /\ (forall S0,
                prep_seqno p = Some S0 ->
                (- TWO_53 <= S0)%Z ->
                (S0 + Z.of_nat (List.length messages) <= TWO_53)%Z ->
                map signed_seqno signed
                = map (fun i => Some (S0 + Z.of_nat i)%Z) (seq 0 (List.length messages)))
          /\ List.length (signAttempts (newEvents st st')) = S (List.length messages)).
Proof.
  intros Hrun Hfuel. split; [| split; [| split]].
  - intros p attempts l s options t err Hi Ha Hopt Htt Hsign Hrej.
    apply signLoopBody_transient; assumption.
  - intros i request e Hnth Hrej Hbudget.
    destruct (signLedgerTransactions_cases _ _ _ _ _ _ _ Hrun Hfuel)
      as [(e' & _ & _ & Hnone) | (p & st1 & evs & _ & _ & Hatt & Hsr)].
    + rewrite Hnone in Hnth. destruct i; discriminate.
    + rewrite Hatt in *.
      apply (SignRun_retry_same _ _ _ _ _ _ Hsr i request e Hnth Hrej). cbn [attempt]. lia.
  - exact (signLedgerTransactions_attempts_bounded _ _ _ _ _ _ _ Hrun Hfuel).
  - intros p st1 Hprep Hone Hok.
    pose proof (prepared_seqnos _ _ _ _ _ _ Hprep) as Hseq.
    destruct (signLedgerTransactions_cases _ _ _ _ _ _ _ Hrun Hfuel)
      as [(e' & Hthrow & _) | (p' & st1' & evs & Hprep' & Hlen & Hatt & Hsr)];
      [congruence |].
    rewrite Hprep in Hprep'. inversion Hprep'; subst p' st1'. clear Hprep'.
    rewrite Hatt in *.
    destruct (SignRun_complete _ _ _ _ _ _ Hsr (SignInv_start p) Hok)
      as (signed & H1 & H2 & H3 & H4).
    + cbn [index attempt]. rewrite Hone. unfold ATTEMPTS. lia.
    + exists signed. cbn [index] in H4.
      split; [exact H1 |]. split; [congruence |]. split; [exact H3 |].
      split; [| lia].
      intros S0 HS Hlo Hhi.
      rewrite H3, Hseq, HS. apply seqnos_exact; assumption.
Qed.

Lemma external_inv {A} (oracle : History -> Thrown + A) (ev : Thrown + A -> Event)
  (st : State) out st' :
  external oracle ev st = (out, st') ->
  history st' = history st ++ [ev (oracle (history st))]
  /\ match oracle (history st) with
     | inl e => out = Throw e
     | inr a => out = Ret a
     end.
Proof.
  unfold external, bind, record. cbn.
  destruct (oracle (history st)); cbn; intros H; inversion H; subst; cbn; auto.
Qed.

Lemma firstn_seq_le k n : forall a, k <= n -> firstn k (seq a n) = seq a k.
Proof.
  revert n. induction k as [| k IH]; intros [| n] a H; cbn; try reflexivity; try lia.
  f_equal. apply IH. lia.
Qed.

(** C9. A call with the starting sequence number 0 is the same run as a
    call with no sequence number: the check [!seqno] takes 0 for absent.
    In such a run, once the account's path and address are there, the
    backend is asked for the sequence number ([getWalletSeqno]), and what
    it answers is where the batch starts: every request that reaches the
    device is numbered from the answer, by its position in the batch, the
    first request of a batch that is not empty reaches the device with
    the answer itself, and so are the signed transfers that are returned.
    The caller's 0 is not used. *)
Theorem signLedgerTransactions_zero_seqno_is_absent fuel accountId messages st :
  signLedgerTransactions env fuel accountId messages (Some 0%Z) st
  = signLedgerTransactions env fuel accountId messages None st
  /\ forall p st1 out st',
       prepareLedgerTransactions env accountId messages (Some 0%Z) st = (Ret p, st1) ->
       signLedgerTransactions env fuel accountId messages (Some 0%Z) st = (out, st') ->
       ATTEMPTS + List.length messages < fuel ->
       answered st (newEvents st st') (fun h => api_getWalletSeqno env h accountId)
         (EvApi (GetWalletSeqno accountId) None) (prep_seqno p)
       /\ (forall i a,
             nth_error (signAttempts (newEvents st st')) i = Some a ->
             seqno (fst a)
             = jsAdd (prep_seqno p)
                 (Z.of_nat (successes (firstn i (signAttempts (newEvents st st'))))))
       /\ (messages <> [] ->
           exists a rest,
             signAttempts (newEvents st st') = a :: rest
             /\ seqno (fst a) = jsAdd (prep_seqno p) 0)
       /\ (forall signed,
             out = Ret signed ->
             map signed_seqno signed
             = map (fun i => jsAdd (prep_seqno p) (Z.of_nat i))
                 (seq 0 (List.length signed))).
Proof.
  split; [reflexivity |].
  intros p st1 out st' Hprep Hrun Hfuel.
  destruct (prepareLedgerTransactions_asked env _ _ _ _ _ _ Hprep)
    as (evs0' & Hh0' & _ & _ & Hasked).
  cbn [falsyNumber Z.eqb] in Hasked.
  destruct (prepareLedgerTransactions_Ret env _ _ _ _ _ _ Hprep) as (_ & _ & Hfrom).
  pose proof (prepared_seqnos _ _ _ _ _ _ Hprep) as Hseq.
  destruct (signLedgerTransactions_loop _ _ _ _ _ _ _ _ _ Hprep Hrun Hfuel)
    as (evs0 & evs & Hh0 & Hs0 & _ & Hnew & Hlen & Hsr).
  rewrite Hh0 in Hh0'. apply app_inv_head in Hh0'. subst evs0'.
  rewrite Hnew, signAttempts_app, Hs0. cbn [app].
  split; [apply answered_more; exact Hasked |]. split; [| split].
  - intros i a Hnth.
    pose proof (SignRun_in_order _ _ _ _ _ _ Hsr i a Hnth) as Hreq.
    cbn [index Nat.add] in Hreq.
    destruct (nth_error messages (successes (firstn i (signAttempts evs))))
      as [message |] eqn:Hmsg.
    + destruct (Hfrom _ message (fst a) Hmsg Hreq) as (Hnum & _). exact Hnum.
    + apply nth_error_None in Hmsg.
      assert (successes (firstn i (signAttempts evs)) < List.length (preparedOptions p))
        by (apply nth_error_Some; congruence).
      lia.
  - intros Hsome.
    assert (0 < List.length messages) as Hpos by (destruct messages; [congruence | cbn; lia]).
    destruct (SignRun_starts _ _ _ _ _ _ Hsr) as (a & rest & Hatt & Hreq);
      cbn [index attempt]; try lia.
    exists a, rest. split; [exact Hatt |].
    destruct messages as [| message messages']; [congruence |].
    destruct (Hfrom 0 message (fst a) eq_refl Hreq) as (Hnum & _). exact Hnum.
  - intros signed ->.
    destruct (SignRun_returns _ _ _ _ _ _ Hsr (SignInv_start p)) as (Hle & Hnums & _).
    rewrite Hnums, <- firstn_map, Hseq, firstn_map, firstn_seq_le by lia. reflexivity.
Qed.

End BatchSigner.

(** ** submitLedgerTransfer *)

Section SingleTransfer.

Context {ton : TonCore} {repo : Repo} (env : Env).

Lemma whenTruthy_truthy s : truthy s = true <-> exists x, whenTruthy s = Some x.
Proof.
  unfold whenTruthy. destruct (truthy s) eqn:H; split; intros H'; try discriminate.
  - destruct s as [x |]; [exists x; reflexivity | discriminate].
  - reflexivity.
  - destruct H' as [x Hx]. discriminate.
Qed.

(** What [buildLedgerTokenTransfer] has checked when it returns. *)
Lemma buildLedgerTokenTransfer_Ret network tokenAddress fromAddress toAddress amount' comment
  st built st' :
  buildLedgerTokenTransfer env network tokenAddress fromAddress toAddress amount' comment st
  = (Ret built, st') ->
  (exists h wallet,
      api_resolveTokenMinterAddress env h network wallet = inr (Some tokenAddress))
  /\ tt_amount built = TOKEN_TRANSFER_TONCOIN_AMOUNT
  /\ exists destination responseDestination,
       tt_payload built
       = LedgerJettonTransfer 0 amount' destination responseDestination None
           TOKEN_TRANSFER_TONCOIN_FORWARD_AMOUNT
           (option_map buildCommentPayload (whenTruthy comment)).
Proof.
  unfold buildLedgerTokenTransfer. intros Hrun.
  apply bind_Ret_inv in Hrun as (wallet & s1 & H1 & Hrun).
  apply bind_Ret_inv in Hrun as (real & s2 & H2 & Hrun).
  apply external_inv in H2 as [_ Hans].
  destruct (api_resolveTokenMinterAddress env (history s1) network wallet)
    as [err | answer] eqn:Hapi; [discriminate |].
  inversion Hans; subst real.
  destruct answer as [real |]; [| discriminate].
  destruct (String.eqb_spec tokenAddress real) as [<- | Hne]; [| discriminate].
  monad_inv. cbn. split; [exists (history s1), wallet; exact Hapi |].
  split; [reflexivity |]. eauto.
Qed.

(** What [normalizeTransfer] does with a comment when no token is involved. *)
Lemma normalizeTransfer_comment network fromAddress options isBounceable' text st :
  whenTruthy (opt_tokenAddress options) = None ->
  whenTruthy (opt_comment options) = Some text ->
  normalizeTransfer env network fromAddress options isBounceable' st
  = (if isValidLedgerComment text
     then Ret (mkTransfer (Some (opt_toAddress options)) (opt_amount options)
                 (Some (LedgerComment text)) isBounceable')
     else Throw (JsError "Unsupported format"),
     st).
Proof.
  intros Htok Hcom. unfold normalizeTransfer. rewrite Htok, Hcom.
  destruct (isValidLedgerComment text); reflexivity.
Qed.

Lemma normalizeTransfer_Ret network fromAddress options isBounceable' st t st' :
  normalizeTransfer env network fromAddress options isBounceable' st = (Ret t, st') ->
  normalizedFrom env options t.
Proof.
  unfold normalizeTransfer, normalizedFrom. intros Hrun.
  destruct (whenTruthy (opt_tokenAddress options)) as [tokenAddress |].
  - apply bind_Ret_inv in Hrun as (built & s1 & Hbuilt & Hrun).
    inversion Hrun; subst; clear Hrun. cbn.
    apply buildLedgerTokenTransfer_Ret in Hbuilt as (Hminter & Hamount & d & r & Hpay).
    rewrite Hpay. repeat split; eauto.
    destruct Hminter as (h & wallet & Hminter). exists h, network, wallet. exact Hminter.
  - destruct (whenTruthy (opt_comment options)) as [text |].
    + destruct (isValidLedgerComment text) eqn:Hvalid; [| discriminate].
      inversion Hrun; subst. cbn. auto.
    + inversion Hrun; subst. cbn. auto.
Qed.

Lemma prepareLedgerTransfer_Ret options st s st' :
  prepareLedgerTransfer env options st = (Ret s, st') ->
  (exists parsed, Address_parseFriendly (opt_toAddress options) = inr parsed)
  /\ normalizedFrom env options (sub_transfer s).
Proof.
  unfold prepareLedgerTransfer. intros Hrun.
  apply bind_Ret_inv in Hrun as (network & s1 & _ & Hrun).
  apply bind_Ret_inv in Hrun as (? & s2 & _ & Hrun).
  apply bind_Ret_inv in Hrun as (fromAddress & s3 & _ & Hrun).
  apply bind_Ret_inv in Hrun as ([path walletInfo] & s5 & _ & Hrun).
  destruct walletInfo as [info |]; [| discriminate].
  apply bind_Ret_inv in Hrun as (parsed & s6 & Hparse & Hrun).
  apply bind_Ret_inv in Hrun as (t & s7 & Hnorm & Hrun).
  inversion Hrun; subst; clear Hrun. cbn.
  split.
  - destruct (Address_parseFriendly (opt_toAddress options)) as [e | f]; [discriminate |].
    exists f. reflexivity.
  - eapply normalizeTransfer_Ret. exact Hnorm.
Qed.

(** The signing call makes at most one attempt, for the transfer it was
    given; a failed attempt is what the call throws. *)
Lemma signTransfer_run path sendMode' seqno' t st out st' :
  signTransfer env path sendMode' seqno' t st = (out, st') ->
  out <> Diverge
  /\ exists evs,
       history st' = history st ++ evs
       /\ (signAttempts evs = []
           \/ exists to' timeout' outcome,
                signAttempts evs
                = [(mkSigningRequest to' sendMode' seqno' timeout' (tr_isBounceable t)
                      (tr_amount t) (tr_payload t) None, outcome)]
                /\ match outcome with
                   | inl e => out = Throw e
                   | inr cell => out = Ret cell
                   end).
Proof.
  unfold signTransfer. intros H.
  unfold bind at 1 in H. unfold getTonTransport at 1 in H.
  destruct (tonTransport st) as [live |] eqn:Hlive.
  2:{ inversion H; subst. split; [discriminate |].
      exists []. rewrite app_nil_r. auto. }
  unfold bind at 1 in H.
  destruct (parseOptionalAddress (tr_toAddress t) st) as [[to' | e |] s1] eqn:Hparse.
  - destruct (Quiet_run _ _ _ _ (Quiet_parseOptionalAddress _) Hparse)
      as (e1 & Hh1 & Hs1 & _ & Htt1 & _).
    unfold bind at 1 in H.
    destruct (getTransferExpirationTime env s1) as [[timeout' | e |] s2] eqn:Htime.
    + destruct (Quiet_run _ _ _ _ (Quiet_getTransferExpirationTime env) Htime)
        as (e2 & Hh2 & Hs2 & _ & Htt2 & _).
      unfold tonTransport_signTransaction in H. rewrite Htt2, Htt1, Hlive in H.
      apply external_inv in H as [Hh3 Hans].
      remember (ton_signTransaction env (history s2) live path _) as outcome eqn:Hout.
      clear Hout. split.
      * destruct outcome; subst; discriminate.
      * eexists. split.
        { rewrite Hh3, Hh2, Hh1, <- !app_assoc. reflexivity. }
        right. rewrite !signAttempts_app, Hs1, Hs2. cbn [signAttempts app].
        eexists _, _, _. split; [reflexivity |]. exact Hans.
    + destruct (Quiet_run _ _ _ _ (Quiet_getTransferExpirationTime env) Htime)
        as (e2 & Hh2 & Hs2 & _).
      inversion H; subst. split; [discriminate |].
      exists (e1 ++ e2). rewrite Hh2, Hh1, app_assoc, signAttempts_app, Hs1, Hs2. auto.
    + destruct (Quiet_run _ _ _ _ (Quiet_getTransferExpirationTime env) Htime)
        as (e2 & _ & _ & _ & _ & Hd).
      contradiction.
  - destruct (Quiet_run _ _ _ _ (Quiet_parseOptionalAddress _) Hparse)
      as (e1 & Hh1 & Hs1 & _).
    inversion H; subst. split; [discriminate |]. exists e1. auto.
  - destruct (Quiet_run _ _ _ _ (Quiet_parseOptionalAddress _) Hparse)
      as (e1 & _ & _ & _ & _ & Hd).
    contradiction.
Qed.

(** The ways a run of [submitLedgerTransfer] can go: the part before the
    [try] throws, or the signing call throws, or the broadcast throws,
    or everything succeeds. *)
Lemma submitLedgerTransfer_cases options slug localTransactionParams st out st' :
  submitLedgerTransfer env options slug localTransactionParams st = (out, st') ->
  (exists e,
      prepareLedgerTransfer env options st = (Throw e, st')
      /\ out = Throw e
      /\ signAttempts (newEvents st st') = [])
  \/ (exists s st1 signing st2,
         prepareLedgerTransfer env options st = (Ret s, st1)
         /\ signTransfer env (sub_path s) (sub_sendMode s) (sub_seqno s) (sub_transfer s) st1
            = (signing, st2)
         /\ signAttempts (newEvents st st') = signAttempts (newEvents st1 st2)
         /\ match signing with
            | Throw e =>
                out = Ret None
                /\ history st' = history st2 ++ [EvLog "submitLedgerTransfer" (Some e)]
            | Ret signedCell =>
                let message := signedMessageOf options slug localTransactionParams s signedCell in
                match api_sendSignedTransferMessage env (history st2) (opt_accountId options)
                        message with
                | inl e =>
                    out = Ret None
                    /\ history st'
                       = history st2
                           ++ [EvApi (SendSignedTransferMessage (opt_accountId options) message)
                                 (Some e);
                               EvLog "submitLedgerTransfer" (Some e)]
                | inr result =>
                    out = Ret result
                    /\ history st'
                       = history st2
                           ++ [EvApi (SendSignedTransferMessage (opt_accountId options) message)
                                 None]
                end
            | Diverge => False
            end).
Proof.
  intros Hrun. unfold submitLedgerTransfer in Hrun. unfold bind at 1 in Hrun.
  destruct (prepareLedgerTransfer env options st) as [[s | e |] st1] eqn:Hprep;
    destruct (Quiet_run _ _ _ _ (Quiet_prepareLedgerTransfer env _) Hprep)
      as (e0 & Hh0 & Hs0 & _ & _ & Hd0); [| | contradiction].
  2:{ left. inversion Hrun; subst. exists e. repeat split.
      rewrite (newEvents_app _ _ _ Hh0). exact Hs0. }
  right. unfold tryCatch, signAndSend in Hrun. unfold bind at 1 in Hrun.
  destruct (signTransfer env (sub_path s) (sub_sendMode s) (sub_seqno s) (sub_transfer s) st1)
    as [signing st2] eqn:Hsign.
  destruct (signTransfer_run _ _ _ _ _ _ _ Hsign) as (Hd & evs & Hh & _).
  exists s, st1, signing, st2. split; [reflexivity |]. split; [exact Hsign |].
  rewrite (newEvents_app _ _ _ Hh).
  assert (forall after tail,
             history after = history st2 ++ tail -> signAttempts tail = [] ->
             signAttempts (newEvents st after) = signAttempts evs) as Hquiet.
  { intros after tail Hafter Htail.
    rewrite Hh in Hafter. rewrite <- app_assoc in Hafter.
    rewrite (newEvents_chain _ _ _ _ _ Hh0 Hafter), !signAttempts_app, Hs0, Htail, app_nil_r.
    reflexivity. }
  destruct signing as [signedCell | e |]; [| | contradiction].
  - destruct (callApi_sendSignedTransferMessage env (opt_accountId options)
                (signedMessageOf options slug localTransactionParams s signedCell) st2)
      as [sent st3] eqn:Hsend.
    apply external_inv in Hsend as [Hh3 Hans]. cbv zeta.
    destruct (api_sendSignedTransferMessage env (history st2) (opt_accountId options)
                (signedMessageOf options slug localTransactionParams s signedCell))
      as [e | result]; subst sent.
    + unfold bind, logDebugError, record, ret in Hrun. inversion Hrun; subst; clear Hrun.
      cbn [history]. split.
      * eapply Hquiet; [cbn [history]; rewrite Hh3, <- app_assoc |]; reflexivity.
      * rewrite Hh3, <- app_assoc. auto.
    + inversion Hrun; subst; clear Hrun. split; [| auto].
      eapply Hquiet; [exact Hh3 | reflexivity].
  - unfold bind, logDebugError, record, ret in Hrun. inversion Hrun; subst; clear Hrun.
    cbn [history]. split; [| auto].
    eapply Hquiet; [cbn [history] |]; reflexivity.
Qed.

(** Whatever is sent to the device by [submitLedgerTransfer] was prepared
    before the [try]. *)
Lemma submitLedgerTransfer_attempts options slug localTransactionParams st out st' a :
  submitLedgerTransfer env options slug localTransactionParams st = (out, st') ->
  In a (signAttempts (newEvents st st')) ->
  exists s st1,
    prepareLedgerTransfer env options st = (Ret s, st1)
    /\ bounce (fst a) = tr_isBounceable (sub_transfer s)
    /\ payload (fst a) = tr_payload (sub_transfer s)
    /\ amount (fst a) = tr_amount (sub_transfer s)
    /\ seqno (fst a) = sub_seqno s
    /\ sendMode (fst a) = sub_sendMode s.
Proof.
  intros Hrun Hin.
  destruct (submitLedgerTransfer_cases _ _ _ _ _ _ Hrun)
    as [(e & _ & _ & Hnone) | (s & st1 & signing & st2 & Hprep & Hsign & Hatt & _)].
  - rewrite Hnone in Hin. contradiction.
  - exists s, st1. split; [exact Hprep |].
    destruct (signTransfer_run _ _ _ _ _ _ _ Hsign)
      as (_ & evs & Hh & [Hnone | (to' & timeout' & outcome & Hone & _)]);
      rewrite Hatt, (newEvents_app _ _ _ Hh) in Hin.
    + rewrite Hnone in Hin. contradiction.
    + rewrite Hone in Hin. destruct Hin as [<- | []]. cbn. auto.
Qed.

(** After the part before the [try], the history only grows. *)
Lemma submitLedgerTransfer_extends options slug localTransactionParams st s st1 out st' :
  prepareLedgerTransfer env options st = (Ret s, st1) ->
  submitLedgerTransfer env options slug localTransactionParams st = (out, st') ->
  exists tail,
    history st' = history st1 ++ tail
    /\ forallb (fun ev => negb (asksMinter ev)) tail = true.
Proof.
  intros Hprep Hrun.
  destruct (submitLedgerTransfer_cases _ _ _ _ _ _ Hrun)
    as [(e & Hthrow & _) | (s' & st1' & signing & st2 & Hprep' & Hsign & _ & Hcase)];
    [congruence |].
  rewrite Hprep in Hprep'. inversion Hprep'; subst s' st1'. clear Hprep'.
  assert (exists evs, history st2 = history st1 ++ evs
                      /\ forallb (fun ev => negb (asksMinter ev)) evs = true)
    as (evs & Hh & Hevs).
  { clear - Hsign. unfold signTransfer in Hsign.
    unfold bind at 1 in Hsign. unfold getTonTransport at 1 in Hsign.
    destruct (tonTransport st1) as [live |] eqn:Hlive.
    2:{ inversion Hsign; subst. exists []. rewrite app_nil_r. auto. }
    unfold bind at 1 in Hsign. unfold parseOptionalAddress in Hsign.
    destruct (match tr_toAddress (sub_transfer s) with
              | Some a => lift (Address_parse a)
              | None => throw (TypeError "Address.parse(undefined)")
              end st1) as [[to' | e |] s1] eqn:Hparse.
    - assert (s1 = st1) as ->.
      { destruct (tr_toAddress (sub_transfer s)) as [x |]; [| discriminate].
        destruct (Address_parse x); inversion Hparse; reflexivity. }
      unfold bind at 1 in Hsign. unfold getTransferExpirationTime at 1 in Hsign.
      unfold bind, record, ret in Hsign. cbv beta iota in Hsign.
      unfold tonTransport_signTransaction in Hsign. cbn [tonTransport] in Hsign.
      rewrite Hlive in Hsign. rewrite external_run in Hsign.
      inversion Hsign; subst. cbn [after history]. rewrite <- app_assoc.
      eexists. split; [reflexivity | reflexivity].
    - assert (s1 = st1) as ->.
      { destruct (tr_toAddress (sub_transfer s)) as [x |];
          [destruct (Address_parse x) |]; inversion Hparse; reflexivity. }
      inversion Hsign; subst. exists []. rewrite app_nil_r. auto.
    - destruct (tr_toAddress (sub_transfer s)) as [x |];
        [destruct (Address_parse x) |]; discriminate. }
  destruct signing as [signedCell | e |]; [| | contradiction].
  - cbv zeta in Hcase.
    destruct (api_sendSignedTransferMessage env _ _ _); destruct Hcase as [_ Ht];
      rewrite Hh, <- app_assoc in Ht; eexists; (split; [exact Ht |]);
      rewrite forallb_app, Hevs; reflexivity.
  - destruct Hcase as [_ Ht]. rewrite Hh, <- app_assoc in Ht.
    eexists. split; [exact Ht |]. rewrite forallb_app, Hevs. reflexivity.
Qed.

(** [getLedgerAccountPath], as an equation. *)
Lemma getLedgerAccountPath_run accountId st :
  getLedgerAccountPath env accountId st
  = (match api_fetchAccount env (history st) accountId with
     | inl e => Throw e
     | inr None => Throw (TypeError "accountInfo")
     | inr (Some info) =>
         match ledger info with
         | Some l => Ret (getLedgerAccountPathByIndex (ledger_index l) false WORKCHAIN)
         | None => Throw (TypeError "ledger")
         end
     end,
     after st [EvApi (FetchAccount accountId)
                 (threwOf (api_fetchAccount env (history st) accountId))]).
Proof.
  unfold getLedgerAccountPath, callApi_fetchAccount. rewrite bind_external.
  destruct (api_fetchAccount env (history st) accountId) as [e | [info |]]; cbn;
    try reflexivity.
  destruct (ledger info); reflexivity.
Qed.

(** The part of [submitLedgerTransfer] before the payload is normalized
    (lines 217-237).  Either it ends there, by an exception, having asked
    nothing about a token; or the backend has answered every question --
    the sender's address, the account's Ledger index, the wallet of that
    address -- the destination has parsed, and the normalization runs on
    what was learned. *)
Lemma prepareLedgerTransfer_split options st r s' :
  prepareLedgerTransfer env options st = (r, s') ->
  (exists evs,
      history s' = history st ++ evs
      /\ forallb (fun ev => negb (asksMinter ev)) evs = true
      /\ forall s, r <> Ret s)
  \/ (exists network fromAddress accountInfo l info parsed rn,
        let accountId := opt_accountId options in
        let wait := EvApi (WaitLastTransfer accountId) None in
        let addr := EvApi (FetchAddress accountId) None in
        let account := EvApi (FetchAccount accountId) None in
        let wallet := EvApi (GetWalletInfo network fromAddress) None in
        parseAccountId accountId = inr network
        /\ api_fetchAddress env (history st ++ [wait]) accountId = inr fromAddress
        /\ api_fetchAccount env (history st ++ [wait; addr]) accountId = inr (Some accountInfo)
        /\ ledger accountInfo = Some l
        /\ api_getWalletInfo env (history st ++ [wait; addr; account]) network fromAddress
           = inr (Some info)
        /\ Address_parseFriendly (opt_toAddress options) = inr parsed
        /\ normalizeTransfer env network fromAddress options (isBounceable parsed)
             (after st [wait; addr; account; wallet])
           = (rn, s')
        /\ r = match rn with
               | Ret t =>
                   Ret (mkSubmission
                          (getLedgerAccountPathByIndex (ledger_index l) false WORKCHAIN)
                          fromAddress (wallet_seqno info)
                          (Address_toString (address parsed) true DEFAULT_IS_BOUNCEABLE false)
                          (if negb (truthy (opt_tokenAddress options))
                              && Z.eqb (wallet_balance info) (tr_amount t)
                           then SendMode.CARRY_ALL_REMAINING_BALANCE
                           else (SendMode.PAY_GAS_SEPARATELY + SendMode.IGNORE_ERRORS)%Z)
                          t)
               | Throw e => Throw e
               | Diverge => Diverge
               end).
Proof.
  unfold prepareLedgerTransfer. intros Hrun.
  assert (forall evs e (s0 : State),
             (Throw e, after st evs) = (r, s') ->
             forallb (fun ev => negb (asksMinter ev)) evs = true ->
             exists evs',
               history s' = history st ++ evs'
               /\ forallb (fun ev => negb (asksMinter ev)) evs' = true
               /\ forall s, r <> Ret s) as Hended.
  { intros evs e _ H Hevs. inversion H; subst. exists evs.
    split; [reflexivity |]. split; [exact Hevs |]. intros s Hs. discriminate Hs. }
  destruct (parseAccountId (opt_accountId options)) as [e | network] eqn:Hnet.
  { left. apply (Hended [] e st); [| reflexivity].
    cbn in Hrun. unfold after. rewrite app_nil_r. destruct st; exact Hrun. }
  cbn [lift] in Hrun. unfold bind at 1 in Hrun. cbn [ret] in Hrun.
  unfold callApi_waitLastTransfer in Hrun. rewrite bind_external in Hrun.
  destruct (api_waitLastTransfer env (history st) (opt_accountId options)) as [e | []] eqn:Hwait.
  { left. apply (Hended _ e st Hrun). reflexivity. }
  unfold callApi_fetchAddress in Hrun. rewrite bind_external in Hrun.
  cbn [after history threwOf] in Hrun.
  destruct (api_fetchAddress env _ (opt_accountId options)) as [e | fromAddress] eqn:Hfrom.
  { left. rewrite after_after in Hrun. apply (Hended _ e st Hrun). reflexivity. }
  rewrite after_after in Hrun. cbn [app threwOf] in Hrun.
  unfold bind at 1 in Hrun. unfold promiseAll, promiseAll2 in Hrun.
  rewrite getLedgerAccountPath_run in Hrun.
  unfold callApi_getWalletInfo in Hrun. rewrite external_run in Hrun.
  rewrite !after_after in Hrun. cbn [after history app] in Hrun.
  rewrite <- ?app_assoc in Hrun. cbn [app] in Hrun.
  destruct (api_fetchAccount env _ (opt_accountId options)) as [e | [accountInfo |]] eqn:Haccount;
    cbn [threwOf] in Hrun.
  { left. destruct (api_getWalletInfo env _ network fromAddress) as [e' | info];
      [destruct (promise_secondRejectsFirst env _) |];
      cbn [threwOf] in Hrun;
      (eapply (Hended _ _ st); [unfold after; exact Hrun | reflexivity]). }
  2:{ left. destruct (api_getWalletInfo env _ network fromAddress) as [e' | info];
        [destruct (promise_secondRejectsFirst env _) |];
        cbn [threwOf] in Hrun;
        (eapply (Hended _ _ st); [unfold after; exact Hrun | reflexivity]). }
  destruct (ledger accountInfo) as [l |] eqn:Hl.
  2:{ left. destruct (api_getWalletInfo env _ network fromAddress) as [e' | info];
        [destruct (promise_secondRejectsFirst env _) |];
        cbn [threwOf] in Hrun;
        (eapply (Hended _ _ st); [unfold after; exact Hrun | reflexivity]). }
  destruct (api_getWalletInfo env _ network fromAddress) as [e' | [info |]] eqn:Hinfo;
    cbn [threwOf] in Hrun.
  { left. eapply (Hended _ _ st); [unfold after; exact Hrun | reflexivity]. }
  2:{ left. eapply (Hended _ _ st); [unfold after; exact Hrun | reflexivity]. }
  destruct (Address_parseFriendly (opt_toAddress options)) as [e | parsed] eqn:Hparsed.
  { left. cbn in Hrun. eapply (Hended _ _ st); [unfold after; exact Hrun | reflexivity]. }
  cbn [lift] in Hrun. unfold bind at 1 in Hrun. cbn [ret] in Hrun.
  unfold bind at 1 in Hrun.
  right. exists network, fromAddress, accountInfo, l, info, parsed.
  destruct (normalizeTransfer env network fromAddress options (isBounceable parsed) _)
    as [rn s2] eqn:Hnorm.
  exists rn. cbv zeta.
  do 6 (split; [first [reflexivity | assumption] |]).
  split.
  - f_equal. destruct rn; inversion Hrun; reflexivity.
  - destruct rn; inversion Hrun; reflexivity.
Qed.

(** [buildLedgerTokenTransfer], as an equation: the two questions to the
    backend, the comparison, the two addresses. *)
Lemma buildLedgerTokenTransfer_run network tokenAddress fromAddress toAddress amount' comment
  st :
  buildLedgerTokenTransfer env network tokenAddress fromAddress toAddress amount' comment st
  = let asked := EvApi (ResolveTokenWalletAddress network fromAddress tokenAddress) in
    match api_resolveTokenWalletAddress env (history st) network fromAddress tokenAddress with
    | inl e => (Throw e, after st [asked (Some e)])
    | inr wallet =>
        let minter := EvApi (ResolveTokenMinterAddress network wallet) in
        match api_resolveTokenMinterAddress env (history st ++ [asked None]) network wallet with
        | inl e => (Throw e, after st [asked None; minter (Some e)])
        | inr real =>
            (if match real with
                | Some real' => String.eqb tokenAddress real'
                | None => false
                end
             then
               match Address_parse toAddress with
               | inl e => Throw e
               | inr destination =>
                   match fromAddress with
                   | None => Throw (TypeError "Address.parse(undefined)")
                   | Some sender =>
                       match Address_parse sender with
                       | inl e => Throw e
                       | inr responseDestination =>
                           Ret (mkTokenTransfer TOKEN_TRANSFER_TONCOIN_AMOUNT wallet
                                  (LedgerJettonTransfer 0 amount' destination
                                     responseDestination None
                                     TOKEN_TRANSFER_TONCOIN_FORWARD_AMOUNT
                                     (option_map buildCommentPayload (whenTruthy comment))))
                       end
                   end
               end
             else Throw (JsError "Invalid contract"),
             after st [asked None; minter None])
        end
    end.
Proof.
  unfold buildLedgerTokenTransfer, callApi_resolveTokenWalletAddress,
    callApi_resolveTokenMinterAddress.
  cbv zeta. rewrite bind_external.
  destruct (api_resolveTokenWalletAddress env (history st) network fromAddress tokenAddress)
    as [e | wallet]; [reflexivity |].
  rewrite bind_external. cbn [after history threwOf].
  destruct (api_resolveTokenMinterAddress env _ network wallet) as [e | real];
    rewrite ?after_after; [reflexivity |].
  cbn [app].
  destruct (match real with Some real' => String.eqb tokenAddress real' | None => false end);
    [| reflexivity].
  unfold bind at 1.
  destruct (Address_parse toAddress) as [e | destination]; [reflexivity |].
  cbn [lift ret]. unfold bind at 1. unfold parseOptionalAddress.
  destruct fromAddress as [sender |]; [| reflexivity].
  destruct (Address_parse sender); reflexivity.
Qed.

(** The normalization of a token transfer: the run of
    [buildLedgerTokenTransfer], read by cases of what the backend
    answers. *)
Lemma normalizeTransfer_token network fromAddress options isBounceable' tokenAddress
  st rn st' :
  whenTruthy (opt_tokenAddress options) = Some tokenAddress ->
  normalizeTransfer env network fromAddress options isBounceable' st = (rn, st') ->
  let asked := EvApi (ResolveTokenWalletAddress network fromAddress tokenAddress) in
  match api_resolveTokenWalletAddress env (history st) network fromAddress tokenAddress with
  | inl e => rn = Throw e /\ st' = after st [asked (Some e)]
  | inr wallet =>
      let minter := EvApi (ResolveTokenMinterAddress network wallet) in
      match api_resolveTokenMinterAddress env (history st ++ [asked None]) network wallet with
      | inl e => rn = Throw e /\ st' = after st [asked None; minter (Some e)]
      | inr real =>
          st' = after st [asked None; minter None]
          /\ (real <> Some tokenAddress -> rn = Throw (JsError "Invalid contract"))
          /\ (forall t,
                rn = Ret t ->
                real = Some tokenAddress
                /\ tr_toAddress t = wallet
                /\ tr_amount t = TOKEN_TRANSFER_TONCOIN_AMOUNT)
      end
  end.
Proof.
  intros Htok Hrun. unfold normalizeTransfer in Hrun. rewrite Htok in Hrun.
  unfold bind at 1 in Hrun. rewrite buildLedgerTokenTransfer_run in Hrun.
  cbv zeta in *.
  destruct (api_resolveTokenWalletAddress env (history st) network fromAddress tokenAddress)
    as [e | wallet].
  { inversion Hrun; auto. }
  destruct (api_resolveTokenMinterAddress env _ network wallet) as [e | real].
  { inversion Hrun; auto. }
  destruct real as [minter |].
  - destruct (String.eqb_spec tokenAddress minter) as [Hsame | Hdiff].
    + subst minter. destruct (Address_parse (opt_toAddress options)) as [e | destination].
      { inversion Hrun; subst. split; [reflexivity |].
        split; [congruence | intros t Ht; discriminate Ht]. }
      destruct fromAddress as [sender |].
      2:{ inversion Hrun; subst. split; [reflexivity |].
          split; [congruence | intros t Ht; discriminate Ht]. }
      destruct (Address_parse sender) as [e | responseDestination].
      { inversion Hrun; subst. split; [reflexivity |].
        split; [congruence | intros t Ht; discriminate Ht]. }
      inversion Hrun; subst. split; [reflexivity |].
      split; [congruence |]. intros t Ht. inversion Ht; subst. cbn. auto.
    + inversion Hrun; subst. split; [reflexivity |].
      split; [reflexivity | intros t Ht; discriminate Ht].
  - inversion Hrun; subst. split; [reflexivity |].
    split; [reflexivity | intros t Ht; discriminate Ht].
Qed.

(** A run that reached the [try] block: what the backend was asked
    before, in this order, and what it answered. *)
Lemma submitLedgerTransfer_asked options slug localTransactionParams st s st1 out st' :
  prepareLedgerTransfer env options st = (Ret s, st1) ->
  submitLedgerTransfer env options slug localTransactionParams st = (out, st') ->
  exists network info parsed evs tail,
    let accountId := opt_accountId options in
    let wait := EvApi (WaitLastTransfer accountId) None in
    let addr := EvApi (FetchAddress accountId) None in
    let account := EvApi (FetchAccount accountId) None in
    let wallet := EvApi (GetWalletInfo network (sub_fromAddress s)) None in
    parseAccountId accountId = inr network
    /\ api_fetchAddress env (history st ++ [wait]) accountId = inr (sub_fromAddress s)
    /\ api_getWalletInfo env (history st ++ [wait; addr; account]) network (sub_fromAddress s)
       = inr (Some info)
    /\ sub_seqno s = wallet_seqno info
    /\ sub_sendMode s
       = (if negb (truthy (opt_tokenAddress options))
             && Z.eqb (wallet_balance info) (tr_amount (sub_transfer s))
          then SendMode.CARRY_ALL_REMAINING_BALANCE
          else (SendMode.PAY_GAS_SEPARATELY + SendMode.IGNORE_ERRORS)%Z)
    /\ Address_parseFriendly (opt_toAddress options) = inr parsed
    /\ normalizeTransfer env network (sub_fromAddress s) options (isBounceable parsed)
         (after st [wait; addr; account; wallet])
       = (Ret (sub_transfer s), st1)
    /\ history st1 = history st ++ [wait; addr; account; wallet] ++ evs
    /\ newEvents st st' = [wait; addr; account; wallet] ++ evs ++ tail
    /\ forallb (fun ev => negb (asksMinter ev)) tail = true.
Proof.
  intros Hprep Hrun.
  destruct (prepareLedgerTransfer_split _ _ _ _ Hprep)
    as [(evs & _ & _ & Hno)
       | (network & fromAddress & accountInfo & l & info & parsed & rn & H)];
    [exfalso; exact (Hno s eq_refl) |].
  cbv zeta in H. destruct H as (Hnet & Hfrom & _ & _ & Hinfo & Hparsed & Hnorm & Hr).
  destruct rn as [t | e |]; try discriminate Hr.
  inversion Hr; subst s; clear Hr. cbn [sub_fromAddress sub_seqno sub_sendMode sub_transfer].
  destruct (Quiet_run _ _ _ _ (Quiet_normalizeTransfer env _ _ _ _) Hnorm) as (evs & Hh & _).
  destruct (submitLedgerTransfer_extends _ _ _ _ _ _ _ _ Hprep Hrun) as (tail & Ht & Hquiet).
  cbn [after history] in Hh.
  exists network, info, parsed, evs, tail. cbv zeta.
  do 7 (split; [first [reflexivity | assumption] |]).
  split; [rewrite Hh, <- app_assoc; reflexivity |].
  split; [| exact Hquiet].
  apply newEvents_app. rewrite Ht, Hh, <- !app_assoc. reflexivity.
Qed.

End SingleTransfer.

(** ** Bounce flag, comments, and where errors go *)

Section Payloads.

Context {ton : TonCore} {repo : Repo} (env : Env).

Lemma preparedFrom_bounce seqno' message i request :
  preparedFrom seqno' message i request ->
  isTokenOrNft (dapp_payload message) = true ->
  bounce request = true.
Proof.
  unfold preparedFrom. intros (_ & _ & H) Htok.
  destruct (dapp_payload message) as [[] |]; try discriminate; apply H.
Qed.

(** C6. Every request prepared from a tokens:transfer or nft:transfer
    message has the bounce flag set, whatever the destination address says
    of itself, and the batch signer sends only prepared requests to the
    device; every request [submitLedgerTransfer] sends for a transfer with
    a token address is a jetton transfer with the bounce flag set. *)
Theorem token_and_nft_transfers_bounce :
  (forall accountId messages seqno' st p st1 i message request,
      prepareLedgerTransactions env accountId messages seqno' st = (Ret p, st1) ->
      nth_error messages i = Some message ->
      nth_error (preparedOptions p) i = Some request ->
      isTokenOrNft (dapp_payload message) = true ->
      bounce request = true)
  /\ (forall fuel accountId messages seqno' st out st' a,
        signLedgerTransactions env fuel accountId messages seqno' st = (out, st') ->
        ATTEMPTS + List.length messages < fuel ->
        In a (signAttempts (newEvents st st')) ->
        exists p st1 i message,
          prepareLedgerTransactions env accountId messages seqno' st = (Ret p, st1)
          /\ nth_error messages i = Some message
          /\ nth_error (preparedOptions p) i = Some (fst a)
          /\ (isTokenOrNft (dapp_payload message) = true -> bounce (fst a) = true))
  /\ (forall options slug localTransactionParams st out st' a,
        submitLedgerTransfer env options slug localTransactionParams st = (out, st') ->
        truthy (opt_tokenAddress options) = true ->
        In a (signAttempts (newEvents st st')) ->
        bounce (fst a) = true
        /\ exists destination responseDestination,
             payload (fst a)
             = Some (LedgerJettonTransfer 0 (opt_amount options) destination
                       responseDestination None TOKEN_TRANSFER_TONCOIN_FORWARD_AMOUNT
                       (option_map buildCommentPayload
                          (whenTruthy (opt_comment options))))).
Proof.
  split; [| split].
  - intros accountId messages seqno' st p st1 i message request Hprep Hmsg Hreq Htok.
    destruct (prepareLedgerTransactions_Ret env _ _ _ _ _ _ Hprep) as (_ & _ & Hnth).
    eapply preparedFrom_bounce; eauto.
  - intros fuel accountId messages seqno' st out st' a Hrun Hfuel Hin.
    destruct (signLedgerTransactions_cases _ _ _ _ _ _ _ _ Hrun Hfuel)
      as [(e' & _ & _ & Hnone) | (p & st1 & evs & Hprep & Hlen & Hatt & Hsr)].
    + rewrite Hnone in Hin. contradiction.
    + rewrite Hatt in Hin.
      destruct (SignRun_attempts_prepared _ _ _ _ _ _ Hsr a Hin) as (i & Hreq).
      destruct (nth_error messages i) as [message |] eqn:Hmsg.
      * exists p, st1, i, message. repeat split; auto.
        destruct (prepareLedgerTransactions_Ret env _ _ _ _ _ _ Hprep) as (_ & _ & Hnth).
        eapply preparedFrom_bounce; eauto.
      * apply nth_error_None in Hmsg.
        assert (i < List.length (preparedOptions p)) by (apply nth_error_Some; congruence).
        lia.
  - intros options slug ltp st out st' a Hrun Htok Hin.
    destruct (submitLedgerTransfer_attempts _ _ _ _ _ _ _ _ Hrun Hin)
      as (s & st1 & Hprep & Hb & Hp & _).
    apply prepareLedgerTransfer_Ret in Hprep as (_ & Hnorm).
    unfold normalizedFrom in Hnorm.
    apply whenTruthy_truthy in Htok as (tokenAddress & Htok). rewrite Htok in Hnorm.
    destruct Hnorm as (Hbounce & _ & (d & r & Hpay) & _).
    split; [congruence |]. exists d, r. rewrite Hp. exact Hpay.
Qed.

Lemma prepareOptions_invalid_comment seqno' message index' text st :
  dapp_payload message = Some (PayloadComment text) ->
  isValidLedgerComment text = false ->
  (Address_isFriendly (dapp_toAddress message) = false
   \/ exists parsed, Address_parseFriendly (dapp_toAddress message) = inr parsed) ->
  prepareOptions env seqno' message index' st = (Throw (JsError "Unsupported format"), st).
Proof.
  intros Hpay Hinvalid Haddr. unfold prepareOptions.
  unfold bind at 1.
  destruct (Address_isFriendly (dapp_toAddress message)) eqn:Hfriendly.
  - destruct Haddr as [? | (parsed & Hparsed)]; [discriminate |].
    rewrite Hparsed. cbn. unfold bind at 1. rewrite Hpay. cbn. rewrite Hinvalid. reflexivity.
  - cbn. unfold bind at 1. rewrite Hpay. cbn. rewrite Hinvalid. reflexivity.
Qed.

(** C7. A comment that passes [isValidLedgerComment] becomes a 'comment'
    payload with the same text; a comment that fails it makes the
    normalization throw Error('Unsupported format'), the call throws, and
    nothing is sent to the device.  In [signLedgerTransactions] this is
    the 'comment' case of the switch; in [submitLedgerTransfer] it is the
    branch taken for a non-empty comment when no token address is given. *)
Theorem comment_payload_validation :
  (forall isBounceable' text st,
      normalizePayload isBounceable' (Some (PayloadComment text)) st
      = (if isValidLedgerComment text
         then Ret (isBounceable', Some (LedgerComment text))
         else Throw (JsError "Unsupported format"),
         st))
  /\ (forall accountId messages seqno' st p st1 i message text request,
        prepareLedgerTransactions env accountId messages seqno' st = (Ret p, st1) ->
        nth_error messages i = Some message ->
        dapp_payload message = Some (PayloadComment text) ->
        nth_error (preparedOptions p) i = Some request ->
        isValidLedgerComment text = true /\ payload request = Some (LedgerComment text))
  /\ (forall seqno' message index' text st,
        dapp_payload message = Some (PayloadComment text) ->
        isValidLedgerComment text = false ->
        (Address_isFriendly (dapp_toAddress message) = false
         \/ exists parsed, Address_parseFriendly (dapp_toAddress message) = inr parsed) ->
        prepareOptions env seqno' message index' st
        = (Throw (JsError "Unsupported format"), st))
  /\ (forall fuel accountId messages seqno' st out st' i message text,
        signLedgerTransactions env fuel accountId messages seqno' st = (out, st') ->
        nth_error messages i = Some message ->
        dapp_payload message = Some (PayloadComment text) ->
        isValidLedgerComment text = false ->
        (exists e, out = Throw e) /\ signAttempts (newEvents st st') = [])
  /\ (forall network fromAddress options isBounceable' text st,
        whenTruthy (opt_tokenAddress options) = None ->
        whenTruthy (opt_comment options) = Some text ->
        normalizeTransfer env network fromAddress options isBounceable' st
        = (if isValidLedgerComment text
           then Ret (mkTransfer (Some (opt_toAddress options)) (opt_amount options)
                       (Some (LedgerComment text)) isBounceable')
           else Throw (JsError "Unsupported format"),
           st))
  /\ (forall options slug localTransactionParams st out st' text,
        submitLedgerTransfer env options slug localTransactionParams st = (out, st') ->
        whenTruthy (opt_tokenAddress options) = None ->
        whenTruthy (opt_comment options) = Some text ->
        (isValidLedgerComment text = false ->
         (exists e, out = Throw e) /\ signAttempts (newEvents st st') = [])
        /\ (isValidLedgerComment text = true ->
            forall a, In a (signAttempts (newEvents st st')) ->
                      payload (fst a) = Some (LedgerComment text))).
Proof.
  split; [| split; [| split; [| split; [| split]]]].
  - intros isB text st. cbn. destruct (isValidLedgerComment text); reflexivity.
  - intros accountId messages seqno' st p st1 i message text request Hprep Hmsg Hpay Hreq.
    destruct (prepareLedgerTransactions_Ret env _ _ _ _ _ _ Hprep) as (_ & _ & Hnth).
    destruct (Hnth i message request Hmsg Hreq) as (_ & _ & H).
    rewrite Hpay in H. exact H.
  - intros. apply prepareOptions_invalid_comment with (text := text); assumption.
  - intros fuel accountId messages seqno' st out st' i message text Hrun Hmsg Hpay Hinvalid.
    unfold signLedgerTransactions in Hrun. unfold bind at 1 in Hrun.
    destruct (prepareLedgerTransactions env accountId messages seqno' st)
      as [[p | e |] st1] eqn:Hprep;
      destruct (Quiet_run _ _ _ _ (Quiet_prepareLedgerTransactions env _ _ _) Hprep)
        as (e0 & Hh0 & Hs0 & _ & _ & Hd0); [| | contradiction].
    + exfalso.
      destruct (prepareLedgerTransactions_Ret env _ _ _ _ _ _ Hprep) as (Hlen & _ & Hnth).
      destruct (nth_error (preparedOptions p) i) as [request |] eqn:Hreq.
      * destruct (Hnth i message request Hmsg Hreq) as (_ & _ & H).
        rewrite Hpay in H. destruct H as [H _]. congruence.
      * apply nth_error_None in Hreq.
        assert (i < List.length messages) by (apply nth_error_Some; congruence).
        lia.
    + inversion Hrun; subst. split; [exists e; reflexivity |].
      rewrite (newEvents_app _ _ _ Hh0). exact Hs0.
  - intros. apply normalizeTransfer_comment; assumption.
  - intros options slug ltp st out st' text Hrun Htok Hcom. split.
    + intros Hinvalid.
      destruct (submitLedgerTransfer_cases _ _ _ _ _ _ _ Hrun)
        as [(e & _ & Hout & Hnone) | (s & st1 & _ & _ & Hprep & _)].
      * split; [exists e; exact Hout | exact Hnone].
      * exfalso. apply prepareLedgerTransfer_Ret in Hprep as (_ & Hnorm).
        unfold normalizedFrom in Hnorm. rewrite Htok, Hcom in Hnorm.
        destruct Hnorm as (_ & _ & Hvalid & _). congruence.
    + intros Hvalid a Hin.
      destruct (submitLedgerTransfer_attempts _ _ _ _ _ _ _ _ Hrun Hin)
        as (s & st1 & Hprep & _ & Hp & _).
      apply prepareLedgerTransfer_Ret in Hprep as (_ & Hnorm).
      unfold normalizedFrom in Hnorm. rewrite Htok, Hcom in Hnorm.
      destruct Hnorm as (_ & _ & _ & Hpay). congruence.
Qed.

End Payloads.

(** ** getNextLedgerWallets *)

Section Discovery.

Context {ton : TonCore} {repo : Repo} (env : Env).

(** One account looked up on a live session: the device is asked for the
    address, then the backend for the balance. *)
Lemma getLedgerWalletInfo_run network accountIndex st t live address' publicKey balance :
  transport st = Some t ->
  tonTransport st = Some live ->
  ton_getAddress env (history st) live
    (getLedgerAccountPathByIndex accountIndex false WORKCHAIN) CHAIN WALLET_IS_BOUNCEABLE
  = inr (address', publicKey) ->
  api_getWalletBalance env
    (history st
       ++ [EvGetAddress (Some live)
             (getLedgerAccountPathByIndex accountIndex false WORKCHAIN) None])
    network address'
  = inr balance ->
  getLedgerWalletInfo env network accountIndex st
  = (Ret (walletInfoOf t accountIndex address' publicKey balance),
     mkState (history st
                ++ [EvGetAddress (Some live)
                      (getLedgerAccountPathByIndex accountIndex false WORKCHAIN) None;
                    EvApi (GetWalletBalance network address') None])
             (transport st) (tonTransport st)).
Proof.
  intros Ht Hlive Haddr Hbal.
  unfold getLedgerWalletInfo, getLedgerWalletAddress, callApi_getWalletBalance,
    getTonTransport, getTransport, external, bind, record, lift, ret.
  cbn. rewrite Hlive. cbn. rewrite Haddr. cbn. rewrite Hbal. cbn.
  rewrite ?Ht, ?Hlive, <- ?app_assoc. reflexivity.
Qed.

(** A loop returns only what its body breaks with. *)
Lemma loop_Break {S L R} (P : R -> Prop) (body : L -> M S (LoopStep L R)) :
  (forall l st r st', body l st = (Ret (Break r), st') -> P r) ->
  forall fuel l st r st', loop fuel body l st = (Ret r, st') -> P r.
Proof.
  intros Hbody fuel. induction fuel as [| fuel IH]; intros l st r st' Hrun; cbn [loop] in Hrun.
  - discriminate.
  - apply bind_Ret_inv in Hrun as ([l' | r'] & st1 & Hstep & Hrun).
    + eapply IH. exact Hrun.
    + inversion Hrun; subst. eapply Hbody. exact Hstep.
Qed.

Lemma discoveryBody_Break network imported l st r st' :
  discoveryBody env network imported l st = (Ret (Break r), st') -> r <> [].
Proof.
  unfold discoveryBody. destruct l as [result index']. intros Hrun.
  apply bind_Ret_inv in Hrun as (walletInfo & st1 & _ & Hrun).
  destruct (includes imported (lw_address walletInfo)); [discriminate |].
  destruct (nonZeroBalance (lw_balance walletInfo)); [discriminate |].
  inversion Hrun; subst. destruct result; cbn; discriminate.
Qed.

(** C5, as the code has it.  With fresh addresses of balances 5, 0 and 3
    and nothing imported, discovery returns the first account alone: it
    stops at the first address with balance zero, which is recorded only
    when nothing was recorded before it, and never looks at the third:
    all the run does is ask the device for the addresses of accounts 0
    and 1 and the backend for their balances.  Over an address with
    balance zero alone it returns that account, after the one look-up; a
    list it returns is never empty. *)
Theorem getNextLedgerWallets_stops_at_first_empty :
  (forall fuel network imported st t live a0 k0 a1 k1,
      transport st = Some t ->
      tonTransport st = Some live ->
      (forall h, ton_getAddress env h live (getLedgerAccountPathByIndex 0 false WORKCHAIN)
                   CHAIN WALLET_IS_BOUNCEABLE = inr (a0, k0)) ->
      (forall h, ton_getAddress env h live (getLedgerAccountPathByIndex 1 false WORKCHAIN)
                   CHAIN WALLET_IS_BOUNCEABLE = inr (a1, k1)) ->
      (forall h, api_getWalletBalance env h network a0 = inr (Some 5%Z)) ->
      (forall h, api_getWalletBalance env h network a1 = inr (Some 0%Z)) ->
      imported = None \/ imported = Some [] ->
      2 <= fuel ->
      getNextLedgerWallets env fuel network None imported st
      = (Ret (inl [walletInfoOf t 0 a0 k0 (Some 5%Z)]),
         after st
           [EvGetAddress (Some live) (getLedgerAccountPathByIndex 0 false WORKCHAIN) None;
            EvApi (GetWalletBalance network a0) None;
            EvGetAddress (Some live) (getLedgerAccountPathByIndex 1 false WORKCHAIN) None;
            EvApi (GetWalletBalance network a1) None]))
  /\ (forall fuel network imported st t live a0 k0,
        transport st = Some t ->
        tonTransport st = Some live ->
        (forall h, ton_getAddress env h live (getLedgerAccountPathByIndex 0 false WORKCHAIN)
                     CHAIN WALLET_IS_BOUNCEABLE = inr (a0, k0)) ->
        (forall h, api_getWalletBalance env h network a0 = inr (Some 0%Z)) ->
        imported = None \/ imported = Some [] ->
        1 <= fuel ->
        getNextLedgerWallets env fuel network None imported st
        = (Ret (inl [walletInfoOf t 0 a0 k0 (Some 0%Z)]),
           after st
             [EvGetAddress (Some live) (getLedgerAccountPathByIndex 0 false WORKCHAIN) None;
              EvApi (GetWalletBalance network a0) None]))
  /\ (forall fuel network lastExistingIndex imported st result,
        fst (getNextLedgerWallets env fuel network lastExistingIndex imported st)
        = Ret (inl result) ->
        result <> []).
Proof.
  split; [| split].
  - intros fuel network imported st t live a0 k0 a1 k1 Ht Hlive Ha0 Ha1 Hb0 Hb1 Himp Hfuel.
    destruct fuel as [| [| fuel]]; try lia.
    assert (orElse imported [] = []) as Hnone by (destruct Himp; subst; reflexivity).
    unfold getNextLedgerWallets, tryCatch. rewrite Hnone. unfold bind at 1.
    cbn [loop orElse]. unfold bind at 1. unfold discoveryBody at 1. unfold bind at 1.
    change (-1 + 1)%Z with 0%Z.
    rewrite (getLedgerWalletInfo_run network 0 st t live a0 k0 (Some 5%Z) Ht Hlive
               (Ha0 _) (Hb0 _)).
    cbn [includes existsb lw_address lw_balance walletInfoOf nonZeroBalance Z.eqb negb ret app].
    unfold bind at 1. unfold discoveryBody at 1. unfold bind at 1.
    change (0 + 1)%Z with 1%Z.
    set (st1 := mkState _ _ _).
    rewrite (getLedgerWalletInfo_run network 1 st1 t live a1 k1 (Some 0%Z) Ht Hlive
               (Ha1 _) (Hb1 _)).
    subst st1. unfold after. cbn. rewrite <- app_assoc. reflexivity.
  - intros fuel network imported st t live a0 k0 Ht Hlive Ha0 Hb0 Himp Hfuel.
    destruct fuel as [| fuel]; try lia.
    assert (orElse imported [] = []) as Hnone by (destruct Himp; subst; reflexivity).
    unfold getNextLedgerWallets, tryCatch. rewrite Hnone. unfold bind at 1.
    cbn [loop orElse]. unfold bind at 1. unfold discoveryBody at 1. unfold bind at 1.
    change (-1 + 1)%Z with 0%Z.
    rewrite (getLedgerWalletInfo_run network 0 st t live a0 k0 (Some 0%Z) Ht Hlive
               (Ha0 _) (Hb0 _)).
    reflexivity.
  - intros fuel network lastExistingIndex imported st result Hrun.
    unfold getNextLedgerWallets, tryCatch in Hrun.
    destruct (bind (loop fuel _ _) _ st) as [[r | e |] st1] eqn:Hloop; cbn in Hrun.
    + apply bind_Ret_inv in Hloop as (found & st2 & Hloop & Hret).
      inversion Hret; subst. inversion Hrun; subst.
      eapply (loop_Break (fun r => r <> [])); [| exact Hloop].
      intros l s r s'. apply discoveryBody_Break.
    + unfold bind in Hrun.
      destruct (lift (handleServerError e) st1) as [[x | x |] ?]; cbn in Hrun;
        discriminate.
    + discriminate.
Qed.

End Discovery.

(** ** connectLedger *)

Section Connecting.

Context {ton : TonCore} {repo : Repo} (env : Env).

Lemma listCalls_app h1 h2 : listCalls (h1 ++ h2) = listCalls h1 + listCalls h2.
Proof.
  induction h1 as [| ev h1 IH]; [reflexivity |].
  destruct ev; cbn; rewrite ?IH; reflexivity.
Qed.

Local Opaque ATTEMPTS.

(** Closes a branch of a connect loop that leaves the loop at once. *)
Ltac connect_done :=
  unfold ConnectRun; cbn [fst snd history transport tonTransport];
  repeat split; try discriminate;
  rewrite <- ?app_assoc;
  first [ exists []; rewrite app_nil_r; split; [reflexivity |]
        | eexists; split; [reflexivity |] ];
  cbn; split; [lia | reflexivity].

Lemma connectHID_run fuel :
  forall i st,
    ATTEMPTS - i < fuel ->
    ConnectRun HID USB i st (loop fuel (connectHIDBody env) i st).
Proof.
  induction fuel as [| fuel IH]; intros i st Hfuel; [lia |].
  cbn [loop]. unfold bind at 1. unfold connectHIDBody at 1.
  destruct (i <? ATTEMPTS)%nat eqn:Hi; [| cbn; connect_done].
  apply Nat.ltb_lt in Hi.
  unfold bind at 1, listDevices, external, bind, record, lift. cbn.
  destruct (transport_list env (history st) HID) as [e | [| device' devices]]; cbn.
  - connect_done.
  - unfold createTransport, external, bind, record, lift. cbn.
    destruct (transport_create env _ HID) as [e | []]; cbn; [connect_done |].
    set (st1 := mkState _ _ _).
    destruct (IH (S i) st1 ltac:(lia)) as (Hd & Ht & Htt & evs & Hh & Hl & Hk).
    unfold ConnectRun. repeat split; [exact Hd | exact Ht | exact Htt |].
    exists (emptyRound HID ++ evs). rewrite Hh. subst st1. cbn [history].
    rewrite <- !app_assoc. split; [reflexivity |].
    rewrite listCalls_app, forallb_app, Hk. cbn. split; [lia | reflexivity].
  - destruct (opened device'); cbn; [connect_done |].
    unfold openDevice, external, bind, record, lift. cbn.
    destruct (transport_open env _ HID device') as [e | t]; cbn; connect_done.
Qed.

Lemma connectUSB_run fuel :
  forall i st,
    ATTEMPTS - i < fuel ->
    ConnectRun USB HID i st (loop fuel (connectUSBBody env) i st).
Proof.
  induction fuel as [| fuel IH]; intros i st Hfuel; [lia |].
  cbn [loop]. unfold bind at 1. unfold connectUSBBody at 1.
  destruct (i <? ATTEMPTS)%nat eqn:Hi; [| cbn; connect_done].
  apply Nat.ltb_lt in Hi.
  unfold bind at 1, listDevices, external, bind, record, lift. cbn.
  destruct (transport_list env (history st) USB) as [e | [| device' devices]]; cbn.
  - connect_done.
  - unfold createTransport, external, bind, record, lift. cbn.
    destruct (transport_create env _ USB) as [e | []]; cbn; [connect_done |].
    set (st1 := mkState _ _ _).
    destruct (IH (S i) st1 ltac:(lia)) as (Hd & Ht & Htt & evs & Hh & Hl & Hk).
    unfold ConnectRun. repeat split; [exact Hd | exact Ht | exact Htt |].
    exists (emptyRound USB ++ evs). rewrite Hh. subst st1. cbn [history].
    rewrite <- !app_assoc. split; [reflexivity |].
    rewrite listCalls_app, forallb_app, Hk. cbn. split; [lia | reflexivity].
  - destruct (opened device'); cbn.
    + unfold openConnected, requestDevice, external, bind, record, lift. cbn.
      destruct (usb_openConnected env _) as [e | [t |]]; cbn; try connect_done.
      destruct (usb_request env _) as [e | t]; cbn; connect_done.
    + unfold openDevice, external, bind, record, lift. cbn.
      destruct (transport_open env _ USB device') as [e | t]; cbn; connect_done.
Qed.

(** With no device ever listed and every request for one answered without
    a device appearing, [connectHID] goes round as often as is left of
    ATTEMPTS and then throws. *)
Lemma connectHID_no_device n :
  forall fuel i st,
    i + n = ATTEMPTS ->
    n < fuel ->
    (forall h, transport_list env h HID = inr []) ->
    (forall h, transport_create env h HID = inr tt) ->
    loop fuel (connectHIDBody env) i st
    = (Throw (JsError "Failed to connect"),
       mkState (history st ++ List.concat (repeat (emptyRound HID) n))
               (transport st) (tonTransport st)).
Proof.
  induction n as [| n IH]; intros fuel i st Hi Hfuel Hlist Hcreate;
    (destruct fuel as [| fuel]; [lia |]).
  - cbn [loop]. unfold bind at 1. unfold connectHIDBody at 1.
    assert ((i <? ATTEMPTS)%nat = false) as -> by (apply Nat.ltb_ge; lia).
    cbn. rewrite app_nil_r. destruct st; reflexivity.
  - cbn [loop]. unfold bind at 1. unfold connectHIDBody at 1.
    assert ((i <? ATTEMPTS)%nat = true) as -> by (apply Nat.ltb_lt; lia).
    unfold bind at 1, listDevices, createTransport, pause, external, bind, record, lift.
    cbn. rewrite Hlist. cbn. rewrite Hcreate. cbn.
    rewrite (IH fuel (S i)); [| lia | lia | assumption | assumption].
    cbn. rewrite <- !app_assoc. reflexivity.
Qed.

(** The same for [connectUSB]. *)
Lemma connectUSB_no_device n :
  forall fuel i st,
    i + n = ATTEMPTS ->
    n < fuel ->
    (forall h, transport_list env h USB = inr []) ->
    (forall h, transport_create env h USB = inr tt) ->
    loop fuel (connectUSBBody env) i st
    = (Throw (JsError "Failed to connect"),
       mkState (history st ++ List.concat (repeat (emptyRound USB) n))
               (transport st) (tonTransport st)).
Proof.
  induction n as [| n IH]; intros fuel i st Hi Hfuel Hlist Hcreate;
    (destruct fuel as [| fuel]; [lia |]).
  - cbn [loop]. unfold bind at 1. unfold connectUSBBody at 1.
    assert ((i <? ATTEMPTS)%nat = false) as -> by (apply Nat.ltb_ge; lia).
    cbn. rewrite app_nil_r. destruct st; reflexivity.
  - cbn [loop]. unfold bind at 1. unfold connectUSBBody at 1.
    assert ((i <? ATTEMPTS)%nat = true) as -> by (apply Nat.ltb_lt; lia).
    unfold bind at 1, listDevices, createTransport, pause, external, bind, record, lift.
    cbn. rewrite Hlist. cbn. rewrite Hcreate. cbn.
    rewrite (IH fuel (S i)); [| lia | lia | assumption | assumption].
    cbn. rewrite <- !app_assoc. reflexivity.
Qed.

Lemma newEvents_after st evs : newEvents st (after st evs) = evs.
Proof. apply newEvents_app. reflexivity. Qed.

(** [connectLedger], branch by branch. *)
Lemma connectLedger_unfold fuel st :
  connectLedger env fuel st
  = match transport_isSupported env (history st) HID with
    | inl e => (Ret false, after st [EvIsSupported HID (Some e); EvLog "connectLedger" (Some e)])
    | inr true =>
        match connectHID env fuel (after st [EvIsSupported HID None]) with
        | (Ret t, st2) => (Ret true, mkState (history st2) (Some t) (Some t))
        | (Throw e, st2) => (Ret false, after st2 [EvLog "connectLedger" (Some e)])
        | (Diverge, st2) => (Diverge, st2)
        end
    | inr false =>
        match transport_isSupported env (history st ++ [EvIsSupported HID None]) USB with
        | inl e =>
            (Ret false,
             after st [EvIsSupported HID None; EvIsSupported USB (Some e);
                       EvLog "connectLedger" (Some e)])
        | inr true =>
            match connectUSB env fuel
                    (after st [EvIsSupported HID None; EvIsSupported USB None]) with
            | (Ret t, st2) => (Ret true, mkState (history st2) (Some t) (Some t))
            | (Throw e, st2) => (Ret false, after st2 [EvLog "connectLedger" (Some e)])
            | (Diverge, st2) => (Diverge, st2)
            end
        | inr false =>
            (Ret false,
             after st [EvIsSupported HID None; EvIsSupported USB None;
                       EvLog "connectLedger: HID and/or USB are not supported" None])
        end
    end.
Proof.
  unfold connectLedger, tryCatch, after.
  unfold bind at 1. unfold isSupported at 1, external, bind, record, lift. cbn.
  destruct (transport_isSupported env (history st) HID) as [e | [|]]; cbn.
  - rewrite <- app_assoc. reflexivity.
  - destruct (connectHID env fuel _) as [[t | e |] st2]; reflexivity.
  - unfold isSupported, external, bind, record, lift. cbn.
    destruct (transport_isSupported env (history st ++ [EvIsSupported HID None]) USB)
      as [e | [|]]; cbn; rewrite <- ?app_assoc; cbn.
    + reflexivity.
    + destruct (connectUSB env fuel _) as [[t | e |] st2]; reflexivity.
    + reflexivity.
Qed.

(** The events of a whole [connectLedger] that went through a connect
    loop: the probes, the loop's events, and the log entry of a failure. *)
Lemma connect_events k other fuel st probes (body : nat -> M State (LoopStep nat Transport)) :
  ConnectRun k other 0 (after st probes) (loop fuel body 0 (after st probes)) ->
  exists evs,
    listCalls evs <= ATTEMPTS
    /\ forallb (fun ev => negb (usesKind other ev)) evs = true
    /\ match loop fuel body 0 (after st probes) with
       | (Ret t, st2) =>
           newEvents st (mkState (history st2) (Some t) (Some t)) = probes ++ evs
       | (Throw e, st2) =>
           newEvents st (after st2 [EvLog "connectLedger" (Some e)])
           = probes ++ evs ++ [EvLog "connectLedger" (Some e)]
       | (Diverge, _) => False
       end.
Proof.
  intros (Hd & _ & _ & evs & Hh & Hl & Hk).
  exists evs. split; [lia |]. split; [exact Hk |].
  destruct (loop fuel body 0 (after st probes)) as [[t | e |] st2];
    cbn [fst snd] in *; [| | contradiction].
  - apply newEvents_app. cbn [history after] in *. rewrite Hh, app_assoc. reflexivity.
  - apply newEvents_app. cbn [history after] in *. rewrite Hh, <- !app_assoc. reflexivity.
Qed.

(** C8. [connectLedger] asks first whether HID is supported and uses it if
    so, never touching USB; only when HID is not supported does it ask
    about USB.  When neither is supported it logs that and returns false.
    When HID is supported but no device ever shows up, [connectHID] lists
    the devices ATTEMPTS times, each time followed by a request for a
    device and a pause of PAUSE milliseconds, and then throws
    Error('Failed to connect'), which [connectLedger] logs before it
    returns false.  Whatever the devices do, a run lists them at most
    ATTEMPTS times and comes to an end. *)
Theorem connectLedger_bounded_probing fuel st :
  ATTEMPTS < fuel ->
  (fst (connectLedger env fuel st) <> Diverge
   /\ listCalls (newEvents st (snd (connectLedger env fuel st))) <= ATTEMPTS)
  /\ (transport_isSupported env (history st) HID = inr true ->
      forallb (fun ev => negb (usesKind USB ev))
        (newEvents st (snd (connectLedger env fuel st))) = true)
  /\ (transport_isSupported env (history st) HID = inr false ->
      exists usb rest,
        newEvents st (snd (connectLedger env fuel st))
        = EvIsSupported HID None :: EvIsSupported USB usb :: rest
        /\ forallb (fun ev => negb (usesKind HID ev)) rest = true)
  /\ (transport_isSupported env (history st) HID = inr false ->
      transport_isSupported env (history st ++ [EvIsSupported HID None]) USB = inr false ->
      connectLedger env fuel st
      = (Ret false,
         after st [EvIsSupported HID None;
                   EvIsSupported USB None;
                   EvLog "connectLedger: HID and/or USB are not supported" None]))
  /\ (transport_isSupported env (history st) HID = inr true ->
      (forall h, transport_list env h HID = inr []) ->
      (forall h, transport_create env h HID = inr tt) ->
      connectHID env fuel st
      = (Throw (JsError "Failed to connect"),
         after st (List.concat (repeat (emptyRound HID) ATTEMPTS)))
      /\ connectLedger env fuel st
         = (Ret false,
            after st (EvIsSupported HID None
                        :: List.concat (repeat (emptyRound HID) ATTEMPTS)
                        ++ [EvLog "connectLedger" (Some (JsError "Failed to connect"))])))
  /\ (transport_isSupported env (history st) HID = inr false ->
      transport_isSupported env (history st ++ [EvIsSupported HID None]) USB = inr true ->
      (forall h, transport_list env h USB = inr []) ->
      (forall h, transport_create env h USB = inr tt) ->
      connectLedger env fuel st
      = (Ret false,
         after st (EvIsSupported HID None
                     :: EvIsSupported USB None
                     :: List.concat (repeat (emptyRound USB) ATTEMPTS)
                     ++ [EvLog "connectLedger" (Some (JsError "Failed to connect"))]))).
Proof.
  intros Hfuel. rewrite connectLedger_unfold.
  destruct (transport_isSupported env (history st) HID) as [e | [|]] eqn:Hhid.
  - (* the probe itself throws *)
    cbn [fst snd]. rewrite newEvents_after. cbn.
    repeat split; try discriminate. lia.
  - (* HID *)
    destruct (connect_events HID USB fuel st [EvIsSupported HID None] _
                (connectHID_run fuel 0 _ ltac:(lia)))
      as (evs & Hl & Hk & Hev).
    split; [| split; [| split; [| split; [| split]]]]; try discriminate.
    + unfold connectHID.
      destruct (loop fuel (connectHIDBody env) 0 _) as [[t | e |] st2];
        [| | contradiction]; cbn [fst snd]; rewrite Hev, ?listCalls_app; cbn;
        (split; [discriminate | lia]).
    + intros _. unfold connectHID.
      destruct (loop fuel (connectHIDBody env) 0 _) as [[t | e |] st2];
        [| | contradiction]; cbn [fst snd]; rewrite Hev; cbn; rewrite ?forallb_app, Hk;
        reflexivity.
    + intros _ Hlist Hcreate. unfold connectHID.
      rewrite !(connectHID_no_device ATTEMPTS fuel 0 _ eq_refl Hfuel Hlist Hcreate).
      split; [reflexivity |].
      unfold after. cbn [history transport tonTransport].
      rewrite <- !app_assoc. reflexivity.
  - (* HID is not supported: USB is asked *)
    destruct (transport_isSupported env (history st ++ [EvIsSupported HID None]) USB)
      as [e | [|]] eqn:Husb.
    + cbn [fst snd]. rewrite newEvents_after. cbn.
      repeat split; try discriminate; try lia. intros _. eauto.
    + destruct (connect_events USB HID fuel st
                  [EvIsSupported HID None; EvIsSupported USB None] _
                  (connectUSB_run fuel 0 _ ltac:(lia)))
        as (evs & Hl & Hk & Hev).
      split; [| split; [| split; [| split; [| split]]]]; try discriminate.
      * unfold connectUSB.
        destruct (loop fuel (connectUSBBody env) 0 _) as [[t | e |] st2];
          [| | contradiction]; cbn [fst snd]; rewrite Hev, ?listCalls_app; cbn;
          (split; [discriminate | lia]).
      * intros _. unfold connectUSB.
        destruct (loop fuel (connectUSBBody env) 0 _) as [[t | e |] st2];
          [| | contradiction]; cbn [fst snd]; rewrite Hev; cbn;
          eexists _, _; (split; [reflexivity |]); rewrite ?forallb_app, Hk; reflexivity.
      * intros _ _ Hlist Hcreate. unfold connectUSB.
        rewrite (connectUSB_no_device ATTEMPTS fuel 0 _ eq_refl Hfuel Hlist Hcreate).
        unfold after. cbn [history transport tonTransport].
        rewrite <- !app_assoc. reflexivity.
    + cbn [fst snd]. rewrite newEvents_after. cbn.
      repeat split; try discriminate; try lia.
      intros _. eauto.
Qed.

End Connecting.

(** * Properties, second part *)

(** ** Footprints *)

Section FootprintFacts.

Context {ton : TonCore} {repo : Repo}.
Variable ok : Event -> bool.

Lemma Footprint_ret {A} (a : A) : Footprint ok (ret a).
Proof. intros st. exists []. cbn. rewrite app_nil_r. auto. Qed.

Lemma Footprint_throw {A} (e : Thrown) : Footprint ok (@throw State A e).
Proof. intros st. exists []. cbn. rewrite app_nil_r. auto. Qed.

Lemma Footprint_diverge {A} : Footprint ok (@diverge State A).
Proof. intros st. exists []. cbn. rewrite app_nil_r. auto. Qed.

Lemma Footprint_lift {A} (r : Thrown + A) : Footprint ok (lift r).
Proof. destruct r; [apply Footprint_throw | apply Footprint_ret]. Qed.

Lemma Footprint_bind {A B} (c : M State A) (k : A -> M State B) :
  Footprint ok c -> (forall a, Footprint ok (k a)) -> Footprint ok (bind c k).
Proof.
  intros Hc Hk st. destruct (Hc st) as (evs & Hh & Hq).
  unfold bind. destruct (c st) as [[a | e |] st1]; cbn [fst snd] in *.
  - destruct (Hk a st1) as (evs' & Hh' & Hq').
    exists (evs ++ evs'). rewrite Hh', Hh, app_assoc, forallb_app, Hq, Hq'. auto.
  - exists evs. auto.
  - exists evs. auto.
Qed.

Lemma Footprint_tryCatch {A} (c : M State A) (handler : Thrown -> M State A) :
  Footprint ok c -> (forall e, Footprint ok (handler e)) -> Footprint ok (tryCatch c handler).
Proof.
  intros Hc Hk st. destruct (Hc st) as (evs & Hh & Hq).
  unfold tryCatch. destruct (c st) as [[a | e |] st1]; cbn [fst snd] in *.
  - exists evs. auto.
  - destruct (Hk e st1) as (evs' & Hh' & Hq').
    exists (evs ++ evs'). rewrite Hh', Hh, app_assoc, forallb_app, Hq, Hq'. auto.
  - exists evs. auto.
Qed.

Lemma Footprint_promiseAll2 {A B} f (a : M State A) (b : M State B) :
  Footprint ok a -> Footprint ok b -> Footprint ok (promiseAll2 f a b).
Proof.
  intros Ha Hb st. unfold promiseAll2.
  destruct (Ha st) as (evs & Hh & Hq).
  destruct (a st) as [ra st1]. cbn [fst snd] in *.
  destruct (Hb st1) as (evs' & Hh' & Hq').
  destruct (b st1) as [rb st2]. cbn [fst snd] in *.
  assert (history st2 = history st ++ evs ++ evs') as Hall
      by (rewrite Hh', Hh, app_assoc; reflexivity).
  exists (evs ++ evs').
  destruct ra, rb; cbn [fst snd]; rewrite forallb_app, Hq, Hq'; auto.
Qed.

Lemma Footprint_record (ev : Event) : ok ev = true -> Footprint ok (record ev).
Proof. intros H st. exists [ev]. cbn. rewrite H. auto. Qed.

Lemma Footprint_external {A} (oracle : History -> Thrown + A) (ev : Thrown + A -> Event) :
  (forall r, ok (ev r) = true) -> Footprint ok (external oracle ev).
Proof.
  intros H st. unfold external.
  apply (Footprint_bind (record _) (fun _ => lift _)).
  - apply Footprint_record, H.
  - intros _. apply Footprint_lift.
Qed.

Lemma Footprint_getTonTransport : Footprint ok getTonTransport.
Proof. intros st. exists []. cbn. rewrite app_nil_r. auto. Qed.

Lemma Footprint_getTransport : Footprint ok getTransport.
Proof. intros st. exists []. cbn. rewrite app_nil_r. auto. Qed.

Lemma Footprint_setTransport t : Footprint ok (setTransport t).
Proof. intros st. exists []. cbn. rewrite app_nil_r. auto. Qed.

Lemma Footprint_setTonTransport : Footprint ok setTonTransport.
Proof. intros st. exists []. cbn. rewrite app_nil_r. auto. Qed.

Lemma Footprint_loop {L R} (body : L -> M State (LoopStep L R)) :
  (forall l, Footprint ok (body l)) -> forall fuel l, Footprint ok (loop fuel body l).
Proof.
  intros Hbody fuel. induction fuel as [| fuel IH]; intros l; cbn [loop].
  - apply Footprint_diverge.
  - apply Footprint_bind; [apply Hbody |].
    intros [l' | r]; [apply IH | apply Footprint_ret].
Qed.

(** What a computation with a footprint leaves behind, for a run written
    as an equation. *)
Lemma Footprint_run {A} (c : M State A) st out st' :
  Footprint ok c -> c st = (out, st') ->
  forallb ok (newEvents st st') = true.
Proof.
  intros Hf Hrun. destruct (Hf st) as (evs & Hh & Hq).
  rewrite Hrun in Hh. cbn [snd] in Hh. rewrite (newEvents_app _ _ _ Hh). exact Hq.
Qed.

End FootprintFacts.

Section SteadyFacts.

Context {ton : TonCore} {repo : Repo}.

Lemma Steady_ret {A} (a : A) : Steady (ret a).
Proof. intros st. cbn. auto. Qed.

Lemma Steady_throw {A} (e : Thrown) : Steady (@throw State A e).
Proof. intros st. cbn. auto. Qed.

Lemma Steady_diverge {A} : Steady (@diverge State A).
Proof. intros st. cbn. auto. Qed.

Lemma Steady_lift {A} (r : Thrown + A) : Steady (lift r).
Proof. destruct r; [apply Steady_throw | apply Steady_ret]. Qed.

Lemma Steady_bind {A B} (c : M State A) (k : A -> M State B) :
  Steady c -> (forall a, Steady (k a)) -> Steady (bind c k).
Proof.
  intros Hc Hk st. destruct (Hc st) as (Ht & Htt).
  unfold bind. destruct (c st) as [[a | e |] st1]; cbn [fst snd] in *; auto.
  destruct (Hk a st1) as (Ht' & Htt'). split; congruence.
Qed.

Lemma Steady_tryCatch {A} (c : M State A) (handler : Thrown -> M State A) :
  Steady c -> (forall e, Steady (handler e)) -> Steady (tryCatch c handler).
Proof.
  intros Hc Hk st. destruct (Hc st) as (Ht & Htt).
  unfold tryCatch. destruct (c st) as [[a | e |] st1]; cbn [fst snd] in *; auto.
  destruct (Hk e st1) as (Ht' & Htt'). split; congruence.
Qed.

Lemma Steady_promiseAll2 {A B} f (a : M State A) (b : M State B) :
  Steady a -> Steady b -> Steady (promiseAll2 f a b).
Proof.
  intros Ha Hb st. unfold promiseAll2.
  destruct (Ha st) as (Ht & Htt).
  destruct (a st) as [ra st1]. cbn [fst snd] in *.
  destruct (Hb st1) as (Ht' & Htt').
  destruct (b st1) as [rb st2]. cbn [fst snd] in *.
  destruct ra, rb; cbn [fst snd]; split; congruence.
Qed.

Lemma Steady_record (ev : Event) : Steady (record ev).
Proof. intros st. cbn. auto. Qed.

Lemma Steady_external {A} (oracle : History -> Thrown + A) (ev : Thrown + A -> Event) :
  Steady (external oracle ev).
Proof.
  intros st. unfold external.
  apply (Steady_bind (record _) (fun _ => lift _)).
  - apply Steady_record.
  - intros _. apply Steady_lift.
Qed.

Lemma Steady_getTonTransport : Steady getTonTransport.
Proof. intros st. cbn. auto. Qed.

Lemma Steady_getTransport : Steady getTransport.
Proof. intros st. cbn. auto. Qed.

Lemma Steady_loop {L R} (body : L -> M State (LoopStep L R)) :
  (forall l, Steady (body l)) -> forall fuel l, Steady (loop fuel body l).
Proof.
  intros Hbody fuel. induction fuel as [| fuel IH]; intros l; cbn [loop].
  - apply Steady_diverge.
  - apply Steady_bind; [apply Hbody |].
    intros [l' | r]; [apply IH | apply Steady_ret].
Qed.

End SteadyFacts.

(** Takes a computation apart along its binds, branches, handlers and
    loops. *)
Ltac footprint :=
  repeat first
    [ apply Footprint_ret
    | apply Footprint_throw
    | apply Footprint_lift
    | apply Footprint_diverge
    | apply Footprint_getTonTransport
    | apply Footprint_getTransport
    | apply Footprint_setTransport
    | apply Footprint_setTonTransport
    | apply Footprint_record; reflexivity
    | apply Footprint_external; intros; reflexivity
    | solve [auto]
    | apply Footprint_bind; [| intros ?]
    | apply Footprint_promiseAll2
    | apply Footprint_tryCatch; [| intros ?]
    | apply Footprint_loop; intros ?
    | match goal with
      | |- Footprint _ (match ?x with _ => _ end) => destruct x
      | |- Footprint _ (let '(_, _) := ?x in _) => destruct x
      end ].

Ltac steady :=
  repeat first
    [ apply Steady_ret
    | apply Steady_throw
    | apply Steady_lift
    | apply Steady_diverge
    | apply Steady_getTonTransport
    | apply Steady_getTransport
    | apply Steady_record
    | apply Steady_external
    | solve [auto]
    | apply Steady_bind; [| intros ?]
    | apply Steady_promiseAll2
    | apply Steady_tryCatch; [| intros ?]
    | apply Steady_loop; intros ?
    | match goal with
      | |- Steady (match ?x with _ => _ end) => destruct x
      | |- Steady (let '(_, _) := ?x in _) => destruct x
      end ].

Section FootprintModel.

Context {ton : TonCore} {repo : Repo} (env : Env).

(** Everything but the signing call and the broadcast. *)
Variable ok : Event -> bool.
Hypothesis ok_api_read :
  forall call threw, isBroadcast (EvApi call threw) = false -> ok (EvApi call threw) = true.
Hypothesis ok_now : ok EvNow = true.
Hypothesis ok_log : forall tag err, ok (EvLog tag err) = true.

Lemma Footprint_getLedgerAccountPath accountId :
  Footprint ok (getLedgerAccountPath env accountId).
Proof.
  unfold getLedgerAccountPath, callApi_fetchAccount.
  apply Footprint_bind; [apply Footprint_external; intros; apply ok_api_read; reflexivity |].
  intros ?. footprint.
Qed.

Lemma Footprint_getTransferExpirationTime : Footprint ok (getTransferExpirationTime env).
Proof.
  intros st. unfold getTransferExpirationTime.
  apply (Footprint_bind ok (record EvNow) (fun _ => ret _));
    [apply Footprint_record; exact ok_now | intros; apply Footprint_ret].
Qed.

Lemma Footprint_logDebugError tag err : Footprint ok (logDebugError tag err).
Proof. apply Footprint_record, ok_log. Qed.

Lemma Footprint_cellFromOptionalBase64 blob : Footprint ok (cellFromOptionalBase64 blob).
Proof. unfold cellFromOptionalBase64. footprint. Qed.

Lemma Footprint_parseOptionalAddress source : Footprint ok (parseOptionalAddress source).
Proof. unfold parseOptionalAddress. footprint. Qed.

Lemma Footprint_normalizePayload isBounceable payload :
  Footprint ok (normalizePayload isBounceable payload).
Proof.
  pose proof Footprint_cellFromOptionalBase64.
  unfold normalizePayload. footprint.
Qed.

Lemma Footprint_prepareOptions seqno message index :
  Footprint ok (prepareOptions env seqno message index).
Proof.
  pose proof Footprint_normalizePayload. pose proof Footprint_getTransferExpirationTime.
  unfold prepareOptions. footprint.
Qed.

Lemma Footprint_mapWithIndex {A B} (f : A -> nat -> M State B) :
  (forall a i, Footprint ok (f a i)) -> forall l i, Footprint ok (mapWithIndex f l i).
Proof.
  intros Hf l. induction l as [| a l IH]; intros i; cbn [mapWithIndex]; footprint.
Qed.

Lemma Footprint_api {A} (oracle : History -> Thrown + A) call :
  isBroadcast (EvApi call None) = false ->
  Footprint ok (external oracle (fun r => EvApi call (threwOf r))).
Proof.
  intros H. apply Footprint_external. intros r. apply ok_api_read.
  destruct call; try reflexivity. discriminate.
Qed.

Lemma Footprint_prepareLedgerTransactions accountId messages seqno :
  Footprint ok (prepareLedgerTransactions env accountId messages seqno).
Proof.
  pose proof Footprint_getLedgerAccountPath. pose proof Footprint_prepareOptions.
  unfold prepareLedgerTransactions, callApi_waitLastTransfer, callApi_fetchAddress,
    callApi_getWalletSeqno.
  repeat first
    [ apply Footprint_api; reflexivity
    | apply Footprint_mapWithIndex; intros
    | progress footprint ].
Qed.

Lemma Footprint_buildLedgerTokenTransfer network tokenAddress fromAddress toAddress amount
  comment :
  Footprint ok
    (buildLedgerTokenTransfer env network tokenAddress fromAddress toAddress amount comment).
Proof.
  pose proof Footprint_parseOptionalAddress.
  unfold buildLedgerTokenTransfer, callApi_resolveTokenWalletAddress,
    callApi_resolveTokenMinterAddress.
  repeat first [ apply Footprint_api; reflexivity | progress footprint ].
Qed.

Lemma Footprint_normalizeTransfer network fromAddress options isBounceable :
  Footprint ok (normalizeTransfer env network fromAddress options isBounceable).
Proof.
  pose proof Footprint_buildLedgerTokenTransfer.
  unfold normalizeTransfer. footprint.
Qed.

Lemma Footprint_prepareLedgerTransfer options :
  Footprint ok (prepareLedgerTransfer env options).
Proof.
  pose proof Footprint_getLedgerAccountPath. pose proof Footprint_normalizeTransfer.
  unfold prepareLedgerTransfer, callApi_waitLastTransfer, callApi_fetchAddress,
    callApi_getWalletInfo.
  repeat first [ apply Footprint_api; reflexivity | progress footprint ].
Qed.

End FootprintModel.

(** ** The batch signer: order, contents, results *)

Section BatchOrder.

Context {ton : TonCore} {repo : Repo}.
Variables (messages : list ApiDappTransfer) (p : Prepared) (attempts : nat).

(** What a run returns was built, position by position, from the message
    and the request at that position. *)
Lemma SignRun_built l evs signed :
  SignRun messages p attempts l evs (Ret signed) ->
  List.length (signedMessages l) = index l ->
  (forall i s, nth_error (signedMessages l) i = Some s -> builtFrom messages p i s) ->
  forall i s, nth_error signed i = Some s -> builtFrom messages p i s.
Proof.
  remember (Ret signed) as out eqn:Hout. intros Hrun. revert Hout.
  induction Hrun as [l Hc | l t o m c evs out Hi Ha Ho Hm Hr IH
                    | l t o e Hi Ha Ho He | l t o e evs out Hi Ha Ho He Hr IH];
    intros Hout Hlen Hinv.
  - inversion Hout; subst. exact Hinv.
  - apply (IH Hout); cbn [index signedMessages].
    + rewrite length_app. cbn. lia.
    + intros i s Hnth.
      destruct (Nat.lt_ge_cases i (List.length (signedMessages l))) as [Hlt | Hge].
      * rewrite nth_error_app1 in Hnth by exact Hlt. apply Hinv. exact Hnth.
      * rewrite nth_error_app2 in Hnth by exact Hge.
        destruct (i - List.length (signedMessages l)) as [| k] eqn:Hk; cbn in Hnth.
        -- inversion Hnth; subst s. assert (i = index l) as -> by lia.
           exists m, o. repeat split; assumption.
        -- destruct k; discriminate.
  - discriminate.
  - apply (IH Hout); assumption.
Qed.

(** Without a live session every attempt fails at the member access, is
    logged, and counts: the loop spends what is left of the budget on the
    request at [index] and returns what it had. *)
Lemma loop_without_session (env : Env) n :
  forall fuel l st options,
    tonTransport st = None ->
    List.length messages = List.length (preparedOptions p) ->
    nth_error (preparedOptions p) (index l) = Some options ->
    attempt l + n = attempts ->
    n < fuel ->
    loop fuel (signLoopBody env messages p attempts) l st
    = (Ret (signedMessages l),
       after st
         (List.concat
            (repeat [EvSign None (prep_path p) options (inl (TypeError "tonTransport"));
                     EvLog "signLedgerTransactions" (Some (TypeError "tonTransport"))] n))).
Proof.
  induction n as [| n IH]; intros fuel l st options Hnone Hlen Hopt Hn Hfuel;
    (destruct fuel as [| fuel]; [lia |]).
  - cbn [loop]. unfold bind at 1. unfold signLoopBody.
    assert ((attempt l <? attempts)%nat = false) as -> by (apply Nat.ltb_ge; lia).
    rewrite andb_false_r. cbn. unfold after. rewrite app_nil_r. destruct st; reflexivity.
  - cbn [loop]. unfold bind at 1. unfold signLoopBody.
    assert (index l < List.length (preparedOptions p)) as Hi
        by (apply nth_error_Some; congruence).
    assert ((index l <? List.length (preparedOptions p))%nat = true) as ->
        by (apply Nat.ltb_lt; exact Hi).
    assert ((attempt l <? attempts)%nat = true) as -> by (apply Nat.ltb_lt; lia).
    rewrite Hopt. cbn [andb].
    unfold bind at 1, tryCatch, tonTransport_signTransaction. unfold bind at 1.
    rewrite Hnone. cbn.
    rewrite (IH fuel _ _ options); cbn [index attempt signedMessages tonTransport];
      try assumption; try lia.
    unfold after. cbn [history transport tonTransport].
    rewrite <- !app_assoc. reflexivity.
Qed.

End BatchOrder.

Section BatchContents.

Context {ton : TonCore} {repo : Repo} (env : Env).

Lemma prepareOptions_addressed seqno' message index' st request st' :
  prepareOptions env seqno' message index' st = (Ret request, st') ->
  addressedFrom message request.
Proof.
  unfold prepareOptions, addressedFrom. intros Hrun.
  apply bind_Ret_inv in Hrun as (b0 & st1 & Hb & Hrun).
  apply bind_Ret_inv in Hrun as ([b1 lp] & st2 & Hnorm & Hrun).
  apply bind_Ret_inv in Hrun as (si & st3 & Hsi & Hrun).
  apply bind_Ret_inv in Hrun as (to' & st4 & Hto & Hrun).
  apply bind_Ret_inv in Hrun as (timeout' & st5 & _ & Hrun).
  inversion Hrun; subst; clear Hrun. cbn.
  split; [| split; [reflexivity | split]].
  - destruct (Address_parse (dapp_toAddress message)) as [e | a]; cbn in Hto;
      [discriminate | inversion Hto; reflexivity].
  - intros Hplain.
    assert (b1 = b0) as ->.
    { unfold normalizePayload in Hnorm.
      destruct (dapp_payload message) as [[] |]; try discriminate Hplain.
      - destruct (isValidLedgerComment comment); inversion Hnorm; reflexivity.
      - discriminate Hnorm.
      - discriminate Hnorm.
      - inversion Hnorm; reflexivity. }
    destruct (Address_isFriendly (dapp_toAddress message)).
    + apply bind_Ret_inv in Hb as (parsed & s & Hparsed & Hb).
      inversion Hb; subst.
      destruct (Address_parseFriendly (dapp_toAddress message)) as [e | f]; cbn in Hparsed;
        [discriminate | inversion Hparsed; subst].
      exists parsed. split; reflexivity.
    + inversion Hb; reflexivity.
  - intros Hnone. rewrite Hnone in Hsi. inversion Hsi; reflexivity.
Qed.

(** Every message of a batch whose preparation returns has its request, at
    the same position. *)
Lemma prepareLedgerTransactions_requests accountId messages seqno' st p st1 :
  prepareLedgerTransactions env accountId messages seqno' st = (Ret p, st1) ->
  List.length (preparedOptions p) = List.length messages
  /\ forall i message request,
       nth_error messages i = Some message ->
       nth_error (preparedOptions p) i = Some request ->
       addressedFrom message request /\ preparedFrom (prep_seqno p) message i request.
Proof.
  intros Hprep.
  destruct (prepareLedgerTransactions_Ret env _ _ _ _ _ _ Hprep) as (Hlen & _ & Hfrom).
  split; [exact Hlen |].
  intros i message request Hmsg Hreq. split; [| eapply Hfrom; eassumption].
  unfold prepareLedgerTransactions in Hprep.
  apply bind_Ret_inv in Hprep as (? & s1 & _ & Hprep).
  apply bind_Ret_inv in Hprep as ([path fromAddress] & s3 & _ & Hprep).
  apply bind_Ret_inv in Hprep as (seqno1 & s4 & _ & Hprep).
  apply bind_Ret_inv in Hprep as (prepared & s5 & Hmap & Hprep).
  inversion Hprep; subst; clear Hprep. cbn in *.
  apply (mapWithIndex_Ret _ (fun m _ r => addressedFrom m r)) in Hmap as [_ Hnth].
  - eapply Hnth; eassumption.
  - intros. eapply prepareOptions_addressed; eassumption.
Qed.

Lemma nth_error_both {A B} (l : list A) (l' : list B) i a :
  List.length l' = List.length l -> nth_error l' i = Some a ->
  exists b, nth_error l i = Some b.
Proof.
  intros Hlen Hnth. destruct (nth_error l i) as [b |] eqn:Hb; [eauto |].
  apply nth_error_None in Hb.
  assert (i < List.length l') by (apply nth_error_Some; congruence). lia.
Qed.

(** X1. The device is asked for the requests in the order of the batch,
    never skipping one and never going back: attempt number i is for the
    request whose position is the number of attempts that succeeded
    before it, and that request was prepared from the message at the same
    position. *)
Theorem signLedgerTransactions_signs_in_order
  fuel accountId messages seqno' st out st' i a :
  signLedgerTransactions env fuel accountId messages seqno' st = (out, st') ->
  ATTEMPTS + List.length messages < fuel ->
  nth_error (signAttempts (newEvents st st')) i = Some a ->
  exists p st1 message,
    prepareLedgerTransactions env accountId messages seqno' st = (Ret p, st1)
    /\ nth_error (preparedOptions p)
         (successes (firstn i (signAttempts (newEvents st st'))))
       = Some (fst a)
    /\ nth_error messages (successes (firstn i (signAttempts (newEvents st st'))))
       = Some message.
Proof.
  intros Hrun Hfuel Hnth.
  destruct (signLedgerTransactions_cases _ _ _ _ _ _ _ _ Hrun Hfuel)
    as [(e' & _ & _ & Hnone) | (p & st1 & evs & Hprep & Hlen & Hatt & Hsr)].
  - rewrite Hnone in Hnth. destruct i; discriminate.
  - rewrite Hatt in *.
    pose proof (SignRun_in_order _ _ _ _ _ _ Hsr i a Hnth) as Hreq. cbn [index] in Hreq.
    destruct (nth_error_both messages _ _ _ Hlen Hreq) as (message & Hmsg).
    exists p, st1, message. auto.
Qed.

(** X2. Every request that reaches the device was prepared from a message
    of the batch and is addressed as that message says: it goes to the
    parsed destination, carries the message's amount and the send mode
    PAY_GAS_SEPARATELY + IGNORE_ERRORS, and, for a transfer that is
    neither a token nor an NFT transfer, bounces as the friendly address
    says of itself, or as DEFAULT_IS_BOUNCEABLE says for a raw address. *)
Theorem signLedgerTransactions_requests_follow_messages
  fuel accountId messages seqno' st out st' a :
  signLedgerTransactions env fuel accountId messages seqno' st = (out, st') ->
  ATTEMPTS + List.length messages < fuel ->
  In a (signAttempts (newEvents st st')) ->
  exists i message,
    nth_error messages i = Some message
    /\ Address_parse (dapp_toAddress message) = inr (to (fst a))
    /\ amount (fst a) = dapp_amount message
    /\ sendMode (fst a) = (SendMode.PAY_GAS_SEPARATELY + SendMode.IGNORE_ERRORS)%Z
    /\ (isTokenOrNft (dapp_payload message) = false ->
        if Address_isFriendly (dapp_toAddress message)
        then exists parsed,
               Address_parseFriendly (dapp_toAddress message) = inr parsed
               /\ bounce (fst a) = isBounceable parsed
        else bounce (fst a) = DEFAULT_IS_BOUNCEABLE).
Proof.
  intros Hrun Hfuel Hin.
  destruct (signLedgerTransactions_cases _ _ _ _ _ _ _ _ Hrun Hfuel)
    as [(e' & _ & _ & Hnone) | (p & st1 & evs & Hprep & Hlen & Hatt & Hsr)].
  - rewrite Hnone in Hin. contradiction.
  - rewrite Hatt in Hin.
    destruct (SignRun_attempts_prepared _ _ _ _ _ _ Hsr a Hin) as (i & Hreq).
    destruct (nth_error_both messages _ _ _ Hlen Hreq) as (message & Hmsg).
    destruct (prepareLedgerTransactions_requests _ _ _ _ _ _ Hprep) as (_ & Hnth).
    destruct (Hnth i message (fst a) Hmsg Hreq)
      as ((Hto & Hmode & Hbounce & _) & (_ & Hamount & _)).
    exists i, message. repeat split; assumption.
Qed.

(** X3. A batch with a message the device format cannot express -- a
    payload of type 'unknown' or of a type the switch does not know, or a
    destination that does not parse -- is refused as a whole: the call
    throws and not one request reaches the device, wherever in the batch
    the message stands. *)
Theorem signLedgerTransactions_refuses_unsupported
  fuel accountId messages seqno' st out st' i message :
  signLedgerTransactions env fuel accountId messages seqno' st = (out, st') ->
  nth_error messages i = Some message ->
  (exists blob, dapp_payload message = Some (PayloadUnknown blob))
  \/ (exists type, dapp_payload message = Some (PayloadOther type))
  \/ (exists e, Address_parse (dapp_toAddress message) = inl e) ->
  (exists e, out = Throw e) /\ signAttempts (newEvents st st') = [].
Proof.
  intros Hrun Hmsg Hbad.
  unfold signLedgerTransactions in Hrun. unfold bind at 1 in Hrun.
  destruct (prepareLedgerTransactions env accountId messages seqno' st)
    as [[p | e |] st1] eqn:Hprep;
    destruct (Quiet_run _ _ _ _ (Quiet_prepareLedgerTransactions env _ _ _) Hprep)
      as (e0 & Hh0 & Hs0 & _ & _ & Hd0); [| | contradiction].
  - exfalso.
    destruct (prepareLedgerTransactions_requests _ _ _ _ _ _ Hprep) as (Hlen & Hnth).
    destruct (nth_error_both (preparedOptions p) messages i message (eq_sym Hlen) Hmsg)
      as (request & Hreq).
    destruct (Hnth i message request Hmsg Hreq) as ((Hto & _) & (_ & _ & Hpay)).
    destruct Hbad as [(blob & Hb) | [(type & Hb) | (e & Hb)]].
    + rewrite Hb in Hpay. exact Hpay.
    + rewrite Hb in Hpay. exact Hpay.
    + congruence.
  - inversion Hrun; subst. split; [exists e; reflexivity |].
    rewrite (newEvents_app _ _ _ Hh0). exact Hs0.
Qed.

(** X4. What a run returns is, position by position, the batch: the i-th
    signed transfer shows the amount and the destination of message i as
    they were given, the comment of a comment payload, fee 0 and the
    Toncoin slug; its sender is the address the backend answered when this
    run asked [fetchAddress] for the account; and its sequence number is
    the starting number plus i, as a double, where the starting number is
    the caller's when that is a number other than 0, and else what the
    backend answered when this run asked [getWalletSeqno]. *)
Theorem signLedgerTransactions_results_match_messages
  fuel accountId messages seqno' st signed st' i s :
  signLedgerTransactions env fuel accountId messages seqno' st = (Ret signed, st') ->
  ATTEMPTS + List.length messages < fuel ->
  nth_error signed i = Some s ->
  exists message fromAddress start,
    nth_error messages i = Some message
    /\ answered st (newEvents st st') (fun h => api_fetchAddress env h accountId)
         (EvApi (FetchAddress accountId) None) fromAddress
    /\ (if falsyNumber seqno'
        then answered st (newEvents st st') (fun h => api_getWalletSeqno env h accountId)
               (EvApi (GetWalletSeqno accountId) None) start
        else start = seqno')
    /\ signed_seqno s = jsAdd start (Z.of_nat i)
    /\ signed_params s
       = mkParams (dapp_amount message) fromAddress (dapp_toAddress message)
           (match dapp_payload message with
            | Some (PayloadComment comment) => Some comment
            | _ => None
            end)
           (Some 0%Z) TONCOIN_SLUG None.
Proof.
  intros Hrun Hfuel Hnth.
  destruct (signLedgerTransactions_cases _ _ _ _ _ _ _ _ Hrun Hfuel)
    as [(e' & _ & Hout & _) | (p & st1 & _ & Hprep & _)];
    [discriminate |].
  destruct (signLedgerTransactions_loop _ _ _ _ _ _ _ _ _ _ Hprep Hrun Hfuel)
    as (evs0 & evs & Hh0 & _ & _ & Hnew & Hlen & Hsr).
  destruct (prepareLedgerTransactions_asked env _ _ _ _ _ _ Hprep)
    as (evs0' & Hh0' & Haddr & _ & Hstart).
  rewrite Hh0 in Hh0'. apply app_inv_head in Hh0'. subst evs0'.
  destruct (SignRun_built _ _ _ _ _ _ Hsr eq_refl) with (i := i) (s := s)
    as (message & request & Hmsg & Hreq & Hs).
  - intros [| k] x H; discriminate H.
  - exact Hnth.
  - destruct (prepareLedgerTransactions_Ret env _ _ _ _ _ _ Hprep) as (_ & _ & Hfrom).
    destruct (Hfrom i message request Hmsg Hreq) as (Hseq & _).
    exists message, (prep_fromAddress p), (prep_seqno p). rewrite Hnew.
    split; [exact Hmsg |]. split; [apply answered_more; exact Haddr |].
    split.
    + destruct (falsyNumber seqno'); [apply answered_more |]; exact Hstart.
    + rewrite Hs. cbn. auto.
Qed.

(** X5. Without a live session ([tonTransport] is undefined) the batch
    signer does not throw: every attempt fails with a TypeError before the
    device is reached, is logged and counted, always for the first
    request, until the budget of ATTEMPTS + N attempts is spent; then the
    empty list is returned.  Of an empty batch nothing is attempted. *)
Theorem signLedgerTransactions_without_session
  fuel accountId messages seqno' st p st1 out st' :
  prepareLedgerTransactions env accountId messages seqno' st = (Ret p, st1) ->
  signLedgerTransactions env fuel accountId messages seqno' st = (out, st') ->
  ATTEMPTS + List.length messages < fuel ->
  tonTransport st = None ->
  out = Ret []
  /\ signAttempts (newEvents st st')
     = match preparedOptions p with
       | [] => []
       | first :: _ =>
           repeat (first, inl (TypeError "tonTransport")) (ATTEMPTS + List.length messages)
       end.
Proof.
  intros Hprep Hrun Hfuel Hnone.
  destruct (Quiet_run _ _ _ _ (Quiet_prepareLedgerTransactions env _ _ _) Hprep)
    as (e0 & Hh0 & Hs0 & _ & Htt0 & _).
  destruct (prepareLedgerTransactions_Ret env _ _ _ _ _ _ Hprep) as (Hlen & _).
  unfold signLedgerTransactions in Hrun. rewrite (bind_eq _ _ _ _ _ Hprep) in Hrun.
  unfold signPrepared in Hrun.
  destruct (preparedOptions p) as [| first rest] eqn:Hp.
  - destruct fuel as [| fuel]; [lia |].
    cbn [loop] in Hrun. unfold bind at 1 in Hrun. unfold signLoopBody in Hrun.
    rewrite Hp in Hrun. cbn in Hrun. inversion Hrun; subst.
    split; [reflexivity |]. rewrite (newEvents_app _ _ _ Hh0). exact Hs0.
  - rewrite <- Hp in Hrun, Hlen.
    rewrite (loop_without_session messages p _ env (ATTEMPTS + List.length (preparedOptions p))
               fuel _ st1 first) in Hrun;
      cbn [index attempt signedMessages]; try lia; try congruence.
    2:{ rewrite Hp. reflexivity. }
    apply pair_equal_spec in Hrun as [<- <-]. split; [reflexivity |].
    rewrite (newEvents_chain st st1 (after st1 _) e0 _ Hh0 eq_refl), signAttempts_app, Hs0.
    cbn [app]. rewrite Hlen.
    generalize (ATTEMPTS + List.length messages). intros n.
    induction n as [| n IH]; cbn; [reflexivity |]. rewrite IH. reflexivity.
Qed.

End BatchContents.

(** ** What the signing functions never do *)

Section SigningFootprint.

Context {ton : TonCore} {repo : Repo} (env : Env).

Lemma Quiet_Steady {A} (c : M State A) : Quiet c -> Steady c.
Proof. intros Hq st. destruct (Hq st) as (evs & _ & _ & Ht & Htt & _). auto. Qed.

Lemma Steady_tonTransport_signTransaction path options :
  Steady (tonTransport_signTransaction env path options).
Proof.
  intros st. unfold tonTransport_signTransaction.
  destruct (tonTransport st) as [t |] eqn:Hlive.
  - destruct (Steady_external (fun h => ton_signTransaction env h t path options)
                (fun r => EvSign (Some t) path options r) st) as [H1 H2].
    split; congruence.
  - cbn. auto.
Qed.

Lemma Steady_signLoopBody messages p attempts l :
  Steady (signLoopBody env messages p attempts l).
Proof.
  pose proof Steady_tonTransport_signTransaction.
  pose proof (fun tag err => Quiet_Steady _ (Quiet_logDebugError tag err)).
  unfold signLoopBody. steady.
Qed.

Lemma Steady_signLedgerTransactions fuel accountId messages seqno' :
  Steady (signLedgerTransactions env fuel accountId messages seqno').
Proof.
  unfold signLedgerTransactions, signPrepared.
  apply Steady_bind; [apply Quiet_Steady, Quiet_prepareLedgerTransactions |].
  intros p. apply Steady_loop. intros l. apply Steady_signLoopBody.
Qed.

Lemma Steady_signTransfer path sendMode' seqno' t :
  Steady (signTransfer env path sendMode' seqno' t).
Proof.
  pose proof Steady_tonTransport_signTransaction.
  pose proof (Quiet_Steady _ (Quiet_getTransferExpirationTime env)).
  pose proof (fun s => Quiet_Steady _ (Quiet_parseOptionalAddress s)).
  unfold signTransfer. steady.
Qed.

Lemma Steady_submitLedgerTransfer options slug localTransactionParams :
  Steady (submitLedgerTransfer env options slug localTransactionParams).
Proof.
  pose proof Steady_signTransfer.
  pose proof (fun tag err => Quiet_Steady _ (Quiet_logDebugError tag err)).
  unfold submitLedgerTransfer, signAndSend, callApi_sendSignedTransferMessage.
  apply Steady_bind; [apply Quiet_Steady, Quiet_prepareLedgerTransfer |].
  intros s. steady.
Qed.

Variable ok : Event -> bool.
Hypothesis ok_api_read :
  forall call threw, isBroadcast (EvApi call threw) = false -> ok (EvApi call threw) = true.
Hypothesis ok_now : ok EvNow = true.
Hypothesis ok_log : forall tag err, ok (EvLog tag err) = true.
Hypothesis ok_sign : forall t path request outcome, ok (EvSign t path request outcome) = true.

Lemma Footprint_tonTransport_signTransaction path options :
  Footprint ok (tonTransport_signTransaction env path options).
Proof.
  intros st. unfold tonTransport_signTransaction.
  destruct (tonTransport st) as [t |].
  - apply Footprint_external. intros r. apply ok_sign.
  - apply (Footprint_bind ok (record _) (fun _ => throw _));
      [apply Footprint_record, ok_sign |].
    intros _. apply Footprint_throw.
Qed.

Lemma Footprint_signLoopBody messages p attempts l :
  Footprint ok (signLoopBody env messages p attempts l).
Proof.
  pose proof Footprint_tonTransport_signTransaction.
  pose proof (Footprint_logDebugError ok ok_log).
  unfold signLoopBody. footprint.
Qed.

Lemma Footprint_signLedgerTransactions fuel accountId messages seqno' :
  Footprint ok (signLedgerTransactions env fuel accountId messages seqno').
Proof.
  unfold signLedgerTransactions, signPrepared.
  apply Footprint_bind;
    [apply Footprint_prepareLedgerTransactions; assumption |].
  intros p. apply Footprint_loop. intros l. apply Footprint_signLoopBody.
Qed.

Lemma Footprint_signTransfer path sendMode' seqno' t :
  Footprint ok (signTransfer env path sendMode' seqno' t).
Proof.
  pose proof Footprint_tonTransport_signTransaction.
  pose proof (Footprint_getTransferExpirationTime env ok ok_now).
  pose proof (Footprint_parseOptionalAddress ok).
  unfold signTransfer. footprint.
Qed.

Hypothesis ok_api : forall call threw, ok (EvApi call threw) = true.

Lemma Footprint_submitLedgerTransfer options slug localTransactionParams :
  Footprint ok (submitLedgerTransfer env options slug localTransactionParams).
Proof.
  pose proof Footprint_signTransfer.
  pose proof (Footprint_logDebugError ok ok_log).
  unfold submitLedgerTransfer, signAndSend, callApi_sendSignedTransferMessage.
  apply Footprint_bind;
    [apply Footprint_prepareLedgerTransfer; assumption |].
  intros s.
  repeat first [ apply Footprint_external; intros; apply ok_api | progress footprint ].
Qed.

End SigningFootprint.

Section NeverDone.

Context {ton : TonCore} {repo : Repo} (env : Env).

Lemma broadcasts_none evs :
  forallb (fun ev => negb (isBroadcast ev)) evs = true -> broadcasts evs = [].
Proof.
  induction evs as [| ev evs IH]; cbn; [reflexivity |].
  intros H. apply andb_prop in H as [Hev Hevs].
  destruct ev as [| | | | | | | | [] | | |]; cbn in *; try discriminate; auto.
Qed.

Lemma broadcasts_app h1 h2 : broadcasts (h1 ++ h2) = broadcasts h1 ++ broadcasts h2.
Proof.
  induction h1 as [| ev h1 IH]; [reflexivity |].
  destruct ev as [| | | | | | | | [] | | |]; cbn; rewrite ?IH; reflexivity.
Qed.

Lemma forallb_and {A} (f g : A -> bool) l :
  forallb (fun x => f x && g x) l = true -> forallb f l = true /\ forallb g l = true.
Proof.
  induction l as [| x l IH]; cbn; [auto |].
  intros H. apply andb_prop in H as [Hx Hl]. apply andb_prop in Hx as [Hf Hg].
  destruct (IH Hl) as [H1 H2]. rewrite Hf, Hg, H1, H2. auto.
Qed.

(** X6. The two signing functions work on the session they find: neither
    [signLedgerTransactions] nor [submitLedgerTransfer] makes a call to
    the browser's transport layer or changes [transport] or
    [tonTransport], on any path.  And the batch signer only signs: it
    never hands anything to [sendSignedTransferMessage]. *)
Theorem signing_leaves_the_session_alone :
  (forall fuel accountId messages seqno' st,
      let st' := snd (signLedgerTransactions env fuel accountId messages seqno' st) in
      broadcasts (newEvents st st') = []
      /\ forallb (fun ev => negb (isTransportCall ev)) (newEvents st st') = true
      /\ transport st' = transport st
      /\ tonTransport st' = tonTransport st)
  /\ (forall options slug localTransactionParams st,
        let st' := snd (submitLedgerTransfer env options slug localTransactionParams st) in
        forallb (fun ev => negb (isTransportCall ev)) (newEvents st st') = true
        /\ transport st' = transport st
        /\ tonTransport st' = tonTransport st).
Proof.
  split.
  - intros fuel accountId messages seqno' st st'.
    destruct (Steady_signLedgerTransactions env fuel accountId messages seqno' st) as [Ht Htt].
    assert (forallb (fun ev => negb (isBroadcast ev) && negb (isTransportCall ev))
              (newEvents st st') = true) as Hf.
    { eapply Footprint_run; [| apply surjective_pairing].
      apply Footprint_signLedgerTransactions; try reflexivity.
      intros call threw H. rewrite H. reflexivity. }
    apply forallb_and in Hf as [Hb Hc].
    repeat split; auto using broadcasts_none.
  - intros options slug ltp st st'.
    destruct (Steady_submitLedgerTransfer env options slug ltp st) as [Ht Htt].
    repeat split; auto.
    eapply Footprint_run; [| apply surjective_pairing].
    apply Footprint_submitLedgerTransfer; reflexivity.
Qed.

End NeverDone.

(** ** The single transfer: what is signed and what is broadcast *)

Section SingleTransferContents.

Context {ton : TonCore} {repo : Repo} (env : Env).

(** What the part before the [try] has fixed when it returns. *)
Lemma prepareLedgerTransfer_inv options st s st1 :
  prepareLedgerTransfer env options st = (Ret s, st1) ->
  exists h network info parsed,
    api_getWalletInfo env h network (sub_fromAddress s) = inr (Some info)
    /\ sub_seqno s = wallet_seqno info
    /\ sub_sendMode s
       = (if negb (truthy (opt_tokenAddress options))
             && Z.eqb (wallet_balance info) (tr_amount (sub_transfer s))
          then SendMode.CARRY_ALL_REMAINING_BALANCE
          else (SendMode.PAY_GAS_SEPARATELY + SendMode.IGNORE_ERRORS)%Z)
    /\ Address_parseFriendly (opt_toAddress options) = inr parsed
    /\ sub_normalizedAddress s
       = Address_toString (address parsed) true DEFAULT_IS_BOUNCEABLE false
    /\ match whenTruthy (opt_tokenAddress options) with
       | None =>
           tr_isBounceable (sub_transfer s) = isBounceable parsed
           /\ tr_toAddress (sub_transfer s) = Some (opt_toAddress options)
           /\ tr_amount (sub_transfer s) = opt_amount options
       | Some tokenAddress =>
           tr_amount (sub_transfer s) = TOKEN_TRANSFER_TONCOIN_AMOUNT
           /\ exists h',
                api_resolveTokenWalletAddress env h' network (sub_fromAddress s) tokenAddress
                = inr (tr_toAddress (sub_transfer s))
       end.
Proof.
  unfold prepareLedgerTransfer. intros Hrun.
  apply bind_Ret_inv in Hrun as (network & s1 & _ & Hrun).
  apply bind_Ret_inv in Hrun as (? & s2 & _ & Hrun).
  apply bind_Ret_inv in Hrun as (fromAddress & s3 & _ & Hrun).
  apply bind_Ret_inv in Hrun as ([path walletInfo] & s5 & Hall & Hrun).
  apply promiseAll2_Ret_inv in Hall as (s4 & _ & Hinfo).
  apply external_inv in Hinfo as [_ Hinfo].
  destruct (api_getWalletInfo env (history s4) network fromAddress) as [e | answer] eqn:Hapi;
    [discriminate |].
  inversion Hinfo; subst answer. clear Hinfo.
  destruct walletInfo as [info |]; [| discriminate].
  apply bind_Ret_inv in Hrun as (parsed & s6 & Hparse & Hrun).
  apply bind_Ret_inv in Hrun as (t & s7 & Hnorm & Hrun).
  inversion Hrun; subst; clear Hrun. cbn.
  destruct (Address_parseFriendly (opt_toAddress options)) as [e | f] eqn:Hf;
    cbn in Hparse; [discriminate |].
  inversion Hparse; subst f s6. clear Hparse.
  exists (history s4), network, info, parsed.
  repeat split; try assumption; try reflexivity.
  unfold normalizeTransfer in Hnorm.
  destruct (whenTruthy (opt_tokenAddress options)) as [tokenAddress |].
  - apply bind_Ret_inv in Hnorm as (built & s8 & Hbuilt & Hnorm).
    inversion Hnorm; subst; clear Hnorm. cbn.
    pose proof (buildLedgerTokenTransfer_Ret env _ _ _ _ _ _ _ _ _ Hbuilt) as (_ & Hamount & _).
    split; [exact Hamount |].
    unfold buildLedgerTokenTransfer in Hbuilt.
    apply bind_Ret_inv in Hbuilt as (wallet & s9 & Hwallet & Hbuilt).
    apply external_inv in Hwallet as [_ Hwallet].
    destruct (api_resolveTokenWalletAddress env (history s5) network fromAddress tokenAddress)
      as [e | answer] eqn:Hw; [discriminate |].
    inversion Hwallet; subst answer.
    exists (history s5). rewrite Hw. f_equal.
    apply bind_Ret_inv in Hbuilt as (real & s10 & _ & Hbuilt).
    destruct (match real with Some r => String.eqb tokenAddress r | None => false end);
      [| discriminate].
    monad_inv. reflexivity.
  - destruct (whenTruthy (opt_comment options)) as [text |].
    + destruct (isValidLedgerComment text); [| discriminate].
      inversion Hnorm; subst. cbn. auto.
    + inversion Hnorm; subst. cbn. auto.
Qed.

(** The request of the signing call goes to the parsed address of the
    transfer. *)
Lemma signTransfer_to path sendMode' seqno' t st out st' a :
  signTransfer env path sendMode' seqno' t st = (out, st') ->
  In a (signAttempts (newEvents st st')) ->
  exists destination,
    tr_toAddress t = Some destination /\ Address_parse destination = inr (to (fst a)).
Proof.
  unfold signTransfer. intros H Hin.
  unfold bind at 1 in H. unfold getTonTransport at 1 in H.
  destruct (tonTransport st) as [live |] eqn:Hlive.
  2:{ inversion H; subst. unfold newEvents in Hin. rewrite skipn_all in Hin. contradiction. }
  unfold bind at 1 in H.
  destruct (parseOptionalAddress (tr_toAddress t) st) as [[to' | e |] s1] eqn:Hparse;
    destruct (Quiet_run _ _ _ _ (Quiet_parseOptionalAddress _) Hparse)
      as (e1 & Hh1 & Hs1 & _ & Htt1 & Hd1); [| | contradiction].
  2:{ inversion H; subst. rewrite (newEvents_app _ _ _ Hh1), Hs1 in Hin. contradiction. }
  unfold bind at 1 in H.
  destruct (getTransferExpirationTime env s1) as [[timeout' | e |] s2] eqn:Htime;
    destruct (Quiet_run _ _ _ _ (Quiet_getTransferExpirationTime env) Htime)
      as (e2 & Hh2 & Hs2 & _ & Htt2 & Hd2); [| | contradiction].
  2:{ inversion H; subst.
      rewrite (newEvents_chain _ _ _ _ _ Hh1 Hh2), signAttempts_app, Hs1, Hs2 in Hin.
      contradiction. }
  unfold tonTransport_signTransaction in H. rewrite Htt2, Htt1, Hlive in H.
  apply external_inv in H as [Hh3 _].
  rewrite Hh2, Hh1, <- !app_assoc in Hh3.
  rewrite (newEvents_app _ _ _ Hh3), !signAttempts_app, Hs1, Hs2 in Hin.
  cbn in Hin. destruct Hin as [<- | []]. cbn [fst to].
  unfold parseOptionalAddress in Hparse.
  destruct (tr_toAddress t) as [destination |]; [| discriminate].
  exists destination. split; [reflexivity |].
  destruct (Address_parse destination) as [e | x]; cbn in Hparse;
    [discriminate | inversion Hparse; reflexivity].
Qed.

(** A run that reached the [try] block: the attempts are the attempts of
    the signing call. *)
Lemma submitLedgerTransfer_attempt options slug localTransactionParams st out st' a :
  submitLedgerTransfer env options slug localTransactionParams st = (out, st') ->
  In a (signAttempts (newEvents st st')) ->
  exists s st1 signing st2,
    prepareLedgerTransfer env options st = (Ret s, st1)
    /\ signTransfer env (sub_path s) (sub_sendMode s) (sub_seqno s) (sub_transfer s) st1
       = (signing, st2)
    /\ In a (signAttempts (newEvents st1 st2))
    /\ signAttempts (newEvents st1 st2)
       = [(mkSigningRequest (to (fst a)) (sub_sendMode s) (sub_seqno s) (timeout (fst a))
             (tr_isBounceable (sub_transfer s)) (tr_amount (sub_transfer s))
             (tr_payload (sub_transfer s)) None, snd a)].
Proof.
  intros Hrun Hin.
  destruct (submitLedgerTransfer_cases _ _ _ _ _ _ _ Hrun)
    as [(e & _ & _ & Hnone) | (s & st1 & signing & st2 & Hprep & Hsign & Hatt & _)].
  - rewrite Hnone in Hin. contradiction.
  - exists s, st1, signing, st2. rewrite Hatt in Hin.
    repeat split; try assumption.
    destruct (signTransfer_run _ _ _ _ _ _ _ _ Hsign)
      as (_ & evs & Hh & [Hnone | (to' & timeout' & outcome & Hone & _)]);
      rewrite (newEvents_app _ _ _ Hh) in *.
    + rewrite Hnone in Hin. contradiction.
    + rewrite Hone in *. destruct Hin as [<- | []]. reflexivity.
Qed.


(** X7. The request [submitLedgerTransfer] sends to the device carries
    the sequence number of the sender's wallet: the one the backend
    reported when this run asked [getWalletInfo] for the network of the
    account and the address [fetchAddress] had just given for it.  Its
    send mode is CARRY_ALL_REMAINING_BALANCE exactly when no token is
    involved and the amount asked for is the whole balance reported in
    that same answer; in every other case, and for every token transfer,
    it is PAY_GAS_SEPARATELY + IGNORE_ERRORS. *)
Theorem submitLedgerTransfer_send_mode options slug localTransactionParams st out st' a :
  submitLedgerTransfer env options slug localTransactionParams st = (out, st') ->
  In a (signAttempts (newEvents st st')) ->
  exists network fromAddress info,
    parseAccountId (opt_accountId options) = inr network
    /\ answered st (newEvents st st')
         (fun h => api_fetchAddress env h (opt_accountId options))
         (EvApi (FetchAddress (opt_accountId options)) None) fromAddress
    /\ answered st (newEvents st st')
         (fun h => api_getWalletInfo env h network fromAddress)
         (EvApi (GetWalletInfo network fromAddress) None) (Some info)
    /\ seqno (fst a) = wallet_seqno info
    /\ sendMode (fst a)
       = (if negb (truthy (opt_tokenAddress options))
             && Z.eqb (wallet_balance info) (opt_amount options)
          then SendMode.CARRY_ALL_REMAINING_BALANCE
          else (SendMode.PAY_GAS_SEPARATELY + SendMode.IGNORE_ERRORS)%Z).
Proof.
  intros Hrun Hin.
  destruct (submitLedgerTransfer_attempts _ _ _ _ _ _ _ _ Hrun Hin)
    as (s & st1 & Hprep & _ & _ & _ & Hseq & Hmode).
  destruct (submitLedgerTransfer_asked _ _ _ _ _ _ _ _ _ Hprep Hrun)
    as (network & info & parsed & evs & tail & H).
  cbv zeta in H. destruct H as (Hnet & Hfrom & Hinfo & Hs & Hm & _ & Hnorm & _ & Hnew & _).
  exists network, (sub_fromAddress s), info. rewrite Hnew.
  split; [exact Hnet |]. split.
  { exists [EvApi (WaitLastTransfer (opt_accountId options)) None]. eexists.
    split; [reflexivity | exact Hfrom]. }
  split.
  { exists [EvApi (WaitLastTransfer (opt_accountId options)) None;
            EvApi (FetchAddress (opt_accountId options)) None;
            EvApi (FetchAccount (opt_accountId options)) None].
    eexists. split; [reflexivity | exact Hinfo]. }
  split; [congruence |].
  rewrite Hmode, Hm.
  destruct (truthy (opt_tokenAddress options)) eqn:Htok; cbn [negb andb]; [reflexivity |].
  apply normalizeTransfer_Ret in Hnorm. unfold normalizedFrom, whenTruthy in Hnorm.
  rewrite Htok in Hnorm. destruct Hnorm as (_ & -> & _). reflexivity.
Qed.

(** X8. Where the signed request goes.  Without a token address the
    request is addressed to the destination the caller gave, carries the
    amount the caller gave and bounces as that address says of itself.
    With a token address it is addressed to the sender's token wallet --
    what the backend answered when this run asked
    [resolveTokenWalletAddress] for the network of the account, the
    address [fetchAddress] had given for the account, and the token --
    and carries the fixed Toncoin amount of a token transfer instead of
    the amount asked for. *)
Theorem submitLedgerTransfer_destination options slug localTransactionParams st out st' a :
  submitLedgerTransfer env options slug localTransactionParams st = (out, st') ->
  In a (signAttempts (newEvents st st')) ->
  match whenTruthy (opt_tokenAddress options) with
  | None =>
      Address_parse (opt_toAddress options) = inr (to (fst a))
      /\ amount (fst a) = opt_amount options
      /\ exists parsed,
           Address_parseFriendly (opt_toAddress options) = inr parsed
           /\ bounce (fst a) = isBounceable parsed
  | Some tokenAddress =>
      amount (fst a) = TOKEN_TRANSFER_TONCOIN_AMOUNT
      /\ exists network fromAddress tokenWallet,
           parseAccountId (opt_accountId options) = inr network
           /\ answered st (newEvents st st')
                (fun h => api_fetchAddress env h (opt_accountId options))
                (EvApi (FetchAddress (opt_accountId options)) None) fromAddress
           /\ answered st (newEvents st st')
                (fun h => api_resolveTokenWalletAddress env h network fromAddress tokenAddress)
                (EvApi (ResolveTokenWalletAddress network fromAddress tokenAddress) None)
                (Some tokenWallet)
           /\ Address_parse tokenWallet = inr (to (fst a))
  end.
Proof.
  intros Hrun Hin.
  destruct (submitLedgerTransfer_attempt _ _ _ _ _ _ _ Hrun Hin)
    as (s & st1 & signing & st2 & Hprep & Hsign & Hin' & Hone).
  destruct (signTransfer_to _ _ _ _ _ _ _ _ Hsign Hin') as (destination & Hdest & Hto).
  assert (fst a = mkSigningRequest (to (fst a)) (sub_sendMode s) (sub_seqno s)
                    (timeout (fst a)) (tr_isBounceable (sub_transfer s))
                    (tr_amount (sub_transfer s)) (tr_payload (sub_transfer s)) None) as Ha.
  { rewrite Hone in Hin'. destruct Hin' as [Heq | []].
    rewrite <- Heq at 1. reflexivity. }
  destruct (submitLedgerTransfer_asked _ _ _ _ _ _ _ _ _ Hprep Hrun)
    as (network & info & parsed & evs & tail & H).
  cbv zeta in H.
  destruct H as (Hnet & Hfrom & _ & _ & _ & Hparsed & Hnorm & Hh & Hnew & _).
  destruct (whenTruthy (opt_tokenAddress options)) as [tokenAddress |] eqn:Htok.
  - pose proof (normalizeTransfer_token _ _ _ _ _ _ _ _ _ Htok Hnorm) as Hbuilt.
    cbv zeta in Hbuilt. cbn [after history] in Hbuilt.
    destruct (api_resolveTokenWalletAddress env _ network (sub_fromAddress s) tokenAddress)
      as [e | wallet] eqn:Hwallet; [destruct Hbuilt as [Hbuilt _]; discriminate Hbuilt |].
    destruct (api_resolveTokenMinterAddress env _ network wallet) as [e | real];
      [destruct Hbuilt as [Hbuilt _]; discriminate Hbuilt |].
    destruct Hbuilt as (Hst1 & _ & Hret).
    destruct (Hret _ eq_refl) as (_ & Hwal & Hamount).
    split; [rewrite Ha; cbn; exact Hamount |].
    assert (evs = [EvApi (ResolveTokenWalletAddress network (sub_fromAddress s) tokenAddress)
                     None;
                   EvApi (ResolveTokenMinterAddress network wallet) None]) as ->.
    { rewrite Hst1 in Hh. cbn [after history] in Hh.
      rewrite <- app_assoc in Hh. apply app_inv_head in Hh.
      apply (app_inv_head [_; _; _; _]) in Hh. symmetry. exact Hh. }
    exists network, (sub_fromAddress s), destination. rewrite Hnew.
    split; [exact Hnet |]. split.
    { exists [EvApi (WaitLastTransfer (opt_accountId options)) None]. eexists.
      split; [reflexivity | exact Hfrom]. }
    split; [| exact Hto].
    exists [EvApi (WaitLastTransfer (opt_accountId options)) None;
            EvApi (FetchAddress (opt_accountId options)) None;
            EvApi (FetchAccount (opt_accountId options)) None;
            EvApi (GetWalletInfo network (sub_fromAddress s)) None].
    eexists. split; [reflexivity |].
    rewrite Hwallet. f_equal. congruence.
  - apply normalizeTransfer_Ret in Hnorm. unfold normalizedFrom in Hnorm.
    rewrite Htok in Hnorm. destruct Hnorm as (Htoaddr & Hamount & _).
    rewrite Htoaddr in Hdest. inversion Hdest; subst destination.
    split; [exact Hto |]. split; [rewrite Ha; cbn; exact Hamount |].
    exists parsed. split; [exact Hparsed |]. rewrite Ha. cbn [bounce].
    destruct (prepareLedgerTransfer_inv _ _ _ _ Hprep)
      as (h' & network' & info' & parsed' & _ & _ & _ & Hparsed' & _ & Hkind).
    rewrite Htok in Hkind. destruct Hkind as (Hb & _).
    rewrite Hb. congruence.
Qed.

(** One signing attempt at most, one broadcast at most, and only of what
    was signed. *)
Lemma submitLedgerTransfer_broadcast
  options slug localTransactionParams st out st' :
  submitLedgerTransfer env options slug localTransactionParams st = (out, st') ->
  List.length (signAttempts (newEvents st st')) <= 1
  /\ (broadcasts (newEvents st st') = []
      \/ exists request cell message parsed fromAddress,
           signAttempts (newEvents st st') = [(request, inr cell)]
           /\ broadcasts (newEvents st st') = [message]
           /\ signed_base64 message = Cell_toBase64 cell
           /\ signed_seqno message = seqno request
           /\ Address_parseFriendly (opt_toAddress options) = inr parsed
           /\ signed_params message
              = spreadParams
                  (mkParams (opt_amount options) fromAddress
                     (Address_toString (address parsed) true DEFAULT_IS_BOUNCEABLE false)
                     (opt_comment options) (opt_fee options) slug None)
                  localTransactionParams)
  /\ (forall result, out = Ret (Some result) -> broadcasts (newEvents st st') <> []).
Proof.
  intros Hrun.
  destruct (submitLedgerTransfer_cases _ _ _ _ _ _ _ Hrun)
    as [(e & Hprep & Hout & Hnone) | (s & st1 & signing & st2 & Hprep & Hsign & Hatt & Hcase)].
  - assert (broadcasts (newEvents st st') = []) as Hb.
    { apply broadcasts_none. eapply Footprint_run; [| exact Hprep].
      apply Footprint_prepareLedgerTransfer. intros call threw H. cbv beta. rewrite H. reflexivity. }
    rewrite Hnone, Hb. cbn. repeat split; auto. intros result H. congruence.
  - assert (exists e0, history st1 = history st ++ e0 /\ broadcasts e0 = [])
      as (e0 & Hh0 & Hb0).
    { destruct (Footprint_prepareLedgerTransfer env (fun ev => negb (isBroadcast ev))
                  ltac:(intros call threw H; cbv beta; rewrite H; reflexivity) options st)
        as (e0 & Hh0 & Hq0).
      rewrite Hprep in Hh0. exists e0. auto using broadcasts_none. }
    assert (exists e1, history st2 = history st1 ++ e1 /\ broadcasts e1 = [])
      as (e1 & Hh1 & Hb1).
    { destruct (Footprint_signTransfer env (fun ev => negb (isBroadcast ev))
                  ltac:(reflexivity) ltac:(reflexivity)
                  (sub_path s) (sub_sendMode s) (sub_seqno s) (sub_transfer s) st1)
        as (e1 & Hh1 & Hq1).
      rewrite Hsign in Hh1. exists e1. auto using broadcasts_none. }
    destruct (signTransfer_run _ _ _ _ _ _ _ _ Hsign) as (_ & evs & Hh & Hone).
    rewrite Hh1 in Hh. apply app_inv_head in Hh. subst evs.
    rewrite Hatt, (newEvents_app _ _ _ Hh1).
    assert (forall tail,
               history st' = history st2 ++ tail ->
               broadcasts (newEvents st st') = broadcasts tail) as Htail.
    { intros tail Ht. rewrite Hh1, Hh0, <- !app_assoc in Ht.
      rewrite (newEvents_app _ _ _ Ht), !broadcasts_app, Hb0, Hb1. reflexivity. }
    split; [destruct Hone as [-> | (? & ? & ? & -> & _)]; cbn; lia |].
    destruct signing as [signedCell | e |]; [| | contradiction].
    + cbv zeta in Hcase.
      destruct Hone as [Hnone | (to' & timeout' & outcome & Hone & Hout)].
      { exfalso. destruct (Quiet_run _ _ _ _ (Quiet_prepareLedgerTransfer env _) Hprep)
          as (_ & _ & _ & _ & Htt & _).
        clear - Hsign Hnone Hh1. unfold signTransfer in Hsign.
        unfold bind at 1 in Hsign. unfold getTonTransport at 1 in Hsign.
        destruct (tonTransport st1) as [live |] eqn:Hlive; [| discriminate].
        unfold bind at 1 in Hsign.
        destruct (parseOptionalAddress (tr_toAddress (sub_transfer s)) st1)
          as [[to' | e |] s1] eqn:Hparse; [| discriminate | discriminate].
        destruct (Quiet_run _ _ _ _ (Quiet_parseOptionalAddress _) Hparse)
          as (x1 & Hx1 & _ & _ & Htt1 & _).
        unfold bind at 1 in Hsign.
        destruct (getTransferExpirationTime env s1) as [[timeout' | e |] s2] eqn:Htime;
          [| discriminate | discriminate].
        destruct (Quiet_run _ _ _ _ (Quiet_getTransferExpirationTime env) Htime)
          as (x2 & Hx2 & _ & _ & Htt2 & _).
        unfold tonTransport_signTransaction in Hsign. rewrite Htt2, Htt1, Hlive in Hsign.
        apply external_inv in Hsign as [Hx3 _].
        rewrite Hx2, Hx1, <- !app_assoc in Hx3. rewrite Hh1 in Hx3.
        apply app_inv_head in Hx3. subst e1.
        rewrite !signAttempts_app in Hnone. cbn in Hnone.
        apply app_eq_nil in Hnone as [_ Hnone]. apply app_eq_nil in Hnone as [_ Hnone].
        discriminate. }
      destruct outcome as [e | cell]; inversion Hout; subst signedCell.
      destruct (prepareLedgerTransfer_inv _ _ _ _ Hprep)
        as (h & network & info & parsed & _ & _ & _ & Hparsed & Hnormal & _).
      destruct (api_sendSignedTransferMessage env (history st2) (opt_accountId options)
                  (signedMessageOf options slug localTransactionParams s cell))
        as [e | result]; destruct Hcase as [Hout' Hh2];
        rewrite (Htail _ Hh2); cbn [broadcasts];
        (split; [| intros r Hr; discriminate]);
        right; eexists _, cell, _, parsed, _; rewrite Hone;
        (split; [reflexivity |]); (split; [reflexivity |]);
        cbn [signedMessageOf signed_base64 signed_seqno signed_params seqno];
        repeat split; try assumption;
        rewrite Hnormal; reflexivity.
    + destruct Hcase as [Hout' Hh2]. rewrite (Htail _ Hh2). cbn.
      split; [left; reflexivity |]. intros result Hr. congruence.
Qed.

(** X9. [submitLedgerTransfer] asks the device at most once and
    broadcasts at most once, and only what the device signed: a message is
    handed to [sendSignedTransferMessage] only after the one signing
    attempt succeeded, and it carries the encoding of the signed cell and
    the sequence number of the signed request.  What it shows is what the
    caller asked for -- the caller's amount, and the caller's destination
    in normalized form, not the token wallet and the Toncoin amount the
    device signed for a token transfer.  A run that returns a result has
    broadcast. *)
Theorem submitLedgerTransfer_broadcasts_what_was_signed
  options slug localTransactionParams st out st' :
  submitLedgerTransfer env options slug localTransactionParams st = (out, st') ->
  List.length (signAttempts (newEvents st st')) <= 1
  /\ (broadcasts (newEvents st st') = []
      \/ exists request cell message parsed fromAddress,
           signAttempts (newEvents st st') = [(request, inr cell)]
           /\ broadcasts (newEvents st st') = [message]
           /\ signed_base64 message = Cell_toBase64 cell
           /\ signed_seqno message = seqno request
           /\ Address_parseFriendly (opt_toAddress options) = inr parsed
           /\ signed_params message
              = spreadParams
                  (mkParams (opt_amount options) fromAddress
                     (Address_toString (address parsed) true DEFAULT_IS_BOUNCEABLE false)
                     (opt_comment options) (opt_fee options) slug None)
                  localTransactionParams)
  /\ (forall result, out = Ret (Some result) -> broadcasts (newEvents st st') <> []).
Proof.
  intros Hrun.
  destruct (submitLedgerTransfer_broadcast _ _ _ _ _ _ Hrun) as (Honce & Hsigned & Hsent).
  split; [exact Honce |]. split; [exact Hsigned | exact Hsent].
Qed.

(** X10. Without a live session [submitLedgerTransfer] still asks the
    backend for everything it needs, then fails at the member access of
    the signing call: the TypeError is logged, nothing reaches the device,
    nothing is broadcast, and the function returns undefined. *)
Theorem submitLedgerTransfer_without_session
  options slug localTransactionParams st s st1 :
  prepareLedgerTransfer env options st = (Ret s, st1) ->
  tonTransport st = None ->
  submitLedgerTransfer env options slug localTransactionParams st
  = (Ret None, after st1 [EvLog "submitLedgerTransfer" (Some (TypeError "tonTransport"))]).
Proof.
  intros Hprep Hnone.
  destruct (Quiet_run _ _ _ _ (Quiet_prepareLedgerTransfer env _) Hprep)
    as (_ & _ & _ & _ & Htt & _).
  unfold submitLedgerTransfer. rewrite (bind_eq _ _ _ _ _ Hprep).
  unfold tryCatch, signAndSend, signTransfer. unfold bind at 1. unfold bind at 1.
  unfold getTonTransport at 1. rewrite Htt, Hnone. reflexivity.
Qed.

(** An ordinary mismatch: the run asked the backend for the minter of the
    token wallet, and the answer was not the token the caller named. *)
Lemma submitLedgerTransfer_mismatch options slug localTransactionParams st out st'
  tokenAddress network wallet real :
  submitLedgerTransfer env options slug localTransactionParams st = (out, st') ->
  whenTruthy (opt_tokenAddress options) = Some tokenAddress ->
  answered st (newEvents st st')
    (fun h => api_resolveTokenMinterAddress env h network wallet)
    (EvApi (ResolveTokenMinterAddress network wallet) None) real ->
  real <> Some tokenAddress ->
  out = Throw (JsError "Invalid contract") /\ signAttempts (newEvents st st') = [].
Proof.
  intros Hrun Htok Hans Hne.
  pose proof (answered_In _ _ _ _ _ Hans) as Hin.
  destruct (submitLedgerTransfer_cases _ _ _ _ _ _ _ Hrun)
    as [(e & Hprep & Hout & Hnone) | (s & st1 & signing & st2 & Hprep & _)].
  - (* the part before the [try] threw *)
    split; [| exact Hnone]. subst out.
    destruct (prepareLedgerTransfer_split _ _ _ _ _ Hprep)
      as [(evs & Hh & Hquiet & _)
         | (network' & fromAddress & accountInfo & l & info & parsed & rn & H)].
    { exfalso. rewrite (newEvents_app _ _ _ Hh) in Hin.
      pose proof (forallb_In _ _ _ Hquiet Hin) as Hq. discriminate Hq. }
    cbv zeta in H. destruct H as (_ & _ & _ & _ & _ & _ & Hnorm & Hr).
    destruct rn as [t | e' |]; try discriminate Hr. inversion Hr; subst e'; clear Hr.
    pose proof (normalizeTransfer_token _ _ _ _ _ _ _ _ _ Htok Hnorm) as Hbuilt.
    cbv zeta in Hbuilt. cbn [after history] in Hbuilt.
    destruct (api_resolveTokenWalletAddress env _ network' fromAddress tokenAddress)
      as [e1 | wallet'].
    { exfalso. destruct Hbuilt as [_ ->].
      unfold newEvents in Hin. cbn [after history] in Hin.
      rewrite <- app_assoc, skipn_app, skipn_all, Nat.sub_diag in Hin. cbn in Hin.
      repeat (destruct Hin as [Hin | Hin]; [discriminate Hin |]). contradiction. }
    destruct (api_resolveTokenMinterAddress env _ network' wallet') as [e2 | real'] eqn:Hreal.
    { exfalso. destruct Hbuilt as [_ ->].
      unfold newEvents in Hin. cbn [after history] in Hin.
      rewrite <- app_assoc, skipn_app, skipn_all, Nat.sub_diag in Hin. cbn in Hin.
      repeat (destruct Hin as [Hin | Hin]; [discriminate Hin |]). contradiction. }
    destruct Hbuilt as (-> & Hbad & _).
    destruct Hans as (before & later & Hcut & Hanswer).
    unfold newEvents in Hcut. cbn [after history] in Hcut.
    rewrite <- app_assoc, skipn_app, skipn_all, Nat.sub_diag in Hcut. cbn [skipn app] in Hcut.
    destruct (split_unique (fun ev => negb (asksMinter ev))
                [EvApi (WaitLastTransfer (opt_accountId options)) None;
                 EvApi (FetchAddress (opt_accountId options)) None;
                 EvApi (FetchAccount (opt_accountId options)) None;
                 EvApi (GetWalletInfo network' fromAddress) None;
                 EvApi (ResolveTokenWalletAddress network' fromAddress tokenAddress) None]
                _ [] _ _ _ Hcut eq_refl eq_refl eq_refl) as (-> & Hev & _).
    inversion Hev; subst network' wallet'. rewrite <- app_assoc in Hreal. cbn [app] in Hreal.
    rewrite Hreal in Hanswer. inversion Hanswer; subst real'.
    pose proof (Hbad Hne) as He. inversion He. reflexivity.
  - (* the [try] block was reached: the minter was the token *)
    exfalso.
    destruct (submitLedgerTransfer_asked _ _ _ _ _ _ _ _ _ Hprep Hrun)
      as (network' & info & parsed & evs & tail & H).
    cbv zeta in H. destruct H as (_ & _ & _ & _ & _ & _ & Hnorm & Hh & Hnew & Hquiet).
    pose proof (normalizeTransfer_token _ _ _ _ _ _ _ _ _ Htok Hnorm) as Hbuilt.
    cbv zeta in Hbuilt. cbn [after history] in Hbuilt.
    destruct (api_resolveTokenWalletAddress env _ network' (sub_fromAddress s) tokenAddress)
      as [e1 | wallet']; [destruct Hbuilt as [Hbuilt _]; discriminate Hbuilt |].
    destruct (api_resolveTokenMinterAddress env _ network' wallet') as [e2 | real'] eqn:Hreal;
      [destruct Hbuilt as [Hbuilt _]; discriminate Hbuilt |].
    destruct Hbuilt as (Hst1 & _ & Hret). destruct (Hret _ eq_refl) as (Hminter & _).
    assert (evs = [EvApi (ResolveTokenWalletAddress network' (sub_fromAddress s) tokenAddress)
                     None;
                   EvApi (ResolveTokenMinterAddress network' wallet') None]) as ->.
    { rewrite Hst1 in Hh. cbn [after history] in Hh.
      rewrite <- app_assoc in Hh. apply app_inv_head in Hh.
      apply (app_inv_head [_; _; _; _]) in Hh. symmetry. exact Hh. }
    destruct Hans as (before & later & Hcut & Hanswer).
    rewrite Hnew in Hcut. cbn [app] in Hcut.
    destruct (split_unique (fun ev => negb (asksMinter ev))
                [EvApi (WaitLastTransfer (opt_accountId options)) None;
                 EvApi (FetchAddress (opt_accountId options)) None;
                 EvApi (FetchAccount (opt_accountId options)) None;
                 EvApi (GetWalletInfo network' (sub_fromAddress s)) None;
                 EvApi (ResolveTokenWalletAddress network' (sub_fromAddress s) tokenAddress)
                   None]
                _ tail _ _ _ Hcut eq_refl Hquiet eq_refl) as (-> & Hev & _).
    inversion Hev; subst network' wallet'. rewrite <- app_assoc in Hreal. cbn [app] in Hreal.
    rewrite Hreal in Hanswer. congruence.
Qed.

(** The [try] block also catches what goes wrong in the signing call
    before the device is reached: the missing session, and an address for
    the device that does not parse. *)
Lemma submitLedgerTransfer_unreached options slug localTransactionParams st out st' s st1 :
  submitLedgerTransfer env options slug localTransactionParams st = (out, st') ->
  prepareLedgerTransfer env options st = (Ret s, st1) ->
  tonTransport st = None
  \/ (forall x, tr_toAddress (sub_transfer s) = Some x -> exists e, Address_parse x = inl e) ->
  out = Ret None /\ signAttempts (newEvents st st') = [].
Proof.
  intros Hrun Hprep Hcond.
  destruct (Quiet_run _ _ _ _ (Quiet_prepareLedgerTransfer env _) Hprep)
    as (_ & _ & _ & _ & Htt & _).
  destruct (submitLedgerTransfer_cases _ _ _ _ _ _ _ Hrun)
    as [(e & Hthrow & _) | (s' & st1' & signing & st2 & Hprep' & Hsign & Hatt & Hcase)];
    [congruence |].
  rewrite Hprep in Hprep'. inversion Hprep'; subst s' st1'. clear Hprep'.
  assert (exists e, signing = Throw e /\ st2 = st1) as (e & -> & ->).
  { unfold signTransfer in Hsign. unfold bind at 1 in Hsign.
    unfold getTonTransport at 1 in Hsign.
    destruct (tonTransport st1) as [live |] eqn:Hlive.
    2:{ inversion Hsign; eauto. }
    destruct Hcond as [Hnone | Hbad]; [congruence |].
    unfold bind at 1 in Hsign. unfold parseOptionalAddress in Hsign.
    destruct (tr_toAddress (sub_transfer s)) as [x |].
    - destruct (Hbad x eq_refl) as (e & He). rewrite He in Hsign.
      inversion Hsign; eauto.
    - inversion Hsign; eauto. }
  destruct Hcase as [-> _]. split; [reflexivity |].
  rewrite Hatt. unfold newEvents. rewrite skipn_all. reflexivity.
Qed.

(** C10. In [submitLedgerTransfer] an exception raised before the [try]
    block reaches the caller: the function throws exactly when that part
    throws.  So the call throws when the comment it validates is invalid
    (the error of the normalization is Error('Unsupported format')); it
    throws Error('Invalid contract'), with nothing sent to the device,
    whenever the minter the backend reports for the sender's token wallet
    is not the token the caller named; and it throws when the destination
    address does not parse.  An exception of the signing call or of the
    broadcast is not thrown on: it is logged and the function returns
    undefined.  The signing call stands inside the [try] block with the
    evaluation of its arguments, so the same happens when the session is
    missing or the address for the device does not parse, although the
    device is not reached then. *)
Theorem submitLedgerTransfer_error_propagation
  options slug localTransactionParams st out st' :
  submitLedgerTransfer env options slug localTransactionParams st = (out, st') ->
  (forall e, out = Throw e <-> prepareLedgerTransfer env options st = (Throw e, st'))
  /\ (forall text,
        whenTruthy (opt_tokenAddress options) = None ->
        whenTruthy (opt_comment options) = Some text ->
        isValidLedgerComment text = false ->
        (exists e, out = Throw e)
        /\ forall network fromAddress isBounceable' s,
             normalizeTransfer env network fromAddress options isBounceable' s
             = (Throw (JsError "Unsupported format"), s))
  /\ (forall tokenAddress network wallet real,
        whenTruthy (opt_tokenAddress options) = Some tokenAddress ->
        answered st (newEvents st st')
          (fun h => api_resolveTokenMinterAddress env h network wallet)
          (EvApi (ResolveTokenMinterAddress network wallet) None) real ->
        real <> Some tokenAddress ->
        out = Throw (JsError "Invalid contract")
        /\ signAttempts (newEvents st st') = [])
  /\ (forall e0,
        Address_parseFriendly (opt_toAddress options) = inl e0 ->
        exists e, out = Throw e)
  /\ (forall s st1 e st2,
        prepareLedgerTransfer env options st = (Ret s, st1) ->
        signTransfer env (sub_path s) (sub_sendMode s) (sub_seqno s) (sub_transfer s) st1
        = (Throw e, st2) ->
        out = Ret None
        /\ history st' = history st2 ++ [EvLog "submitLedgerTransfer" (Some e)])
  /\ (forall s st1 signedCell st2 e,
        prepareLedgerTransfer env options st = (Ret s, st1) ->
        signTransfer env (sub_path s) (sub_sendMode s) (sub_seqno s) (sub_transfer s) st1
        = (Ret signedCell, st2) ->
        api_sendSignedTransferMessage env (history st2) (opt_accountId options)
          (signedMessageOf options slug localTransactionParams s signedCell)
        = inl e ->
        out = Ret None
        /\ history st'
           = history st2
               ++ [EvApi (SendSignedTransferMessage (opt_accountId options)
                            (signedMessageOf options slug localTransactionParams s signedCell))
                     (Some e);
                   EvLog "submitLedgerTransfer" (Some e)])
  /\ (forall s st1,
        prepareLedgerTransfer env options st = (Ret s, st1) ->
        tonTransport st = None
        \/ (forall x, tr_toAddress (sub_transfer s) = Some x ->
                      exists e, Address_parse x = inl e) ->
        out = Ret None /\ signAttempts (newEvents st st') = [])
  /\ out <> Diverge.
Proof.
  intros Hrun.
  pose proof (fun tokenAddress network wallet real =>
                submitLedgerTransfer_mismatch _ _ _ _ _ _ tokenAddress network wallet real
                  Hrun) as Hmismatch.
  pose proof (fun s st1 => submitLedgerTransfer_unreached _ _ _ _ _ _ s st1 Hrun)
    as Hunreached.
  assert (forall s st1,
             prepareLedgerTransfer env options st = (Ret s, st1) ->
             (exists parsed, Address_parseFriendly (opt_toAddress options) = inr parsed)
             /\ normalizedFrom env options (sub_transfer s)) as Hprepared.
  { intros s st1. apply prepareLedgerTransfer_Ret. }
  destruct (submitLedgerTransfer_cases _ _ _ _ _ _ _ Hrun)
    as [(e & Hprep & Hout & _)
       | (s & st1 & signing & st2 & Hprep & Hsign & _ & Hcase)].
  - (* the part before the [try] throws *)
    subst out.
    split; [| split; [| split; [exact Hmismatch
                               | split; [| split; [| split; [| split; [exact Hunreached |]]]]]]].
    + intros e'. split; intros H.
      * inversion H; subst. exact Hprep.
      * rewrite Hprep in H. inversion H; subst. reflexivity.
    + intros text Htok Hcom Hinvalid. split; [eauto |].
      intros network fromAddress isB s0.
      rewrite (normalizeTransfer_comment _ _ _ _ _ text _ Htok Hcom), Hinvalid. reflexivity.
    + eauto.
    + intros s st1 e' st2 H. rewrite Hprep in H. discriminate.
    + intros s st1 c st2 e' H. rewrite Hprep in H. discriminate.
    + discriminate.
  - (* the [try] block is reached *)
    destruct (Hprepared s st1 Hprep) as ((parsed & Hparsed) & Hnorm).
    unfold normalizedFrom in Hnorm.
    assert (exists result, out = Ret result) as (result & Hout).
    { destruct signing as [signedCell | e |]; [| | contradiction].
      - cbv zeta in Hcase.
        destruct (api_sendSignedTransferMessage env _ _ _); destruct Hcase as [-> _]; eauto.
      - destruct Hcase as [-> _]. eauto. }
    split; [| split; [| split; [exact Hmismatch
                               | split; [| split; [| split; [| split; [exact Hunreached |]]]]]]].
    + intros e. split; intros H; [congruence |]. rewrite Hprep in H. discriminate.
    + intros text Htok Hcom Hinvalid. exfalso.
      rewrite Htok, Hcom in Hnorm. destruct Hnorm as (_ & _ & Hvalid & _). congruence.
    + intros e0 He0. congruence.
    + intros s' st1' e st2' Hprep' Hsign'.
      rewrite Hprep in Hprep'. inversion Hprep'; subst s' st1'.
      rewrite Hsign in Hsign'. inversion Hsign'; subst signing st2'.
      exact Hcase.
    + intros s' st1' signedCell st2' e Hprep' Hsign' Hsend.
      rewrite Hprep in Hprep'. inversion Hprep'; subst s' st1'.
      rewrite Hsign in Hsign'. inversion Hsign'; subst signing st2'.
      cbv zeta in Hcase. rewrite Hsend in Hcase. exact Hcase.
    + congruence.
Qed.

End SingleTransferContents.

(** ** Discovery: what it touches, what it returns, where errors go *)

Section DiscoveryMore.

Context {ton : TonCore} {repo : Repo} (env : Env).

Lemma Footprint_getLedgerWalletInfo network accountIndex :
  Footprint isLookup (getLedgerWalletInfo env network accountIndex).
Proof.
  unfold getLedgerWalletInfo, getLedgerWalletAddress, callApi_getWalletBalance. footprint.
Qed.

Lemma Steady_getLedgerWalletInfo network accountIndex :
  Steady (getLedgerWalletInfo env network accountIndex).
Proof.
  unfold getLedgerWalletInfo, getLedgerWalletAddress, callApi_getWalletBalance. steady.
Qed.

Lemma Footprint_getNextLedgerWallets fuel network lastExistingIndex imported :
  Footprint isLookup (getNextLedgerWallets env fuel network lastExistingIndex imported).
Proof.
  pose proof Footprint_getLedgerWalletInfo.
  unfold getNextLedgerWallets, discoveryBody. footprint.
Qed.

Lemma Steady_getNextLedgerWallets fuel network lastExistingIndex imported :
  Steady (getNextLedgerWallets env fuel network lastExistingIndex imported).
Proof.
  pose proof Steady_getLedgerWalletInfo.
  unfold getNextLedgerWallets, discoveryBody. steady.
Qed.


Lemma getLedgerWalletInfo_index network accountIndex st w st' :
  getLedgerWalletInfo env network accountIndex st = (Ret w, st') ->
  lw_index w = accountIndex.
Proof.
  unfold getLedgerWalletInfo. intros Hrun.
  apply bind_Ret_inv in Hrun as ([a k] & s1 & _ & Hrun).
  apply bind_Ret_inv in Hrun as (b & s2 & _ & Hrun).
  apply bind_Ret_inv in Hrun as (current & s3 & _ & Hrun).
  destruct current; [| discriminate]. inversion Hrun; reflexivity.
Qed.



Lemma bind_Throw_eq {S A B} (c : M S A) (k : A -> M S B) st e st1 :
  c st = (Throw e, st1) -> bind c k st = (Throw e, st1).
Proof. unfold bind. intros ->. reflexivity. Qed.

Lemma getLedgerWalletInfo_without_session network accountIndex st :
  tonTransport st = None ->
  getLedgerWalletInfo env network accountIndex st
  = (Throw (TypeError "tonTransport"),
     after st
       [EvGetAddress None (getLedgerAccountPathByIndex accountIndex false WORKCHAIN)
          (Some (TypeError "tonTransport"))]).
Proof.
  intros Hnone. unfold getLedgerWalletInfo. apply bind_Throw_eq.
  unfold getLedgerWalletAddress, bind, getTonTransport. rewrite Hnone. reflexivity.
Qed.

(** X11. Discovery only looks: on every path [getNextLedgerWallets] adds
    nothing to the history but requests for an address to the device and
    requests for a balance to the backend -- it never signs, never
    broadcasts, never opens a transport -- and it leaves [transport] and
    [tonTransport] as they were. *)
Theorem getNextLedgerWallets_only_looks fuel network lastExistingIndex imported st :
  let st' := snd (getNextLedgerWallets env fuel network lastExistingIndex imported st) in
  forallb isLookup (newEvents st st') = true
  /\ signAttempts (newEvents st st') = []
  /\ broadcasts (newEvents st st') = []
  /\ transport st' = transport st
  /\ tonTransport st' = tonTransport st.
Proof.
  intros st'.
  destruct (Steady_getNextLedgerWallets fuel network lastExistingIndex imported st)
    as [Ht Htt].
  pose proof (Footprint_run isLookup _ st _ _
                (Footprint_getNextLedgerWallets fuel network lastExistingIndex imported)
                (surjective_pairing _)) as Hf.
  fold st' in Hf. repeat split; auto.
  - apply signAttempts_quiet. clear - Hf.
    induction (newEvents st st') as [| ev evs IH]; cbn in *; [reflexivity |].
    apply andb_prop in Hf as [Hev Hevs]. rewrite (IH Hevs).
    destruct ev; try discriminate; reflexivity.
  - apply broadcasts_none. clear - Hf.
    induction (newEvents st st') as [| ev evs IH]; cbn in *; [reflexivity |].
    apply andb_prop in Hf as [Hev Hevs]. rewrite (IH Hevs).
    destruct ev as [| | | | | | | | [] | | |]; try discriminate; reflexivity.
Qed.


(** X13. No exception leaves [getNextLedgerWallets] but through
    [handleServerError]: what the function throws, [handleServerError]
    threw, and an error result it returns, [handleServerError] returned.
    In particular, without a live session the first look-up fails with a
    TypeError before the device is reached, and the function gives what
    [handleServerError] makes of it. *)
Theorem getNextLedgerWallets_error_routing fuel network lastExistingIndex imported st :
  (forall e',
      fst (getNextLedgerWallets env fuel network lastExistingIndex imported st) = Throw e' ->
      exists e, handleServerError e = inl e')
  /\ (forall r,
        fst (getNextLedgerWallets env fuel network lastExistingIndex imported st)
        = Ret (inr r) ->
        exists e, handleServerError e = inr r)
  /\ (tonTransport st = None ->
      1 <= fuel ->
      getNextLedgerWallets env fuel network lastExistingIndex imported st
      = (match handleServerError (TypeError "tonTransport") with
         | inl e => Throw e
         | inr r => Ret (inr r)
         end,
         after st
           [EvGetAddress None
              (getLedgerAccountPathByIndex (orElse lastExistingIndex (-1) + 1)%Z false WORKCHAIN)
              (Some (TypeError "tonTransport"))])).
Proof.
  split; [| split].
  - intros e' Hrun. unfold getNextLedgerWallets, tryCatch in Hrun.
    destruct (bind (loop fuel _ _) _ st) as [[r | e |] st1] eqn:Hloop; cbn in Hrun;
      try discriminate.
    unfold bind in Hrun. exists e.
    destruct (handleServerError e) as [x | x]; cbn in Hrun; [congruence | discriminate].
  - intros r Hrun. unfold getNextLedgerWallets, tryCatch in Hrun.
    destruct (bind (loop fuel _ _) _ st) as [[r' | e |] st1] eqn:Hloop; cbn in Hrun;
      try discriminate.
    + apply bind_Ret_inv in Hloop as (found & st2 & _ & Hret).
      inversion Hret; subst. discriminate.
    + unfold bind in Hrun. exists e.
      destruct (handleServerError e) as [x | x]; cbn in Hrun; [discriminate | congruence].
  - intros Hnone Hfuel. destruct fuel as [| fuel]; [lia |].
    unfold getNextLedgerWallets, tryCatch.
    rewrite (bind_Throw_eq _ _ _ (TypeError "tonTransport")
               (after st
                  [EvGetAddress None
                     (getLedgerAccountPathByIndex (orElse lastExistingIndex (-1) + 1)%Z false
                        WORKCHAIN)
                     (Some (TypeError "tonTransport"))])).
    + unfold bind, lift.
      destruct (handleServerError (TypeError "tonTransport")); reflexivity.
    + cbn [loop]. apply bind_Throw_eq. unfold discoveryBody.
      apply bind_Throw_eq. apply getLedgerWalletInfo_without_session. exact Hnone.
Qed.

End DiscoveryMore.

(** ** Connecting: the session it leaves *)

Section ConnectingMore.

Context {ton : TonCore} {repo : Repo} (env : Env).

Lemma Footprint_connectLedger fuel : Footprint isConnecting (connectLedger env fuel).
Proof.
  unfold connectLedger, connectHID, connectUSB, connectHIDBody, connectUSBBody, isSupported,
    listDevices, createTransport, openDevice, openConnected, requestDevice, pause,
    logDebugError.
  footprint.
Qed.

(** X14. [connectLedger] never throws.  When it returns true, [transport]
    and [tonTransport] are both set, to the same transport; when it
    returns false, both are what they were before the call, and the last
    thing it did was to write the reason to the debug log.  On the way it
    touches nothing but the browser's transport layer, the clock and the
    log: neither the TON application of the device nor the backend. *)
Theorem connectLedger_session fuel st :
  ATTEMPTS < fuel ->
  forallb isConnecting (newEvents st (snd (connectLedger env fuel st))) = true
  /\ match fst (connectLedger env fuel st) with
     | Ret true =>
         exists t,
           transport (snd (connectLedger env fuel st)) = Some t
           /\ tonTransport (snd (connectLedger env fuel st)) = Some t
     | Ret false =>
         transport (snd (connectLedger env fuel st)) = transport st
         /\ tonTransport (snd (connectLedger env fuel st)) = tonTransport st
         /\ exists evs tag err,
              newEvents st (snd (connectLedger env fuel st)) = evs ++ [EvLog tag err]
     | _ => False
     end.
Proof.
  intros Hfuel. split.
  { eapply Footprint_run; [apply Footprint_connectLedger | apply surjective_pairing]. }
  rewrite connectLedger_unfold.
  destruct (transport_isSupported env (history st) HID) as [e | [|]].
  - cbn. repeat split. rewrite newEvents_after.
    exists [EvIsSupported HID (Some e)], "connectLedger", (Some e). reflexivity.
  - destruct (connectHID_run env fuel 0 (after st [EvIsSupported HID None]) ltac:(lia))
      as (Hd & Ht & Htt & evs & Hh & _).
    unfold connectHID.
    destruct (loop fuel (connectHIDBody env) 0 _) as [[t | e |] st2];
      cbn [fst snd] in *; [| | contradiction].
    + exists t. auto.
    + repeat split; try assumption.
      exists ([EvIsSupported HID None] ++ evs), "connectLedger", (Some e).
      apply newEvents_app. cbn [history after] in *. rewrite Hh, <- !app_assoc. reflexivity.
  - destruct (transport_isSupported env (history st ++ [EvIsSupported HID None]) USB)
      as [e | [|]].
    + cbn. repeat split. rewrite newEvents_after.
      exists [EvIsSupported HID None; EvIsSupported USB (Some e)], "connectLedger", (Some e).
      reflexivity.
    + destruct (connectUSB_run env fuel 0
                  (after st [EvIsSupported HID None; EvIsSupported USB None]) ltac:(lia))
        as (Hd & Ht & Htt & evs & Hh & _).
      unfold connectUSB.
      destruct (loop fuel (connectUSBBody env) 0 _) as [[t | e |] st2];
        cbn [fst snd] in *; [| | contradiction].
      * exists t. auto.
      * repeat split; try assumption.
        exists ([EvIsSupported HID None; EvIsSupported USB None] ++ evs),
          "connectLedger", (Some e).
        apply newEvents_app. cbn [history after] in *. rewrite Hh, <- !app_assoc.
        reflexivity.
    + cbn. repeat split. rewrite newEvents_after.
      exists [EvIsSupported HID None; EvIsSupported USB None],
        "connectLedger: HID and/or USB are not supported", None.
      reflexivity.
Qed.

(** X15. Over HID the first device listed is the one that is used, and it
    is tried once.  A device that is already open is wrapped in a
    transport without a call to [open]; one that is not is opened, and
    when that fails [connectLedger] logs the error and returns false at
    once: only an empty listing is answered by another round. *)
Theorem connectLedger_uses_first_listed_device fuel st d ds :
  1 <= fuel ->
  transport_isSupported env (history st) HID = inr true ->
  transport_list env (history st ++ [EvIsSupported HID None]) HID = inr (d :: ds) ->
  connectLedger env fuel st
  = if opened d
    then (Ret true,
          mkState (history st ++ [EvIsSupported HID None; EvList HID None])
            (Some (transport_new env d)) (Some (transport_new env d)))
    else match transport_open env (history st ++ [EvIsSupported HID None; EvList HID None])
                 HID d with
         | inr t =>
             (Ret true,
              mkState (history st
                         ++ [EvIsSupported HID None; EvList HID None; EvOpen HID d None])
                (Some t) (Some t))
         | inl e =>
             (Ret false,
              after st [EvIsSupported HID None; EvList HID None; EvOpen HID d (Some e);
                        EvLog "connectLedger" (Some e)])
         end.
Proof.
  intros Hfuel Hhid Hlist. destruct fuel as [| fuel]; [lia |].
  rewrite connectLedger_unfold, Hhid. unfold connectHID. cbn [loop].
  unfold bind at 1. unfold connectHIDBody at 1.
  change (0 <? ATTEMPTS)%nat with true. cbv iota.
  unfold bind at 1, listDevices, external, bind, record, lift.
  cbn [history after transport tonTransport]. rewrite Hlist. cbn.
  destruct (opened d); cbn.
  - rewrite <- ?app_assoc. reflexivity.
  - unfold openDevice, external, bind, record, lift. cbn. rewrite <- ?app_assoc. cbn.
    destruct (transport_open env _ HID d) as [e | t]; cbn.
    + unfold after. cbn. rewrite <- ?app_assoc. reflexivity.
    + rewrite <- ?app_assoc. reflexivity.
Qed.

(** X25. Over USB, which is asked for only when HID is not supported,
    a listed device that is already open is not opened again: the
    transport is the one [openConnected] finds, and only when it finds
    none is the user asked for a device with [request].  Either call is
    made once; when it fails, [connectLedger] logs the error and returns
    false. *)
Theorem connectLedger_over_usb fuel st d ds :
  1 <= fuel ->
  transport_isSupported env (history st) HID = inr false ->
  transport_isSupported env (history st ++ [EvIsSupported HID None]) USB = inr true ->
  transport_list env (history st ++ [EvIsSupported HID None; EvIsSupported USB None]) USB
  = inr (d :: ds) ->
  opened d = true ->
  connectLedger env fuel st
  = match usb_openConnected env
            (history st ++ [EvIsSupported HID None; EvIsSupported USB None; EvList USB None])
    with
    | inr (Some t) =>
        (Ret true,
         mkState (history st
                    ++ [EvIsSupported HID None; EvIsSupported USB None; EvList USB None;
                        EvOpenConnected None])
           (Some t) (Some t))
    | inr None =>
        match usb_request env
                (history st
                   ++ [EvIsSupported HID None; EvIsSupported USB None; EvList USB None;
                       EvOpenConnected None])
        with
        | inr t =>
            (Ret true,
             mkState (history st
                        ++ [EvIsSupported HID None; EvIsSupported USB None; EvList USB None;
                            EvOpenConnected None; EvRequest None])
               (Some t) (Some t))
        | inl e =>
            (Ret false,
             after st [EvIsSupported HID None; EvIsSupported USB None; EvList USB None;
                       EvOpenConnected None; EvRequest (Some e);
                       EvLog "connectLedger" (Some e)])
        end
    | inl e =>
        (Ret false,
         after st [EvIsSupported HID None; EvIsSupported USB None; EvList USB None;
                   EvOpenConnected (Some e); EvLog "connectLedger" (Some e)])
    end.
Proof.
  intros Hfuel Hhid Husb Hlist Hopen. destruct fuel as [| fuel]; [lia |].
  rewrite connectLedger_unfold, Hhid, Husb. unfold connectUSB. cbn [loop].
  unfold bind at 1. unfold connectUSBBody at 1.
  change (0 <? ATTEMPTS)%nat with true. cbv iota.
  unfold bind at 1, listDevices, external, bind, record, lift.
  cbn [history after transport tonTransport]. rewrite <- ?app_assoc. cbn [List.app].
  rewrite Hlist. cbn. rewrite Hopen.
  unfold openConnected, requestDevice, external, bind, record, lift. cbn.
  rewrite <- ?app_assoc. cbn [List.app].
  destruct (usb_openConnected env _) as [e | [t |]]; cbn.
  - unfold after. cbn. rewrite <- ?app_assoc. reflexivity.
  - rewrite <- ?app_assoc. reflexivity.
  - rewrite <- ?app_assoc. cbn [List.app].
    destruct (usb_request env _) as [e | t]; cbn.
    + unfold after. cbn. rewrite <- ?app_assoc. reflexivity.
    + rewrite <- ?app_assoc. reflexivity.
Qed.

End ConnectingMore.

(** ** The rest of the file *)

Section ApplicationFacts.

Context {ton : TonCore} {repo : Repo} {staking : RepoStaking}.
Variable world : AppLog -> Env.
Variable app : AppEnv.

Lemma liftBase_inv {A} (c : Env -> M State A) s out s' :
  liftBase world c s = (out, s') ->
  c (world (appLog s)) (base s) = (out, base s') /\ appLog s' = appLog s.
Proof.
  unfold liftBase. destruct (c (world (appLog s)) (base s)) as [out' st'].
  intros H. inversion H; subst. auto.
Qed.

Lemma appCall_inv {A} (oracle : History -> AppLog -> Thrown + A) (ev : Thrown + A -> AppEvent)
  s out s' :
  appCall oracle ev s = (out, s') ->
  s' = later s [] [(List.length (history (base s)),
                    ev (oracle (history (base s)) (appLog s)))]
  /\ match oracle (history (base s)) (appLog s) with
     | inl e => out = Throw e
     | inr a => out = Ret a
     end.
Proof.
  unfold appCall, later, after. intros H. inversion H; subst; clear H.
  rewrite app_nil_r. destruct (base s). split; [reflexivity |].
  destruct (oracle _ _); reflexivity.
Qed.

Lemma newAppEvents_app s s' calls :
  appLog s' = appLog s ++ calls -> newAppEvents s s' = map snd calls.
Proof.
  intros H. unfold newAppEvents. rewrite H, skipn_app, skipn_all, Nat.sub_diag. reflexivity.
Qed.

Lemma newAppEvents_tail s s' calls tail :
  appLog s' = (appLog s ++ calls) ++ tail ->
  newAppEvents s s' = map snd calls ++ map snd tail.
Proof.
  intros H. rewrite <- map_app. apply newAppEvents_app. rewrite H, app_assoc. reflexivity.
Qed.

Lemma newAppEvents_one s s1 evs n ev :
  appLog s1 = appLog s -> newAppEvents s (later s1 evs [(n, ev)]) = [ev].
Proof.
  intros H. apply (newAppEvents_app s _ [(n, ev)]). unfold later. cbn [appLog].
  rewrite H. reflexivity.
Qed.

Lemma later_later s evs calls evs' calls' :
  later (later s evs calls) evs' calls' = later s (evs ++ evs') (calls ++ calls').
Proof. unfold later, after. cbn. rewrite <- !app_assoc. reflexivity. Qed.

Lemma later_nothing s : later s [] [] = s.
Proof. unfold later, after. rewrite !app_nil_r. destruct s as [[] ?]. reflexivity. Qed.

Lemma appOpenProbes_app l1 l2 :
  appOpenProbes (l1 ++ l2) = appOpenProbes l1 + appOpenProbes l2.
Proof.
  induction l1 as [| ev l1 IH]; [reflexivity |].
  destruct ev; cbn; rewrite ?IH; reflexivity.
Qed.

Lemma pauses_app h1 h2 : pauses (h1 ++ h2) = pauses h1 + pauses h2.
Proof.
  induction h1 as [| ev h1 IH]; [reflexivity |].
  destruct ev; cbn; rewrite ?IH; reflexivity.
Qed.

Lemma logged_app h1 h2 : logged (h1 ++ h2) = logged h1 ++ logged h2.
Proof.
  induction h1 as [| ev h1 IH]; [reflexivity |].
  destruct ev; cbn; rewrite ?IH; reflexivity.
Qed.

Lemma reported_app l1 l2 : reported (l1 ++ l2) = reported l1 ++ reported l2.
Proof.
  induction l1 as [| ev l1 IH]; [reflexivity |].
  destruct ev as [t [e | b] | t p [e |] | | | | | |]; cbn [reported List.app]; rewrite ?IH;
    try reflexivity;
    destruct (includesText (messageOf e) "0x530c"); reflexivity.
Qed.

Local Opaque ATTEMPTS.

(** One more turn in front of a run of the polling loop. *)
Lemma CheckRun_step i s evs1 calls1 r :
  i < ATTEMPTS ->
  pauses evs1 = 1 ->
  appOpenProbes (map snd calls1) <= 1 ->
  (forall t answer,
      In (EvIsAppOpen t answer) (map snd calls1) ->
      exists h l, ton_isAppOpen app h l t = answer) ->
  (forall t, tonTransport (base s) = Some t -> logged evs1 = reported (map snd calls1)) ->
  CheckRun app (S i) (later s evs1 calls1) r ->
  CheckRun app i s r.
Proof.
  intros Hi Hpause Hprobe Hanswers Hlog
    (Hout & Ht & Htt & evs & calls & Hh & Hl & Hp & Hq & Hfalse & Htrue & Hans & Hrep).
  unfold CheckRun. cbn [later after base appLog history transport tonTransport] in *.
  split; [exact Hout |]. split; [exact Ht |]. split; [exact Htt |].
  exists (evs1 ++ evs), (calls1 ++ calls).
  rewrite Hh, Hl, <- !app_assoc, map_app, appOpenProbes_app, pauses_app.
  repeat split; try reflexivity; try lia.
  - intros H. specialize (Hfalse H). lia.
  - intros H. destruct (Htrue H) as (t & before & Hcalls).
    exists t, (map snd calls1 ++ before). rewrite Hcalls, <- app_assoc. reflexivity.
  - intros t answer Hin. apply in_app_or in Hin as [Hin | Hin]; eauto.
  - intros t Hlive. rewrite logged_app, reported_app, (Hlog t Hlive), (Hrep t Hlive).
    reflexivity.
Qed.

(** Brings a turn of the polling loop to the point where the answers of
    the device decide. *)
Ltac check_turn Hi :=
  unfold checkTonAppBody; apply Nat.ltb_lt in Hi; rewrite Hi;
  unfold bind, tryCatch, tonTransport_isAppOpen, tonTransport_probeAddress, liveTonTransport,
    appCall, liftBase, logDebugError, pause, record, ret, throw, later, after, afterFailure;
  cbn [base appLog history transport tonTransport fst snd].

Lemma checkTonAppBody_no_session i s :
  i < ATTEMPTS ->
  tonTransport (base s) = None ->
  checkTonAppBody world app i s
  = (Ret (Continue (S i)),
     later s [EvLog "waitLedgerTonApp" (Some (TypeError "tonTransport")); EvPause PAUSE] []).
Proof.
  intros Hi Hlive.
  destruct s as [[h tr live] l].
  cbn [base appLog history transport tonTransport] in *. subst live.
  check_turn Hi. cbn. rewrite <- ?app_assoc, ?app_nil_r. reflexivity.
Qed.

Lemma checkTonAppBody_closed i s t :
  i < ATTEMPTS ->
  tonTransport (base s) = Some t ->
  ton_isAppOpen app (history (base s)) (appLog s) t = inr false ->
  checkTonAppBody world app i s
  = (Ret (Continue (S i)),
     later s [EvPause PAUSE] [(List.length (history (base s)), EvIsAppOpen t (inr false))]).
Proof.
  intros Hi Hlive Hopen.
  destruct s as [[h tr live] l].
  cbn [base appLog history transport tonTransport] in *. subst live.
  check_turn Hi. cbn. rewrite ?Hopen. cbn. reflexivity.
Qed.

Lemma checkTonAppBody_fails i s t e :
  i < ATTEMPTS ->
  tonTransport (base s) = Some t ->
  ton_isAppOpen app (history (base s)) (appLog s) t = inl e ->
  checkTonAppBody world app i s
  = (Ret (Continue (S i)),
     later s (afterFailure e)
       [(List.length (history (base s)), EvIsAppOpen t (inl e))]).
Proof.
  intros Hi Hlive Hopen.
  destruct s as [[h tr live] l].
  cbn [base appLog history transport tonTransport] in *. subst live.
  check_turn Hi. cbn. rewrite ?Hopen. cbn.
  destruct (includesText (messageOf e) "0x530c"); cbn;
    rewrite <- ?app_assoc, ?app_nil_r; reflexivity.
Qed.

Lemma checkTonAppBody_unlocked i s t :
  i < ATTEMPTS ->
  tonTransport (base s) = Some t ->
  ton_isAppOpen app (history (base s)) (appLog s) t = inr true ->
  ton_probeAddress app (history (base s))
    (appLog s ++ [(List.length (history (base s)), EvIsAppOpen t (inr true))]) t
    (getLedgerAccountPathByIndex 0 false WORKCHAIN)
  = inr tt ->
  checkTonAppBody world app i s
  = (Ret (Break true),
     later s []
       [(List.length (history (base s)), EvIsAppOpen t (inr true));
        (List.length (history (base s)),
         EvProbeAddress t (getLedgerAccountPathByIndex 0 false WORKCHAIN) None)]).
Proof.
  intros Hi Hlive Hopen Hprobe.
  destruct s as [[h tr live] l].
  cbn [base appLog history transport tonTransport] in *. subst live.
  check_turn Hi. cbn. rewrite ?Hopen. cbn. rewrite ?Hprobe. cbn.
  rewrite <- ?app_assoc, ?app_nil_r. reflexivity.
Qed.

Lemma checkTonAppBody_locked i s t e :
  i < ATTEMPTS ->
  tonTransport (base s) = Some t ->
  ton_isAppOpen app (history (base s)) (appLog s) t = inr true ->
  ton_probeAddress app (history (base s))
    (appLog s ++ [(List.length (history (base s)), EvIsAppOpen t (inr true))]) t
    (getLedgerAccountPathByIndex 0 false WORKCHAIN)
  = inl e ->
  checkTonAppBody world app i s
  = (Ret (Continue (S i)),
     later s (afterFailure e)
       [(List.length (history (base s)), EvIsAppOpen t (inr true));
        (List.length (history (base s)),
         EvProbeAddress t (getLedgerAccountPathByIndex 0 false WORKCHAIN) (Some e))]).
Proof.
  intros Hi Hlive Hopen Hprobe.
  destruct s as [[h tr live] l].
  cbn [base appLog history transport tonTransport] in *. subst live.
  check_turn Hi. cbn. rewrite ?Hopen. cbn. rewrite ?Hprobe. cbn.
  destruct (includesText (messageOf e) "0x530c"); cbn;
    rewrite <- ?app_assoc, ?app_nil_r; reflexivity.
Qed.

Lemma pauses_afterFailure e : pauses (afterFailure e) = 1.
Proof. unfold afterFailure. destruct (includesText _ _); reflexivity. Qed.

Lemma checkTonApp_run fuel :
  forall i s,
    ATTEMPTS - i < fuel ->
    CheckRun app i s (loop fuel (checkTonAppBody world app) i s).
Proof.
  induction fuel as [| fuel IH]; intros i s Hfuel; [lia |].
  cbn [loop]. unfold bind at 1.
  destruct (Nat.lt_ge_cases i ATTEMPTS) as [Hi | Hi].
  2:{ unfold checkTonAppBody. apply Nat.ltb_ge in Hi. rewrite Hi. apply Nat.ltb_ge in Hi.
      cbn. unfold CheckRun. cbn [fst snd].
      repeat split; auto.
      exists [], []. rewrite !app_nil_r. cbn.
      repeat split; auto; try lia; try discriminate; contradiction. }
  destruct (tonTransport (base s)) as [t |] eqn:Hlive.
  - destruct (ton_isAppOpen app (history (base s)) (appLog s) t) as [e | [|]] eqn:Hopen.
    + (* the question itself fails *)
      rewrite (checkTonAppBody_fails i s t e Hi Hlive Hopen). cbv beta iota.
      eapply CheckRun_step; [exact Hi | | | | | apply IH; lia].
      * apply pauses_afterFailure.
      * cbn. lia.
      * intros t' answer [H | []]. inversion H; subst. eauto.
      * intros t' _. unfold afterFailure. cbn.
        destruct (includesText (messageOf e) "0x530c"); reflexivity.
    + (* the application is open *)
      destruct (ton_probeAddress app (history (base s))
                  (appLog s ++ [(List.length (history (base s)), EvIsAppOpen t (inr true))]) t
                  (getLedgerAccountPathByIndex 0 false WORKCHAIN)) as [e | []] eqn:Hprobe.
      * rewrite (checkTonAppBody_locked i s t e Hi Hlive Hopen Hprobe). cbv beta iota.
        eapply CheckRun_step; [exact Hi | | | | | apply IH; lia].
        -- apply pauses_afterFailure.
        -- cbn. lia.
        -- intros t' answer [H | [H | []]]; inversion H; subst. eauto.
        -- intros t' _. unfold afterFailure. cbn.
           destruct (includesText (messageOf e) "0x530c"); reflexivity.
      * rewrite (checkTonAppBody_unlocked i s t Hi Hlive Hopen Hprobe).
        unfold CheckRun, ret.
        cbn [fst snd later after base appLog history transport tonTransport].
        split; [auto |]. split; [reflexivity |]. split; [reflexivity |].
        eexists [], _. rewrite app_nil_r.
        split; [reflexivity |]. split; [reflexivity |]. cbn.
        repeat split; try lia; try discriminate.
        -- intros _. exists t, []. reflexivity.
        -- intros t' answer [H | [H | []]]; inversion H; subst. eauto.
    + (* the application is not open *)
      rewrite (checkTonAppBody_closed i s t Hi Hlive Hopen). cbv beta iota.
      eapply CheckRun_step; [exact Hi | | | | | apply IH; lia].
      * reflexivity.
      * cbn. lia.
      * intros t' answer [H | []]. inversion H; subst. eauto.
      * intros t' _. reflexivity.
  - (* no session *)
    rewrite (checkTonAppBody_no_session i s Hi Hlive). cbv beta iota.
    eapply CheckRun_step; [exact Hi | | | | | apply IH; lia].
    + reflexivity.
    + cbn. lia.
    + intros t' answer [].
    + intros t' H. congruence.
Qed.

Lemma reported_quiet l tag err :
  In (tag, err) (reported l) ->
  tag = "waitLedgerTonApp"
  /\ exists e, err = Some e /\ includesText (messageOf e) "0x530c" = false.
Proof.
  induction l as [| ev l IH]; cbn [reported]; [contradiction |].
  destruct ev as [t [e | b] | t p [e |] | | | | | |]; auto;
    destruct (includesText (messageOf e) "0x530c") eqn:Hlock; auto;
    intros [H | H]; auto; inversion H; subst; eauto.
Qed.

(** X16. [checkTonApp] comes to an end and returns true or false, never
    an exception, and leaves the session as it was.  It asks the device at
    most ATTEMPTS times whether the TON application is open and pauses at
    most ATTEMPTS times; when it returns false it has paused exactly
    ATTEMPTS times.  It returns true only right after the device answered
    that the application is open and then gave the address of account 0:
    so a device that never reports the application as open makes it
    return false. *)
Theorem checkTonApp_bounded_polling fuel s :
  ATTEMPTS < fuel ->
  (fst (checkTonApp world app fuel s) = Ret true
   \/ fst (checkTonApp world app fuel s) = Ret false)
  /\ appOpenProbes (newAppEvents s (snd (checkTonApp world app fuel s))) <= ATTEMPTS
  /\ pauses (newBaseEvents s (snd (checkTonApp world app fuel s))) <= ATTEMPTS
  /\ (fst (checkTonApp world app fuel s) = Ret false ->
      pauses (newBaseEvents s (snd (checkTonApp world app fuel s))) = ATTEMPTS)
  /\ (fst (checkTonApp world app fuel s) = Ret true ->
      exists t before,
        newAppEvents s (snd (checkTonApp world app fuel s))
        = before
            ++ [EvIsAppOpen t (inr true);
                EvProbeAddress t (getLedgerAccountPathByIndex 0 false WORKCHAIN) None])
  /\ ((forall h l t, ton_isAppOpen app h l t <> inr true) ->
      fst (checkTonApp world app fuel s) = Ret false)
  /\ transport (base (snd (checkTonApp world app fuel s))) = transport (base s)
  /\ tonTransport (base (snd (checkTonApp world app fuel s))) = tonTransport (base s).
Proof.
  intros Hfuel. unfold checkTonApp.
  destruct (checkTonApp_run fuel 0 s ltac:(lia))
    as (Hout & Ht & Htt & evs & calls & Hh & Hl & Hp & Hq & Hfalse & Htrue & Hans & _).
  unfold newBaseEvents.
  rewrite (newAppEvents_app _ _ _ Hl), (newEvents_app _ _ _ Hh).
  split; [exact Hout |]. split; [lia |]. split; [lia |].
  split; [intros H; specialize (Hfalse H); lia |].
  split; [exact Htrue |]. split; [| split; assumption].
  intros Hnever. destruct Hout as [Hout | Hout]; [| exact Hout].
  exfalso. destruct (Htrue Hout) as (t & before & Hcalls).
  destruct (Hans t (inr true)) as (h & l & Habs).
  - rewrite Hcalls. apply in_or_app. right. left. reflexivity.
  - exact (Hnever _ _ _ Habs).
Qed.

(** X17. On a live session the debug log of [checkTonApp] holds exactly
    the errors of the failed device calls that do not carry the code
    0x530c, in the order of the calls: the error of a locked device is
    swallowed without a trace, every other error is logged under
    'waitLedgerTonApp', and the polling goes on after either. *)
Theorem checkTonApp_logs_all_but_the_lock_code fuel s t :
  ATTEMPTS < fuel ->
  tonTransport (base s) = Some t ->
  logged (newBaseEvents s (snd (checkTonApp world app fuel s)))
  = reported (newAppEvents s (snd (checkTonApp world app fuel s)))
  /\ forall tag err,
       In (tag, err) (logged (newBaseEvents s (snd (checkTonApp world app fuel s)))) ->
       tag = "waitLedgerTonApp"
       /\ exists e, err = Some e /\ includesText (messageOf e) "0x530c" = false.
Proof.
  intros Hfuel Hlive. unfold checkTonApp.
  destruct (checkTonApp_run fuel 0 s ltac:(lia))
    as (_ & _ & _ & evs & calls & Hh & Hl & _ & _ & _ & _ & _ & Hrep).
  unfold newBaseEvents.
  rewrite (newAppEvents_app _ _ _ Hl), (newEvents_app _ _ _ Hh), (Hrep t Hlive).
  split; [reflexivity |]. intros tag err. apply reported_quiet.
Qed.

Lemma checkTonApp_idle n :
  forall fuel i s,
    tonTransport (base s) = None ->
    i + n = ATTEMPTS ->
    n < fuel ->
    loop fuel (checkTonAppBody world app) i s
    = (Ret false,
       later s
         (List.concat
            (repeat [EvLog "waitLedgerTonApp" (Some (TypeError "tonTransport"));
                     EvPause PAUSE] n))
         []).
Proof.
  induction n as [| n IH]; intros fuel i s Hnone Hi Hfuel;
    (destruct fuel as [| fuel]; [lia |]); cbn [loop]; unfold bind at 1.
  - unfold checkTonAppBody.
    assert ((i <? ATTEMPTS)%nat = false) as -> by (apply Nat.ltb_ge; lia).
    cbn. rewrite later_nothing. reflexivity.
  - rewrite (checkTonAppBody_no_session i s ltac:(lia) Hnone). cbv beta iota.
    rewrite (IH fuel (S i)); [| exact Hnone | lia | lia].
    rewrite later_later. reflexivity.
Qed.

(** X18. Without a live session [checkTonApp] never reaches the device:
    each of its ATTEMPTS turns fails at the member access, logs the
    TypeError and pauses, and after ATTEMPTS times PAUSE milliseconds it
    returns false. *)
Theorem checkTonApp_without_session fuel s :
  ATTEMPTS < fuel ->
  tonTransport (base s) = None ->
  checkTonApp world app fuel s
  = (Ret false,
     later s
       (List.concat
          (repeat [EvLog "waitLedgerTonApp" (Some (TypeError "tonTransport"));
                   EvPause PAUSE] ATTEMPTS))
       []).
Proof.
  intros Hfuel Hnone. unfold checkTonApp.
  apply checkTonApp_idle; [exact Hnone | reflexivity | exact Hfuel].
Qed.

(** X19. [reconnectLedger] does as little as it can.  On a session whose
    device answers that the TON application is open it returns true after
    that one question, without connecting again.  When there is no
    session, or the question fails -- the failure is swallowed --, it runs
    [connectLedger]; when that returns false it returns false and the wait
    for the application is never started, and when that returns true the
    result is the result of the wait. *)
Theorem reconnectLedger_short_circuits (waitLedgerTonApp : M Session bool) fuel s :
  (forall t,
      tonTransport (base s) = Some t ->
      ton_isAppOpen app (history (base s)) (appLog s) t = inr true ->
      reconnectLedger world app waitLedgerTonApp fuel s
      = (Ret true,
         later s [] [(List.length (history (base s)), EvIsAppOpen t (inr true))]))
  /\ (forall connected st',
        tonTransport (base s) = None ->
        connectLedger (world (appLog s)) fuel (base s) = (Ret connected, st') ->
        reconnectLedger world app waitLedgerTonApp fuel s
        = if connected
          then waitLedgerTonApp (mkSession st' (appLog s))
          else (Ret false, mkSession st' (appLog s)))
  /\ (forall t e connected st',
        tonTransport (base s) = Some t ->
        ton_isAppOpen app (history (base s)) (appLog s) t = inl e ->
        connectLedger
          (world (appLog s ++ [(List.length (history (base s)), EvIsAppOpen t (inl e))]))
          fuel (base s)
        = (Ret connected, st') ->
        reconnectLedger world app waitLedgerTonApp fuel s
        = if connected
          then waitLedgerTonApp
                 (mkSession st'
                    (appLog s ++ [(List.length (history (base s)), EvIsAppOpen t (inl e))]))
          else (Ret false,
                mkSession st'
                  (appLog s ++ [(List.length (history (base s)), EvIsAppOpen t (inl e))]))).
Proof.
  split; [| split].
  - intros t Hlive Hopen. destruct s as [[h tr live] l].
    cbn [base appLog history transport tonTransport] in *. subst live.
    unfold reconnectLedger, bind, tryCatch, liveTonTransport, appCall, later, after.
    cbn. rewrite Hopen. cbn. rewrite app_nil_r. reflexivity.
  - intros connected st' Hnone Hconnect.
    unfold reconnectLedger, bind, tryCatch, liveTonTransport. cbn.
    rewrite Hnone. cbn. unfold liftBase. rewrite Hconnect.
    destruct connected; reflexivity.
  - intros t e connected st' Hlive Hopen Hconnect.
    unfold reconnectLedger, bind, tryCatch, liveTonTransport, appCall. cbn.
    rewrite Hlive. cbn. rewrite Hopen. cbn. unfold liftBase.
    cbn [base appLog]. rewrite Hconnect.
    destruct connected; reflexivity.
Qed.

Lemma Quiet_getLedgerWalletInfo env network accountIndex :
  Quiet (getLedgerWalletInfo env network accountIndex).
Proof.
  unfold getLedgerWalletInfo, getLedgerWalletAddress, callApi_getWalletBalance. quiet.
Qed.

(** X20. [importLedgerWallet] hands to the backend exactly the wallet it
    looked up, once: the account at the index asked for, with the address
    and the key the device gave, the balance the backend gave, version
    'v4R2' and driver 'HID'.  When the look-up throws -- there is no
    session, the device or the backend fails -- the exception reaches the
    caller and nothing is imported. *)
Theorem importLedgerWallet_imports_what_it_found network accountIndex s out s' :
  importLedgerWallet world app network accountIndex s = (out, s') ->
  (exists e,
      getLedgerWalletInfo (world (appLog s)) network accountIndex (base s)
      = (Throw e, base s')
      /\ out = Throw e
      /\ newAppEvents s s' = [])
  \/ (exists walletInfo st1 threw,
        getLedgerWalletInfo (world (appLog s)) network accountIndex (base s)
        = (Ret walletInfo, st1)
        /\ newAppEvents s s' = [EvImportLedgerWallet network walletInfo threw]
        /\ lw_index walletInfo = accountIndex
        /\ lw_version walletInfo = VERSION
        /\ lw_driver walletInfo = "HID"
        /\ match api_importLedgerWallet app (history st1) (appLog s) network walletInfo with
           | inl e => out = Throw e /\ threw = Some e
           | inr imported => out = Ret imported /\ threw = None
           end).
Proof.
  unfold importLedgerWallet. intros Hrun. unfold bind at 1 in Hrun.
  destruct (liftBase world (fun env => getLedgerWalletInfo env network accountIndex) s)
    as [[walletInfo | e |] s1] eqn:Hinfo;
    apply liftBase_inv in Hinfo as [Hinfo Hlog].
  - right. apply appCall_inv in Hrun as [Hs' Hout]. subst s'.
    rewrite Hlog in *.
    exists walletInfo, (base s1),
      (threwOf (api_importLedgerWallet app (history (base s1)) (appLog s) network walletInfo)).
    split; [exact Hinfo |]. split.
    { apply newAppEvents_one. exact Hlog. }
    split; [eapply getLedgerWalletInfo_index; exact Hinfo |].
    assert (lw_version walletInfo = VERSION /\ lw_driver walletInfo = "HID") as [Hv Hd].
    { clear - Hinfo. unfold getLedgerWalletInfo in Hinfo.
      apply bind_Ret_inv in Hinfo as ([a k] & s1' & _ & Hinfo).
      apply bind_Ret_inv in Hinfo as (b & s2 & _ & Hinfo).
      apply bind_Ret_inv in Hinfo as (current & s3 & _ & Hinfo).
      destruct current; [| discriminate]. inversion Hinfo; subst. auto. }
    split; [exact Hv |]. split; [exact Hd |].
    destruct (api_importLedgerWallet app (history (base s1)) (appLog s) network walletInfo);
      cbn; auto.
  - left. inversion Hrun; subst. exists e. repeat split; [exact Hinfo |].
    unfold newAppEvents. rewrite Hlog, skipn_all. reflexivity.
  - exfalso.
    destruct (Quiet_run _ _ _ _ (Quiet_getLedgerWalletInfo _ _ _) Hinfo)
      as (_ & _ & _ & _ & _ & Hd).
    contradiction.
Qed.

(** What [getLedgerAccountPath] asks and what it makes of the answer. *)
Lemma getLedgerAccountPath_inv env accountId st out st' :
  getLedgerAccountPath env accountId st = (out, st') ->
  st' = after st [EvApi (FetchAccount accountId)
                    (threwOf (api_fetchAccount env (history st) accountId))]
  /\ out <> Diverge
  /\ forall path,
       out = Ret path ->
       exists index',
         api_fetchAccount env (history st) accountId
         = inr (Some (mkAccountInfo (Some (mkLedgerInfo index'))))
         /\ path = getLedgerAccountPathByIndex index' false WORKCHAIN.
Proof.
  unfold getLedgerAccountPath, callApi_fetchAccount, external, bind, record, lift, after.
  cbn. destruct (api_fetchAccount env (history st) accountId) as [e | [[[[index']|]] |]];
    cbn; intros H; inversion H; subst; clear H;
    (split; [reflexivity |]); (split; [discriminate |]);
    intros path Hpath; inversion Hpath; subst. eauto.
Qed.

(** X21. [verifyAddress] and [signLedgerProof] do not catch anything and
    ask the device once at most, for the path of the account the backend
    knows: 44'/607'/0'/chain'/index'/0' with the Ledger index of the
    account.  [verifyAddress] asks for the address in non-bounceable form;
    [signLedgerProof] passes the domain, the timestamp and the payload of
    the proof on as they are and returns the signature the device gave.
    When the account cannot be looked up or there is no session, the
    device is not asked and the exception reaches the caller. *)
Theorem ownership_checks_use_the_account_path accountId proof s :
  (forall out s',
      verifyAddress world app accountId s = (out, s') ->
      ((exists e, out = Throw e) /\ newAppEvents s s' = [])
      \/ exists t index' threw,
           tonTransport (base s) = Some t
           /\ api_fetchAccount (world (appLog s)) (history (base s)) accountId
              = inr (Some (mkAccountInfo (Some (mkLedgerInfo index'))))
           /\ newAppEvents s s'
              = [EvValidateAddress t (getLedgerAccountPathByIndex index' false WORKCHAIN)
                   false threw]
           /\ out = match threw with Some e => Throw e | None => Ret tt end)
  /\ (forall out s',
        signLedgerProof world app accountId proof s = (out, s') ->
        ((exists e, out = Throw e) /\ newAppEvents s s' = [])
        \/ exists t index' threw,
             tonTransport (base s) = Some t
             /\ api_fetchAccount (world (appLog s)) (history (base s)) accountId
                = inr (Some (mkAccountInfo (Some (mkLedgerInfo index'))))
             /\ newAppEvents s s'
                = [EvGetAddressProof t (getLedgerAccountPathByIndex index' false WORKCHAIN)
                     (proof_domain proof) (proof_timestamp proof) (proof_payload proof)
                     threw]
             /\ match threw with
                | Some e => out = Throw e
                | None =>
                    exists h l signature,
                      ton_getAddressProof app h l t
                        (getLedgerAccountPathByIndex index' false WORKCHAIN)
                        (proof_domain proof) (proof_timestamp proof) (proof_payload proof)
                      = inr signature
                      /\ out = Ret signature
                end).
Proof.
  split; intros out s' Hrun.
  - unfold verifyAddress in Hrun. unfold bind at 1 in Hrun.
    destruct (liftBase world (fun env => getLedgerAccountPath env accountId) s)
      as [[path | e |] s1] eqn:Hpath;
      apply liftBase_inv in Hpath as [Hpath Hlog];
      destruct (getLedgerAccountPath_inv _ _ _ _ _ Hpath) as (Hs1 & Hd & Hindex);
      [| | contradiction].
    2:{ left. inversion Hrun; subst. split; [eauto |].
        unfold newAppEvents. rewrite Hlog, skipn_all. reflexivity. }
    destruct (Hindex path eq_refl) as (index' & Hacc & ->).
    unfold bind at 1, liveTonTransport in Hrun. rewrite Hs1 in Hrun.
    cbn [tonTransport after] in Hrun.
    destruct (tonTransport (base s)) as [t |] eqn:Hlive.
    + right. apply appCall_inv in Hrun as [Hs' Hout]. subst s'.
      eexists t, index', _. split; [reflexivity |]. split; [exact Hacc |].
      split.
      { apply newAppEvents_one. exact Hlog. }
      destruct (ton_validateAddress app _ _ t _ IS_BOUNCEABLE) as [e | []]; exact Hout.
    + left. inversion Hrun; subst. split; [eauto |].
      unfold newAppEvents. rewrite Hlog, skipn_all. reflexivity.
  - unfold signLedgerProof in Hrun. unfold bind at 1 in Hrun.
    destruct (liftBase world (fun env => getLedgerAccountPath env accountId) s)
      as [[path | e |] s1] eqn:Hpath;
      apply liftBase_inv in Hpath as [Hpath Hlog];
      destruct (getLedgerAccountPath_inv _ _ _ _ _ Hpath) as (Hs1 & Hd & Hindex);
      [| | contradiction].
    2:{ left. inversion Hrun; subst. split; [eauto |].
        unfold newAppEvents. rewrite Hlog, skipn_all. reflexivity. }
    destruct (Hindex path eq_refl) as (index' & Hacc & ->).
    unfold bind at 1, liveTonTransport in Hrun. rewrite Hs1 in Hrun.
    cbn [tonTransport after] in Hrun.
    destruct (tonTransport (base s)) as [t |] eqn:Hlive.
    + right. apply appCall_inv in Hrun as [Hs' Hout]. subst s'.
      eexists t, index', _. split; [reflexivity |]. split; [exact Hacc |].
      split.
      { apply newAppEvents_one. exact Hlog. }
      destruct (ton_getAddressProof app _ _ t _ _ _ _) as [e | signature] eqn:Hproof;
        cbn [threwOf]; [exact Hout |].
      eexists _, _, signature. split; [exact Hproof | exact Hout].
    + left. inversion Hrun; subst. split; [eauto |].
      unfold newAppEvents. rewrite Hlog, skipn_all. reflexivity.
Qed.

(** ** Staking *)

Lemma cacheUpdates_app l1 l2 : cacheUpdates (l1 ++ l2) = cacheUpdates l1 ++ cacheUpdates l2.
Proof.
  induction l1 as [| ev l1 IH]; [reflexivity |].
  destruct ev; cbn; rewrite ?IH; reflexivity.
Qed.

Lemma changeNotices_app l1 l2 :
  changeNotices (l1 ++ l2) = changeNotices l1 + changeNotices l2.
Proof.
  induction l1 as [| ev l1 IH]; [reflexivity |].
  destruct ev; cbn; rewrite ?IH; reflexivity.
Qed.

Lemma newBaseEvents_app s s' evs :
  history (base s') = history (base s) ++ evs -> newBaseEvents s s' = evs.
Proof. intros H. unfold newBaseEvents. apply newEvents_app. exact H. Qed.

(** What the common beginning of the two staking functions leaves: one
    question to the backend of each part at most, nothing signed, nothing
    broadcast; and when it returns, the pool address in bounceable form. *)
Lemma stakingPool_inv accountId s out s1 :
  stakingPool world app accountId s = (out, s1) ->
  out <> Diverge
  /\ (exists evs calls,
        history (base s1) = history (base s) ++ evs
        /\ appLog s1 = appLog s ++ calls
        /\ signAttempts evs = []
        /\ broadcasts evs = []
        /\ cacheUpdates (map snd calls) = []
        /\ changeNotices (map snd calls) = 0)
  /\ forall address' poolAddress,
       out = Ret (address', poolAddress) ->
       exists network h l state pool,
         parseAccountId accountId = inr network
         /\ api_fetchBackendStakingState app h l address' = inr (Some state)
         /\ Address_parse (nominatorsPool_address state) = inr pool
         /\ poolAddress = Address_toString pool true true (String.eqb network "testnet").
Proof.
  unfold stakingPool. intros Hrun. unfold bind at 1 in Hrun.
  destruct (parseAccountId accountId) as [e | network] eqn:Hnet; cbn in Hrun.
  { inversion Hrun; subst. split; [discriminate |]. split; [| intros ? ? H; discriminate H].
    exists [], []. rewrite !app_nil_r. repeat split. }
  unfold bind at 1 in Hrun.
  destruct (liftBase world (fun env => callApi_fetchAddress env accountId) s)
    as [[address' | e |] s0] eqn:Haddr;
    apply liftBase_inv in Haddr as [Haddr Hlog0];
    apply external_inv in Haddr as [Hh0 Hans0].
  2:{ inversion Hrun; subst. split; [discriminate |]. split; [| intros ? ? H; discriminate H].
      eexists _, []. split; [exact Hh0 |]. split; [rewrite app_nil_r; exact Hlog0 |].
      repeat split. }
  2:{ destruct (api_fetchAddress _ _ _); discriminate. }
  unfold bind at 1 in Hrun.
  destruct (callApi_fetchBackendStakingState app address' s0)
    as [[backendState | e |] s2] eqn:Hstate;
    apply appCall_inv in Hstate as [Hs2 Hans].
  3:{ destruct (api_fetchBackendStakingState _ _ _ _); discriminate. }
  all: assert (exists evs calls,
             history (base s2) = history (base s) ++ evs
             /\ appLog s2 = appLog s ++ calls
             /\ signAttempts evs = []
             /\ broadcasts evs = []
             /\ cacheUpdates (map snd calls) = []
             /\ changeNotices (map snd calls) = 0) as Htrace
      by (subst s2; eexists _, [_]; unfold later, after; cbn [base appLog history];
          split; [rewrite app_nil_r; exact Hh0 |];
          split; [rewrite Hlog0; reflexivity |]; repeat split).
  2:{ inversion Hrun; subst. split; [discriminate |].
      split; [exact Htrace | intros ? ? H; discriminate H]. }
  destruct (api_fetchBackendStakingState app (history (base s0)) (appLog s0) address')
    as [e | answer] eqn:Hapi; [discriminate |].
  inversion Hans; subst answer. clear Hans.
  destruct backendState as [state |].
  2:{ inversion Hrun; subst. split; [discriminate |].
      split; [exact Htrace | intros ? ? H; discriminate H]. }
  unfold toBase64Address in Hrun. cbn [orElse] in Hrun.
  destruct (Address_parse (nominatorsPool_address state)) as [e | pool] eqn:Hparse;
    cbn in Hrun; inversion Hrun; subst out s1; clear Hrun.
  { split; [discriminate |]. split; [exact Htrace | intros ? ? H; discriminate H]. }
  split; [discriminate |]. split; [exact Htrace |].
  intros a p H. inversion H; subst.
  exists network, (history (base s0)), (appLog s0), state, pool. auto.
Qed.

Lemma dateNow_run s :
  liftBase world dateNow s
  = (Ret (date_now (world (appLog s)) (history (base s))),
     mkSession (after (base s) [EvNow]) (appLog s)).
Proof. reflexivity. Qed.

(** The ways a run of [submitLedgerStake] can go. *)
Lemma submitLedgerStake_trace accountId amount' fee s out s' :
  submitLedgerStake world app accountId amount' fee s = (out, s') ->
  (exists e, stakingPool world app accountId s = (Throw e, s') /\ out = Throw e)
  \/ exists address' poolAddress s1 r st2 tailEvs tailCalls,
       stakingPool world app accountId s = (Ret (address', poolAddress), s1)
       /\ submitLedgerTransfer (world (appLog s1))
            (mkSubmitOptions accountId poolAddress amount' None (Some STAKE_COMMENT) fee)
            TONCOIN_SLUG (Some (onlyType "stake")) (base s1)
          = (r, st2)
       /\ newBaseEvents s s' = newBaseEvents s s1 ++ newEvents (base s1) st2 ++ tailEvs
       /\ newAppEvents s s' = newAppEvents s s1 ++ tailCalls
       /\ match r with
          | Throw e => out = Throw e /\ tailEvs = [] /\ tailCalls = []
          | Diverge => False
          | Ret result =>
              if truthy result
              then
                exists h,
                  tailEvs = [EvNow]
                  /\ ((exists e,
                          out = Throw e
                          /\ tailCalls
                             = [EvUpdateAccountMemoryCache accountId address'
                                  (date_now (world (appLog s1)) h) (Some e)])
                      \/ exists threw,
                           out = match threw with Some e => Throw e | None => Ret result end
                           /\ tailCalls
                              = [EvUpdateAccountMemoryCache accountId address'
                                   (date_now (world (appLog s1)) h) None;
                                 EvOnStakingChangeExpected threw])
              else
                exists threw,
                  out = match threw with Some e => Throw e | None => Ret result end
                  /\ tailEvs = []
                  /\ tailCalls = [EvOnStakingChangeExpected threw]
          end.
Proof.
  unfold submitLedgerStake. intros Hrun. unfold bind at 1 in Hrun.
  destruct (stakingPool world app accountId s) as [[[address' poolAddress] | e |] s1] eqn:Hpool;
    destruct (stakingPool_inv _ _ _ _ Hpool)
      as (Hd & (evs0 & calls0 & Hh0 & Hl0 & _) & _); [| | contradiction].
  2:{ left. inversion Hrun; subst. eauto. }
  right. unfold bind at 1 in Hrun.
  destruct (liftBase world _ s1) as [r s2] eqn:Htransfer.
  apply liftBase_inv in Htransfer as [Htransfer Hl2].
  assert (Footprint (fun _ => true)
            (submitLedgerTransfer (world (appLog s1))
               (mkSubmitOptions accountId poolAddress amount' None (Some STAKE_COMMENT) fee)
               TONCOIN_SLUG (Some (onlyType "stake")))) as Hfp
      by (apply Footprint_submitLedgerTransfer; reflexivity).
  destruct (Hfp (base s1)) as (evsT & HhT & _).
  rewrite Htransfer in HhT. cbn [snd] in HhT.
  assert (newBaseEvents s s1 = evs0) as Hb0 by (apply newBaseEvents_app; exact Hh0).
  assert (newAppEvents s s1 = map snd calls0) as Ha0 by (apply newAppEvents_app; exact Hl0).
  assert (newEvents (base s1) (base s2) = evsT) as HbT by (apply newEvents_app; exact HhT).
  exists address', poolAddress, s1, r, (base s2).
  rewrite Hb0, Ha0, HbT.
  destruct r as [result | e |].
  - destruct (truthy result) eqn:Htruthy.
    + unfold bind at 1 in Hrun. unfold bind at 1 in Hrun.
      rewrite dateNow_run in Hrun.
      destruct (callApi_updateAccountMemoryCache app accountId address' _ _)
        as [updated s3] eqn:Hupdate.
      apply appCall_inv in Hupdate as [Hs3 Hans3].
      cbn [base appLog after history] in Hs3, Hans3.
      rewrite Hl2 in *.
      destruct (api_updateAccountMemoryCache app _ _ accountId address' _) as [e | []] eqn:Hu;
        subst updated.
      * inversion Hrun; subst out s'. clear Hrun.
        exists [EvNow],
          [EvUpdateAccountMemoryCache accountId address'
             (date_now (world (appLog s1)) (history (base s2))) (Some e)].
        split; [reflexivity |]. split; [exact Htransfer |].
        split; [| split; [| exists (history (base s2)); split; [reflexivity |]]].
        -- apply newBaseEvents_app. subst s3. unfold later, after.
           cbn [base history]. rewrite HhT, Hh0, app_nil_r, <- !app_assoc. reflexivity.
        -- eapply (newAppEvents_tail s _ calls0 [(_, _)]).
           subst s3. unfold later. cbn [appLog]. rewrite Hl0. reflexivity.
        -- left. exists e. auto.
      * unfold bind at 1 in Hrun.
        destruct (callApi_onStakingChangeExpected app s3) as [noticed s4] eqn:Hnotice.
        apply appCall_inv in Hnotice as [Hs4 Hans4].
        exists [EvNow],
          [EvUpdateAccountMemoryCache accountId address'
             (date_now (world (appLog s1)) (history (base s2))) None;
           EvOnStakingChangeExpected
             (threwOf (api_onStakingChangeExpected app (history (base s3)) (appLog s3)))].
        split; [reflexivity |]. split; [exact Htransfer |].
        assert (s' = s4) as -> by (destruct noticed; inversion Hrun; reflexivity).
        split; [| split; [| exists (history (base s2)); split; [reflexivity |]]].
        -- apply newBaseEvents_app. subst s4 s3. unfold later, after.
           cbn [base history]. rewrite HhT, Hh0, !app_nil_r, <- !app_assoc. reflexivity.
        -- eapply (newAppEvents_tail s _ calls0 [(_, _); (_, _)]).
           rewrite Hs4. unfold later at 1. cbn [appLog]. rewrite Hs3 at 1.
           unfold later. cbn [appLog]. rewrite Hl0, <- !app_assoc. reflexivity.
        -- right.
           exists (threwOf (api_onStakingChangeExpected app (history (base s3)) (appLog s3))).
           split; [| reflexivity].
           destruct (api_onStakingChangeExpected app (history (base s3)) (appLog s3))
             as [e | []]; subst noticed; inversion Hrun; reflexivity.
    + unfold bind at 1 in Hrun. cbn [ret] in Hrun. unfold bind at 1 in Hrun.
      destruct (callApi_onStakingChangeExpected app s2) as [noticed s4] eqn:Hnotice.
      apply appCall_inv in Hnotice as [Hs4 Hans4].
      exists [],
        [EvOnStakingChangeExpected
           (threwOf (api_onStakingChangeExpected app (history (base s2)) (appLog s2)))].
      split; [reflexivity |]. split; [exact Htransfer |].
      assert (s' = s4) as -> by (destruct noticed; inversion Hrun; reflexivity).
      split; [| split].
      * apply newBaseEvents_app. subst s4. unfold later, after.
        cbn [base history]. rewrite HhT, Hh0, !app_nil_r, <- !app_assoc. reflexivity.
      * eapply (newAppEvents_tail s _ calls0 [(_, _)]).
        subst s4. unfold later. cbn [appLog]. rewrite Hl2, Hl0. reflexivity.
      * exists (threwOf (api_onStakingChangeExpected app (history (base s2)) (appLog s2))).
        split; [| split; reflexivity].
        destruct (api_onStakingChangeExpected app (history (base s2)) (appLog s2))
          as [e | []]; subst noticed; inversion Hrun; reflexivity.
  - inversion Hrun; subst out s'. clear Hrun.
    exists [], []. split; [reflexivity |]. split; [exact Htransfer |]. rewrite !app_nil_r.
    split; [| split; [| auto]].
    + apply newBaseEvents_app. rewrite HhT, Hh0, <- app_assoc. reflexivity.
    + apply newAppEvents_app. rewrite Hl2. exact Hl0.
  - exfalso.
    destruct (submitLedgerTransfer_cases _ _ _ _ _ _ _ Htransfer)
      as [(e & _ & Hout & _) | (x & st1 & signing & st2 & _ & _ & _ & Hcase)];
      [discriminate |].
    destruct signing as [c | e |]; [| | contradiction].
    + cbv zeta in Hcase. destruct (api_sendSignedTransferMessage _ _ _ _);
        destruct Hcase as [Hout _]; discriminate.
    + destruct Hcase as [Hout _]. discriminate.
Qed.

(** The ways a run of [submitLedgerUnstake] can go. *)
Lemma submitLedgerUnstake_trace accountId s out s' :
  submitLedgerUnstake world app accountId s = (out, s') ->
  (exists e, stakingPool world app accountId s = (Throw e, s') /\ out = Throw e)
  \/ exists address' poolAddress s1 r st2 tailCalls,
       stakingPool world app accountId s = (Ret (address', poolAddress), s1)
       /\ submitLedgerTransfer (world (appLog s1))
            (mkSubmitOptions accountId poolAddress ONE_TON None (Some UNSTAKE_COMMENT) None)
            TONCOIN_SLUG (Some (onlyType "unstakeRequest")) (base s1)
          = (r, st2)
       /\ newBaseEvents s s' = newBaseEvents s s1 ++ newEvents (base s1) st2
       /\ newAppEvents s s' = newAppEvents s s1 ++ tailCalls
       /\ match r with
          | Throw e => out = Throw e /\ tailCalls = []
          | Diverge => False
          | Ret result =>
              exists threw,
                out = match threw with Some e => Throw e | None => Ret result end
                /\ tailCalls = [EvOnStakingChangeExpected threw]
          end.
Proof.
  unfold submitLedgerUnstake. intros Hrun. unfold bind at 1 in Hrun.
  destruct (stakingPool world app accountId s) as [[[address' poolAddress] | e |] s1] eqn:Hpool;
    destruct (stakingPool_inv _ _ _ _ Hpool)
      as (Hd & (evs0 & calls0 & Hh0 & Hl0 & _) & _); [| | contradiction].
  2:{ left. inversion Hrun; subst. eauto. }
  right. unfold bind at 1 in Hrun.
  destruct (liftBase world _ s1) as [r s2] eqn:Htransfer.
  apply liftBase_inv in Htransfer as [Htransfer Hl2].
  assert (Footprint (fun _ => true)
            (submitLedgerTransfer (world (appLog s1))
               (mkSubmitOptions accountId poolAddress ONE_TON None (Some UNSTAKE_COMMENT) None)
               TONCOIN_SLUG (Some (onlyType "unstakeRequest")))) as Hfp
      by (apply Footprint_submitLedgerTransfer; reflexivity).
  destruct (Hfp (base s1)) as (evsT & HhT & _).
  rewrite Htransfer in HhT. cbn [snd] in HhT.
  assert (newBaseEvents s s1 = evs0) as Hb0 by (apply newBaseEvents_app; exact Hh0).
  assert (newAppEvents s s1 = map snd calls0) as Ha0 by (apply newAppEvents_app; exact Hl0).
  assert (newEvents (base s1) (base s2) = evsT) as HbT by (apply newEvents_app; exact HhT).
  exists address', poolAddress, s1, r, (base s2).
  rewrite Hb0, Ha0, HbT.
  destruct r as [result | e |].
  - unfold bind at 1 in Hrun.
    destruct (callApi_onStakingChangeExpected app s2) as [noticed s4] eqn:Hnotice.
    apply appCall_inv in Hnotice as [Hs4 Hans4].
    exists [EvOnStakingChangeExpected
              (threwOf (api_onStakingChangeExpected app (history (base s2)) (appLog s2)))].
    split; [reflexivity |]. split; [exact Htransfer |].
    assert (s' = s4) as -> by (destruct noticed; inversion Hrun; reflexivity).
    split; [| split].
    + apply newBaseEvents_app. subst s4. unfold later, after.
      cbn [base history]. rewrite HhT, Hh0, !app_nil_r, <- !app_assoc. reflexivity.
    + eapply (newAppEvents_tail s _ calls0 [(_, _)]).
      subst s4. unfold later. cbn [appLog]. rewrite Hl2, Hl0. reflexivity.
    + exists (threwOf (api_onStakingChangeExpected app (history (base s2)) (appLog s2))).
      split; [| reflexivity].
      destruct (api_onStakingChangeExpected app (history (base s2)) (appLog s2))
        as [e | []]; subst noticed; inversion Hrun; reflexivity.
  - inversion Hrun; subst out s'. clear Hrun.
    exists []. split; [reflexivity |]. split; [exact Htransfer |]. rewrite !app_nil_r.
    split; [| split; [| auto]].
    + apply newBaseEvents_app. rewrite HhT, Hh0, <- app_assoc. reflexivity.
    + apply newAppEvents_app. rewrite Hl2. exact Hl0.
  - exfalso.
    destruct (submitLedgerTransfer_cases _ _ _ _ _ _ _ Htransfer)
      as [(e & _ & Hout & _) | (x & st1 & signing & st2 & _ & _ & _ & Hcase)];
      [discriminate |].
    destruct signing as [c | e |]; [| | contradiction].
    + cbv zeta in Hcase. destruct (api_sendSignedTransferMessage _ _ _ _);
        destruct Hcase as [Hout _]; discriminate.
    + destruct Hcase as [Hout _]. discriminate.
Qed.

(** The pool phase signs nothing and broadcasts nothing. *)
Lemma stakingPool_quiet accountId s out s1 :
  stakingPool world app accountId s = (out, s1) ->
  signAttempts (newBaseEvents s s1) = []
  /\ broadcasts (newBaseEvents s s1) = []
  /\ cacheUpdates (newAppEvents s s1) = []
  /\ changeNotices (newAppEvents s s1) = 0.
Proof.
  intros Hpool.
  destruct (stakingPool_inv _ _ _ _ Hpool)
    as (_ & (evs & calls & Hh & Hl & H1 & H2 & H3 & H4) & _).
  rewrite (newBaseEvents_app _ _ _ Hh), (newAppEvents_app _ _ _ Hl). auto.
Qed.


(** What a single transfer that returned a truthy result has broadcast. *)
Lemma submitLedgerTransfer_truthy_result env options slug type st result st' :
  submitLedgerTransfer env options slug (Some (onlyType type)) st = (Ret result, st') ->
  truthy result = true ->
  exists message,
    broadcasts (newEvents st st') = [message]
    /\ p_type (signed_params message) = Some type
    /\ p_amount (signed_params message) = opt_amount options.
Proof.
  intros Hrun Htruthy.
  destruct (submitLedgerTransfer_broadcast _ _ _ _ _ _ _ Hrun) as (_ & Hcases & Hsent).
  destruct result as [r |]; [| discriminate].
  destruct Hcases as [Hnone | (request & cell & message & parsed & from & _ & Hb & _ & _ & _ & Hp)].
  - exfalso. exact (Hsent r eq_refl Hnone).
  - exists message. split; [exact Hb |]. rewrite Hp. cbn. auto.
Qed.

(** X23. The bookkeeping of [submitLedgerStake].  The time of staking is
    recorded at most once, and only after the transfer was broadcast with
    a truthy result: then exactly one message was broadcast, of type
    'stake' and with the amount asked for.  The backend is told to expect
    a change of the staking state once whenever the transfer returns, also
    when it returns undefined because the device or the broadcast failed;
    a run that returns has done so, and has recorded the time exactly when
    its result is truthy.  The device is asked to sign at most once. *)
Theorem submitLedgerStake_bookkeeping accountId amount' fee s out s' :
  submitLedgerStake world app accountId amount' fee s = (out, s') ->
  List.length (cacheUpdates (newAppEvents s s')) <= 1
  /\ changeNotices (newAppEvents s s') <= 1
  /\ List.length (signAttempts (newBaseEvents s s')) <= 1
  /\ (cacheUpdates (newAppEvents s s') <> [] ->
      exists message,
        broadcasts (newBaseEvents s s') = [message]
        /\ p_type (signed_params message) = Some "stake"
        /\ p_amount (signed_params message) = amount')
  /\ (forall result,
        out = Ret result ->
        changeNotices (newAppEvents s s') = 1
        /\ (cacheUpdates (newAppEvents s s') <> [] <-> truthy result = true)).
Proof.
  intros Hrun.
  destruct (submitLedgerStake_trace _ _ _ _ _ _ Hrun)
    as [(e & Hpool & Hout)
       | (address' & poolAddress & s1 & r & st2 & tailEvs & tailCalls
          & Hpool & Htransfer & Hbase & Happ & Hcase)].
  - destruct (stakingPool_quiet _ _ _ _ Hpool) as (H1 & H2 & H3 & H4).
    rewrite H1, H3, H4. cbn. repeat split; try lia; try congruence; intros; congruence.
  - destruct (stakingPool_quiet _ _ _ _ Hpool) as (H1 & H2 & H3 & H4).
    pose proof (submitLedgerTransfer_broadcast _ _ _ _ _ _ _ Htransfer) as (Hone & _).
    rewrite Hbase, Happ, cacheUpdates_app, changeNotices_app, !signAttempts_app,
      !broadcasts_app, H1, H2, H3, H4.
    cbn [List.app Nat.add].
    destruct r as [result | e |]; [| | contradiction].
    + destruct (truthy result) eqn:Htruthy.
      * destruct Hcase as (h & -> & Hcase).
        destruct (submitLedgerTransfer_truthy_result _ _ _ _ _ _ _ Htransfer Htruthy)
          as (message & Hb & Htype & Hamount).
        rewrite Hb, app_nil_r.
        assert (List.length (cacheUpdates tailCalls) = 1
                /\ changeNotices tailCalls <= 1
                /\ (forall x, out = Ret x -> changeNotices tailCalls = 1 /\ x = result))
          as (Hc & Hn & Hret).
        { destruct Hcase as [(e & -> & ->) | (threw & -> & ->)]; cbn.
          - repeat split; try lia; discriminate.
          - repeat split; try lia; destruct threw; inversion H; reflexivity. }
        split; [lia |]. split; [exact Hn |]. split; [exact Hone |].
        split; [intros _; exists message; cbn [opt_amount] in Hamount; auto |].
        intros x Hx. destruct (Hret x Hx) as [Hn1 ->]. split; [exact Hn1 |].
        split; [intros _; exact Htruthy |].
        intros _ Habs. rewrite Habs in Hc. discriminate.
      * destruct Hcase as (threw & -> & -> & ->). cbn. rewrite app_nil_r.
        split; [lia |]. split; [lia |]. split; [exact Hone |].
        split; [congruence |].
        intros x Hx. split; [reflexivity |].
        split; [congruence |].
        intros Hx'. destruct threw; inversion Hx; subst. congruence.
    + destruct Hcase as (-> & -> & ->). cbn. rewrite app_nil_r.
      split; [lia |]. split; [lia |]. split; [exact Hone |].
      split; [congruence |]. intros x Hx. discriminate.
Qed.

(** X24. [submitLedgerUnstake] never records a time of staking.  It asks
    the device to sign at most once, tells the backend to expect a change
    of the staking state once whenever the transfer returns -- a run that
    returns has done so --, and what it broadcasts is of type
    'unstakeRequest' with the amount ONE_TON. *)
Theorem submitLedgerUnstake_bookkeeping accountId s out s' :
  submitLedgerUnstake world app accountId s = (out, s') ->
  cacheUpdates (newAppEvents s s') = []
  /\ changeNotices (newAppEvents s s') <= 1
  /\ List.length (signAttempts (newBaseEvents s s')) <= 1
  /\ (forall result, out = Ret result -> changeNotices (newAppEvents s s') = 1)
  /\ (forall result,
        out = Ret result ->
        truthy result = true ->
        exists message,
          broadcasts (newBaseEvents s s') = [message]
          /\ p_type (signed_params message) = Some "unstakeRequest"
          /\ p_amount (signed_params message) = ONE_TON).
Proof.
  intros Hrun.
  destruct (submitLedgerUnstake_trace _ _ _ _ Hrun)
    as [(e & Hpool & Hout)
       | (address' & poolAddress & s1 & r & st2 & tailCalls
          & Hpool & Htransfer & Hbase & Happ & Hcase)].
  - destruct (stakingPool_quiet _ _ _ _ Hpool) as (H1 & H2 & H3 & H4).
    rewrite H1, H3, H4. cbn. repeat split; try lia; intros; congruence.
  - destruct (stakingPool_quiet _ _ _ _ Hpool) as (H1 & H2 & H3 & H4).
    pose proof (submitLedgerTransfer_broadcast _ _ _ _ _ _ _ Htransfer) as (Hone & _).
    rewrite Hbase, Happ, cacheUpdates_app, changeNotices_app, !signAttempts_app,
      !broadcasts_app, H1, H2, H3, H4.
    cbn [List.app Nat.add].
    destruct r as [result | e |]; [| | contradiction].
    + destruct Hcase as (threw & Hout & ->). cbn.
      split; [reflexivity |]. split; [lia |]. split; [exact Hone |].
      split; [reflexivity |].
      intros x Hx Htruthy.
      assert (x = result) as -> by (destruct threw; inversion Hout; congruence).
      destruct (submitLedgerTransfer_truthy_result _ _ _ _ _ _ _ Htransfer Htruthy)
        as (message & Hb & Htype & Hamount).
      exists message. auto.
    + destruct Hcase as (-> & ->). cbn.
      split; [reflexivity |]. split; [lia |]. split; [exact Hone |].
      split; intros; discriminate.
Qed.

End ApplicationFacts.

(** * The theorems at work in the small world *)

Import Demo.
#[local] Existing Instance Demo.ton.
#[local] Existing Instance Demo.repo.

(** Three plain transfers from sequence number 7, on a device that signs:
    the three requests, numbered 7, 8, 9, each sent to the device once, and
    three signed transfers, numbered 7, 8, 9. *)
Lemma signLedgerTransactions_contiguous_seqnos_witness :
  exists p,
    prepareLedgerTransactions calm "0-ton-mainnet" batch (Some 7%Z) connected
    = (Ret p, snd (prepareLedgerTransactions calm "0-ton-mainnet" batch (Some 7%Z) connected))
    /\ map seqno (preparedOptions p)
       = map (fun i => Some (7 + Z.of_nat i)%Z) (seq 0 (List.length batch))
    /\ map fst
         (signAttempts
            (newEvents connected
               (snd (signLedgerTransactions calm 14 "0-ton-mainnet" batch (Some 7%Z)
                       connected))))
       = preparedOptions p
    /\ exists signed,
         fst (signLedgerTransactions calm 14 "0-ton-mainnet" batch (Some 7%Z) connected)
         = Ret signed
         /\ List.length signed = List.length batch
         /\ map signed_seqno signed
            = map (fun i => Some (7 + Z.of_nat i)%Z) (seq 0 (List.length batch))
         /\ map signed_base64 signed
            = signedBy
                (signAttempts
                   (newEvents connected
                      (snd (signLedgerTransactions calm 14 "0-ton-mainnet" batch (Some 7%Z)
                              connected)))).
Proof.
  eexists. split; [vm_compute; reflexivity |].
  eapply (signLedgerTransactions_contiguous_seqnos calm 14 "0-ton-mainnet" batch 7%Z connected).
  - vm_compute. reflexivity.
  - apply surjective_pairing.
  - vm_compute. lia.
  - lia.
  - unfold TWO_53. lia.
  - unfold TWO_53. cbn. lia.
  - vm_compute. intros a [<- | [<- | [<- | []]]]; exact I.
Defined.

Example three_transfers_from_seven :
  match fst (signLedgerTransactions calm 14 "0-ton-mainnet" batch (Some 7%Z) connected) with
  | Ret signed => map signed_seqno signed = [Some 7%Z; Some 8%Z; Some 9%Z]
  | _ => False
  end.
Proof. vm_compute. reflexivity. Qed.

(** C1 as the specification words it does not hold for every starting
    number.  On a device that signs everything, a batch of three sent with
    the sequence number 0 comes back numbered 42, 43, 44, from the
    backend's number, not 0, 1, 2; and a batch sent with 2^53 comes back
    numbered 2^53, 2^53, 2^53 + 2, because 2^53 + 1 is not a double. *)
Lemma signLedgerTransactions_contiguous_seqnos_counterexample :
  (exists signed,
      fst (signLedgerTransactions calm 14 "0-ton-mainnet" batch (Some 0%Z) connected)
      = Ret signed
      /\ failures
           (signAttempts
              (newEvents connected
                 (snd (signLedgerTransactions calm 14 "0-ton-mainnet" batch (Some 0%Z)
                         connected))))
         = 0
      /\ map signed_seqno signed = [Some 42%Z; Some 43%Z; Some 44%Z])
  /\ (exists signed,
        fst (signLedgerTransactions calm 14 "0-ton-mainnet" batch (Some TWO_53) connected)
        = Ret signed
        /\ failures
             (signAttempts
                (newEvents connected
                   (snd (signLedgerTransactions calm 14 "0-ton-mainnet" batch (Some TWO_53)
                           connected))))
           = 0
        /\ map signed_seqno signed
           = [Some TWO_53; Some TWO_53; Some (TWO_53 + 2)%Z]).
Proof.
  split; eexists; (split; [vm_compute; reflexivity |]); split; vm_compute; reflexivity.
Qed.

(** The user declines the second of three requests: the call throws
    ApiUserRejectsError after two attempts. *)
Lemma signLedgerTransactions_user_rejection_witness :
  fst (signLedgerTransactions declining 14 "0-ton-mainnet" batch (Some 7%Z) connected)
  = Throw ApiUserRejectsError
  /\ List.length
       (signAttempts
          (newEvents connected
             (snd (signLedgerTransactions declining 14 "0-ton-mainnet" batch (Some 7%Z)
                     connected))))
     = 2.
Proof.
  eapply (signLedgerTransactions_user_rejection _ 14 "0-ton-mainnet" batch (Some 7%Z) connected).
  - apply surjective_pairing.
  - vm_compute. lia.
  - vm_compute. reflexivity.
  - reflexivity.
  - reflexivity.
Defined.

(** The second attempt times out and is repeated: three signed transfers,
    numbered as the three requests, after four attempts. *)
Lemma signLedgerTransactions_transient_retry_witness :
  exists p,
    prepareLedgerTransactions flaky "0-ton-mainnet" batch (Some 7%Z) connected
    = (Ret p, snd (prepareLedgerTransactions flaky "0-ton-mainnet" batch (Some 7%Z) connected))
    /\ exists signed,
         fst (signLedgerTransactions flaky 14 "0-ton-mainnet" batch (Some 7%Z) connected)
         = Ret signed
         /\ List.length signed = List.length batch
         /\ map signed_seqno signed = map seqno (preparedOptions p)
         /\ (forall S0,
               prep_seqno p = Some S0 ->
               (- TWO_53 <= S0)%Z ->
               (S0 + Z.of_nat (List.length batch) <= TWO_53)%Z ->
               map signed_seqno signed
               = map (fun i => Some (S0 + Z.of_nat i)%Z) (seq 0 (List.length batch)))
         /\ List.length
              (signAttempts
                 (newEvents connected
                    (snd (signLedgerTransactions flaky 14 "0-ton-mainnet" batch (Some 7%Z)
                            connected))))
            = S (List.length batch).
Proof.
  eexists. split; [vm_compute; reflexivity |].
  eapply (proj2 (proj2 (proj2
            (signLedgerTransactions_transient_retry flaky 14 "0-ton-mainnet" batch (Some 7%Z)
               connected _ _ (surjective_pairing _) ltac:(vm_compute; lia))))).
  - vm_compute. reflexivity.
  - vm_compute. reflexivity.
  - vm_compute. intros a e [<- | [<- | [<- | [<- | []]]]] H; inversion H; reflexivity.
Defined.

Example one_timeout_is_invisible :
  match fst (signLedgerTransactions flaky 14 "0-ton-mainnet" batch (Some 7%Z) connected) with
  | Ret signed => map signed_seqno signed = [Some 7%Z; Some 8%Z; Some 9%Z]
  | _ => False
  end.
Proof. vm_compute. reflexivity. Qed.


Example silent_device_returns_nothing :
  fst (signLedgerTransactions silent 14 "0-ton-mainnet" batch (Some 7%Z) connected) = Ret []
  /\ List.length
       (signAttempts
          (newEvents connected
             (snd (signLedgerTransactions silent 14 "0-ton-mainnet" batch (Some 7%Z)
                     connected))))
     = 13.
Proof. vm_compute. split; reflexivity. Qed.

(** C5 as the specification words it does not hold: over balances 5, 0
    and 3 discovery returns the first account alone, not the first two. *)
Lemma getNextLedgerWallets_5_0_3_counterexample :
  fst (getNextLedgerWallets discovery 5 "mainnet" None None connected)
  = Ret (inl [walletInfoOf ledger 0 "UQ-account-0" "public-key" (Some 5%Z)])
  /\ fst (getNextLedgerWallets discovery 5 "mainnet" None None connected)
     <> Ret (inl [walletInfoOf ledger 0 "UQ-account-0" "public-key" (Some 5%Z);
                  walletInfoOf ledger 1 "UQ-account-1" "public-key" (Some 0%Z)]).
Proof.
  split; [vm_compute; reflexivity |].
  vm_compute. intros H. discriminate H.
Qed.

Lemma getNextLedgerWallets_stops_at_first_empty_witness :
  getNextLedgerWallets discovery 5 "mainnet" None (Some []) connected
  = (Ret (inl [walletInfoOf ledger 0 "UQ-account-0" "public-key" (Some 5%Z)]),
     after connected
       [EvGetAddress (Some ledger) (getLedgerAccountPathByIndex 0 false WORKCHAIN) None;
        EvApi (GetWalletBalance "mainnet" "UQ-account-0") None;
        EvGetAddress (Some ledger) (getLedgerAccountPathByIndex 1 false WORKCHAIN) None;
        EvApi (GetWalletBalance "mainnet" "UQ-account-1") None]).
Proof.
  apply (proj1 (getNextLedgerWallets_stops_at_first_empty discovery)
           5 "mainnet" (Some []) connected ledger ledger
           "UQ-account-0" "public-key" "UQ-account-1" "public-key").
  - reflexivity.
  - reflexivity.
  - intros h. reflexivity.
  - intros h. reflexivity.
  - intros h. reflexivity.
  - intros h. reflexivity.
  - right. reflexivity.
  - lia.
Defined.

(** A token transfer to an address that calls itself not bounceable
    ("UQ...") is sent to the device with the bounce flag set. *)
Lemma token_and_nft_transfers_bounce_witness :
  match signAttempts
          (newEvents connected
             (snd (submitLedgerTransfer calm (tokenTransfer "EQ-jetton-minter") "toncoin" None
                     connected)))
  with
  | a :: _ => bounce (fst a) = true
  | [] => False
  end.
Proof.
  destruct (signAttempts _) as [| a rest] eqn:Hattempts.
  - vm_compute in Hattempts. discriminate Hattempts.
  - apply (proj2 (proj2 (token_and_nft_transfers_bounce calm))
             (tokenTransfer "EQ-jetton-minter") "toncoin" None connected _ _ a
             (surjective_pairing _) eq_refl).
    rewrite Hattempts. left. reflexivity.
Defined.

Example token_batch_requests_bounce :
  map (fun a => (Address_isFriendly (dapp_toAddress a), dapp_toAddress a)) tokenBatch
  = [(true, "UQ-jetton-wallet"); (true, "UQ-nft-item")]
  /\ map (fun a => bounce (fst a))
       (signAttempts
          (newEvents connected
             (snd (signLedgerTransactions calm 13 "0-ton-mainnet" tokenBatch (Some 7%Z)
                     connected))))
     = [true; true].
Proof. vm_compute. split; reflexivity. Qed.

(** A comment of 121 characters fails this world's check:
    [submitLedgerTransfer] throws and nothing reaches the device. *)
Lemma comment_payload_validation_witness :
  (exists e,
      fst (submitLedgerTransfer calm (commentTransfer longComment) "toncoin" None connected)
      = Throw e)
  /\ signAttempts
       (newEvents connected
          (snd (submitLedgerTransfer calm (commentTransfer longComment) "toncoin" None
                  connected)))
     = [].
Proof.
  apply (proj1 (proj2 (proj2 (proj2 (proj2 (proj2 (comment_payload_validation calm)))))
                 (commentTransfer longComment) "toncoin" None connected _ _ longComment
                 (surjective_pairing _) eq_refl eq_refl)).
  vm_compute. reflexivity.
Defined.

Example valid_comment_is_sent_unchanged :
  map (fun a => payload (fst a))
    (signAttempts
       (newEvents connected
          (snd (submitLedgerTransfer calm (commentTransfer "thanks") "toncoin" None connected))))
  = [Some (LedgerComment "thanks")].
Proof. vm_compute. reflexivity. Qed.

(** With neither WebHID nor WebUSB, [connectLedger] asks about both, logs
    and returns false. *)
Lemma connectLedger_bounded_probing_witness :
  connectLedger bare 11 disconnected
  = (Ret false,
     after disconnected
       [EvIsSupported HID None;
        EvIsSupported USB None;
        EvLog "connectLedger: HID and/or USB are not supported" None]).
Proof.
  apply (proj1 (proj2 (proj2 (proj2
           (connectLedger_bounded_probing bare 11 disconnected ltac:(vm_compute; lia)))))).
  - reflexivity.
  - reflexivity.
Defined.

Example no_device_gives_up_after_ten_rounds :
  fst (connectHID calm 11 disconnected) = Throw (JsError "Failed to connect")
  /\ listCalls (history (snd (connectHID calm 11 disconnected))) = 10
  /\ fst (connectLedger calm 11 disconnected) = Ret false.
Proof. vm_compute. repeat split; reflexivity. Qed.

(** A batch sent with sequence number 0: the backend is asked, answers
    42, and the requests and the results are numbered from 42. *)
Lemma signLedgerTransactions_zero_seqno_is_absent_witness :
  exists p,
    prepareLedgerTransactions calm "0-ton-mainnet" batch (Some 0%Z) connected
    = (Ret p, snd (prepareLedgerTransactions calm "0-ton-mainnet" batch (Some 0%Z) connected))
    /\ prep_seqno p = Some 42%Z
    /\ answered connected
         (newEvents connected
            (snd (signLedgerTransactions calm 14 "0-ton-mainnet" batch (Some 0%Z) connected)))
         (fun h => api_getWalletSeqno calm h "0-ton-mainnet")
         (EvApi (GetWalletSeqno "0-ton-mainnet") None) (prep_seqno p)
    /\ (forall i a,
          nth_error
            (signAttempts
               (newEvents connected
                  (snd (signLedgerTransactions calm 14 "0-ton-mainnet" batch (Some 0%Z)
                          connected))))
            i
          = Some a ->
          seqno (fst a)
          = jsAdd (prep_seqno p)
              (Z.of_nat
                 (successes
                    (firstn i
                       (signAttempts
                          (newEvents connected
                             (snd (signLedgerTransactions calm 14 "0-ton-mainnet" batch
                                     (Some 0%Z) connected))))))))
    /\ (batch <> [] ->
        exists a rest,
          signAttempts
            (newEvents connected
               (snd (signLedgerTransactions calm 14 "0-ton-mainnet" batch (Some 0%Z)
                       connected)))
          = a :: rest
          /\ seqno (fst a) = jsAdd (prep_seqno p) 0)
    /\ (forall signed,
          fst (signLedgerTransactions calm 14 "0-ton-mainnet" batch (Some 0%Z) connected)
          = Ret signed ->
          map signed_seqno signed
          = map (fun i => jsAdd (prep_seqno p) (Z.of_nat i)) (seq 0 (List.length signed))).
Proof.
  eexists. split; [vm_compute; reflexivity |]. split; [reflexivity |].
  eapply (proj2 (signLedgerTransactions_zero_seqno_is_absent calm 14 "0-ton-mainnet" batch
                   connected)).
  - vm_compute. reflexivity.
  - apply surjective_pairing.
  - vm_compute. lia.
Defined.

Example zero_seqno_starts_at_the_backend_seqno :
  match fst (signLedgerTransactions calm 14 "0-ton-mainnet" batch (Some 0%Z) connected) with
  | Ret signed => map signed_seqno signed = [Some 42%Z; Some 43%Z; Some 44%Z]
  | _ => False
  end.
Proof. vm_compute. reflexivity. Qed.

(** The backend knows the token the caller names, but the sender's token
    wallet belongs to another: Error('Invalid contract'), and nothing
    reaches the device. *)
Lemma submitLedgerTransfer_error_propagation_witness :
  fst (submitLedgerTransfer twoTokens (tokenTransfer "EQ-other-minter") "toncoin" None
         connected)
  = Throw (JsError "Invalid contract")
  /\ signAttempts
       (newEvents connected
          (snd (submitLedgerTransfer twoTokens (tokenTransfer "EQ-other-minter") "toncoin" None
                  connected)))
     = [].
Proof.
  apply (proj1 (proj2 (proj2
           (submitLedgerTransfer_error_propagation twoTokens (tokenTransfer "EQ-other-minter")
              "toncoin" None connected _ _ (surjective_pairing _))))
           "EQ-other-minter" "mainnet" (Some "EQ-token-wallet") (Some "EQ-jetton-minter")).
  - reflexivity.
  - exists [EvApi (WaitLastTransfer "0-ton-mainnet") None;
            EvApi (FetchAddress "0-ton-mainnet") None;
            EvApi (FetchAccount "0-ton-mainnet") None;
            EvApi (GetWalletInfo "mainnet" (Some "UQ-sender")) None;
            EvApi (ResolveTokenWalletAddress "mainnet" (Some "UQ-sender") "EQ-other-minter")
              None],
           [].
    split; [vm_compute; reflexivity | reflexivity].
  - intros H. discriminate H.
Defined.

Example the_named_token_exists :
  api_resolveTokenMinterAddress twoTokens [] "mainnet" (Some "EQ-other-wallet")
  = inr (Some "EQ-other-minter").
Proof. reflexivity. Qed.

(** The device fails to sign: [submitLedgerTransfer] returns undefined. *)
Example signing_errors_are_caught :
  fst (submitLedgerTransfer silent (commentTransfer "thanks") "toncoin" None connected)
  = Ret None.
Proof. vm_compute. reflexivity. Qed.

Example pre_signing_errors_are_thrown :
  fst (submitLedgerTransfer calm (commentTransfer longComment) "toncoin" None connected)
  = Throw (JsError "Unsupported format")
  /\ fst (submitLedgerTransfer calm (tokenTransfer "EQ-other-minter") "toncoin" None connected)
     = Throw (JsError "Invalid contract")
  /\ fst (submitLedgerTransfer calm
            (mkSubmitOptions "0-ton-mainnet" "not an address" 10 None None None)
            "toncoin" None connected)
     = Throw (Foreign None "Unknown address type").
Proof. vm_compute. repeat split; reflexivity. Qed.

(** * The second part at work in the small world *)

Import MoreDemo.

(** The second attempt times out: the third attempt is again for the
    second request. *)
Lemma signLedgerTransactions_signs_in_order_witness :
  exists a,
    nth_error
      (signAttempts
         (newEvents connected
            (snd (signLedgerTransactions flaky 14 "0-ton-mainnet" batch (Some 7%Z)
                    connected))))
      2
    = Some a
    /\ exists p st1 message,
         prepareLedgerTransactions flaky "0-ton-mainnet" batch (Some 7%Z) connected
         = (Ret p, st1)
         /\ nth_error (preparedOptions p)
              (successes
                 (firstn 2
                    (signAttempts
                       (newEvents connected
                          (snd (signLedgerTransactions flaky 14 "0-ton-mainnet" batch
                                  (Some 7%Z) connected))))))
            = Some (fst a)
         /\ nth_error batch
              (successes
                 (firstn 2
                    (signAttempts
                       (newEvents connected
                          (snd (signLedgerTransactions flaky 14 "0-ton-mainnet" batch
                                  (Some 7%Z) connected))))))
            = Some message.
Proof.
  eexists. split; [vm_compute; reflexivity |].
  eapply (signLedgerTransactions_signs_in_order flaky 14 "0-ton-mainnet" batch (Some 7%Z)
            connected _ _ 2 _ (surjective_pairing _)).
  - vm_compute. lia.
  - vm_compute. reflexivity.
Defined.

Example retry_is_for_the_same_request :
  map (fun a => seqno (fst a))
    (signAttempts
       (newEvents connected
          (snd (signLedgerTransactions flaky 14 "0-ton-mainnet" batch (Some 7%Z) connected))))
  = [Some 7%Z; Some 8%Z; Some 8%Z; Some 9%Z].
Proof. vm_compute. reflexivity. Qed.

(** The first request of the batch goes to the first message's
    destination, with its amount, and does not bounce ("UQ..."). *)
Lemma signLedgerTransactions_requests_follow_messages_witness :
  match signAttempts
          (newEvents connected
             (snd (signLedgerTransactions calm 14 "0-ton-mainnet" batch (Some 7%Z) connected)))
  with
  | a :: _ => to (fst a) = "UQ-alice" /\ amount (fst a) = 10%Z /\ bounce (fst a) = false
  | [] => False
  end.
Proof.
  destruct (signAttempts _) as [| a rest] eqn:Hattempts.
  - vm_compute in Hattempts. discriminate Hattempts.
  - destruct (signLedgerTransactions_requests_follow_messages calm 14 "0-ton-mainnet" batch
                (Some 7%Z) connected _ _ a (surjective_pairing _))
      as (i & message & Hmsg & Hto & Hamount & _ & Hbounce).
    + vm_compute. lia.
    + rewrite Hattempts. left. reflexivity.
    + vm_compute in Hattempts. inversion Hattempts; subst a. cbn. auto.
Defined.

(** A payload of type 'unknown' at the end of the batch: the call throws
    and nothing is signed, not even the two transfers before it. *)
Lemma signLedgerTransactions_refuses_unsupported_witness :
  (exists e,
      fst (signLedgerTransactions calm 14 "0-ton-mainnet" opaqueBatch (Some 7%Z) connected)
      = Throw e)
  /\ signAttempts
       (newEvents connected
          (snd (signLedgerTransactions calm 14 "0-ton-mainnet" opaqueBatch (Some 7%Z)
                  connected)))
     = [].
Proof.
  eapply (signLedgerTransactions_refuses_unsupported calm 14 "0-ton-mainnet" opaqueBatch
            (Some 7%Z) connected _ _ 2 _ (surjective_pairing _)).
  - reflexivity.
  - left. eexists. reflexivity.
Defined.

(** The second signed transfer of the batch shows the second message,
    from the address the backend gave, numbered from the caller's 7. *)
Lemma signLedgerTransactions_results_match_messages_witness :
  exists signed st' s,
    signLedgerTransactions calm 14 "0-ton-mainnet" batch (Some 7%Z) connected
    = (Ret signed, st')
    /\ nth_error signed 1 = Some s
    /\ exists message fromAddress start,
         nth_error batch 1 = Some message
         /\ answered connected (newEvents connected st')
              (fun h => api_fetchAddress calm h "0-ton-mainnet")
              (EvApi (FetchAddress "0-ton-mainnet") None) fromAddress
         /\ (if falsyNumber (Some 7%Z)
             then answered connected (newEvents connected st')
                    (fun h => api_getWalletSeqno calm h "0-ton-mainnet")
                    (EvApi (GetWalletSeqno "0-ton-mainnet") None) start
             else start = Some 7%Z)
         /\ signed_seqno s = jsAdd start (Z.of_nat 1)
         /\ signed_params s
            = mkParams (dapp_amount message) fromAddress (dapp_toAddress message)
                (match dapp_payload message with
                 | Some (PayloadComment comment) => Some comment
                 | _ => None
                 end)
                (Some 0%Z) TONCOIN_SLUG None.
Proof.
  eexists _, _, _.
  split; [vm_compute; reflexivity |].
  split; [vm_compute; reflexivity |].
  eapply (signLedgerTransactions_results_match_messages calm 14 "0-ton-mainnet" batch
            (Some 7%Z) connected).
  - vm_compute. reflexivity.
  - vm_compute. lia.
  - vm_compute. reflexivity.
Defined.

Example second_result_of_the_batch :
  match fst (signLedgerTransactions calm 14 "0-ton-mainnet" batch (Some 7%Z) connected) with
  | Ret signed =>
      map (fun s => (signed_seqno s, p_fromAddress (signed_params s),
                     p_toAddress (signed_params s)))
        (firstn 1 (skipn 1 signed))
      = [(Some 8%Z, Some "UQ-sender", "EQ-bob")]
  | _ => False
  end.
Proof. vm_compute. reflexivity. Qed.

(** Three transfers and no session: thirteen attempts, all for the first
    request, and the empty list. *)
Lemma signLedgerTransactions_without_session_witness :
  exists p st1,
    prepareLedgerTransactions calm "0-ton-mainnet" batch (Some 7%Z) disconnected
    = (Ret p, st1)
    /\ fst (signLedgerTransactions calm 14 "0-ton-mainnet" batch (Some 7%Z) disconnected)
       = Ret []
    /\ signAttempts
         (newEvents disconnected
            (snd (signLedgerTransactions calm 14 "0-ton-mainnet" batch (Some 7%Z)
                    disconnected)))
       = match preparedOptions p with
         | [] => []
         | first :: _ =>
             repeat (first, inl (TypeError "tonTransport")) (ATTEMPTS + List.length batch)
         end.
Proof.
  eexists _, _. split; [vm_compute; reflexivity |].
  eapply (signLedgerTransactions_without_session calm 14 "0-ton-mainnet" batch (Some 7%Z)
            disconnected).
  - vm_compute. reflexivity.
  - apply surjective_pairing.
  - vm_compute. lia.
  - reflexivity.
Defined.

(** A transfer of the whole balance is sent with
    CARRY_ALL_REMAINING_BALANCE and the wallet's sequence number. *)
Lemma submitLedgerTransfer_send_mode_witness :
  match signAttempts
          (newEvents connected
             (snd (submitLedgerTransfer calm wholeBalance "toncoin" None connected)))
  with
  | a :: _ =>
      sendMode (fst a) = SendMode.CARRY_ALL_REMAINING_BALANCE /\ seqno (fst a) = Some 42%Z
  | [] => False
  end.
Proof.
  destruct (signAttempts _) as [| a rest] eqn:Hattempts.
  - vm_compute in Hattempts. discriminate Hattempts.
  - destruct (submitLedgerTransfer_send_mode calm wholeBalance "toncoin" None connected _ _ a
                (surjective_pairing _))
      as (network & fromAddress & info & _ & _ & Hinfo & Hseq & Hmode).
    + rewrite Hattempts. left. reflexivity.
    + destruct Hinfo as (before & later & _ & Hinfo).
      cbn in Hinfo. inversion Hinfo; subst info. split; [exact Hmode | exact Hseq].
Defined.

Example part_of_the_balance_pays_gas_separately :
  map (fun a => sendMode (fst a))
    (signAttempts
       (newEvents connected
          (snd (submitLedgerTransfer calm (commentTransfer "thanks") "toncoin" None connected))))
  = [3%Z].
Proof. vm_compute. reflexivity. Qed.

(** A token transfer is signed for the sender's token wallet and the
    fixed Toncoin amount. *)
Lemma submitLedgerTransfer_destination_witness :
  match signAttempts
          (newEvents connected
             (snd (submitLedgerTransfer calm (tokenTransfer "EQ-jetton-minter") "toncoin" None
                     connected)))
  with
  | a :: _ => amount (fst a) = 100000000%Z /\ to (fst a) = "EQ-token-wallet"
  | [] => False
  end.
Proof.
  destruct (signAttempts _) as [| a rest] eqn:Hattempts.
  - vm_compute in Hattempts. discriminate Hattempts.
  - pose proof (submitLedgerTransfer_destination calm (tokenTransfer "EQ-jetton-minter")
                  "toncoin" None connected _ _ a (surjective_pairing _)) as H.
    cbn [whenTruthy truthy opt_tokenAddress tokenTransfer] in H.
    destruct H as (Hamount & network & fromAddress & wallet & _ & _ & Hwallet & Hto).
    + rewrite Hattempts. left. reflexivity.
    + destruct Hwallet as (before & later & _ & Hwallet).
      cbn in Hwallet. inversion Hwallet; subst wallet.
      vm_compute in Hto. inversion Hto as [Hdest]. split; [exact Hamount | symmetry; exact Hdest].
Defined.

(** One request, one broadcast. *)
Lemma submitLedgerTransfer_broadcasts_what_was_signed_witness :
  List.length
    (signAttempts
       (newEvents connected
          (snd (submitLedgerTransfer calm (commentTransfer "thanks") "toncoin" None connected))))
  <= 1.
Proof.
  apply (proj1 (submitLedgerTransfer_broadcasts_what_was_signed calm (commentTransfer "thanks")
                  "toncoin" None connected _ _ (surjective_pairing _))).
Defined.

Example token_transfer_is_shown_as_asked :
  map (fun m => (p_amount (signed_params m), p_toAddress (signed_params m)))
    (broadcasts
       (newEvents connected
          (snd (submitLedgerTransfer calm (tokenTransfer "EQ-jetton-minter") "toncoin" None
                  connected))))
  = [(10%Z, "UQ-alice")].
Proof. vm_compute. reflexivity. Qed.

(** No session: the transfer is prepared, the TypeError logged, undefined
    returned. *)
Lemma submitLedgerTransfer_without_session_witness :
  exists s st1,
    prepareLedgerTransfer calm (commentTransfer "thanks") disconnected = (Ret s, st1)
    /\ submitLedgerTransfer calm (commentTransfer "thanks") "toncoin" None disconnected
       = (Ret None,
          after st1 [EvLog "submitLedgerTransfer" (Some (TypeError "tonTransport"))]).
Proof.
  eexists _, _. split; [vm_compute; reflexivity |].
  eapply (submitLedgerTransfer_without_session calm (commentTransfer "thanks") "toncoin" None
            disconnected).
  - vm_compute. reflexivity.
  - reflexivity.
Defined.


(** A device that is plugged in and open: connected, both handles set to
    the same transport. *)
Lemma connectLedger_session_witness :
  exists t,
    transport (snd (connectLedger plugged 11 disconnected)) = Some t
    /\ tonTransport (snd (connectLedger plugged 11 disconnected)) = Some t.
Proof.
  exact (proj2 (connectLedger_session plugged 11 disconnected ltac:(vm_compute; lia))).
Defined.

(** The open device is wrapped without a call to [open]. *)
Lemma connectLedger_uses_first_listed_device_witness :
  connectLedger plugged 11 disconnected
  = (Ret true,
     mkState [EvIsSupported HID None; EvList HID None]
       (Some (transport_new plugged nanoS)) (Some (transport_new plugged nanoS))).
Proof.
  apply (connectLedger_uses_first_listed_device plugged 11 disconnected nanoS []).
  - lia.
  - reflexivity.
  - reflexivity.
Defined.

(** Over USB with an open but unpaired device: [openConnected] finds
    nothing, the chooser is dismissed, and the connection fails. *)
Lemma connectLedger_over_usb_witness :
  connectLedger unpaired 11 disconnected
  = (Ret false,
     after disconnected
       [EvIsSupported HID None; EvIsSupported USB None; EvList USB None;
        EvOpenConnected None; EvRequest (Some (Foreign None "No device selected"));
        EvLog "connectLedger" (Some (Foreign None "No device selected"))]).
Proof.
  apply (connectLedger_over_usb unpaired 11 disconnected nanoS []).
  - lia.
  - reflexivity.
  - reflexivity.
  - reflexivity.
  - reflexivity.
Defined.

#[local] Existing Instance MoreDemo.staking.

(** The application is never opened: ten questions, ten pauses, false. *)
Lemma checkTonApp_bounded_polling_witness :
  fst (checkTonApp calmly neverOpen 11 online) = Ret false.
Proof.
  apply (proj1 (proj2 (proj2 (proj2 (proj2 (proj2
           (checkTonApp_bounded_polling calmly neverOpen 11 online
              ltac:(vm_compute; lia)))))))).
  intros h l t H. discriminate H.
Defined.

Example application_opened_at_the_third_question :
  fst (checkTonApp calmly opensLate 11 online) = Ret true
  /\ appOpenProbes (newAppEvents online (snd (checkTonApp calmly opensLate 11 online))) = 3
  /\ pauses (newBaseEvents online (snd (checkTonApp calmly opensLate 11 online))) = 2.
Proof. vm_compute. repeat split; reflexivity. Qed.

(** A locked device: polled to the end, and nothing in the log. *)
Lemma checkTonApp_logs_all_but_the_lock_code_witness :
  logged (newBaseEvents online (snd (checkTonApp calmly lockedApp 11 online)))
  = reported (newAppEvents online (snd (checkTonApp calmly lockedApp 11 online))).
Proof.
  apply (proj1 (checkTonApp_logs_all_but_the_lock_code calmly lockedApp 11 online ledger
                  ltac:(vm_compute; lia) eq_refl)).
Defined.

Example locked_device_leaves_no_trace :
  fst (checkTonApp calmly lockedApp 11 online) = Ret false
  /\ logged (newBaseEvents online (snd (checkTonApp calmly lockedApp 11 online))) = []
  /\ appOpenProbes (newAppEvents online (snd (checkTonApp calmly lockedApp 11 online))) = 10.
Proof. vm_compute. repeat split; reflexivity. Qed.

(** No session: ten TypeErrors in the log, ten pauses, false. *)
Lemma checkTonApp_without_session_witness :
  checkTonApp calmly ready 11 offline
  = (Ret false,
     later offline
       (List.concat
          (repeat [EvLog "waitLedgerTonApp" (Some (TypeError "tonTransport"));
                   EvPause PAUSE] ATTEMPTS))
       []).
Proof.
  apply (checkTonApp_without_session calmly ready 11 offline).
  - vm_compute. lia.
  - reflexivity.
Defined.

(** A session with the application open is kept as it is. *)
Lemma reconnectLedger_short_circuits_witness :
  reconnectLedger calmly ready (checkTonApp calmly ready 11) 11 online
  = (Ret true, later online [] [(0, EvIsAppOpen ledger (inr true))]).
Proof.
  apply (proj1 (reconnectLedger_short_circuits calmly ready (checkTonApp calmly ready 11) 11
                  online) ledger eq_refl eq_refl).
Defined.

(** The first account of the discovery world is imported as it was
    found. *)
Lemma importLedgerWallet_imports_what_it_found_witness :
  imports
    (newAppEvents online (snd (importLedgerWallet (fun _ => discovery) ready "mainnet" 0 online)))
  = [("mainnet", walletInfoOf ledger 0 "UQ-account-0" "public-key" (Some 5%Z))].
Proof.
  destruct (importLedgerWallet_imports_what_it_found (fun _ => discovery) ready "mainnet" 0
              online _ _ (surjective_pairing _))
    as [(e & _ & Hout & _) | (walletInfo & st1 & threw & Hinfo & Hnew & _)].
  - vm_compute in Hout. discriminate Hout.
  - rewrite Hnew. vm_compute in Hinfo. inversion Hinfo; subst. reflexivity.
Defined.

Example import_without_session_imports_nothing :
  fst (importLedgerWallet (fun _ => discovery) ready "mainnet" 0 offline)
  = Throw (TypeError "tonTransport")
  /\ newAppEvents offline (snd (importLedgerWallet (fun _ => discovery) ready "mainnet" 0 offline))
     = [].
Proof. vm_compute. split; reflexivity. Qed.

(** The address of account 0 is shown on the device in non-bounceable
    form. *)
Lemma ownership_checks_use_the_account_path_witness :
  newAppEvents online (snd (verifyAddress calmly ready "0-ton-mainnet" online))
  = [EvValidateAddress ledger [44; 607; 0; 0; 0; 0]%Z false None].
Proof.
  destruct (proj1 (ownership_checks_use_the_account_path calmly ready "0-ton-mainnet"
                     (mkProof 1700000000 "wallet.example" "nonce") online)
              _ _ (surjective_pairing _))
    as [((e & Hout) & _) | (t & index' & threw & Hlive & Haccount & Hnew & Hout)].
  - vm_compute in Hout. discriminate Hout.
  - rewrite Hnew. cbn in Hlive, Haccount. inversion Hlive; subst t.
    inversion Haccount; subst index'.
    destruct threw as [e |]; [vm_compute in Hout; discriminate Hout | reflexivity].
Defined.


(** A stake that goes through: one signature, one time of staking, one
    notice. *)
Lemma submitLedgerStake_bookkeeping_witness :
  List.length
    (cacheUpdates
       (newAppEvents online (snd (submitLedgerStake calmly ready "0-ton-mainnet" 50 None online))))
  <= 1
  /\ changeNotices
       (newAppEvents online (snd (submitLedgerStake calmly ready "0-ton-mainnet" 50 None online)))
     <= 1
  /\ List.length
       (signAttempts
          (newBaseEvents online
             (snd (submitLedgerStake calmly ready "0-ton-mainnet" 50 None online))))
     <= 1.
Proof.
  destruct (submitLedgerStake_bookkeeping calmly ready "0-ton-mainnet" 50 None online _ _
              (surjective_pairing _)) as (H1 & H2 & H3 & _).
  auto.
Defined.

Example stake_is_recorded_when_it_was_sent :
  fst (submitLedgerStake calmly ready "0-ton-mainnet" 50 None online) = Ret (Some "tx-hash")
  /\ cacheUpdates
       (newAppEvents online (snd (submitLedgerStake calmly ready "0-ton-mainnet" 50 None online)))
     = [1700000000000%Z]
  /\ changeNotices
       (newAppEvents online (snd (submitLedgerStake calmly ready "0-ton-mainnet" 50 None online)))
     = 1.
Proof. vm_compute. repeat split; reflexivity. Qed.

Example stake_is_not_recorded_when_the_device_fails :
  fst (submitLedgerStake silently ready "0-ton-mainnet" 50 None online) = Ret None
  /\ cacheUpdates
       (newAppEvents online
          (snd (submitLedgerStake silently ready "0-ton-mainnet" 50 None online)))
     = []
  /\ changeNotices
       (newAppEvents online
          (snd (submitLedgerStake silently ready "0-ton-mainnet" 50 None online)))
     = 1.
Proof. vm_compute. repeat split; reflexivity. Qed.

(** An unstake request: one TON to the pool, no time of staking. *)
Lemma submitLedgerUnstake_bookkeeping_witness :
  cacheUpdates
    (newAppEvents online (snd (submitLedgerUnstake calmly ready "0-ton-mainnet" online)))
  = [].
Proof.
  apply (proj1 (submitLedgerUnstake_bookkeeping calmly ready "0-ton-mainnet" online _ _
                  (surjective_pairing _))).
Defined.

Example unstake_sends_one_ton :
  map (fun a => (amount (fst a), payload (fst a)))
    (signAttempts
       (newBaseEvents online (snd (submitLedgerUnstake calmly ready "0-ton-mainnet" online))))
  = [(1000000000%Z, Some (LedgerComment "w"))].
Proof. vm_compute. reflexivity. Qed.
